(** * DynExpress / Dynreload: hot-reload engine and server registry

    A shallow embedding of
      - src/modules/dynexpress/utils/dynreload.mjs  (class Dynreload)
      - src/modules/dynexpress/dynexpress.mjs       (class DynExpress)
    as functions over an explicit world state, followed by the properties
    of reload, affected-set computation, port negotiation, the instance
    registry and the route binder.

    Conventions of the embedding:
      - JavaScript values are the inductive [JsVal]; numbers are integers,
        strings are UTF-8 byte strings, property access reads own properties and
        the members of the built-in prototypes;
      - a JS [Map] used by key is a [gmap]; the dependency graph, which the
        code iterates, is an association list in insertion order;
      - [async] functions are run to completion in program order (the host
        is single-threaded); a rejected promise is a thrown error;
      - errors are identified by their message, so the re-throw
        [new Error(error.message)] of [newServer] is the identity;
      - the host is a POSIX system; the paths handed to the engine and to
        the registry are absolute and normalised, so [path.resolve] is the
        identity on them, while the paths the engine computes from import
        specifiers go through [Path.resolve]. *)

From Stdlib Require Import ZArith Ascii String List Lia.
From stdpp Require Import base option list gmap strings fin_maps fin_sets pretty.

#[local] Set Warnings "-register-all,-clear-no-such-hyp".

Local Open Scope string_scope.
Local Open Scope Z_scope.

(** ** JavaScript values *)

Module Js.

(** A function value: a closure of the program, known by its reference,
    its name and the number of its formal parameters, or a function of the
    host, known by its name.  Closures are read as ordinary function
    expressions of sloppy-mode code: they have a [prototype], their
    [caller] and [arguments] are [null], and they carry no properties the
    program added. *)
Inductive Function : Type :=
| Closure (ref : nat) (name : string) (arity : nat)
| Builtin (name : string) (arity : nat).

(** [JFun 1] is the anonymous closure 1 without formal parameters. *)
Definition anonymous (ref : nat) : Function := Closure ref "" 0.
Coercion anonymous : nat >-> Function.

(** Numbers are integers; strings are sequences of bytes, a character
    outside ASCII being its UTF-8 encoding; an array has no holes and no
    properties besides its elements; [JObj] is a plain object with data
    properties (the first binding of a key counts) and [Object.prototype]
    as its prototype; [JModule] is a module namespace object, which has
    its exports and no prototype. *)
Inductive JsVal : Type :=
| JUndefined
| JNull
| JBool (b : bool)
| JNum (n : Z)
| JStr (s : string)
| JFun (f : Function)
| JArr (items : list JsVal)
| JObj (props : list (string * JsVal))
| JModule (exports : list (string * JsVal)).

Arguments JFun f%_nat.

(** [!!v] of JavaScript. *)
Definition truthy (v : JsVal) : bool :=
  match v with
  | JUndefined | JNull => false
  | JBool b => b
  | JNum n => negb (n =? 0)
  | JStr s => negb (String.eqb s "")
  | JFun _ | JArr _ | JObj _ | JModule _ => true
  end.

Definition typeof (v : JsVal) : string :=
  match v with
  | JUndefined => "undefined"
  | JNull => "object"
  | JBool _ => "boolean"
  | JNum _ => "number"
  | JStr _ => "string"
  | JFun _ => "function"
  | JArr _ | JObj _ | JModule _ => "object"
  end.

Definition isString (v : JsVal) : bool :=
  match v with JStr _ => true | _ => false end.

Definition isFunction (v : JsVal) : bool :=
  match v with JFun _ => true | _ => false end.

Definition isArray (v : JsVal) : bool :=
  match v with JArr _ => true | _ => false end.

(** The own data property [k] of a property list. *)
Fixpoint lookupOwn (k : string) (props : list (string * JsVal)) : option JsVal :=
  match props with
  | [] => None
  | (k', v) :: rest => if String.eqb k' k then Some v else lookupOwn k rest
  end.

(** The first of the property lists of a prototype chain that has [k]. *)
Fixpoint lookupChain (k : string) (chain : list (list (string * JsVal))) : JsVal :=
  match chain with
  | [] => JUndefined
  | props :: rest =>
      match lookupOwn k props with
      | Some v => v
      | None => lookupChain k rest
      end
  end.

Definition isDigit (c : ascii) : bool :=
  let n := nat_of_ascii c in ((48 <=? n) && (n <=? 57))%nat.

Definition digitOf (c : ascii) : option Z :=
  if isDigit c then Some (Z.of_nat (nat_of_ascii c) - 48) else None.

Fixpoint readDigits (s : string) (acc : option Z) : option Z :=
  match s with
  | EmptyString => acc
  | String c rest =>
      match digitOf c with
      | Some d => readDigits rest (Some (10 * default 0 acc + d))
      | None => acc
      end
  end.

Fixpoint allDigits (s : string) : bool :=
  match s with
  | EmptyString => true
  | String c rest => isDigit c && allDigits rest
  end.

(** The array index a property key denotes: the key is the decimal
    numeral of the index, without sign or leading zero. *)
Definition arrayIndex (k : string) : option Z :=
  match k with
  | EmptyString => None
  | String c rest =>
      if negb (allDigits k) then None
      else if Ascii.eqb c "0"%char && negb (String.eqb rest "") then None
      else readDigits k None
  end.

Fixpoint itemAt {A} (l : list A) (i : Z) : option A :=
  match l with
  | [] => None
  | x :: rest => if i =? 0 then Some x else itemAt rest (i - 1)
  end.

Definition byteOf (c : ascii) : Z := Z.of_nat (nat_of_ascii c).

Definition byteString (bytes : list Z) : string :=
  string_of_list_ascii (List.map (fun b => ascii_of_nat (Z.to_nat b)) bytes).

(** A code unit from 0x0800 on, as the three bytes that encode it. *)
Definition unitBytes (x : Z) : string :=
  byteString [224 + x / 4096; 128 + (x / 64) mod 64; 128 + x mod 64].

(** The UTF-16 code units of a string, each as the bytes that encode it:
    a character of one, two or three bytes is one unit, a character of
    four bytes is a pair of surrogates. *)
Fixpoint codeUnits (s : string) : list string :=
  match s with
  | EmptyString => []
  | String c1 rest1 =>
      if byteOf c1 <? 192 then String c1 EmptyString :: codeUnits rest1
      else
        match rest1 with
        | String c2 rest2 =>
            if byteOf c1 <? 224 then String c1 (String c2 EmptyString) :: codeUnits rest2
            else
              match rest2 with
              | String c3 rest3 =>
                  if byteOf c1 <? 240
                  then String c1 (String c2 (String c3 EmptyString)) :: codeUnits rest3
                  else
                    match rest3 with
                    | String c4 rest4 =>
                        let point := (byteOf c1 mod 8) * 262144 + (byteOf c2 mod 64) * 4096
                                     + (byteOf c3 mod 64) * 64 + byteOf c4 mod 64 in
                        unitBytes (55296 + (point - 65536) / 1024)
                        :: unitBytes (56320 + (point - 65536) mod 1024)
                        :: codeUnits rest4
                    | EmptyString => [s]
                    end
              | EmptyString => [s]
              end
        | EmptyString => [s]
        end
  end.

(** A method of a prototype: the built-in function of that name. *)
Definition builtinMethod (k : string) (arity : nat) : string * JsVal :=
  (k, JFun (Builtin k arity)).

(** The members of the built-in prototypes that have string keys, as of
    ECMAScript 2023. *)
Definition objectPrototype : list (string * JsVal) :=
  [ ("constructor", JFun (Builtin "Object" 1));
    builtinMethod "__defineGetter__" 2; builtinMethod "__defineSetter__" 2;
    builtinMethod "__lookupGetter__" 1; builtinMethod "__lookupSetter__" 1;
    builtinMethod "hasOwnProperty" 1; builtinMethod "isPrototypeOf" 1;
    builtinMethod "propertyIsEnumerable" 1; builtinMethod "toLocaleString" 0;
    builtinMethod "toString" 0; builtinMethod "valueOf" 0 ].

Definition functionPrototype : list (string * JsVal) :=
  [ ("constructor", JFun (Builtin "Function" 1)); builtinMethod "apply" 2;
    builtinMethod "bind" 1; builtinMethod "call" 1;
    builtinMethod "toString" 0 ].

Definition arrayPrototype : list (string * JsVal) :=
  [ ("constructor", JFun (Builtin "Array" 1)); builtinMethod "at" 1;
    builtinMethod "concat" 1; builtinMethod "copyWithin" 2;
    builtinMethod "entries" 0; builtinMethod "every" 1;
    builtinMethod "fill" 1; builtinMethod "filter" 1; builtinMethod "find" 1;
    builtinMethod "findIndex" 1; builtinMethod "findLast" 1;
    builtinMethod "findLastIndex" 1; builtinMethod "flat" 0;
    builtinMethod "flatMap" 1; builtinMethod "forEach" 1;
    builtinMethod "includes" 1; builtinMethod "indexOf" 1;
    builtinMethod "join" 1; builtinMethod "keys" 0;
    builtinMethod "lastIndexOf" 1; builtinMethod "map" 1;
    builtinMethod "pop" 0; builtinMethod "push" 1; builtinMethod "reduce" 1;
    builtinMethod "reduceRight" 1; builtinMethod "reverse" 0;
    builtinMethod "shift" 0; builtinMethod "slice" 2; builtinMethod "some" 1;
    builtinMethod "sort" 1; builtinMethod "splice" 2;
    builtinMethod "toLocaleString" 0; builtinMethod "toReversed" 0;
    builtinMethod "toSorted" 1; builtinMethod "toSpliced" 2;
    builtinMethod "toString" 0; builtinMethod "unshift" 1;
    builtinMethod "values" 0; builtinMethod "with" 2 ].

Definition stringPrototype : list (string * JsVal) :=
  [ ("constructor", JFun (Builtin "String" 1)); builtinMethod "anchor" 1;
    builtinMethod "at" 1; builtinMethod "big" 0; builtinMethod "blink" 0;
    builtinMethod "bold" 0; builtinMethod "charAt" 1;
    builtinMethod "charCodeAt" 1; builtinMethod "codePointAt" 1;
    builtinMethod "concat" 1; builtinMethod "endsWith" 1;
    builtinMethod "fixed" 0; builtinMethod "fontcolor" 1;
    builtinMethod "fontsize" 1; builtinMethod "includes" 1;
    builtinMethod "indexOf" 1; builtinMethod "isWellFormed" 0;
    builtinMethod "italics" 0; builtinMethod "lastIndexOf" 1;
    builtinMethod "link" 1; builtinMethod "localeCompare" 1;
    builtinMethod "match" 1; builtinMethod "matchAll" 1;
    builtinMethod "normalize" 0; builtinMethod "padEnd" 1;
    builtinMethod "padStart" 1; builtinMethod "repeat" 1;
    builtinMethod "replace" 2; builtinMethod "replaceAll" 2;
    builtinMethod "search" 1; builtinMethod "slice" 2;
    builtinMethod "small" 0; builtinMethod "split" 2;
    builtinMethod "startsWith" 1; builtinMethod "strike" 0;
    builtinMethod "sub" 0; builtinMethod "substr" 2;
    builtinMethod "substring" 2; builtinMethod "sup" 0;
    builtinMethod "toLocaleLowerCase" 0; builtinMethod "toLocaleUpperCase" 0;
    builtinMethod "toLowerCase" 0; builtinMethod "toString" 0;
    builtinMethod "toUpperCase" 0; builtinMethod "toWellFormed" 0;
    builtinMethod "trim" 0; builtinMethod "trimEnd" 0;
    ("trimLeft", JFun (Builtin "trimStart" 0));
    ("trimRight", JFun (Builtin "trimEnd" 0)); builtinMethod "trimStart" 0;
    builtinMethod "valueOf" 0 ].

Definition numberPrototype : list (string * JsVal) :=
  [ ("constructor", JFun (Builtin "Number" 1));
    builtinMethod "toExponential" 1; builtinMethod "toFixed" 1;
    builtinMethod "toLocaleString" 0; builtinMethod "toPrecision" 1;
    builtinMethod "toString" 1; builtinMethod "valueOf" 0 ].

Definition booleanPrototype : list (string * JsVal) :=
  [ ("constructor", JFun (Builtin "Boolean" 1)); builtinMethod "toString" 0;
    builtinMethod "valueOf" 0 ].

Definition functionName (f : Function) : string :=
  match f with
  | Closure _ name _ | Builtin name _ => name
  end.

Definition functionLength (f : Function) : nat :=
  match f with
  | Closure _ _ arity | Builtin _ arity => arity
  end.

(** The own property [k] of a value, if it has one. *)
Definition ownProps (v : JsVal) (k : string) : option JsVal :=
  match v with
  | JStr s =>
      if String.eqb k "length" then Some (JNum (Z.of_nat (List.length (codeUnits s))))
      else i ← arrayIndex k; unit ← itemAt (codeUnits s) i; Some (JStr unit)
  | JArr items =>
      if String.eqb k "length" then Some (JNum (Z.of_nat (List.length items)))
      else i ← arrayIndex k; itemAt items i
  | JFun f =>
      if String.eqb k "length" then Some (JNum (Z.of_nat (functionLength f)))
      else if String.eqb k "name" then Some (JStr (functionName f))
      else if String.eqb k "arguments" || String.eqb k "caller" then Some JNull
      else if String.eqb k "prototype" then
        match f with
        | Closure _ _ _ => Some (JObj [("constructor", v)])
        | Builtin _ _ => None
        end
      else None
  | JObj props | JModule props => lookupOwn k props
  | _ => None
  end.

(** The prototype chain of a value, and the prototype itself as
    [__proto__] yields it. *)
Definition prototypeChain (v : JsVal) : list (list (string * JsVal)) :=
  match v with
  | JBool _ => [booleanPrototype; objectPrototype]
  | JNum _ => [numberPrototype; objectPrototype]
  | JStr _ => [stringPrototype; objectPrototype]
  | JFun _ => [functionPrototype; objectPrototype]
  | JArr _ => [arrayPrototype; objectPrototype]
  | JObj _ => [objectPrototype]
  | JUndefined | JNull | JModule _ => []
  end.

Definition prototypeOf (v : JsVal) : JsVal :=
  match v with
  | JBool _ => JObj booleanPrototype
  | JNum _ => JObj numberPrototype
  | JStr _ => JObj (("length", JNum 0) :: stringPrototype)
  | JFun _ => JFun (Builtin "" 0)
  | JArr _ => JArr []
  | JObj _ => JObj objectPrototype
  | JUndefined | JNull | JModule _ => JUndefined
  end.

(** [v[k]] for a value that is not [null] or [undefined]: an own property,
    else a member of the prototype chain. *)
Definition getProp (v : JsVal) (k : string) : JsVal :=
  match ownProps v k with
  | Some x => x
  | None =>
      if String.eqb k "__proto__" then prototypeOf v
      else lookupChain k (prototypeChain v)
  end.

(** [a || b]. *)
Definition orElse (a b : JsVal) : JsVal := if truthy a then a else b.

Definition lowerAscii (c : ascii) : ascii :=
  let n := nat_of_ascii c in
  if ((65 <=? n) && (n <=? 90))%nat then ascii_of_nat (n + 32) else c.

Fixpoint toLowerCase (s : string) : string :=
  match s with
  | EmptyString => EmptyString
  | String c rest => String (lowerAscii c) (toLowerCase rest)
  end.

Fixpoint joinWith (separator : string) (parts : list string) : string :=
  match parts with
  | [] => ""
  | [part] => part
  | part :: rest => part ++ separator ++ joinWith separator rest
  end.

Definition allSome {A} (l : list (option A)) : option (list A) :=
  foldr (fun x acc => a ← x; rest ← acc; Some (a :: rest)) (Some []) l.

(** [String(v)].  [None] is the TypeError of a value that cannot be
    converted: a module namespace object has no [toString].  A plain
    object prints through [Object.prototype.toString].  Of the text of a
    function only its start matters here, which is never a digit, a sign or
    white space. *)
Fixpoint toString (v : JsVal) : option string :=
  match v with
  | JUndefined => Some "undefined"
  | JNull => Some "null"
  | JBool b => Some (if b then "true" else "false")
  | JNum n => Some (pretty n)
  | JStr s => Some s
  | JFun f => Some ("function " ++ functionName f ++ "() { [native code] }")
  | JArr items =>
      joinWith "," <$>
        allSome (List.map (fun item => match item with
                                       | JUndefined | JNull => Some ""
                                       | _ => toString item
                                       end) items)
  | JObj _ => Some "[object Object]"
  | JModule _ => None
  end.

(** White space and line terminators at the start of [s], in UTF-8. *)
Fixpoint skipWhiteSpace (s : string) : string :=
  match s with
  | String c1 rest1 =>
      let n1 := nat_of_ascii c1 in
      if ((9 <=? n1) && (n1 <=? 13) || (n1 =? 32))%nat then skipWhiteSpace rest1
      else
        match rest1 with
        | String c2 rest2 =>
            let n2 := nat_of_ascii c2 in
            if ((n1 =? 194) && (n2 =? 160))%nat then skipWhiteSpace rest2
            else
              match rest2 with
              | String c3 rest3 =>
                  let n3 := nat_of_ascii c3 in
                  if ((n1 =? 225) && (n2 =? 154) && (n3 =? 128)
                      || (n1 =? 226) && (n2 =? 128)
                         && ((128 <=? n3) && (n3 <=? 138)
                             || (n3 =? 168) || (n3 =? 169) || (n3 =? 175))
                      || (n1 =? 226) && (n2 =? 129) && (n3 =? 159)
                      || (n1 =? 227) && (n2 =? 128) && (n3 =? 128)
                      || (n1 =? 239) && (n2 =? 187) && (n3 =? 191))%nat
                  then skipWhiteSpace rest3
                  else s
              | EmptyString => s
              end
        | EmptyString => s
        end
  | EmptyString => s
  end.

(** The integer a string starts with, in radix 10; [None] is [NaN]. *)
Definition parseDecimal (s : string) : option Z :=
  match skipWhiteSpace s with
  | String "-"%char rest => Z.opp <$> readDigits rest None
  | String "+"%char rest => readDigits rest None
  | s' => readDigits s' None
  end.

Inductive ParseResult : Type :=
| Parsed (n : Z)          (* an integer *)
| NaN                     (* not a number *)
| Unconvertible.          (* the conversion to a string throws a TypeError *)

(** [parseInt(v, 10)]: the argument is converted to a string and the
    integer at its start is read.  A number, being an integer below 10^21
    in magnitude, prints as its digits. *)
Definition parseInt (v : JsVal) : ParseResult :=
  match v with
  | JNum n => Parsed n
  | _ =>
      match toString v with
      | Some s => match parseDecimal s with
                  | Some n => Parsed n
                  | None => NaN
                  end
      | None => Unconvertible
      end
  end.

End Js.
Export Js.

(** ** The [path] module of the host, for POSIX paths *)

Module Path.

Definition isSlash (c : ascii) : bool := Ascii.eqb c "/"%char.

Definition isDot (c : ascii) : bool := Ascii.eqb c "."%char.

Fixpoint takeWhile {A} (p : A → bool) (l : list A) : list A :=
  match l with
  | x :: rest => if p x then x :: takeWhile p rest else []
  | [] => []
  end.

Fixpoint dropWhile {A} (p : A → bool) (l : list A) : list A :=
  match l with
  | x :: rest => if p x then dropWhile p rest else l
  | [] => []
  end.

Definition isAbsolute (path : string) : bool :=
  match path with
  | String c _ => isSlash c
  | EmptyString => false
  end.

Fixpoint endsWithSlash (path : string) : bool :=
  match path with
  | EmptyString => false
  | String c EmptyString => isSlash c
  | String _ rest => endsWithSlash rest
  end.

(** The segments between the slashes of a path; [current] holds the
    characters of the segment being read, latest first. *)
Fixpoint segmentsFrom (chars current : list ascii) : list string :=
  match chars with
  | [] => [string_of_list_ascii (rev current)]
  | c :: rest =>
      if isSlash c then string_of_list_ascii (rev current) :: segmentsFrom rest []
      else segmentsFrom rest (c :: current)
  end.

Definition segments (path : string) : list string :=
  segmentsFrom (list_ascii_of_string path) [].

(** [normalizeString]: empty segments and ["."] are dropped, [".."]
    removes the segment before it; [res] holds the segments kept, latest
    first. *)
Fixpoint normalizeSegments (allowAboveRoot : bool) (todo res : list string) : list string :=
  match todo with
  | [] => rev res
  | segment :: rest =>
      if String.eqb segment "" || String.eqb segment "." then
        normalizeSegments allowAboveRoot rest res
      else if String.eqb segment ".." then
        match res with
        | last :: before =>
            if String.eqb last ".." then normalizeSegments allowAboveRoot rest (".." :: res)
            else normalizeSegments allowAboveRoot rest before
        | [] =>
            normalizeSegments allowAboveRoot rest (if allowAboveRoot then [".."] else [])
        end
      else normalizeSegments allowAboveRoot rest (segment :: res)
  end.

Definition normalizeString (path : string) (allowAboveRoot : bool) : string :=
  joinWith "/" (normalizeSegments allowAboveRoot (segments path) []).

(** [path.normalize]. *)
Definition normalize (path : string) : string :=
  if String.eqb path "" then "."
  else
    let normalized := normalizeString path (negb (isAbsolute path)) in
    if String.eqb normalized "" then
      if isAbsolute path then "/" else if endsWithSlash path then "./" else "."
    else
      let normalized := if endsWithSlash path then normalized ++ "/" else normalized in
      if isAbsolute path then "/" ++ normalized else normalized.

(** [path.join]. *)
Definition join (paths : list string) : string :=
  match List.filter (fun arg => negb (String.eqb arg "")) paths with
  | [] => "."
  | args => normalize (joinWith "/" args)
  end.

(** The loop of [path.resolve], over the arguments from the last to the
    first and then the working directory. *)
Fixpoint resolveFrom (paths : list string) (resolvedPath : string) : string * bool :=
  match paths with
  | [] => (resolvedPath, false)
  | path :: rest =>
      if String.eqb path "" then resolveFrom rest resolvedPath
      else if isAbsolute path then (path ++ "/" ++ resolvedPath, true)
      else resolveFrom rest (path ++ "/" ++ resolvedPath)
  end.

(** [path.resolve], in the working directory [cwd]. *)
Definition resolve (cwd : string) (paths : list string) : string :=
  let '(resolvedPath, resolvedAbsolute) := resolveFrom (rev paths ++ [cwd]) "" in
  let normalized := normalizeString resolvedPath (negb resolvedAbsolute) in
  if resolvedAbsolute then "/" ++ normalized
  else if String.eqb normalized "" then "." else normalized.

(** [path.dirname]: trailing slashes and the last component are cut off;
    the first character is never cut. *)
Definition dirname (path : string) : string :=
  match list_ascii_of_string path with
  | [] => "."
  | first :: tail =>
      match dropWhile (fun c => negb (isSlash c)) (dropWhile isSlash (rev tail)) with
      | [] => if isSlash first then "/" else "."
      | _ :: before =>
          match before with
          | [] => if isSlash first then "//" else string_of_list_ascii [first]
          | _ => string_of_list_ascii (first :: rev before)
          end
      end
  end.

(** [path.extname]: from the last dot of the last component, trailing
    slashes aside, unless that dot starts the component or the component
    is [".."]. *)
Definition extname (path : string) : string :=
  let component :=
    takeWhile (fun c => negb (isSlash c))
      (dropWhile isSlash (rev (list_ascii_of_string path))) in
  let extension := takeWhile (fun c => negb (isDot c)) component in
  match dropWhile (fun c => negb (isDot c)) component with
  | [] => ""
  | _ :: before =>
      match before, extension with
      | [], _ => ""
      | [c], [] => if isDot c then "" else "."
      | _, _ => string_of_list_ascii ("."%char :: rev extension)
      end
  end.

End Path.

(** ** Errors, by message *)

Inductive JsError : Type :=
(* dynexpress.mjs *)
| ErrServerNameRequired                 (* "Server name is required and must be a string" *)
| ErrRouteShape                         (* "Each route must have method, path, and handler properties" *)
| ErrRouterFileExtension                (* "Router file must have .js or .mjs extension" *)
| ErrRouterFileNotFound (file : string) (* "Router file not found: ..." *)
| ErrRoutersKind                        (* "Routers must be an array of route objects or a valid .js/.mjs file path" *)
| ErrRoutesNotArray                     (* TypeError "Routes must be an array" *)
| ErrInvalidRouteConfiguration (method path : JsVal) (* "Invalid route configuration: ..." *)
| ErrUnsupportedMethod (method : JsVal) (* "Unsupported HTTP method: ..." *)
| ErrPortRange                          (* "Port must be a number between 1024 and 65535" *)
| ErrNoAvailablePort (maxAttempts : nat) (startPort : JsVal)
                                        (* "No available port found after ... attempts starting from ..." *)
| ErrPortInUse (port : Z)               (* "Port ... is already in use" *)
| ErrPropertyNotFound (launch : string) (* "Property '...' not found in router module" *)
| ErrServerNotFound (name : string)     (* "Server '...' not found" *)
| ErrRouteMethodRequired                (* "Route method is required and must be a string" *)
| ErrRoutePathRequired                  (* "Route path is required and must be a string" *)
| ErrRouteHandlerRequired               (* "Route handler is required and must be a function" *)
(* dynreload.mjs *)
| ErrRoutesMustBeArray                  (* "Routes must be an array" *)
| ErrInvalidHttpMethod (method : JsVal) (* "Invalid HTTP method: ..." *)
| ErrInvalidPath (path : JsVal)         (* "Invalid path: ..." *)
| ErrHandlerNotFunction                 (* "Route handler must be a function" *)
| ErrFileDoesNotExist (file : string)   (* "File ... does not exist" *)
(* raised by the platform *)
| ErrTypeError (what : string)          (* calling or destructuring a non-value *)
| ErrImport (file : string) (cause : string) (* import() rejected: syntax error or throw *)
| ErrNoEntry (file : string)            (* ENOENT *)
| ErrServerNotRunning                   (* server.close on a closed socket *)
| ErrBadPort (port : Z)                 (* RangeError "options.port should be >= 0 and < 65536. Received ..." *)
| ErrStackOverflow.                     (* RangeError "Maximum call stack size exceeded" *)

(** The kinds of the error taxonomy, as far as the claims name them. *)
Inductive ErrorKind : Type :=
| ValidationError | NotFoundError | PortExhaustedError | InvalidPortError
| LoadError | BindError | RuntimeError.

Definition errorKind (e : JsError) : ErrorKind :=
  match e with
  | ErrServerNameRequired | ErrRouteShape | ErrRouterFileExtension
  | ErrRoutersKind | ErrRoutesNotArray | ErrInvalidRouteConfiguration _ _
  | ErrUnsupportedMethod _ | ErrRouteMethodRequired | ErrRoutePathRequired
  | ErrRouteHandlerRequired | ErrRoutesMustBeArray | ErrInvalidHttpMethod _
  | ErrInvalidPath _ | ErrHandlerNotFunction | ErrPropertyNotFound _ => ValidationError
  | ErrRouterFileNotFound _ | ErrServerNotFound _ | ErrFileDoesNotExist _
  | ErrNoEntry _ => NotFoundError
  | ErrNoAvailablePort _ _ => PortExhaustedError
  | ErrPortRange => InvalidPortError
  | ErrImport _ _ => LoadError
  | ErrPortInUse _ | ErrServerNotRunning => BindError
  | ErrTypeError _ | ErrBadPort _ | ErrStackOverflow => RuntimeError
  end.

(** ** The world: engine tables, registry and platform state *)

(** An entry of the reload engine's [cache] and [lastValidModules]. *)
Record ModuleInfo : Type := {
  module : JsVal;
  lastModified : Z;
  filePath : string
}.

(** The closure [setupHotReloading] registers: it captures the server name
    and the launch selector. *)
Record Callback : Type := {
  cbServerName : string;
  cbLaunch : JsVal
}.

(** [this.options] of class Dynreload.  A watcher is the handle returned by
    [fs.watch], a reference into the platform's open subscriptions. *)
Record DynreloadOptions : Type := {
  silent : bool;
  cache : gmap string ModuleInfo;
  watchedFiles : gmap string nat;
  routeUpdateCallbacks : gmap string Callback;
  lastValidModules : gmap string ModuleInfo;
  dependencyGraph : list (string * list string);
  maxDepth : nat;
  fileExtensions : list string
}.

(** The application object of the request-handling library: its settings
    and its router stack.  A layer carries a route or is plain middleware. *)
Inductive Layer : Type :=
| Middleware (what : string)
| RouteLayer (method : string) (path : JsVal) (middleware : option JsVal) (handler : JsVal).

Record App : Type := {
  settings : list (string * JsVal);
  stack : list Layer
}.

(** A value of the [#instances] map.  [instApp] refers to the application
    object in the heap (the object is shared, not copied); [instServer] is
    the listening socket, named by its port. *)
Record Instance : Type := {
  instApp : nat;
  instServer : Z;
  instRouters : JsVal;
  instPathViews : JsVal;
  instPathPublic : JsVal;
  instPort : Z;
  instWatchFile : JsVal;
  instLaunch : JsVal;
  instModuleLoad : JsVal;
  instStartTime : Z;
  instLastUpdated : option Z
}.

(** A source file on disk: what importing it yields (the module namespace
    object, or the error of a file that does not parse or throws), the
    specifiers of its imports as the lexer reports them, in order ([None]
    when the file cannot be lexed), and its modification time. *)
Record Source : Type := {
  evaluation : JsError + JsVal;
  imports : option (list string);
  mtime : Z
}.

Inductive FsEntry : Type :=
| Directory
| SourceFile (src : Source).

Inductive LogEntry : Type :=
| ConsoleError (what : string) (cause : option JsError)
| ConsoleWarn (what : string)
| ConsoleLog (what : string).

Record World : Type := {
  (* class Dynreload *)
  dyn : DynreloadOptions;
  (* class DynExpress *)
  instances : gmap string Instance;
  defaultViewsPath : string;
  defaultPublicPath : string;
  (* platform *)
  heap : gmap nat App;        (* application objects *)
  nextRef : nat;              (* next fresh object reference *)
  fs : gmap string FsEntry;   (* files on disk *)
  occupied : gset Z;          (* ports held by other processes *)
  listening : gset Z;         (* listening sockets of this host, by port *)
  probes : list Z;            (* transient binds attempted, latest first *)
  watchers : gset nat;        (* open change-notification subscriptions *)
  console : list LogEntry;    (* console output, latest first *)
  clock : Z;
  cwd : string                (* the working directory of the process *)
}.

Definition withDyn (f : DynreloadOptions → DynreloadOptions) (w : World) : World :=
  {| dyn := f (dyn w); instances := instances w;
     defaultViewsPath := defaultViewsPath w; defaultPublicPath := defaultPublicPath w;
     heap := heap w; nextRef := nextRef w; fs := fs w; occupied := occupied w;
     listening := listening w; probes := probes w; watchers := watchers w;
     console := console w; clock := clock w; cwd := cwd w |}.

Definition withInstances (f : gmap string Instance → gmap string Instance) (w : World) : World :=
  {| dyn := dyn w; instances := f (instances w);
     defaultViewsPath := defaultViewsPath w; defaultPublicPath := defaultPublicPath w;
     heap := heap w; nextRef := nextRef w; fs := fs w; occupied := occupied w;
     listening := listening w; probes := probes w; watchers := watchers w;
     console := console w; clock := clock w; cwd := cwd w |}.

Definition withHeap (f : gmap nat App → gmap nat App) (w : World) : World :=
  {| dyn := dyn w; instances := instances w;
     defaultViewsPath := defaultViewsPath w; defaultPublicPath := defaultPublicPath w;
     heap := f (heap w); nextRef := nextRef w; fs := fs w; occupied := occupied w;
     listening := listening w; probes := probes w; watchers := watchers w;
     console := console w; clock := clock w; cwd := cwd w |}.

Definition withNextRef (n : nat) (w : World) : World :=
  {| dyn := dyn w; instances := instances w;
     defaultViewsPath := defaultViewsPath w; defaultPublicPath := defaultPublicPath w;
     heap := heap w; nextRef := n; fs := fs w; occupied := occupied w;
     listening := listening w; probes := probes w; watchers := watchers w;
     console := console w; clock := clock w; cwd := cwd w |}.

Definition withListening (f : gset Z → gset Z) (w : World) : World :=
  {| dyn := dyn w; instances := instances w;
     defaultViewsPath := defaultViewsPath w; defaultPublicPath := defaultPublicPath w;
     heap := heap w; nextRef := nextRef w; fs := fs w; occupied := occupied w;
     listening := f (listening w); probes := probes w; watchers := watchers w;
     console := console w; clock := clock w; cwd := cwd w |}.

Definition withProbes (f : list Z → list Z) (w : World) : World :=
  {| dyn := dyn w; instances := instances w;
     defaultViewsPath := defaultViewsPath w; defaultPublicPath := defaultPublicPath w;
     heap := heap w; nextRef := nextRef w; fs := fs w; occupied := occupied w;
     listening := listening w; probes := f (probes w); watchers := watchers w;
     console := console w; clock := clock w; cwd := cwd w |}.

Definition withWatchers (f : gset nat → gset nat) (w : World) : World :=
  {| dyn := dyn w; instances := instances w;
     defaultViewsPath := defaultViewsPath w; defaultPublicPath := defaultPublicPath w;
     heap := heap w; nextRef := nextRef w; fs := fs w; occupied := occupied w;
     listening := listening w; probes := probes w; watchers := f (watchers w);
     console := console w; clock := clock w; cwd := cwd w |}.

Definition withConsole (f : list LogEntry → list LogEntry) (w : World) : World :=
  {| dyn := dyn w; instances := instances w;
     defaultViewsPath := defaultViewsPath w; defaultPublicPath := defaultPublicPath w;
     heap := heap w; nextRef := nextRef w; fs := fs w; occupied := occupied w;
     listening := listening w; probes := probes w; watchers := watchers w;
     console := f (console w); clock := clock w; cwd := cwd w |}.

Definition withFs (f : gmap string FsEntry → gmap string FsEntry) (w : World) : World :=
  {| dyn := dyn w; instances := instances w;
     defaultViewsPath := defaultViewsPath w; defaultPublicPath := defaultPublicPath w;
     heap := heap w; nextRef := nextRef w; fs := f (fs w); occupied := occupied w;
     listening := listening w; probes := probes w; watchers := watchers w;
     console := console w; clock := clock w; cwd := cwd w |}.

Definition withCache (f : gmap string ModuleInfo → gmap string ModuleInfo)
    (o : DynreloadOptions) : DynreloadOptions :=
  {| silent := silent o; cache := f (cache o); watchedFiles := watchedFiles o;
     routeUpdateCallbacks := routeUpdateCallbacks o;
     lastValidModules := lastValidModules o;
     dependencyGraph := dependencyGraph o; maxDepth := maxDepth o;
     fileExtensions := fileExtensions o |}.

Definition withWatchedFiles (f : gmap string nat → gmap string nat)
    (o : DynreloadOptions) : DynreloadOptions :=
  {| silent := silent o; cache := cache o; watchedFiles := f (watchedFiles o);
     routeUpdateCallbacks := routeUpdateCallbacks o;
     lastValidModules := lastValidModules o;
     dependencyGraph := dependencyGraph o; maxDepth := maxDepth o;
     fileExtensions := fileExtensions o |}.

Definition withCallbacks (f : gmap string Callback → gmap string Callback)
    (o : DynreloadOptions) : DynreloadOptions :=
  {| silent := silent o; cache := cache o; watchedFiles := watchedFiles o;
     routeUpdateCallbacks := f (routeUpdateCallbacks o);
     lastValidModules := lastValidModules o;
     dependencyGraph := dependencyGraph o; maxDepth := maxDepth o;
     fileExtensions := fileExtensions o |}.

Definition withLastValid (f : gmap string ModuleInfo → gmap string ModuleInfo)
    (o : DynreloadOptions) : DynreloadOptions :=
  {| silent := silent o; cache := cache o; watchedFiles := watchedFiles o;
     routeUpdateCallbacks := routeUpdateCallbacks o;
     lastValidModules := f (lastValidModules o);
     dependencyGraph := dependencyGraph o; maxDepth := maxDepth o;
     fileExtensions := fileExtensions o |}.

Definition withGraph (f : list (string * list string) → list (string * list string))
    (o : DynreloadOptions) : DynreloadOptions :=
  {| silent := silent o; cache := cache o; watchedFiles := watchedFiles o;
     routeUpdateCallbacks := routeUpdateCallbacks o;
     lastValidModules := lastValidModules o;
     dependencyGraph := f (dependencyGraph o); maxDepth := maxDepth o;
     fileExtensions := fileExtensions o |}.

(** ** Computations: state, exceptions, unbounded recursion *)

Inductive Outcome (A : Type) : Type :=
| Returns (a : A)
| Throws (e : JsError)
| Diverges.                   (* the recursion does not bottom out *)
Arguments Returns {A} a.
Arguments Throws {A} e.
Arguments Diverges {A}.

Definition M (A : Type) : Type := World → Outcome A * World.

Definition ret {A} (a : A) : M A := fun w => (Returns a, w).

Definition bind {A B} (m : M A) (k : A → M B) : M B :=
  fun w =>
    match m w with
    | (Returns a, w') => k a w'
    | (Throws e, w') => (Throws e, w')
    | (Diverges, w') => (Diverges, w')
    end.

Definition throw {A} (e : JsError) : M A := fun w => (Throws e, w).

Definition diverge {A} : M A := fun w => (Diverges, w).

(** [try { m } catch (error) { h error }]. *)
Definition tryCatch {A} (m : M A) (h : JsError → M A) : M A :=
  fun w =>
    match m w with
    | (Throws e, w') => h e w'
    | r => r
    end.

Definition gets {A} (f : World → A) : M A := fun w => (Returns (f w), w).

Definition modify (f : World → World) : M unit := fun w => (Returns tt, f w).

Declare Scope js_scope.
Delimit Scope js_scope with js.
Notation "x <- m ;; k" := (bind m (fun x => k))
  (at level 100, m at next level, right associativity) : js_scope.
Notation "m ;; k" := (bind m (fun _ => k))
  (at level 100, right associativity) : js_scope.
Local Open Scope js_scope.

(** [for (const x of l) { f x }] and [l.forEach(f)]. *)
Fixpoint forEach {A} (l : list A) (f : A → M unit) : M unit :=
  match l with
  | [] => ret tt
  | x :: rest => f x ;; forEach rest f
  end.

Definition when (b : bool) (m : M unit) : M unit := if b then m else ret tt.

(** [if (!this.options.silent) console.error(...)]. *)
Definition logError (what : string) (cause : option JsError) : M unit :=
  modify (fun w => if silent (dyn w) then w
                   else withConsole (cons (ConsoleError what cause)) w).

Definition logInfo (what : string) : M unit :=
  modify (fun w => if silent (dyn w) then w
                   else withConsole (cons (ConsoleLog what)) w).

(** [v.k] where [v] may be [null] or [undefined]. *)
Definition propOf (v : JsVal) (k : string) : M JsVal :=
  match v with
  | JUndefined | JNull => throw (ErrTypeError "Cannot read properties of undefined")
  | _ => ret (getProp v k)
  end.

(** [v.toLowerCase()]. *)
Definition callToLowerCase (v : JsVal) : M string :=
  match v with
  | JStr s => ret (toLowerCase s)
  | _ => throw (ErrTypeError "toLowerCase is not a function")
  end.

(** [fs.existsSync]. *)
Definition existsSync (w : World) (p : string) : bool :=
  bool_decide (is_Some (fs w !! p)).

(** ** dynreload.mjs *)

Module Dynreload.

Definition validMethods : list string :=
  ["get"; "post"; "put"; "delete"; "patch"; "options"; "head"].

Definition startsWithSlash (s : string) : bool :=
  match s with
  | String "/"%char _ => true
  | _ => false
  end.

Definition validateRoute (route : JsVal) : M unit :=
  method <- propOf route "method" ;;
  path <- propOf route "path" ;;
  handler <- propOf route "handler" ;;
  if negb (truthy method) || negb (truthy path) || negb (truthy handler)
  then throw ErrRouteShape
  else
    methodLower <- callToLowerCase method ;;
    if negb (bool_decide (methodLower ∈ validMethods))
    then throw (ErrInvalidHttpMethod method)
    else
      match path with
      | JStr s =>
          if negb (startsWithSlash s) then throw (ErrInvalidPath path)
          else if negb (isFunction handler) then throw ErrHandlerNotFunction
          else ret tt
      | _ => throw (ErrInvalidPath path)
      end.

(** [#validateRouteStructure]. *)
Definition validateRouteStructure (routes : JsVal) : M bool :=
  match routes with
  | JArr items => forEach items validateRoute ;; ret true
  | _ => throw ErrRoutesMustBeArray
  end.

Inductive ImportResult : Type :=
| ImportSuccess (routes : JsVal) (module : JsVal)
| ImportFailure (error : JsError).

(** [await import(`${fileUrl}?update=${timestamp}`)]: the module namespace
    object of the file as it is on disk now. *)
Definition importModule (file : string) : M JsVal :=
  fun w =>
    match fs w !! file with
    | Some (SourceFile src) =>
        match evaluation src with
        | inr namespace => (Returns namespace, w)
        | inl e => (Throws e, w)
        end
    | Some Directory => (Throws (ErrImport file "directory import"), w)
    | None => (Throws (ErrImport file "module not found"), w)
    end.

(** [#tryImportModule].  The structure validation of the source is
    commented out there: an array result is returned as it is. *)
Definition tryImportModule (file : string) : M ImportResult :=
  tryCatch
    (module <- importModule file ;;
     let routes := orElse (getProp module "default") module in
     (if isArray routes then ret tt else ret tt) ;;
     ret (ImportSuccess routes module))
    (fun error => ret (ImportFailure error)).

(** [fs.readFileSync] followed by [parseSync]: the text
    [fileContent.substring(imp.s, imp.e)] of every import the lexer
    finds. *)
Definition readImports (file : string) : M (list string) :=
  fun w =>
    match fs w !! file with
    | Some (SourceFile src) =>
        match imports src with
        | Some specifiers => (Returns specifiers, w)
        | None => (Throws (ErrImport file "parse error"), w)
        end
    | Some Directory => (Throws (ErrTypeError "EISDIR"), w)
    | None => (Throws (ErrNoEntry file), w)
    end.

Definition startsWithDot (s : string) : bool :=
  match s with
  | String "."%char _ => true
  | _ => false
  end.

(** [importPath.replace] of every single and double quote by nothing. *)
Definition removeQuotes (s : string) : string :=
  string_of_list_ascii
    (List.filter (fun c => negb (Ascii.eqb c "'"%char || (nat_of_ascii c =? 34)%nat))
       (list_ascii_of_string s)).

(** The loop over [fileExtensions] for a path without extension: the
    first extension under which the path, or else its index file, exists
    completes it. *)
Fixpoint completeExtension (w : World) (resolvedPath : string) (extensions : list string)
    : string :=
  match extensions with
  | [] => resolvedPath
  | ext :: rest =>
      let testPath := resolvedPath ++ ext in
      if existsSync w testPath then testPath
      else
        let indexPath := Path.join [resolvedPath; "index" ++ ext] in
        if existsSync w indexPath then indexPath
        else completeExtension w resolvedPath rest
  end.

(** One turn of the loop over the imports: the dependency the specifier
    [importPath] contributes, if any.  Nothing in the inner [try] throws on
    strings, so its [catch] is never entered. *)
Definition resolveDependency (w : World) (dirName importPath : string) : option string :=
  if negb (startsWithDot importPath) && negb (startsWithSlash importPath) then None
  else
    let cleanImportPath := removeQuotes importPath in
    let resolvedPath := Path.resolve (cwd w) [dirName; cleanImportPath] in
    let resolvedPath :=
      if String.eqb (Path.extname resolvedPath) ""
      then completeExtension w resolvedPath (fileExtensions (dyn w))
      else resolvedPath in
    if existsSync w resolvedPath then Some resolvedPath else None.

(** [#extractDependencies]. *)
Definition extractDependencies (file : string) : M (list string) :=
  tryCatch
    (imports <- readImports file ;;
     let dirName := Path.dirname file in
     w <- gets id ;;
     ret (omap (resolveDependency w dirName) imports))
    (fun error =>
       logError "Error extracting dependencies" (Some error) ;;
       ret []).

Fixpoint graphSet (k : string) (v : list string) (g : list (string * list string))
    : list (string * list string) :=
  match g with
  | [] => [(k, v)]
  | (k', v') :: rest =>
      if String.eqb k' k then (k, v) :: rest else (k', v') :: graphSet k v rest
  end.

Fixpoint graphGet (k : string) (g : list (string * list string)) : option (list string) :=
  match g with
  | [] => None
  | (k', v) :: rest => if String.eqb k' k then Some v else graphGet k rest
  end.

Definition graphHas (k : string) (g : list (string * list string)) : bool :=
  bool_decide (is_Some (graphGet k g)).

(** [#updateDependencyGraph(rootPath, currentDepth)], by recursion on
    [levels = maxDepth - currentDepth + 1]: no level is left when
    [currentDepth > maxDepth], one when [currentDepth = maxDepth]. *)
Fixpoint updateDependencyGraph (levels : nat) (rootPath : string) : M unit :=
  match levels with
  | O => ret tt
  | S below =>
      dependencies <- extractDependencies rootPath ;;
      modify (withDyn (withGraph (graphSet rootPath dependencies))) ;;
      match below with
      | O => ret tt
      | S _ =>
          forEach dependencies (fun dependency =>
            known <- gets (fun w => graphHas dependency (dependencyGraph (dyn w))) ;;
            if known then ret tt else updateDependencyGraph below dependency)
      end
  end.

(** [Array.prototype.includes] on paths. *)
Definition includes (l : list string) (x : string) : bool := bool_decide (x ∈ l).

(** [Set.prototype.add], keeping insertion order. *)
Definition setAdd (x : string) (s : list string) : list string :=
  if includes s x then s else s ++ [x].

(** [#findAffectedModules].  The recursion of the source has no bound of
    its own; [fuel] bounds the call depth and [None] is a recursion that
    did not bottom out within it. *)
Fixpoint findAffectedModules (fuel : nat) (graph : list (string * list string))
    (changedFilePath : string) : option (list string) :=
  match fuel with
  | O => None
  | S fuel' =>
      foldl
        (fun (acc : option (list string)) (entry : string * list string) =>
           affectedModules ← acc;
           let '(modulePath, dependencies) := entry in
           if includes dependencies changedFilePath then
             indirectlyAffected ← findAffectedModules fuel' graph modulePath;
             Some (foldl (fun s m => setAdd m s) (setAdd modulePath affectedModules)
                     indirectlyAffected)
           else Some affectedModules)
        (Some [changedFilePath]) graph
  end.

Inductive ReloadResult : Type :=
| ReloadSuccess (module : JsVal)
| ReloadFailure (error : JsError).

(** [fs.statSync(p).mtime]. *)
Definition statSync (file : string) : M Z :=
  fun w =>
    match fs w !! file with
    | Some (SourceFile src) => (Returns (mtime src), w)
    | Some Directory => (Returns 0, w)
    | None => (Throws (ErrNoEntry file), w)
    end.

Definition storeModule (file : string) (info : ModuleInfo) : M unit :=
  modify (withDyn (withCache (insert file info))) ;;
  modify (withDyn (withLastValid (insert file info))).

(** [#reloadModule]. *)
Definition reloadModule (file : string) : M ReloadResult :=
  tryCatch
    (importResult <- tryImportModule file ;;
     match importResult with
     | ImportFailure error =>
         logError "Invalid module. Keeping previous version." (Some error) ;;
         ret (ReloadFailure error)
     | ImportSuccess newModule _ =>
         stats <- statSync file ;;
         storeModule file
           {| module := newModule; lastModified := stats; filePath := file |} ;;
         ret (ReloadSuccess newModule)
     end)
    (fun error =>
       logError "Error reloading module" (Some error) ;;
       ret (ReloadFailure error)).

(** [preload]. *)
Definition preload (file : string) : M JsVal :=
  tryCatch
    (present <- gets (fun w => existsSync w file) ;;
     if negb present then throw (ErrFileDoesNotExist file)
     else
       importResult <- tryImportModule file ;;
       match importResult with
       | ImportFailure error =>
           logError "Error loading module" (Some error) ;;
           throw error
       | ImportSuccess routes _ =>
           stats <- statSync file ;;
           storeModule file
             {| module := routes; lastModified := stats; filePath := file |} ;;
           levels <- gets (fun w => maxDepth (dyn w)) ;;
           updateDependencyGraph levels file ;;
           ret routes
       end)
    (fun error =>
       logError "Error preloading file" (Some error) ;;
       throw error).

(** [fs.watch(file, listener)]: a fresh open subscription. *)
Definition fsWatch (file : string) : M nat :=
  fun w =>
    if existsSync w file
    then (Returns (nextRef w),
          withNextRef (S (nextRef w)) (withWatchers (union {[nextRef w]}) w))
    else (Throws (ErrNoEntry file), w).

(** [stopWatching]. *)
Definition stopWatching (file : string) : M unit :=
  watcher <- gets (fun w => watchedFiles (dyn w) !! file) ;;
  match watcher with
  | Some handle =>
      modify (withWatchers (fun open => open ∖ {[handle]})) ;;
      modify (withDyn (withWatchedFiles (delete file))) ;;
      modify (withDyn (withCallbacks (delete file)))
  | None => ret tt
  end.

(** [watchFile] and [#watchDependencies], which call each other; [fuel]
    bounds the call depth.  The listener handed to [fs.watch] is
    [handleChange] below. *)
Fixpoint watchFile (fuel : nat) (file : string) : M unit :=
  match fuel with
  | O => diverge
  | S fuel' =>
      watching <- gets (fun w => bool_decide (is_Some (watchedFiles (dyn w) !! file))) ;;
      if watching then ret tt
      else
        tryCatch
          (watcher <- fsWatch file ;;
           modify (withDyn (withWatchedFiles (insert file watcher))) ;;
           deep <- gets (fun w => bool_decide (1 < maxDepth (dyn w))%nat) ;;
           if deep then watchDependencies fuel' file 1 else ret tt)
          (fun error =>
             logError "Error setting up watcher" (Some error) ;;
             stopWatching file)
  end
with watchDependencies (fuel : nat) (file : string) (currentDepth : nat) : M unit :=
  match fuel with
  | O => diverge
  | S fuel' =>
      limit <- gets (fun w => maxDepth (dyn w)) ;;
      if bool_decide (limit ≤ currentDepth)%nat then ret tt
      else
        dependencies <- gets (fun w => default [] (graphGet file (dependencyGraph (dyn w)))) ;;
        forEach dependencies (fun dependency =>
          watching <- gets (fun w => bool_decide (is_Some (watchedFiles (dyn w) !! dependency))) ;;
          if watching then ret tt
          else
            watchFile fuel' dependency ;;
            watchDependencies fuel' dependency (S currentDepth))
  end.

Definition getLastValidModule (w : World) (file : string) : option JsVal :=
  module <$> lastValidModules (dyn w) !! file.

Definition getCached (w : World) (file : string) : option JsVal :=
  module <$> cache (dyn w) !! file.

(** [setRouteUpdateCallback]. *)
Definition setRouteUpdateCallback (file : string) (callback : Callback) : M unit :=
  modify (withDyn (withCallbacks (insert file callback))).

(** [stopWatchingAll]. *)
Definition stopWatchingAll : M unit :=
  watched <- gets (fun w => (map_to_list (watchedFiles (dyn w))).*1) ;;
  forEach watched stopWatching.

(** [cleanup]. *)
Definition cleanup : M unit :=
  stopWatchingAll ;;
  modify (withDyn (withCache (fun _ => ∅))) ;;
  modify (withDyn (withCallbacks (fun _ => ∅))) ;;
  modify (withDyn (withLastValid (fun _ => ∅))) ;;
  modify (withDyn (withGraph (fun _ => []))).

Section ChangeListener.

(** What the engine does not define itself: the registered callbacks are
    opaque invocables, and [Array.prototype.sort] is the host's. *)
Variable invoke : Callback → JsVal → M unit.
Variable arraySort : (string → string → Z) → list string → list string.

(** The comparator of the reload order. *)
Definition reloadOrder (graph : list (string * list string)) (a b : string) : Z :=
  if includes (default [] (graphGet a graph)) b then 1
  else if includes (default [] (graphGet b graph)) a then -1
  else 0.

(** One turn of the loop over [sortedModules]. *)
Definition reloadAndNotify (modulePath : string) : M unit :=
  result <- reloadModule modulePath ;;
  match result with
  | ReloadSuccess newModule =>
      callback <- gets (fun w => routeUpdateCallbacks (dyn w) !! modulePath) ;;
      match callback with
      | Some registered => invoke registered newModule
      | None => ret tt
      end
  | ReloadFailure _ => ret tt
  end.

(** The listener [watchFile] installs, for a ['change'] event on [file].
    Listeners run to completion here, so [updateInProgress] is false on
    entry.  A recursion of [#findAffectedModules] that does not bottom out
    within the call depth [fuel] overflows the stack; its RangeError is
    caught by the [try] of the listener like any other error. *)
Definition handleChange (fuel : nat) (file : string) : M unit :=
  tryCatch
    (levels <- gets (fun w => maxDepth (dyn w)) ;;
     updateDependencyGraph levels file ;;
     graph <- gets (fun w => dependencyGraph (dyn w)) ;;
     match findAffectedModules fuel graph file with
     | None => throw ErrStackOverflow
     | Some affectedModules =>
         logInfo "File changed" ;;
         forEach (arraySort (reloadOrder graph) affectedModules) reloadAndNotify ;;
         logInfo "Reload complete"
     end)
    (fun error => logError "Error processing update" (Some error)).

End ChangeListener.

End Dynreload.

(** ** dynexpress.mjs *)

Module DynExpress.

(** The fields of the argument of [newServer], before defaulting. *)
Record ServerConfig : Type := {
  name : JsVal;
  routers : JsVal;
  port : JsVal;
  pathViews : JsVal;
  pathPublic : JsVal;
  watchFile : JsVal;
  launch : JsVal
}.

(** A destructuring default: it applies to [undefined] only. *)
Definition defaulted (v d : JsVal) : JsVal :=
  match v with
  | JUndefined => d
  | _ => v
  end.

Inductive RouterSource : Type :=
| ArraySource (value : list JsVal)
| FileSource (value : string).

(** The test of [routers.every] in [#validateRouters]. *)
Definition routeShaped (route : JsVal) : bool :=
  truthy route
  && String.eqb (typeof route) "object"
  && String.eqb (typeof (getProp route "method")) "string"
  && String.eqb (typeof (getProp route "path")) "string"
  && String.eqb (typeof (getProp route "handler")) "function".

(** [#validateRouters]. *)
Definition validateRouters (routers : JsVal) : M RouterSource :=
  match routers with
  | JArr items =>
      if negb (forallb routeShaped items) then throw ErrRouteShape
      else ret (ArraySource items)
  | JStr file =>
      let ext := Path.extname file in
      if negb (String.eqb ext ".js") && negb (String.eqb ext ".mjs")
      then throw ErrRouterFileExtension
      else
        present <- gets (fun w => existsSync w file) ;;
        if negb present then throw (ErrRouterFileNotFound file)
        else ret (FileSource file)
  | _ => throw ErrRoutersKind
  end.

(** Mutation of the application object [app] refers to. *)
Definition updateApp (app : nat) (f : App → App) : M unit :=
  modify (withHeap (alter f app)).

Definition appUse (app : nat) (what : string) : M unit :=
  updateApp app (fun a => {| settings := settings a;
                             stack := stack a ++ [Middleware what] |}).

Definition appSet (app : nat) (key : string) (value : JsVal) : M unit :=
  updateApp app (fun a => {| settings := (key, value) :: settings a;
                             stack := stack a |}).

(** [express()]. *)
Definition express : M nat :=
  fun w =>
    (Returns (nextRef w),
     withNextRef (S (nextRef w))
       (withHeap (insert (nextRef w) {| settings := []; stack := [] |}) w)).

(** [#setupMiddleware]. *)
Definition setupMiddleware (app : nat) (pathViews pathPublic : JsVal) : M unit :=
  appUse app "urlencoded" ;;
  appUse app "json" ;;
  appSet app "view engine" (JStr "ejs") ;;
  views <- gets (fun w => orElse pathViews (JStr (defaultViewsPath w))) ;;
  appSet app "views" views ;;
  publicDirs <- gets (fun w =>
    match pathPublic with
    | JArr dirs => dirs
    | _ => [orElse pathPublic (JStr (defaultPublicPath w))]
    end) ;;
  forEach publicDirs (fun dir =>
    match dir with
    | JStr d =>
        present <- gets (fun w => existsSync w d) ;;
        if present then appUse app ("static:" ++ d) else ret tt
    | _ => ret tt
    end) ;;
  appUse app "securityHeaders".

Section RouteBinder.

(** What the request-handling library decides: whether [app[m]] is a
    function.  Registration through such a member appends a route layer. *)
Variable appFunction : string → bool.

(** [app[methodLower](routePath, middleware, handler)] or
    [app[methodLower](routePath, handler)]. *)
Definition register (app : nat) (methodLower : string)
    (routePath middleware handler : JsVal) : M unit :=
  if negb (appFunction methodLower)
  then throw (ErrTypeError "app[methodLower] is not a function")
  else
    updateApp app (fun a =>
      {| settings := settings a;
         stack := stack a ++
           [RouteLayer methodLower routePath
              (if truthy middleware && isFunction middleware
               then Some middleware else None)
              handler] |}).

(** The body of the [forEach] of [#setupRoutes]. *)
Definition setupRoute (app : nat) (route : JsVal) : M unit :=
  method <- propOf route "method" ;;
  routePath <- propOf route "path" ;;
  middleware <- propOf route "middleware" ;;
  handler <- propOf route "handler" ;;
  if negb (truthy method) || negb (truthy routePath) || negb (truthy handler)
  then throw (ErrInvalidRouteConfiguration method routePath)
  else
    methodLower <- callToLowerCase method ;;
    if negb (appFunction methodLower)
    then throw (ErrUnsupportedMethod method)
    else register app methodLower routePath middleware handler.

(** [#setupRoutes]. *)
Definition setupRoutes (app : nat) (routes : JsVal) : M unit :=
  match routes with
  | JArr items => forEach items (setupRoute app)
  | _ => throw ErrRoutesNotArray
  end.

(** The ports [listen] takes: on any other it throws a RangeError before
    it binds anything.  (Port 0 asks the system for any port; the ports
    passed on here come from [#findAvailablePort] and are 1024 or more.) *)
Definition validPort (port : Z) : bool := (0 <=? port) && (port <=? 65535).

(** [#isPortAvailable]: a transient bind.  [listen] is called inside the
    executor of the promise, so its RangeError rejects the promise. *)
Definition isPortAvailable (port : Z) : M bool :=
  if negb (validPort port) then throw (ErrBadPort port)
  else
    modify (withProbes (cons port)) ;;
    gets (fun w => bool_decide (port ∉ occupied w ∪ listening w)).

(** The loop of [#findAvailablePort], at index [i] with
    [remaining = maxAttempts - i] turns left. *)
Fixpoint probeFrom (startPort : JsVal) (maxAttempts : nat) (basePort : Z)
    (i remaining : nat) : M Z :=
  match remaining with
  | O => throw (ErrNoAvailablePort maxAttempts startPort)
  | S remaining' =>
      let port := basePort + Z.of_nat i in
      available <- isPortAvailable port ;;
      if available then ret port
      else probeFrom startPort maxAttempts basePort (S i) remaining'
  end.

(** [#findAvailablePort]. *)
Definition findAvailablePort (startPort : JsVal) (maxAttempts : nat) : M Z :=
  match parseInt startPort with
  | Unconvertible => throw (ErrTypeError "Cannot convert object to primitive value")
  | NaN => throw ErrPortRange
  | Parsed basePort =>
      if (basePort <? 1024) || (65535 <? basePort) then throw ErrPortRange
      else probeFrom startPort maxAttempts basePort 0 maxAttempts
  end.

(** [#startServer]: the socket of [app.listen(port)], named by its port. *)
Definition startServer (app : nat) (port : Z) : M Z :=
  if negb (validPort port) then throw (ErrBadPort port)
  else
    free <- gets (fun w => bool_decide (port ∉ occupied w ∪ listening w)) ;;
    if free then modify (withListening (union {[port]})) ;; ret port
    else throw (ErrPortInUse port).

Definition address (port : Z) : string :=
  "http://localhost:" ++ pretty port ++ "/".

Definition selectsExport (launch : JsVal) : option string :=
  match launch with
  | JStr l => if truthy launch then Some l else None
  | _ => None
  end.

Definition withModuleLoad (newRoutes : JsVal) (now : Z) (i : Instance) : Instance :=
  {| instApp := instApp i; instServer := instServer i; instRouters := instRouters i;
     instPathViews := instPathViews i; instPathPublic := instPathPublic i;
     instPort := instPort i; instWatchFile := instWatchFile i;
     instLaunch := instLaunch i; instModuleLoad := newRoutes;
     instStartTime := instStartTime i; instLastUpdated := Some now |}.

Definition isRouteLayer (l : Layer) : bool :=
  match l with
  | RouteLayer _ _ _ _ => true
  | Middleware _ => false
  end.

Definition clearRoutes (a : App) : App :=
  {| settings := settings a;
     stack := List.filter (fun l => negb (isRouteLayer l)) (stack a) |}.

(** The callback [#setupHotReloading] registers, applied to [newRoutes]. *)
Definition routeUpdateCallback (callback : Callback) (newRoutes : JsVal) : M unit :=
  tryCatch
    (found <- gets (fun w => instances w !! cbServerName callback) ;;
     match found with
     | None => ret tt
     | Some instance =>
         now <- gets clock ;;
         modify (withInstances
                   (insert (cbServerName callback) (withModuleLoad newRoutes now instance))) ;;
         routes <- match selectsExport (cbLaunch callback) with
                   | Some l =>
                       selected <- propOf newRoutes l ;;
                       ret (orElse selected newRoutes)
                   | None => ret newRoutes
                   end ;;
         updateApp (instApp instance) clearRoutes ;;
         setupRoutes (instApp instance) routes ;;
         logInfo "Updated routes for server"
     end)
    (fun error => logError "Error updating routes for server" (Some error)).

(** [#setupHotReloading]. *)
Definition setupHotReloading (fuel : nat) (serverName routerFile : string)
    (launch : JsVal) : M unit :=
  Dynreload.setRouteUpdateCallback routerFile
    {| cbServerName := serverName; cbLaunch := launch |} ;;
  Dynreload.watchFile fuel routerFile.

(** The route list and the loaded module of [newServer], by source. *)
Definition loadRoutes (source : RouterSource) (launch : JsVal) : M (JsVal * JsVal) :=
  match source with
  | FileSource value =>
      moduleLoad <- Dynreload.preload value ;;
      match selectsExport launch with
      | Some l =>
          selected <- propOf moduleLoad l ;;
          if negb (truthy selected) then throw (ErrPropertyNotFound l)
          else ret (selected, moduleLoad)
      | None => ret (moduleLoad, moduleLoad)
      end
  | ArraySource value => ret (JArr value, JUndefined)
  end.

(** The body of the [try] of [newServer], for the server name
    [serverName]. *)
Definition tryCreate (fuel : nat) (serverName : string) (config : ServerConfig)
    : M string :=
  let pathViews := defaulted (pathViews config) JNull in
  let pathPublic := defaulted (pathPublic config) JNull in
  let watchFile := defaulted (watchFile config) (JBool false) in
  let launch := defaulted (launch config) (JBool false) in
  source <- validateRouters (routers config) ;;
  loaded <- loadRoutes source launch ;;
  availablePort <- findAvailablePort (port config) 10 ;;
  app <- express ;;
  setupMiddleware app pathViews pathPublic ;;
  setupRoutes app (fst loaded) ;;
  server <- startServer app availablePort ;;
  now <- gets clock ;;
  modify (withInstances (insert serverName
    {| instApp := app; instServer := server;
       instRouters := routers config;
       instPathViews := pathViews; instPathPublic := pathPublic;
       instPort := availablePort; instWatchFile := watchFile;
       instLaunch := launch; instModuleLoad := snd loaded;
       instStartTime := now; instLastUpdated := None |})) ;;
  match source with
  | FileSource value =>
      if truthy watchFile
      then setupHotReloading fuel serverName value launch
      else ret tt
  | ArraySource _ => ret tt
  end ;;
  ret (address availablePort).

(** [newServer]. *)
Definition newServer (fuel : nat) (config : ServerConfig) : M string :=
  match name config with
  | JStr serverName =>
      if negb (truthy (name config)) then throw ErrServerNameRequired
      else
        existing <- gets (fun w => instances w !! serverName) ;;
        match existing with
        | Some instance => ret (address (instPort instance))
        | None =>
            tryCatch (tryCreate fuel serverName config)
              (fun error =>
                 logError "Error creating server" (Some error) ;;
                 throw error)
        end
  | _ => throw ErrServerNameRequired
  end.

(** [stopServer]. *)
Definition stopServer (serverName : string) : M bool :=
  found <- gets (fun w => instances w !! serverName) ;;
  match found with
  | None => throw (ErrServerNotFound serverName)
  | Some instance =>
      match instRouters instance with
      | JStr file =>
          if truthy (instWatchFile instance) then Dynreload.stopWatching file
          else ret tt
      | _ => ret tt
      end ;;
      running <- gets (fun w => bool_decide (instServer instance ∈ listening w)) ;;
      if running then
        modify (withListening (fun open => open ∖ {[instServer instance]})) ;;
        modify (withInstances (delete serverName)) ;;
        ret true
      else throw ErrServerNotRunning
  end.

(** [resetServer]. *)
Definition resetServer (fuel : nat) (serverName : string) : M string :=
  found <- gets (fun w => instances w !! serverName) ;;
  match found with
  | None => throw (ErrServerNotFound serverName)
  | Some instance =>
      tryCatch
        (stopServer serverName ;;
         newServer fuel
           {| name := JStr serverName; routers := instRouters instance;
              port := JNum (instPort instance);
              pathViews := instPathViews instance;
              pathPublic := instPathPublic instance;
              watchFile := instWatchFile instance;
              launch := instLaunch instance |})
        (fun error =>
           logError "Error resetting server" (Some error) ;;
           throw error)
  end.

(** [addRoute]. *)
Definition addRoute (serverName : string) (descriptor : JsVal) : M unit :=
  method <- propOf descriptor "method" ;;
  routePath <- propOf descriptor "path" ;;
  middleware <- propOf descriptor "middleware" ;;
  handler <- propOf descriptor "handler" ;;
  if negb (truthy method) || negb (isString method)
  then throw ErrRouteMethodRequired
  else if negb (truthy routePath) || negb (isString routePath)
  then throw ErrRoutePathRequired
  else if negb (truthy handler) || negb (isFunction handler)
  then throw ErrRouteHandlerRequired
  else
    found <- gets (fun w => instances w !! serverName) ;;
    match found with
    | None => throw (ErrServerNotFound serverName)
    | Some instance =>
        methodLower <- callToLowerCase method ;;
        register (instApp instance) methodLower routePath middleware handler ;;
        logInfo "New route added"
    end.

(** The route table read off the application object, as [getInstance]
    reports it: path and method of every route layer. *)
Definition routesOf (a : App) : list (JsVal * string) :=
  omap (fun l => match l with
                 | RouteLayer m p _ _ => Some (p, m)
                 | Middleware _ => None
                 end) (stack a).

(** [cleanup].  The stops are started in key order and awaited together;
    each rejection is handled by its own [catch]. *)
Definition cleanup : M unit :=
  names <- gets (fun w => (map_to_list (instances w)).*1) ;;
  forEach names (fun name =>
    tryCatch (stopServer name ;; ret tt)
      (fun err => logError "Error stopping server" (Some err))) ;;
  Dynreload.cleanup.

End RouteBinder.

End DynExpress.

(** ** Vocabulary of the properties *)

(** [m] is tracked and its dependency set includes [d]. *)
Definition dependsOn (graph : list (string * list string)) (m d : string) : Prop :=
  ∃ dependencies, (m, dependencies) ∈ graph ∧ d ∈ dependencies.

(** [x] depends on [p] through one or more edges. *)
Definition reaches (graph : list (string * list string)) (x p : string) : Prop :=
  tc (dependsOn graph) x p.

Definition acyclic (graph : list (string * list string)) : Prop :=
  ∀ x, ¬ reaches graph x x.

(** One turn of the loop of [#findAffectedModules] over the entries of the
    graph. *)
Definition visit (graph : list (string * list string)) (fuel : nat) (changed : string)
    (acc : option (list string)) (entry : string * list string) : option (list string) :=
  affectedModules ← acc;
  let '(modulePath, dependencies) := entry in
  if Dynreload.includes dependencies changed then
    indirectlyAffected ← Dynreload.findAffectedModules fuel graph modulePath;
    Some (foldl (fun s m => Dynreload.setAdd m s) (Dynreload.setAdd modulePath affectedModules)
            indirectlyAffected)
  else Some affectedModules.

(** The chain A → B → C: A imports B, B imports C. *)
Definition chainGraph : list (string * list string) :=
  [("/app/a.mjs", ["/app/b.mjs"]); ("/app/b.mjs", ["/app/c.mjs"])].

Definition chainRank (p : string) : nat :=
  if String.eqb p "/app/a.mjs" then 2
  else if String.eqb p "/app/b.mjs" then 1
  else 0.

(** Two files that import each other, as the tracker records them at
    depth 2 or more. *)
Definition cyclicGraph : list (string * list string) :=
  [("/app/a.mjs", ["/app/b.mjs"]); ("/app/b.mjs", ["/app/a.mjs"])].

(** What a successful import yields: the default export, else the module
    namespace object. *)
Definition loaded (namespace : JsVal) : JsVal :=
  orElse (getProp namespace "default") namespace.

Definition nullish (v : JsVal) : bool :=
  match v with
  | JUndefined | JNull => true
  | _ => false
  end.

(** The descriptors that pass the three checks of [addRoute]. *)
Definition wellFormedDescriptor (descriptor : JsVal) : bool :=
  truthy (getProp descriptor "method") && isString (getProp descriptor "method")
  && truthy (getProp descriptor "path") && isString (getProp descriptor "path")
  && truthy (getProp descriptor "handler") && isFunction (getProp descriptor "handler").

(** The middleware a registration passes on: a function, or none. *)
Definition middlewareOf (route : JsVal) : option JsVal :=
  if truthy (getProp route "middleware") && isFunction (getProp route "middleware")
  then Some (getProp route "middleware") else None.

(** The layer that registering [route] under the member [methodLower]
    appends to the router stack. *)
Definition layerOf (methodLower : string) (route : JsVal) : Layer :=
  RouteLayer methodLower (getProp route "path") (middlewareOf route)
    (getProp route "handler").

Definition addLayer (l : Layer) (a : App) : App :=
  {| settings := settings a; stack := stack a ++ [l] |}.

(** The routes [#setupRoutes] binds without throwing: method, path and
    handler are present, the method is a string and names a function of the
    application object. *)
Definition bindable (appFunction : string → bool) (route : JsVal) : bool :=
  negb (nullish route)
  && truthy (getProp route "method") && truthy (getProp route "path")
  && truthy (getProp route "handler")
  && match getProp route "method" with
     | JStr m => appFunction (toLowerCase m)
     | _ => false
     end.

Definition methodLowerOf (route : JsVal) : string :=
  match getProp route "method" with
  | JStr m => toLowerCase m
  | _ => ""
  end.

(** The stack after binding [items] in order. *)
Definition bindAll (items : list JsVal) (a : App) : App :=
  foldl (fun a r => addLayer (layerOf (methodLowerOf r) r) a) a items.

(** A port nobody listens on. *)
Definition portFree (w : World) (p : Z) : Prop := p ∉ occupied w ∪ listening w.

(** [q] is the first free port of the window of [budget] ports from [base]. *)
Definition firstFreePort (w : World) (base : Z) (budget : nat) (q : Z) : Prop :=
  base ≤ q < base + Z.of_nat budget
  ∧ portFree w q
  ∧ ∀ r, base ≤ r < q → ¬ portFree w r.

Definition windowBusy (w : World) (base : Z) (budget : nat) : Prop :=
  ∀ r, base ≤ r < base + Z.of_nat budget → ¬ portFree w r.

(** Every port from [base] up to the last port number is taken. *)
Definition busyToTop (w : World) (base : Z) : Prop :=
  ∀ r, base ≤ r ≤ 65535 → ¬ portFree w r.

(** [m] leaves the component [proj] of the world as it was. *)
Definition preserves {A B} (proj : World → A) (m : M B) : Prop :=
  ∀ w, proj (snd (m w)) = proj w.

(** [m] returns a value: it neither throws nor fails to bottom out. *)
Definition returns {B} (m : M B) : Prop :=
  ∀ w, ∃ b w', m w = (Returns b, w').

(** [m] returns or does not bottom out: no error escapes it. *)
Definition neverThrows {B} (m : M B) : Prop :=
  ∀ w e, fst (m w) ≠ Throws e.

(** When [m] throws, it leaves the component [proj] as it was. *)
Definition throwsPreserving {A B} (proj : World → A) (m : M B) : Prop :=
  ∀ w e w', m w = (Throws e, w') → proj w' = proj w.

(** The registry and the listening sockets of the host. *)
Definition registryAndSockets (w : World) : gmap string Instance * gset Z :=
  (instances w, listening w).

(** The files on disk that are not watched yet. *)
Definition unwatched (w : World) : gset string :=
  dom (fs w) ∖ dom (watchedFiles (dyn w)).

(** A call depth that suffices for [watchFile]: every nested [watchFile]
    that reaches [fs.watch] takes a file out of [unwatched], and between two
    of them [#watchDependencies] nests at most [maxDepth] deep. *)
Definition watchFuel (w : World) : nat :=
  S (size (fs w)) * (maxDepth (dyn w) + 2).

(** Watching leaves the disk and the depth limit alone and unwatches
    nothing. *)
Definition watchStable (w w' : World) : Prop :=
  fs w' = fs w
  ∧ maxDepth (dyn w') = maxDepth (dyn w)
  ∧ dom (watchedFiles (dyn w)) ⊆ dom (watchedFiles (dyn w')).

(** The route source of [config] is accepted in [w]: [#validateRouters]
    returns and the routes load, as the pair [loaded] of the route list and
    the module, leaving the world [w1]. *)
Definition routeSourceAccepted (config : DynExpress.ServerConfig) (w : World)
    (source : DynExpress.RouterSource) (loaded : JsVal * JsVal) (w1 : World) : Prop :=
  fst (DynExpress.validateRouters (DynExpress.routers config) w) = Returns source
  ∧ DynExpress.loadRoutes source
      (DynExpress.defaulted (DynExpress.launch config) (JBool false)) w
    = (Returns loaded, w1).

(** What [newServer] leaves behind when the creation throws [e] in [w]. *)
Definition afterCreationError (e : JsError) (w : World) : World :=
  if silent (dyn w) then w
  else withConsole (cons (ConsoleError "Error creating server" (Some e))) w.

(** The descriptors of an inline list that [newServer] accepts: those that
    pass [#validateRouters] and that [#setupRoutes] binds. *)
Definition acceptedInline (appFunction : string → bool) (route : JsVal) : bool :=
  DynExpress.routeShaped route && bindable appFunction route.

(** The world in which the callback binds the new routes: the module is
    recorded in the instance and the route layers are cleared. *)
Definition rebinding (serverName : string) (instance : Instance) (newRoutes : JsVal)
    (w : World) : World :=
  withHeap (alter DynExpress.clearRoutes (instApp instance))
    (withInstances
       (insert serverName (DynExpress.withModuleLoad newRoutes (clock w) instance)) w).

(** From [w] to [w'] subscriptions were only closed: every watcher of [w]
    is still the watcher of its file or is not open any more. *)
Definition closing (w w' : World) : Prop :=
  watchers w' ⊆ watchers w
  ∧ ∀ file handle,
      watchedFiles (dyn w) !! file = Some handle →
      watchedFiles (dyn w') !! file = Some handle ∨ handle ∉ watchers w'.

(** What one stop of [cleanup] does to the instance [n]: its socket is
    closed and it leaves the registry, or its stop failed and it stays; no
    other instance is touched. *)
Definition stopped (n : string) (w w' : World) : Prop :=
  listening w' ⊆ listening w
  ∧ (∀ m, m ≠ n → instances w' !! m = instances w !! m)
  ∧ (instances w' !! n = None ∨ instances w' !! n = instances w !! n)
  ∧ (∀ instance, instances w !! n = Some instance →
                 instServer instance ∉ listening w')
  ∧ closing w w'.

(** [m] returns or throws. *)
Definition halts {B} (m : M B) : Prop :=
  ∀ w, fst (m w) ≠ Diverges.

(** ** Sample hosts *)

(** The world right after [new DynExpress({silent, maxDepth})] , over a
    given disk and given ports held by other processes. *)
Definition boot (quiet : bool) (depth : nat) (disk : gmap string FsEntry)
    (taken : gset Z) : World :=
  {| dyn := {| silent := quiet; cache := ∅; watchedFiles := ∅;
               routeUpdateCallbacks := ∅; lastValidModules := ∅;
               dependencyGraph := []; maxDepth := depth;
               fileExtensions := [".js"; ".mjs"; ".cjs"] |};
     instances := ∅;
     defaultViewsPath := "/app/bin/views"; defaultPublicPath := "/app/bin/public";
     heap := ∅; nextRef := 0%nat; fs := disk; occupied := taken;
     listening := ∅; probes := []; watchers := ∅; console := []; clock := 0;
     cwd := "/app" |}.

(** The members of the application object that register routes, in the
    sample hosts: the verbs the reload engine itself lists. *)
Definition httpVerb (m : string) : bool := bool_decide (m ∈ Dynreload.validMethods).

Definition route (method path : string) (handler : JsVal) : JsVal :=
  JObj [("method", JStr method); ("path", JStr path); ("handler", handler)].

(** A source file whose default export is [value] and whose imports have
    the specifiers [specifiers]. *)
Definition exporting (value : JsVal) (specifiers : list string) : FsEntry :=
  SourceFile {| evaluation := inr (JModule [("default", value)]);
                imports := Some specifiers; mtime := 0 |}.

Definition routesFile : string := "/app/routes.mjs".

Definition goodRoutes : JsVal := JArr [route "GET" "/" (JFun 1)].

(** A route list whose only route has no handler. *)
Definition brokenRoutes : JsVal :=
  JArr [JObj [("method", JStr "GET"); ("path", JStr "/")]].

(** The engine after [preload(routesFile)] of the good routes, and then an
    edit of the file that makes it export the broken list. *)
Definition editedWorld : World :=
  withFs (insert routesFile (exporting brokenRoutes []))
    (snd (Dynreload.preload routesFile
            (boot false 3 {[ routesFile := exporting goodRoutes [] ]} ∅))).

(** A callback of a host that uses the engine on its own: it writes the
    update to the console. *)
Definition announce (callback : Callback) (newModule : JsVal) : M unit :=
  modify (withConsole (cons (ConsoleLog ("route update for " ++ cbServerName callback)))).

Definition apiCallback : Callback :=
  {| cbServerName := "api"; cbLaunch := JBool false |}.

(** A host that registered a callback for the route file and never
    watched it. *)
Definition callbackOnlyWorld : World :=
  snd (Dynreload.setRouteUpdateCallback routesFile apiCallback
         (boot true 3 {[ routesFile := exporting goodRoutes [] ]} ∅)).

(** A host that registered a callback for the route file and watches it. *)
Definition watchingWorld : World :=
  snd (Dynreload.watchFile 1 routesFile callbackOnlyWorld).

Definition inlineConfig (serverName : string) (routes : JsVal) (basePort : Z)
    : DynExpress.ServerConfig :=
  {| DynExpress.name := JStr serverName; DynExpress.routers := routes;
     DynExpress.port := JNum basePort;
     DynExpress.pathViews := JUndefined; DynExpress.pathPublic := JUndefined;
     DynExpress.watchFile := JUndefined; DynExpress.launch := JUndefined |}.

(** A host with one instance, "api", created from the inline good routes
    on port 3000. *)
Definition apiWorld : World :=
  snd (DynExpress.newServer httpVerb 0 (inlineConfig "api" goodRoutes 3000)
         (boot true 3 ∅ ∅)).

(** A descriptor without a method, and one with a method the application
    object does not have. *)
Definition noMethodDescriptor : JsVal :=
  JObj [("path", JStr "/x"); ("handler", JFun 7)].

Definition fooDescriptor : JsVal := route "FOO" "/x" (JFun 7).

Definition postDescriptor : JsVal := route "POST" "/x" (JFun 7).

(** A host whose port 3000 is held by another process. *)
Definition busyWorld : World := boot true 3 ∅ {[ 3000 ]}.

(** A host whose last port, 65535, is held by another process. *)
Definition topWorld : World := boot true 3 ∅ {[ 65535 ]}.

(** An inline list whose second descriptor names a method the application
    object does not have. *)
Definition mixedRoutes : JsVal := JArr [route "GET" "/" (JFun 1); fooDescriptor].

(** An inline list whose only route has a path that does not start with a
    slash. *)
Definition oddPathRoutes : JsVal := JArr [route "GET" "not a path" (JFun 1)].

(** A route file whose default export carries the routes under the
    property "routes", and a host with the hot-reloading instance "api"
    created from it with the selector "routes". *)
Definition selectedSource : Source :=
  {| evaluation := inr (JModule [("default", JObj [("routes", goodRoutes)])]);
     imports := Some []; mtime := 0 |}.

Definition hotConfig : DynExpress.ServerConfig :=
  {| DynExpress.name := JStr "api"; DynExpress.routers := JStr routesFile;
     DynExpress.port := JNum 3000;
     DynExpress.pathViews := JUndefined; DynExpress.pathPublic := JUndefined;
     DynExpress.watchFile := JBool true; DynExpress.launch := JStr "routes" |}.

Definition hotWorld : World :=
  snd (DynExpress.newServer httpVerb 10 hotConfig
         (boot true 3 {[ routesFile := SourceFile selectedSource ]} ∅)).

Definition hotCallback : Callback :=
  {| cbServerName := "api"; cbLaunch := JStr "routes" |}.

(** The file after an edit that exports the routes directly, without the
    property "routes", and a host that boots on the edited file. *)
Definition directSource : Source :=
  {| evaluation := inr (JModule [("default", goodRoutes)]);
     imports := Some []; mtime := 1 |}.

Definition editedDisk : World :=
  boot true 3 {[ routesFile := SourceFile directSource ]} ∅.

(** The hot-reloading host when it is not silent, and the route file
    after an edit that renames the export "routes" to "handlers". *)
Definition loudHotWorld : World :=
  snd (DynExpress.newServer httpVerb 10 hotConfig
         (boot false 3 {[ routesFile := SourceFile selectedSource ]} ∅)).

Definition renamedSource : Source :=
  {| evaluation := inr (JModule [("default", JObj [("handlers", goodRoutes)])]);
     imports := Some []; mtime := 1 |}.

Definition renamedWorld : World :=
  withFs (insert routesFile (SourceFile renamedSource)) loudHotWorld.

(** The engine after [preload(routesFile)] of the good routes, and then an
    edit that leaves a syntax error in the file. *)
Definition unparsableWorld : World :=
  withFs (insert routesFile
            (SourceFile {| evaluation := inl (ErrImport routesFile "SyntaxError");
                           imports := None; mtime := 1 |}))
    (snd (Dynreload.preload routesFile
            (boot false 3 {[ routesFile := exporting goodRoutes [] ]} ∅))).

(** Two files that import each other, and the engine after [preload] of
    the first at depth 3. *)
Definition cyclicDisk : gmap string FsEntry :=
  {[ "/app/a.mjs" := exporting goodRoutes ["/app/b.mjs"];
     "/app/b.mjs" := exporting JNull ["/app/a.mjs"] ]}.

Definition cyclicWorld : World :=
  snd (Dynreload.preload "/app/a.mjs" (boot true 3 cyclicDisk ∅)).

(** A host that is not silent, with the instance "api", whose socket was
    closed behind the registry's back. *)
Definition staleWorld : World :=
  withListening (fun _ => ∅)
    (snd (DynExpress.newServer httpVerb 0 (inlineConfig "api" goodRoutes 3000)
            (boot false 3 ∅ ∅))).

(** ** Vocabulary of the further properties *)

(** A module that depends on [p] takes part in an import cycle. *)
Definition onCycleAbove (graph : list (string * list string)) (p : string) : Prop :=
  ∃ x, reaches graph x p ∧ reaches graph x x.

(** [m] keeps the invariant [I]. *)
Definition keeps {B} (I : World → Prop) (m : M B) : Prop :=
  ∀ w, I w → I (snd (m w)).

(** The dependencies [#extractDependencies] finds for [file] on the disk
    of [w]: what the import specifiers of the file resolve to; none when
    the file is missing, is a directory or cannot be lexed. *)
Definition resolvedImports (w : World) (file : string) : list string :=
  match fs w !! file with
  | Some (SourceFile src) =>
      match imports src with
      | Some specifiers =>
          omap (Dynreload.resolveDependency w (Path.dirname file)) specifiers
      | None => []
      end
  | _ => []
  end.

(** [file] is a key of the dependency graph. *)
Definition tracked (w : World) (file : string) : Prop :=
  is_Some (Dynreload.graphGet file (dependencyGraph (dyn w))).

(** From [w] to [w'] the disk is the same and every tracked path kept its
    entry of the dependency graph. *)
Definition graphGrows (w w' : World) : Prop :=
  fs w' = fs w
  ∧ ∀ k, tracked w k →
         Dynreload.graphGet k (dependencyGraph (dyn w'))
         = Dynreload.graphGet k (dependencyGraph (dyn w)).

(** From [w] to [w'] nothing changed but the console, which grew. *)
Definition logged (w w' : World) : Prop :=
  ∃ entries, w' = withConsole (app entries) w.

(** The cache and the last-known-good table hold the same artifacts. *)
Definition tablesAgree (w : World) : Prop :=
  cache (dyn w) = lastValidModules (dyn w).

(** The registry and the sockets fit: every instance has a name, listens
    on its own port, and every listening socket is that of an instance. *)
Definition registryOk (w : World) : Prop :=
  (∀ n instance, instances w !! n = Some instance →
                 n ≠ ""
                 ∧ instServer instance = instPort instance
                 ∧ instPort instance ∈ listening w)
  ∧ (∀ n1 n2 i1 i2, instances w !! n1 = Some i1 → instances w !! n2 = Some i2 →
                    instPort i1 = instPort i2 → n1 = n2)
  ∧ (∀ p, p ∈ listening w →
          ∃ n instance, instances w !! n = Some instance ∧ instPort instance = p).

(** From a state with [P], [m] ends in a state with [Q]. *)
Definition leads {B} (P Q : World → Prop) (m : M B) : Prop :=
  ∀ w, P w → Q (snd (m w)).

(** The route file whose changes an instance follows, if any. *)
Definition hotFile (instance : Instance) : option string :=
  match instRouters instance with
  | JStr file => if truthy (instWatchFile instance) then Some file else None
  | _ => None
  end.

(** The entry of the route table for a bound descriptor: its path and the
    member of the application object it was registered through. *)
Definition routeEntry (route : JsVal) : JsVal * string :=
  (getProp route "path", methodLowerOf route).

(** [m] touches no application object but [a], and leaves the route table
    of [a] as it is. *)
Definition keepsRoutes {B} (a : nat) (m : M B) : Prop :=
  ∀ w, ∃ g, heap (snd (m w)) = alter g a (heap w)
            ∧ ∀ x, DynExpress.routesOf (g x) = DynExpress.routesOf x.

(** The route list a route file's module yields under the selector
    [launch]. *)
Definition exported (launch : JsVal) (moduleLoad : JsVal) : JsVal :=
  match DynExpress.selectsExport launch with
  | Some l => getProp moduleLoad l
  | None => moduleLoad
  end.

(** From [w] to [w'] watches were only added: the disk, the depth limit,
    the dependency graph and the registered callbacks are the same, every
    watched file kept its watcher and no watcher was closed. *)
Definition watchesAdded (w w' : World) : Prop :=
  fs w' = fs w
  ∧ maxDepth (dyn w') = maxDepth (dyn w)
  ∧ dependencyGraph (dyn w') = dependencyGraph (dyn w)
  ∧ routeUpdateCallbacks (dyn w') = routeUpdateCallbacks (dyn w)
  ∧ (∀ file handle, watchedFiles (dyn w) !! file = Some handle →
                    watchedFiles (dyn w') !! file = Some handle)
  ∧ watchers w ⊆ watchers w'.

(** [m] moves the world along [R], however it ends. *)
Definition advances {B} (R : World → World → Prop) (m : M B) : Prop :=
  ∀ w, R w (snd (m w)).

(** The routes of a list that are bound before binding stops: those that
    come before the first one that cannot be bound. *)
Fixpoint boundPrefix (appFunction : string → bool) (items : list JsVal) : list JsVal :=
  match items with
  | [] => []
  | r :: rest =>
      if bindable appFunction r then r :: boundPrefix appFunction rest else []
  end.

(** The route list the update callback takes from a reloaded module under
    the selector [launch]: the selected export, or the module itself when
    there is no selector or the export is missing. *)
Definition reloaded (launch : JsVal) (newRoutes : JsVal) : JsVal :=
  match DynExpress.selectsExport launch with
  | Some l => orElse (getProp newRoutes l) newRoutes
  | None => newRoutes
  end.

(** The application object after the update callback has cleared the
    routes and bound [routes] as far as it gets. *)
Definition rebound (appFunction : string → bool) (routes : JsVal) (a : App) : App :=
  match routes with
  | JArr items => bindAll (boundPrefix appFunction items) (DynExpress.clearRoutes a)
  | _ => DynExpress.clearRoutes a
  end.

(** What makes up the host apart from the contents of its tables: the
    names of the registry, the application objects there are, the sockets,
    the watches, the callbacks and the disk. *)
Definition hostShape (w : World)
    : gset string * gset nat * gset Z * gset nat * gmap string nat
      * gmap string Callback * gmap string FsEntry :=
  (dom (instances w), dom (heap w), listening w, watchers w,
   watchedFiles (dyn w), routeUpdateCallbacks (dyn w), fs w).

(** The watches and the open watchers fit: every watched file has an open
    watcher of its own, and every open watcher is that of a watched file;
    the references handed out so far are below the next one. *)
Definition watchersOk (w : World) : Prop :=
  (∀ file handle, watchedFiles (dyn w) !! file = Some handle → handle ∈ watchers w)
  ∧ (∀ file1 file2 handle,
       watchedFiles (dyn w) !! file1 = Some handle →
       watchedFiles (dyn w) !! file2 = Some handle → file1 = file2)
  ∧ (∀ handle, handle ∈ watchers w →
               ∃ file, watchedFiles (dyn w) !! file = Some handle)
  ∧ (∀ handle, handle ∈ watchers w → (handle < nextRef w)%nat).

(** The watches of the host: the watched files, the open watchers and the
    next reference. *)
Definition watchState (w : World) : gmap string nat * gset nat * nat :=
  (watchedFiles (dyn w), watchers w, nextRef w).

(** A directory of sources whose entry file imports a sibling without its
    extension, a directory through its index file, a built-in module, a
    file by its absolute path, a directory without index file, a file that
    does not exist, a specifier still in its quotes (as the lexer reports a
    dynamic import) and a directory whose name has an extension. *)
Definition importsDisk : gmap string FsEntry :=
  {[ "/app/a.mjs" := exporting JNull
                       ["./b"; "./lib"; "fs"; "/app/c.cjs"; "../app/d"; "./missing.js";
                        "'./q.js'"; "./dir.d"];
     "/app/b.js" := exporting JNull [];
     "/app/b.mjs" := exporting JNull [];
     "/app/lib" := Directory;
     "/app/lib/index.mjs" := exporting JNull [];
     "/app/c.cjs" := exporting JNull [];
     "/app/d" := Directory;
     "/app/q.js" := exporting JNull [];
     "/app/dir.d" := Directory ]}.

(** A route file after an edit that exports two routes under "routes", on
    the disk of the hot-reloading host. *)
Definition twoRoutes : JsVal :=
  JArr [route "GET" "/" (JFun 1); route "POST" "/items" (JFun 2)].

Definition hotEditedWorld : World :=
  withFs (insert routesFile
            (SourceFile {| evaluation := inr (JModule [("default", JObj [("routes", twoRoutes)])]);
                           imports := Some []; mtime := 1 |}))
    hotWorld.

(** The directories [#setupMiddleware] serves static files from: the
    entries of [pathPublic] (or the one default path) that are strings and
    exist on disk. *)
Definition servedDirs (w : World) (pathPublic : JsVal) : list string :=
  omap (fun dir => match dir with
                   | JStr d => if existsSync w d then Some d else None
                   | _ => None
                   end)
    match pathPublic with
    | JArr dirs => dirs
    | _ => [orElse pathPublic (JStr (defaultPublicPath w))]
    end.

(** * Properties *)

(** ** The primitives of the host on samples *)

Example parseInt_examples :
  parseInt (JNum 3000) = Parsed 3000
  ∧ parseInt (JStr "3000") = Parsed 3000
  ∧ parseInt (JStr "  -12px") = Parsed (-12)
  ∧ parseInt (JArr [JNum 3000]) = Parsed 3000
  ∧ parseInt (JArr [JStr "8080"; JNum 1]) = Parsed 8080
  ∧ parseInt (JArr []) = NaN
  ∧ parseInt (JObj []) = NaN
  ∧ parseInt (JBool true) = NaN
  ∧ parseInt JUndefined = NaN
  ∧ parseInt (JModule []) = Unconvertible.
Proof. vm_compute. repeat split. Qed.

Example getProp_examples :
  getProp (JArr [JNum 1; JNum 2]) "length" = JNum 2
  ∧ getProp (JArr [JNum 1; JNum 2]) "1" = JNum 2
  ∧ getProp (JArr [JNum 1; JNum 2]) "01" = JUndefined
  ∧ getProp (JArr [JNum 1; JNum 2]) "map" = JFun (Builtin "map" 1)
  ∧ getProp (JStr "abc") "length" = JNum 3
  ∧ getProp (JStr "abc") "1" = JStr "b"
  ∧ getProp (JFun (Closure 1 "handler" 2)) "name" = JStr "handler"
  ∧ getProp (JFun (Closure 1 "handler" 2)) "length" = JNum 2
  ∧ getProp (JObj [("routes", JNull)]) "routes" = JNull
  ∧ getProp (JObj [("routes", JNull)]) "toString" = JFun (Builtin "toString" 0)
  ∧ getProp (JModule [("routes", JNull)]) "toString" = JUndefined.
Proof. vm_compute. repeat split. Qed.

Example path_examples :
  Path.extname "/app/routes.js/" = ".js"
  ∧ Path.extname "/app/.routes" = ""
  ∧ Path.extname "/app.d/routes" = ""
  ∧ Path.extname "routes." = "."
  ∧ Path.extname ".." = ""
  ∧ Path.dirname "/app/routes.mjs" = "/app"
  ∧ Path.dirname "/routes.mjs" = "/"
  ∧ Path.dirname "/app//lib/" = "/app/"
  ∧ Path.resolve "/srv" ["/app"; "./lib/../b"] = "/app/b"
  ∧ Path.resolve "/srv" ["/app"; "/etc/c.js"] = "/etc/c.js"
  ∧ Path.resolve "/srv" ["lib"; "b.js"] = "/srv/lib/b.js"
  ∧ Path.join ["/app/lib"; "index.js"] = "/app/lib/index.js".
Proof. vm_compute. repeat split. Qed.


(** ** The affected set *)

Section AffectedSet.

Import Dynreload.

Variable graph : list (string * list string).

Lemma elem_of_setAdd (x m : string) (s : list string) :
  x ∈ setAdd m s ↔ x = m ∨ x ∈ s.
Proof.
  unfold setAdd, includes. case_bool_decide as Hin.
  - split; [auto | intros [-> | ?]; assumption].
  - rewrite elem_of_app, list_elem_of_singleton. tauto.
Qed.

Lemma elem_of_setAdd_all (l s : list string) (x : string) :
  x ∈ foldl (fun acc m => setAdd m acc) s l ↔ x ∈ s ∨ x ∈ l.
Proof.
  revert s. induction l as [|m l IH]; intros s; simpl.
  - rewrite elem_of_nil. tauto.
  - rewrite IH, elem_of_setAdd, elem_of_cons. tauto.
Qed.

Lemma findAffectedModules_unfold (fuel : nat) (changed : string) :
  findAffectedModules (S fuel) graph changed
  = foldl (visit graph fuel changed) (Some [changed]) graph.
Proof. reflexivity. Qed.

Lemma visit_none (fuel : nat) (changed : string) (entries : list (string * list string)) :
  foldl (visit graph fuel changed) None entries = None.
Proof. induction entries as [|e l IH]; simpl; auto. Qed.

Lemma reaches_last (x p : string) :
  reaches graph x p ↔ ∃ m, dependsOn graph m p ∧ (x = m ∨ reaches graph x m).
Proof.
  unfold reaches. split.
  - intros H. apply tc_rtc in H as Hr. clear Hr.
    induction H as [x p Hxp | x y p Hxy Hyp IH].
    + exists x. split; [assumption | now left].
    + destruct IH as (m & Hm & [-> | Hym]).
      * exists m. split; [assumption | right; now apply tc_once].
      * exists m. split; [assumption | right]. eapply tc_l; eassumption.
  - intros (m & Hm & [-> | Hxm]).
    + now apply tc_once.
    + eapply tc_r; eassumption.
Qed.

(** Whatever the loop returns is the closure, provided the recursive calls
    return closures. *)
Lemma visit_closure (fuel : nat) (changed : string)
    (IH : ∀ m s, findAffectedModules fuel graph m = Some s →
                 ∀ x, x ∈ s ↔ x = m ∨ reaches graph x m) :
  ∀ (entries : list (string * list string)) (acc s : list string),
    foldl (visit graph fuel changed) (Some acc) entries = Some s →
    ∀ x, x ∈ s ↔
         x ∈ acc ∨ ∃ m deps, (m, deps) ∈ entries ∧ changed ∈ deps ∧
                             (x = m ∨ reaches graph x m).
Proof.
  induction entries as [|[m deps] entries IHl]; intros acc s Hs x; simpl in Hs.
  - injection Hs as <-. split; [auto |].
    intros [? | (m & deps & Hin & _)]; [assumption |].
    now apply elem_of_nil in Hin.
  - unfold includes in Hs. case_bool_decide as Hdep.
    + destruct (findAffectedModules fuel graph m) as [ind|] eqn:Hind; simpl in Hs.
      * rewrite (IHl _ _ Hs x), elem_of_setAdd_all, elem_of_setAdd, (IH _ _ Hind x).
        split.
        -- intros [[[-> | Hacc] | Hx] | (m' & deps' & Hin & Hc & Hx)].
           ++ right. exists m, deps. rewrite elem_of_cons. auto.
           ++ now left.
           ++ right. exists m, deps. rewrite elem_of_cons. auto.
           ++ right. exists m', deps'. rewrite elem_of_cons. auto.
        -- intros [Hacc | (m' & deps' & Hin & Hc & Hx)]; [auto |].
           apply elem_of_cons in Hin as [Heq | Hin].
           ++ injection Heq as -> ->. left. tauto.
           ++ right. exists m', deps'. auto.
      * now rewrite visit_none in Hs.
    + rewrite (IHl _ _ Hs x). split.
      * intros [Hacc | (m' & deps' & Hin & Hc & Hx)]; [auto |].
        right. exists m', deps'. rewrite elem_of_cons. auto.
      * intros [Hacc | (m' & deps' & Hin & Hc & Hx)]; [auto |].
        apply elem_of_cons in Hin as [Heq | Hin].
        -- injection Heq as -> ->. contradiction.
        -- right. exists m', deps'. auto.
Qed.

Lemma findAffectedModules_sound (fuel : nat) :
  ∀ (p : string) (s : list string),
    findAffectedModules fuel graph p = Some s →
    ∀ x, x ∈ s ↔ x = p ∨ reaches graph x p.
Proof.
  induction fuel as [|fuel IH]; intros p s Hs x; [discriminate |].
  rewrite findAffectedModules_unfold in Hs.
  rewrite (visit_closure fuel p IH graph [p] s Hs x).
  rewrite list_elem_of_singleton, reaches_last.
  split; (intros [? | (m & H)]; [now left | right]).
  - destruct H as (deps & Hin & Hc & Hx). exists m. split; [now exists deps | assumption].
  - destruct H as ((deps & Hin & Hc) & Hx). exists m, deps. auto.
Qed.

Hypothesis graph_acyclic : acyclic graph.

(** The call stack holds distinct tracked paths, so it is no deeper than
    the graph is long. *)
Lemma findAffectedModules_bottoms_out (fuel : nat) :
  ∀ (stack : list string) (p : string),
    NoDup stack →
    (∀ s, s ∈ stack → s ∈ graph.*1 ∧ rtc (dependsOn graph) p s) →
    (length graph < fuel + length stack)%nat →
    is_Some (findAffectedModules fuel graph p).
Proof.
  induction fuel as [|fuel IH]; intros stack p Hnd Hstack Hlen.
  - exfalso.
    assert (length stack ≤ length (graph.*1))%nat as Hle.
    { apply submseteq_length, NoDup_submseteq; [assumption |].
      intros s Hs. now apply Hstack. }
    rewrite length_fmap in Hle. simpl in Hlen. lia.
  - rewrite findAffectedModules_unfold.
    assert (∀ entries, entries ⊆ graph →
                       ∀ acc, is_Some (foldl (visit graph fuel p) (Some acc) entries)) as Hloop.
    { induction entries as [|[m deps] entries IHl]; intros Hsub acc; simpl.
      - eauto.
      - assert (entries ⊆ graph) as Hsub'.
        { intros e He. apply Hsub. now right. }
        unfold includes. case_bool_decide as Hdep; [| now apply IHl].
        assert (dependsOn graph m p) as Hmp.
        { exists deps. split; [apply Hsub; left | assumption]. }
        destruct (IH (m :: stack) m) as [ind Hind].
        + apply NoDup_cons. split; [| assumption].
          intros Hm. destruct (Hstack _ Hm) as [_ Hpm].
          apply (graph_acyclic m). eapply tc_rtc_r; [apply tc_once |]; eassumption.
        + intros s [-> | Hs]%elem_of_cons.
          * split; [| reflexivity].
            apply list_elem_of_fmap. exists (m, deps). split; [reflexivity |].
            apply Hsub. left.
          * apply Hstack in Hs as [Hk Hr]. split; [assumption |].
            eapply rtc_l; eassumption.
        + simpl. lia.
        + rewrite Hind. simpl. now apply IHl. }
    now apply Hloop.
Qed.

End AffectedSet.

(** A rank that every dependency edge lowers leaves no room for a cycle. *)
Lemma ranked_acyclic (graph : list (string * list string)) (rank : string → nat) :
  (∀ m d, dependsOn graph m d → (rank d < rank m)%nat) → acyclic graph.
Proof.
  intros Hrank x Hx.
  assert (∀ a b, reaches graph a b → (rank b < rank a)%nat) as Hlt.
  { intros a b H. induction H as [a b H | a b c H _ IH].
    - now apply Hrank.
    - apply Hrank in H. lia. }
  apply Hlt in Hx. lia.
Qed.

Lemma chainGraph_acyclic : acyclic chainGraph.
Proof.
  apply (ranked_acyclic _ chainRank).
  intros m d (deps & Hin & Hd). unfold chainGraph in Hin.
  repeat (apply elem_of_cons in Hin as [Hin | Hin];
          [injection Hin as -> ->; apply list_elem_of_singleton in Hd as ->;
           vm_compute; lia |]).
  now apply elem_of_nil in Hin.
Qed.

(** C3.  For every acyclic dependency graph, [findAffected(p)] returns, and
    what it returns is, as a set, [p] together with every tracked path that
    depends on [p] through one or more edges; no run of it returns anything
    else. *)
Theorem findAffected_transitive_dependents
    (graph : list (string * list string)) (p : string) :
  acyclic graph →
  ∃ affected,
    Dynreload.findAffectedModules (S (length graph)) graph p = Some affected
    ∧ (∀ x, x ∈ affected ↔ x = p ∨ reaches graph x p)
    ∧ (∀ fuel affected', Dynreload.findAffectedModules fuel graph p = Some affected' →
                         ∀ x, x ∈ affected' ↔ x ∈ affected).
Proof.
  intros Hacyclic.
  destruct (findAffectedModules_bottoms_out graph Hacyclic (S (length graph)) [] p)
    as [affected Haff].
  - constructor.
  - intros s Hs. now apply elem_of_nil in Hs.
  - simpl. lia.
  - exists affected. split; [assumption |]. split.
    + now apply (findAffectedModules_sound graph (S (length graph))).
    + intros fuel affected' Haff' x.
      rewrite (findAffectedModules_sound graph _ _ _ Haff' x).
      now rewrite (findAffectedModules_sound graph _ _ _ Haff x).
Qed.

(** The chain A → B → C: a change of C affects C, B and A; a change of A
    affects A alone. *)
Lemma findAffected_chain_witness :
  acyclic chainGraph
  ∧ (∃ affected,
       Dynreload.findAffectedModules 3 chainGraph "/app/c.mjs" = Some affected
       ∧ (∀ x, x ∈ affected ↔ x = "/app/c.mjs" ∨ reaches chainGraph x "/app/c.mjs")
       ∧ (∀ fuel affected',
            Dynreload.findAffectedModules fuel chainGraph "/app/c.mjs" = Some affected' →
            ∀ x, x ∈ affected' ↔ x ∈ affected))
  ∧ Dynreload.findAffectedModules 3 chainGraph "/app/c.mjs"
    = Some ["/app/c.mjs"; "/app/b.mjs"; "/app/a.mjs"]
  ∧ Dynreload.findAffectedModules 3 chainGraph "/app/a.mjs" = Some ["/app/a.mjs"].
Proof.
  split; [exact chainGraph_acyclic |].
  split; [exact (findAffected_transitive_dependents chainGraph "/app/c.mjs"
                   chainGraph_acyclic) |].
  split; reflexivity.
Defined.

(** The tracker records the two-file cycle as [cyclicGraph]. *)
Example cyclicGraph_tracked : dependencyGraph (dyn cyclicWorld) = cyclicGraph.
Proof. vm_compute. reflexivity. Qed.

(** C4.  On two files that import each other the recursion of
    [findAffected] never bottoms out: no call depth suffices for either
    file. *)
Theorem findAffected_cycle_diverges (fuel : nat) :
  Dynreload.findAffectedModules fuel cyclicGraph "/app/a.mjs" = None
  ∧ Dynreload.findAffectedModules fuel cyclicGraph "/app/b.mjs" = None.
Proof.
  induction fuel as [|fuel [IHa IHb]]; [split; reflexivity |].
  split.
  - change (Dynreload.findAffectedModules (S fuel) cyclicGraph "/app/a.mjs")
      with (mbind (fun ind => Some (foldl (fun s m => Dynreload.setAdd m s)
                                          (Dynreload.setAdd "/app/b.mjs" ["/app/a.mjs"]) ind))
                  (Dynreload.findAffectedModules fuel cyclicGraph "/app/b.mjs")).
    now rewrite IHb.
  - change (Dynreload.findAffectedModules (S fuel) cyclicGraph "/app/b.mjs")
      with (foldl (visit cyclicGraph fuel "/app/b.mjs")
              (mbind (fun ind => Some (foldl (fun s m => Dynreload.setAdd m s)
                                          (Dynreload.setAdd "/app/a.mjs" ["/app/b.mjs"]) ind))
                  (Dynreload.findAffectedModules fuel cyclicGraph "/app/a.mjs"))
              [("/app/b.mjs", ["/app/a.mjs"])]).
    rewrite IHa. reflexivity.
Qed.

(** ** Reload *)

Section Reload.

Import Dynreload.

Lemma tryImportModule_spec (file : string) (w : World) :
  tryImportModule file w =
  match importModule file w with
  | (Returns namespace, _) => (Returns (ImportSuccess (loaded namespace) namespace), w)
  | (Throws e, _) => (Returns (ImportFailure e), w)
  | (Diverges, _) => (Diverges, w)
  end.
Proof.
  unfold tryImportModule, tryCatch, bind, importModule, loaded.
  destruct (fs w !! file) as [[|src]|]; try reflexivity.
  destruct (evaluation src) as [e|namespace]; [reflexivity |].
  destruct (isArray _); reflexivity.
Qed.

Lemma importModule_stat (file : string) (w : World) (namespace : JsVal) (w1 : World) :
  importModule file w = (Returns namespace, w1) →
  ∃ src, fs w !! file = Some (SourceFile src) ∧ evaluation src = inr namespace ∧ w1 = w.
Proof.
  unfold importModule. destruct (fs w !! file) as [[|src]|]; try discriminate.
  destruct (evaluation src) as [e|ns] eqn:He; [discriminate |].
  intros [= <- <-]. now exists src.
Qed.

(** C1, as the code has it.  [reload] never throws.  It reports a failure
    exactly when the import fails (the file is missing, does not parse or
    throws); the last-known-good table and the cache are then left as they
    were and the error is written to the console unless the engine is
    silent.  Any module that loads is a success and replaces the
    last-known-good artifact, whatever its structure. *)
Theorem reload_failure_keeps_last_valid (file : string) (w : World) :
  ∃ result w',
    reloadModule file w = (Returns result, w')
    ∧ match result with
      | ReloadFailure error =>
          fst (importModule file w) = Throws error
          ∧ lastValidModules (dyn w') = lastValidModules (dyn w)
          ∧ cache (dyn w') = cache (dyn w)
          ∧ console w' =
              (if silent (dyn w) then console w
               else ConsoleError "Invalid module. Keeping previous version."
                      (Some error) :: console w)
      | ReloadSuccess newModule =>
          (∃ namespace, fst (importModule file w) = Returns namespace
                        ∧ newModule = loaded namespace)
          ∧ getLastValidModule w' file = Some newModule
          ∧ getCached w' file = Some newModule
      end.
Proof.
  unfold reloadModule, tryCatch, bind at 1.
  rewrite tryImportModule_spec.
  destruct (importModule file w) as [[namespace|error|] w1] eqn:Himport.
  - apply importModule_stat in Himport as (src & Hfile & Heval & ->).
    unfold bind, statSync. rewrite Hfile. simpl.
    eexists _, _. split; [reflexivity |]. simpl. split; [eauto |].
    unfold getLastValidModule, getCached. simpl.
    now rewrite !lookup_insert_eq.
  - unfold bind, logError, modify, ret. simpl.
    eexists _, _. split; [reflexivity |]. simpl.
    destruct (silent (dyn w)); simpl; auto.
  - exfalso. unfold importModule in Himport.
    destruct (fs w !! file) as [[|src]|]; try discriminate.
    destruct (evaluation src); discriminate.
Qed.

(** C1, as stated, fails: after an edit that makes the route file export
    a route without a handler, a structurally invalid route list,
    [reload] reports success, replaces the last-known-good artifact by
    the broken list, and writes nothing to the console. *)
Lemma reload_broken_routes_overwrites :
  fst (validateRouteStructure brokenRoutes editedWorld) = Throws ErrRouteShape
  ∧ getLastValidModule editedWorld routesFile = Some goodRoutes
  ∧ fst (reloadModule routesFile editedWorld) = Returns (ReloadSuccess brokenRoutes)
  ∧ getLastValidModule (snd (reloadModule routesFile editedWorld)) routesFile
    = Some brokenRoutes
  ∧ console (snd (reloadModule routesFile editedWorld)) = console editedWorld.
Proof. vm_compute. repeat split. Qed.

(** A file that does not parse any more: the good routes stay the
    last-known-good artifact, the failure is on the console. *)
Example reload_syntax_error_example :
  fst (reloadModule routesFile unparsableWorld)
  = Returns (ReloadFailure (ErrImport routesFile "SyntaxError"))
  ∧ getLastValidModule (snd (reloadModule routesFile unparsableWorld)) routesFile
    = Some goodRoutes
  ∧ console (snd (reloadModule routesFile unparsableWorld))
    = [ConsoleError "Invalid module. Keeping previous version."
         (Some (ErrImport routesFile "SyntaxError"))].
Proof. vm_compute. repeat split. Qed.

End Reload.

(** ** Framing and totality of computations *)

Section Frames.

Context {A : Type} (proj : World → A).

Lemma preserves_ret {B} (b : B) : preserves proj (ret b).
Proof. intros w. reflexivity. Qed.

Lemma preserves_throw {B} (e : JsError) : preserves proj (@throw B e).
Proof. intros w. reflexivity. Qed.

Lemma preserves_diverge {B} : preserves proj (@diverge B).
Proof. intros w. reflexivity. Qed.

Lemma preserves_gets {B} (f : World → B) : preserves proj (gets f).
Proof. intros w. reflexivity. Qed.

Lemma preserves_modify (f : World → World) :
  (∀ w, proj (f w) = proj w) → preserves proj (modify f).
Proof. intros H w. apply H. Qed.

Lemma preserves_bind {B C} (m : M B) (k : B → M C) :
  preserves proj m → (∀ b, preserves proj (k b)) → preserves proj (bind m k).
Proof.
  intros Hm Hk w. unfold bind. specialize (Hm w).
  destruct (m w) as [[b|e|] w1]; simpl in *; [| assumption..].
  now rewrite Hk.
Qed.

Lemma preserves_tryCatch {B} (m : M B) (h : JsError → M B) :
  preserves proj m → (∀ e, preserves proj (h e)) → preserves proj (tryCatch m h).
Proof.
  intros Hm Hh w. unfold tryCatch. specialize (Hm w).
  destruct (m w) as [[b|e|] w1]; simpl in *; [assumption | | assumption].
  now rewrite Hh.
Qed.

Lemma preserves_forEach {B} (l : list B) (f : B → M unit) :
  (∀ x, preserves proj (f x)) → preserves proj (forEach l f).
Proof.
  intros Hf. induction l as [|x l IH]; simpl.
  - apply preserves_ret.
  - apply preserves_bind; auto.
Qed.

Lemma preserves_logError (what : string) (cause : option JsError) :
  (∀ f w, proj (withConsole f w) = proj w) → preserves proj (logError what cause).
Proof. intros H w. unfold logError, modify. simpl. destruct (silent (dyn w)); auto. Qed.

Lemma preserves_logInfo (what : string) :
  (∀ f w, proj (withConsole f w) = proj w) → preserves proj (logInfo what).
Proof. intros H w. unfold logInfo, modify. simpl. destruct (silent (dyn w)); auto. Qed.

End Frames.

Lemma returns_ret {B} (b : B) : returns (ret b).
Proof. intros w. now exists b, w. Qed.

Lemma returns_gets {B} (f : World → B) : returns (gets f).
Proof. intros w. now exists (f w), w. Qed.

Lemma returns_modify (f : World → World) : returns (modify f).
Proof. intros w. now exists tt, (f w). Qed.

Lemma returns_bind {B C} (m : M B) (k : B → M C) :
  returns m → (∀ b, returns (k b)) → returns (bind m k).
Proof.
  intros Hm Hk w. unfold bind. destruct (Hm w) as (b & w1 & ->). apply Hk.
Qed.

Lemma returns_forEach {B} (l : list B) (f : B → M unit) :
  (∀ x, returns (f x)) → returns (forEach l f).
Proof.
  intros Hf. induction l as [|x l IH]; simpl.
  - apply returns_ret.
  - apply returns_bind; auto.
Qed.

Lemma returns_logError (what : string) (cause : option JsError) :
  returns (logError what cause).
Proof. apply returns_modify. Qed.

Lemma returns_logInfo (what : string) : returns (logInfo what).
Proof. apply returns_modify. Qed.

Lemma halts_returns {B} (m : M B) : returns m → halts m.
Proof. intros H w. destruct (H w) as (b & w' & ->). discriminate. Qed.

Lemma halts_throw {B} (e : JsError) : halts (@throw B e).
Proof. intros w. discriminate. Qed.

Lemma halts_bind {B C} (m : M B) (k : B → M C) :
  halts m → (∀ b, halts (k b)) → halts (bind m k).
Proof.
  intros Hm Hk w. unfold bind. specialize (Hm w).
  destruct (m w) as [[b|e|] w1]; simpl in *; [apply Hk | discriminate | contradiction].
Qed.

(** A [try] whose body halts and whose handler returns, returns. *)
Lemma returns_tryCatch {B} (m : M B) (h : JsError → M B) :
  halts m → (∀ e, returns (h e)) → returns (tryCatch m h).
Proof.
  intros Hm Hh w. unfold tryCatch. specialize (Hm w).
  destruct (m w) as [[b|e|] w1]; simpl in *; [eauto | apply Hh | contradiction].
Qed.

Lemma bind_ret_l {B C} (b : B) (k : B → M C) : bind (ret b) k = k b.
Proof. reflexivity. Qed.

Lemma bind_returns {B C} (m : M B) (k : B → M C) (w w1 : World) (b : B) :
  m w = (Returns b, w1) → bind m k w = k b w1.
Proof. intros H. unfold bind. now rewrite H. Qed.

Lemma bind_throws {B C} (m : M B) (k : B → M C) (w w1 : World) (e : JsError) :
  m w = (Throws e, w1) → bind m k w = (Throws e, w1).
Proof. intros H. unfold bind. now rewrite H. Qed.

(** Steps of the frame and totality arguments. *)
Ltac frame_step :=
  first
    [ apply preserves_ret | apply preserves_throw | apply preserves_diverge
    | apply preserves_gets
    | apply preserves_logError; solve [intros; reflexivity | auto]
    | apply preserves_logInfo; solve [intros; reflexivity | auto]
    | apply preserves_modify; intros; reflexivity
    | apply preserves_modify; solve [auto]
    | apply preserves_bind; [| intros ?]
    | apply preserves_tryCatch; [| intros ?]
    | apply preserves_forEach; intros ?
    | match goal with
      | |- preserves _ (match ?x with _ => _ end) => destruct x
      | |- preserves _ (if ?b then _ else _) => destruct b
      end ].

Ltac frame := repeat frame_step.

Ltac total_step :=
  first
    [ apply returns_ret | apply returns_gets | apply returns_modify
    | apply returns_logError | apply returns_logInfo
    | apply returns_bind; [| intros ?]
    | apply returns_forEach; intros ?
    | match goal with
      | |- returns (match ?x with _ => _ end) => destruct x
      | |- returns (if ?b then _ else _) => destruct b
      end ].

Ltac total := repeat total_step.

(** ** The engine's loading steps *)

Section Loading.

Import Dynreload.

Lemma importModule_frame {A} (proj : World → A) (file : string) :
  preserves proj (importModule file).
Proof.
  intros w. unfold importModule.
  destruct (fs w !! file) as [[|src]|]; try reflexivity.
  destruct (evaluation src); reflexivity.
Qed.

Lemma statSync_frame {A} (proj : World → A) (file : string) :
  preserves proj (statSync file).
Proof. intros w. unfold statSync. destruct (fs w !! file) as [[|src]|]; reflexivity. Qed.

Lemma readImports_frame {A} (proj : World → A) (file : string) :
  preserves proj (readImports file).
Proof.
  intros w. unfold readImports.
  destruct (fs w !! file) as [[|src]|]; try reflexivity.
  destruct (imports src); reflexivity.
Qed.

Lemma extractDependencies_returns (file : string) : returns (extractDependencies file).
Proof.
  intros w. unfold extractDependencies, tryCatch, bind, readImports.
  destruct (fs w !! file) as [[|src]|]; simpl; try (eexists _, _; reflexivity).
  destruct (imports src); simpl; eexists _, _; reflexivity.
Qed.

Lemma updateDependencyGraph_returns (levels : nat) :
  ∀ rootPath, returns (updateDependencyGraph levels rootPath).
Proof.
  induction levels as [|below IH]; intros rootPath; simpl.
  - apply returns_ret.
  - apply returns_bind; [apply extractDependencies_returns | intros deps].
    apply returns_bind; [apply returns_modify | intros _].
    destruct below; [apply returns_ret |].
    apply returns_forEach. intros dep.
    apply returns_bind; [apply returns_gets | intros known].
    destruct known; [apply returns_ret | apply IH].
Qed.

Section LoadingFrame.

Context {A : Type} (proj : World → A).
Hypothesis proj_cache : ∀ f w, proj (withDyn (withCache f) w) = proj w.
Hypothesis proj_lastValid : ∀ f w, proj (withDyn (withLastValid f) w) = proj w.
Hypothesis proj_graph : ∀ f w, proj (withDyn (withGraph f) w) = proj w.
Hypothesis proj_console : ∀ f w, proj (withConsole f w) = proj w.

Lemma extractDependencies_frame (file : string) :
  preserves proj (extractDependencies file).
Proof.
  unfold extractDependencies.
  apply preserves_tryCatch; [| intros e; frame].
  apply preserves_bind; [apply readImports_frame | intros resolved; frame].
Qed.

Lemma updateDependencyGraph_frame (levels : nat) :
  ∀ rootPath, preserves proj (updateDependencyGraph levels rootPath).
Proof.
  induction levels as [|below IH]; intros rootPath; simpl.
  - apply preserves_ret.
  - apply preserves_bind; [apply extractDependencies_frame | intros deps].
    apply preserves_bind; [apply preserves_modify; auto | intros _].
    destruct below; [apply preserves_ret |].
    apply preserves_forEach. intros dep.
    apply preserves_bind; [apply preserves_gets | intros known].
    destruct known; [apply preserves_ret | apply IH].
Qed.

Lemma tryImportModule_frame (file : string) : preserves proj (tryImportModule file).
Proof.
  unfold tryImportModule.
  apply preserves_tryCatch; [| intros e; frame].
  apply preserves_bind; [apply importModule_frame | intros ns; frame].
Qed.

Lemma reloadModule_frame (file : string) : preserves proj (reloadModule file).
Proof.
  unfold reloadModule, storeModule.
  apply preserves_tryCatch; [| intros e; frame].
  apply preserves_bind; [apply tryImportModule_frame | intros [routes ns|e]; [| frame]].
  apply preserves_bind; [apply statSync_frame | intros stats; frame].
Qed.

Lemma preload_frame (file : string) : preserves proj (preload file).
Proof.
  unfold preload, storeModule.
  apply preserves_tryCatch; [| intros e; frame].
  apply preserves_bind; [apply preserves_gets | intros present].
  destruct present; simpl; [| apply preserves_throw].
  apply preserves_bind; [apply tryImportModule_frame | intros [routes ns|e]; [| frame]].
  apply preserves_bind; [apply statSync_frame | intros stats].
  apply preserves_bind; [frame | intros _].
  apply preserves_bind; [apply preserves_gets | intros levels].
  apply preserves_bind; [apply updateDependencyGraph_frame | intros _; frame].
Qed.

End LoadingFrame.

(** [preload] of a file that loads returns what the import yields. *)
Lemma preload_loads (file : string) (w : World) (src : Source) (namespace : JsVal) :
  fs w !! file = Some (SourceFile src) →
  evaluation src = inr namespace →
  ∃ w', preload file w = (Returns (loaded namespace), w').
Proof.
  intros Hfile Heval. unfold preload, tryCatch, bind at 1, gets, existsSync.
  rewrite Hfile, bool_decide_true by eauto. simpl.
  unfold bind at 1. rewrite tryImportModule_spec.
  unfold importModule. rewrite Hfile, Heval.
  unfold bind at 1, statSync. rewrite Hfile.
  unfold bind at 1, storeModule. unfold bind at 1 2, modify. simpl.
  unfold bind at 1, gets.
  match goal with
  | |- context [updateDependencyGraph ?l ?f ?w1] =>
      destruct (updateDependencyGraph_returns l f w1) as ([] & w2 & ->)
  end.
  eexists. reflexivity.
Qed.

End Loading.

(** ** Watches *)

Section Watches.

Import Dynreload.

Lemma stopWatching_returns (file : string) : returns (stopWatching file).
Proof. unfold stopWatching. total. Qed.

Lemma reloadModule_callbacks (file : string) :
  preserves (fun w => routeUpdateCallbacks (dyn w)) (reloadModule file).
Proof.
  unfold reloadModule, tryImportModule, storeModule. frame.
  - intros w. unfold importModule.
    destruct (fs w !! file) as [[|src]|]; try reflexivity.
    destruct (evaluation src); reflexivity.
  - intros w. unfold statSync. destruct (fs w !! file) as [[|src]|]; reflexivity.
Qed.

(** C9, as the code has it.  [unwatch(p)] of a watched path closes its
    subscription, forgets the path and removes the callback registered
    for it, so that a later reload of [p] never calls a callback; of a
    path that is not watched it changes nothing. *)
Theorem stopWatching_effect (file : string) (w : World) :
  match watchedFiles (dyn w) !! file with
  | Some handle =>
      ∃ w', stopWatching file w = (Returns tt, w')
            ∧ (handle ∉ watchers w')
            ∧ watchedFiles (dyn w') !! file = None
            ∧ routeUpdateCallbacks (dyn w') !! file = None
            ∧ ∀ invoke, reloadAndNotify invoke file w'
                        = bind (reloadModule file) (fun _ => ret tt) w'
  | None => stopWatching file w = (Returns tt, w)
  end.
Proof.
  destruct (watchedFiles (dyn w) !! file) as [handle|] eqn:Hwatched.
  - eexists. split.
    { unfold stopWatching, bind, gets. simpl. rewrite Hwatched. reflexivity. }
    simpl. split.
    { intros [_ Hin]%elem_of_difference. apply Hin. now apply elem_of_singleton. }
    split; [apply lookup_delete_eq |].
    split; [apply lookup_delete_eq |].
    intros invoke. unfold reloadAndNotify, bind at 1 3.
    match goal with |- context [reloadModule file ?w1] => set (w' := w1) end.
    pose proof (reloadModule_callbacks file w') as Hcb.
    destruct (reloadModule file w') as [[[newModule|error]|e|] w2]; try reflexivity.
    simpl in Hcb. unfold bind, gets. rewrite Hcb. subst w'. simpl.
    now rewrite lookup_delete_eq.
  - unfold stopWatching, bind, gets. simpl. now rewrite Hwatched.
Qed.

(** C9, as stated, fails: a callback registered for a path that is not
    watched survives [unwatch], and the next reload of the path calls it. *)
Lemma stopWatching_keeps_unwatched_callback :
  stopWatching routesFile callbackOnlyWorld = (Returns tt, callbackOnlyWorld)
  ∧ routeUpdateCallbacks (dyn (snd (stopWatching routesFile callbackOnlyWorld))) !! routesFile
    = Some apiCallback
  ∧ console (snd (reloadAndNotify announce routesFile
                    (snd (stopWatching routesFile callbackOnlyWorld))))
    = [ConsoleLog "route update for api"].
Proof. vm_compute. repeat split. Qed.

End Watches.

(** ** The route binder *)

Section RouteBinderFacts.

Import DynExpress.

Variable appFunction : string → bool.

Lemma propOf_value (v : JsVal) (k : string) :
  nullish v = false → propOf v k = ret (getProp v k).
Proof. destruct v; simpl; intros; try discriminate; reflexivity. Qed.

Lemma register_supported (app : nat) (methodLower : string)
    (routePath middleware handler : JsVal) (w : World) :
  appFunction methodLower = true →
  register appFunction app methodLower routePath middleware handler w
  = (Returns tt,
     withHeap (alter (addLayer (RouteLayer methodLower routePath
                                  (if truthy middleware && isFunction middleware
                                   then Some middleware else None) handler)) app) w).
Proof. intros H. unfold register. now rewrite H. Qed.

(** C7, as the code has it.  For a descriptor that is an object:
    [addRoute] first checks the descriptor and fails with a validation
    error, leaving the world as it was, when the method or the path is
    missing or not a string or the handler is missing or not a function,
    whether or not the instance exists; for a descriptor that passes, it
    fails with NotFound when no instance has the name; and when the
    instance exists and the method names a function of the application
    object, it appends the route to the instance's live application object
    and touches neither the registry nor the reload engine. *)
Theorem addRoute_outcome (serverName : string) (descriptor : JsVal) (w : World) :
  nullish descriptor = false →
  (wellFormedDescriptor descriptor = false →
   ∃ e, addRoute appFunction serverName descriptor w = (Throws e, w)
        ∧ errorKind e = ValidationError)
  ∧ (wellFormedDescriptor descriptor = true →
     instances w !! serverName = None →
     addRoute appFunction serverName descriptor w
     = (Throws (ErrServerNotFound serverName), w))
  ∧ (wellFormedDescriptor descriptor = true →
     ∀ instance app,
       instances w !! serverName = Some instance →
       heap w !! instApp instance = Some app →
       appFunction (methodLowerOf descriptor) = true →
       ∃ w', addRoute appFunction serverName descriptor w = (Returns tt, w')
             ∧ heap w' !! instApp instance
               = Some (addLayer (layerOf (methodLowerOf descriptor) descriptor) app)
             ∧ instances w' = instances w
             ∧ dyn w' = dyn w
             ∧ listening w' = listening w).
Proof.
  intros Hobj. unfold addRoute.
  rewrite !(propOf_value _ _ Hobj), !bind_ret_l.
  unfold wellFormedDescriptor, methodLowerOf.
  destruct (getProp descriptor "method") as [| |b|n|m|f|items|props|exports] eqn:Hm;
    try (split; [intros _; eexists; split; reflexivity
                | split; simpl; intros; discriminate]).
  { destruct b;
      (split; [intros _; eexists; split; reflexivity
              | split; simpl; intros; discriminate]). }
  { simpl. destruct (negb (n =? 0)) eqn:Hn; simpl;
      (split; [intros _; eexists; split; reflexivity
              | split; simpl; intros; discriminate]). }
  simpl. destruct (negb (String.eqb m "")) eqn:Hne; simpl;
    [| split; [intros _; eexists; split; reflexivity
              | split; intros; discriminate]].
  destruct (truthy (getProp descriptor "path")) eqn:Hp; simpl;
    [| split; [intros _; eexists; split; reflexivity
              | split; intros; discriminate]].
  destruct (isString (getProp descriptor "path")) eqn:Hps; simpl;
    [| split; [intros _; eexists; split; reflexivity
              | split; intros; discriminate]].
  destruct (truthy (getProp descriptor "handler")) eqn:Hh; simpl;
    [| split; [intros _; eexists; split; reflexivity
              | split; intros; discriminate]].
  destruct (isFunction (getProp descriptor "handler")) eqn:Hhf; simpl;
    [| split; [intros _; eexists; split; reflexivity
              | split; intros; discriminate]].
  split; [intros; discriminate |].
  unfold bind, gets. split.
  - intros _ ->. reflexivity.
  - intros _ instance app -> Happ Hfun.
    unfold callToLowerCase, ret, register. rewrite Hfun.
    unfold logInfo, updateApp, modify. simpl.
    eexists. split; [reflexivity |].
    unfold layerOf, middlewareOf.
    destruct (silent (dyn w)); simpl;
      rewrite lookup_alter_eq, Happ; simpl; auto.
Qed.

Lemma setupRoute_bindable (app : nat) (route : JsVal) (w : World) :
  bindable appFunction route = true →
  setupRoute appFunction app route w
  = (Returns tt,
     withHeap (alter (addLayer (layerOf (methodLowerOf route) route)) app) w).
Proof.
  unfold bindable, setupRoute, methodLowerOf, layerOf, middlewareOf.
  destruct (nullish route) eqn:Hobj; [discriminate |].
  rewrite !(propOf_value _ _ Hobj), !bind_ret_l. simpl.
  destruct (truthy (getProp route "method")) eqn:Hm; [| discriminate].
  destruct (truthy (getProp route "path")) eqn:Hp; [| discriminate].
  destruct (truthy (getProp route "handler")) eqn:Hh; [| discriminate].
  destruct (getProp route "method") as [| |b|n|m|f|items|props|exports]; try discriminate.
  simpl. intros Hfun. unfold bind, ret. simpl. rewrite Hfun. simpl.
  unfold register. now rewrite Hfun.
Qed.

Lemma setupRoute_unbindable (app : nat) (route : JsVal) (w : World) :
  bindable appFunction route = false →
  ∃ e, setupRoute appFunction app route w = (Throws e, w).
Proof.
  unfold bindable, setupRoute.
  destruct (nullish route) eqn:Hobj.
  { intros _. destruct route; try discriminate; eexists; reflexivity. }
  rewrite !(propOf_value _ _ Hobj), !bind_ret_l. simpl.
  destruct (truthy (getProp route "method")) eqn:Hm; [| eexists; reflexivity].
  destruct (truthy (getProp route "path")) eqn:Hp; [| eexists; reflexivity].
  destruct (truthy (getProp route "handler")) eqn:Hh; [| eexists; reflexivity].
  simpl.
  destruct (getProp route "method") as [| |b|n|m|f|items|props|exports];
    try (intros _; eexists; reflexivity).
  intros Hfun. unfold bind, callToLowerCase, ret. rewrite Hfun. eexists; reflexivity.
Qed.

(** The stack after binding a list of routes in order. *)
Lemma forEach_setupRoute_bindable (app : nat) (items : list JsVal) :
  ∀ w, forallb (bindable appFunction) items = true →
       ∃ w', forEach items (setupRoute appFunction app) w = (Returns tt, w')
             ∧ heap w' = alter (bindAll items) app (heap w).
Proof.
  induction items as [|r items IH]; intros w Hall; simpl in *.
  - exists w. split; [reflexivity |]. symmetry. now apply alter_id.
  - apply andb_true_iff in Hall as [Hr Hall].
    erewrite bind_returns by (apply setupRoute_bindable; exact Hr).
    destruct (IH (withHeap (alter (addLayer (layerOf (methodLowerOf r) r)) app) w) Hall)
      as (w' & Hrun & Hheap).
    exists w'. split; [assumption |]. rewrite Hheap. simpl.
    now rewrite alter_alter_eq.
Qed.

(** Binding stops at the first route that cannot be bound. *)
Lemma forEach_setupRoute_unbindable (app : nat) (items : list JsVal) :
  ∀ w, forallb (bindable appFunction) items = false →
       ∃ e w', forEach items (setupRoute appFunction app) w = (Throws e, w').
Proof.
  induction items as [|r items IH]; intros w Hall; simpl in *; [discriminate |].
  destruct (bindable appFunction r) eqn:Hr; simpl in Hall.
  - rewrite (bind_returns _ _ _ _ _ (setupRoute_bindable app r w Hr)).
    now apply IH.
  - destruct (setupRoute_unbindable app r w Hr) as (e & He).
    exists e, w. now rewrite (bind_throws _ _ _ _ _ He).
Qed.

Lemma setupRoutes_frame {A} (proj : World → A) (app : nat) (routes : JsVal) :
  (∀ f w, proj (withHeap f w) = proj w) →
  preserves proj (setupRoutes appFunction app routes).
Proof.
  intros Hheap.
  unfold setupRoutes, setupRoute, register, propOf, callToLowerCase, updateApp.
  frame.
Qed.

Lemma setupRoutes_halts (app : nat) (routes : JsVal) :
  halts (setupRoutes appFunction app routes).
Proof.
  unfold setupRoutes. destruct routes; try apply halts_throw.
  intros w. destruct (forallb (bindable appFunction) items) eqn:Hall.
  - destruct (forEach_setupRoute_bindable app items w Hall) as (w' & -> & _). discriminate.
  - destruct (forEach_setupRoute_unbindable app items w Hall) as (e & w' & ->). discriminate.
Qed.

Lemma setupMiddleware_frame {A} (proj : World → A) (app : nat) (views public : JsVal) :
  (∀ f w, proj (withHeap f w) = proj w) →
  preserves proj (setupMiddleware app views public).
Proof.
  intros Hheap. unfold setupMiddleware, appUse, appSet, updateApp. frame.
Qed.

Lemma setupMiddleware_returns (app : nat) (views public : JsVal) :
  returns (setupMiddleware app views public).
Proof. unfold setupMiddleware, appUse, appSet, updateApp. total. Qed.

End RouteBinderFacts.

(** ** Computations no error escapes *)

Lemma neverThrows_returns {B} (m : M B) : returns m → neverThrows m.
Proof. intros H w e. destruct (H w) as (b & w' & ->). discriminate. Qed.

Lemma neverThrows_diverge {B} : neverThrows (@diverge B).
Proof. intros w e. discriminate. Qed.

Lemma neverThrows_bind {B C} (m : M B) (k : B → M C) :
  neverThrows m → (∀ b, neverThrows (k b)) → neverThrows (bind m k).
Proof.
  intros Hm Hk w e. unfold bind. specialize (Hm w).
  destruct (m w) as [[b|e'|] w1]; simpl in *;
    [apply Hk | exfalso; now apply (Hm e') | discriminate].
Qed.

Lemma neverThrows_tryCatch {B} (m : M B) (h : JsError → M B) :
  (∀ e, neverThrows (h e)) → neverThrows (tryCatch m h).
Proof.
  intros Hh w e. unfold tryCatch.
  destruct (m w) as [[b|e'|] w1]; simpl; [discriminate | apply Hh | discriminate].
Qed.

Lemma neverThrows_forEach {B} (l : list B) (f : B → M unit) :
  (∀ x, neverThrows (f x)) → neverThrows (forEach l f).
Proof.
  intros Hf. induction l as [|x l IH]; simpl.
  - apply neverThrows_returns, returns_ret.
  - apply neverThrows_bind; auto.
Qed.

Lemma bind_case {B C} (m : M B) (k : B → M C) (w : World) :
  bind m k w = match m w with
               | (Returns b, w1) => k b w1
               | (Throws e, w1) => (Throws e, w1)
               | (Diverges, w1) => (Diverges, w1)
               end.
Proof. reflexivity. Qed.

(** ** Watching never throws and touches only the watch tables *)

Section Watching.

Import Dynreload.

Lemma fsWatch_frame {A} (proj : World → A) (file : string) :
  (∀ n f w, proj (withNextRef n (withWatchers f w)) = proj w) →
  preserves proj (fsWatch file).
Proof.
  intros H w. unfold fsWatch. destruct (existsSync w file); simpl; auto.
Qed.

Lemma stopWatching_frame {A} (proj : World → A) (file : string) :
  (∀ f w, proj (withWatchers f w) = proj w) →
  (∀ f w, proj (withDyn (withWatchedFiles f) w) = proj w) →
  (∀ f w, proj (withDyn (withCallbacks f) w) = proj w) →
  preserves proj (stopWatching file).
Proof. intros H1 H2 H3. unfold stopWatching. frame. Qed.

Lemma watch_never_throws (fuel : nat) :
  (∀ file, neverThrows (watchFile fuel file))
  ∧ (∀ file depth, neverThrows (watchDependencies fuel file depth)).
Proof.
  induction fuel as [|fuel [IHf IHd]]; (split; [intros file | intros file depth]); simpl;
    try apply neverThrows_diverge.
  - apply neverThrows_bind; [apply neverThrows_returns, returns_gets | intros watching].
    destruct watching; [apply neverThrows_returns, returns_ret |].
    apply neverThrows_tryCatch. intros e.
    apply neverThrows_returns, returns_bind;
      [apply returns_logError | intros _; apply stopWatching_returns].
  - apply neverThrows_bind; [apply neverThrows_returns, returns_gets | intros limit].
    case_bool_decide; [apply neverThrows_returns, returns_ret |].
    apply neverThrows_bind; [apply neverThrows_returns, returns_gets | intros deps].
    apply neverThrows_forEach. intros dep.
    apply neverThrows_bind; [apply neverThrows_returns, returns_gets | intros watching].
    destruct watching; [apply neverThrows_returns, returns_ret |].
    apply neverThrows_bind; auto.
Qed.

Section WatchingFrame.

Context {A : Type} (proj : World → A).
Hypothesis proj_fresh : ∀ n f w, proj (withNextRef n (withWatchers f w)) = proj w.
Hypothesis proj_watchers : ∀ f w, proj (withWatchers f w) = proj w.
Hypothesis proj_watched : ∀ f w, proj (withDyn (withWatchedFiles f) w) = proj w.
Hypothesis proj_callbacks : ∀ f w, proj (withDyn (withCallbacks f) w) = proj w.
Hypothesis proj_console : ∀ f w, proj (withConsole f w) = proj w.

Lemma watch_frame (fuel : nat) :
  (∀ file, preserves proj (watchFile fuel file))
  ∧ (∀ file depth, preserves proj (watchDependencies fuel file depth)).
Proof.
  induction fuel as [|fuel [IHf IHd]]; (split; [intros file | intros file depth]); simpl;
    try apply preserves_diverge.
  - apply preserves_bind; [apply preserves_gets | intros watching].
    destruct watching; [apply preserves_ret |].
    apply preserves_tryCatch.
    + apply preserves_bind; [now apply fsWatch_frame | intros watcher].
      apply preserves_bind; [apply preserves_modify; auto | intros _].
      apply preserves_bind; [apply preserves_gets | intros deep].
      destruct deep; [apply IHd | apply preserves_ret].
    + intros e. apply preserves_bind; [now apply preserves_logError | intros _].
      now apply stopWatching_frame.
  - apply preserves_bind; [apply preserves_gets | intros limit].
    case_bool_decide; [apply preserves_ret |].
    apply preserves_bind; [apply preserves_gets | intros deps].
    apply preserves_forEach. intros dep.
    apply preserves_bind; [apply preserves_gets | intros watching].
    destruct watching; [apply preserves_ret |].
    apply preserves_bind; auto.
Qed.

End WatchingFrame.

End Watching.

(** ** Port negotiation *)

Section Ports.

Import DynExpress.

Lemma validPort_range (p : Z) : validPort p = true ↔ 0 ≤ p ≤ 65535.
Proof. unfold validPort. rewrite andb_true_iff, Z.leb_le, Z.leb_le. reflexivity. Qed.

Lemma isPortAvailable_run (p : Z) (w : World) :
  0 ≤ p ≤ 65535 →
  isPortAvailable p w = (Returns (bool_decide (portFree w p)), withProbes (cons p) w).
Proof.
  intros Hp. unfold isPortAvailable.
  now rewrite (proj2 (validPort_range p) Hp).
Qed.

Lemma isPortAvailable_bad (p : Z) (w : World) :
  ¬ 0 ≤ p ≤ 65535 → isPortAvailable p w = (Throws (ErrBadPort p), w).
Proof.
  intros Hp. unfold isPortAvailable.
  destruct (validPort p) eqn:Hv; [| reflexivity].
  now apply validPort_range in Hv.
Qed.

Lemma isPortAvailable_frame {A} (proj : World → A) (p : Z) :
  (∀ f w, proj (withProbes f w) = proj w) → preserves proj (isPortAvailable p).
Proof.
  intros H. unfold isPortAvailable.
  destruct (validPort p); simpl; [frame | apply preserves_throw].
Qed.

Lemma probeFrom_frame {A} (proj : World → A) (startPort : JsVal) (k : nat) (base : Z) :
  (∀ f w, proj (withProbes f w) = proj w) →
  ∀ remaining i, preserves proj (probeFrom startPort k base i remaining).
Proof.
  intros H. induction remaining as [|remaining IH]; intros i; simpl.
  - apply preserves_throw.
  - apply preserves_bind; [now apply isPortAvailable_frame | intros available].
    destruct available; [apply preserves_ret | apply IH].
Qed.

Lemma findAvailablePort_frame {A} (proj : World → A) (startPort : JsVal) (k : nat) :
  (∀ f w, proj (withProbes f w) = proj w) →
  preserves proj (findAvailablePort startPort k).
Proof.
  intros H. unfold findAvailablePort.
  destruct (parseInt startPort) as [base| |]; try apply preserves_throw.
  destruct (_ || _); [apply preserves_throw | now apply probeFrom_frame].
Qed.

(** The loop returns the first free port of what is left of the window,
    or finds every port of it taken, or runs past the last port number
    with every port up to it taken. *)
Lemma probeFrom_outcome (startPort : JsVal) (k : nat) (base : Z) :
  ∀ remaining i w,
    0 ≤ base + Z.of_nat i ≤ 65536 →
    (∃ q w', probeFrom startPort k base i remaining w = (Returns q, w')
             ∧ firstFreePort w (base + Z.of_nat i) remaining q
             ∧ q ≤ 65535)
    ∨ (∃ w', probeFrom startPort k base i remaining w
             = (Throws (ErrNoAvailablePort k startPort), w')
             ∧ windowBusy w (base + Z.of_nat i) remaining
             ∧ base + Z.of_nat i + Z.of_nat remaining ≤ 65536)
    ∨ (∃ w', probeFrom startPort k base i remaining w
             = (Throws (ErrBadPort 65536), w')
             ∧ busyToTop w (base + Z.of_nat i)
             ∧ 65536 < base + Z.of_nat i + Z.of_nat remaining).
Proof.
  induction remaining as [|remaining IH]; intros i w Hi; simpl.
  - right. left. exists w. split; [reflexivity |].
    split; [intros r Hr; lia | lia].
  - rewrite bind_case.
    destruct (decide (base + Z.of_nat i = 65536)) as [Htop | Htop].
    + rewrite isPortAvailable_bad by lia. rewrite Htop.
      right. right. exists w. split; [reflexivity |].
      split; [intros r Hr; lia | lia].
    + rewrite isPortAvailable_run by lia.
      case_bool_decide as Hfree.
      * left. eexists _, _. split; [reflexivity |].
        split; [| lia].
        split; [lia |]. split; [assumption |]. intros r Hr. lia.
      * destruct (IH (S i) (withProbes (cons (base + Z.of_nat i)) w) ltac:(lia))
          as [(q & w' & Hrun & (Hrange & Hq & Hbelow) & Hle)
             | [(w' & Hrun & Hbusy & Hle) | (w' & Hrun & Hbusy & Hlt)]].
        -- left. exists q, w'. split; [assumption |].
           split; [| assumption].
           split; [lia |]. split; [assumption |].
           intros r Hr. destruct (decide (r = base + Z.of_nat i)) as [-> | Hne];
             [assumption |].
           apply Hbelow. lia.
        -- right. left. exists w'. split; [assumption |].
           split; [| lia].
           intros r Hr. destruct (decide (r = base + Z.of_nat i)) as [-> | Hne];
             [assumption |].
           apply Hbusy. lia.
        -- right. right. exists w'. split; [assumption |].
           split; [| lia].
           intros r Hr. destruct (decide (r = base + Z.of_nat i)) as [-> | Hne];
             [assumption |].
           apply Hbusy. lia.
Qed.

Lemma firstFreePort_unique (w : World) (base : Z) (budget : nat) (q q' : Z) :
  firstFreePort w base budget q → firstFreePort w base budget q' → q = q'.
Proof.
  intros (Hr & Hf & Hb) (Hr' & Hf' & Hb').
  destruct (Z.lt_trichotomy q q') as [Hlt | [-> | Hlt]]; [| reflexivity |].
  - exfalso. apply (Hb' q); [lia | assumption].
  - exfalso. apply (Hb q'); [lia | assumption].
Qed.

(** What [#findAvailablePort] does: a base port that does not parse or lies
    outside 1024..65535 is rejected before any probe; otherwise the first
    free port of the window is returned, or the window is exhausted, or
    the window runs past port 65535 with every port up to it taken. *)
Lemma findAvailablePort_outcome (startPort : JsVal) (k : nat) (w : World) :
  match parseInt startPort with
  | Parsed base =>
      if (base <? 1024) || (65535 <? base)
      then findAvailablePort startPort k w = (Throws ErrPortRange, w)
      else (∃ q w', findAvailablePort startPort k w = (Returns q, w')
                    ∧ firstFreePort w base k q
                    ∧ q ≤ 65535)
           ∨ (∃ w', findAvailablePort startPort k w
                    = (Throws (ErrNoAvailablePort k startPort), w')
                    ∧ windowBusy w base k
                    ∧ base + Z.of_nat k ≤ 65536)
           ∨ (∃ w', findAvailablePort startPort k w
                    = (Throws (ErrBadPort 65536), w')
                    ∧ busyToTop w base
                    ∧ 65536 < base + Z.of_nat k)
  | NaN => findAvailablePort startPort k w = (Throws ErrPortRange, w)
  | Unconvertible =>
      findAvailablePort startPort k w
      = (Throws (ErrTypeError "Cannot convert object to primitive value"), w)
  end.
Proof.
  unfold findAvailablePort.
  destruct (parseInt startPort) as [base| |]; [| reflexivity | reflexivity].
  destruct (_ || _) eqn:Hrange; [reflexivity |].
  apply orb_false_iff in Hrange as [Hlo Hhi].
  apply Z.ltb_ge in Hlo, Hhi.
  pose proof (probeFrom_outcome startPort k base k 0%nat w) as H.
  rewrite Z.add_0_r in H. apply H. lia.
Qed.

Lemma startServer_free (app : nat) (q : Z) (w : World) :
  0 ≤ q ≤ 65535 →
  portFree w q →
  startServer app q w = (Returns q, withListening (union {[q]}) w).
Proof.
  intros Hq H. unfold startServer, bind, gets.
  rewrite (proj2 (validPort_range q) Hq). simpl. now rewrite bool_decide_true.
Qed.

Lemma startServer_outcome (app : nat) (q : Z) (w : World) :
  startServer app q w = (Returns q, withListening (union {[q]}) w)
  ∨ (∃ e, startServer app q w = (Throws e, w)).
Proof.
  unfold startServer, bind, gets. destruct (validPort q); simpl.
  - case_bool_decide; [left | right; eexists]; reflexivity.
  - right. eexists. reflexivity.
Qed.

End Ports.

(** ** Watching bottoms out *)

Lemma forEach_returns_inv {B} (I : World → Prop) (l : list B) (f : B → M unit) :
  (∀ x w, I w → ∃ w', f x w = (Returns tt, w') ∧ I w') →
  ∀ w, I w → ∃ w', forEach l f w = (Returns tt, w') ∧ I w'.
Proof.
  intros Hf. induction l as [|x l IH]; intros w Hw; simpl.
  - now exists w.
  - destruct (Hf x w Hw) as (w1 & Hrun & Hw1).
    rewrite (bind_returns _ _ _ _ _ Hrun). now apply IH.
Qed.

Section WatchingTerminates.

Import Dynreload.

Lemma stopWatching_unwatched (file : string) (w : World) :
  watchedFiles (dyn w) !! file = None → stopWatching file w = (Returns tt, w).
Proof. intros H. unfold stopWatching, bind, gets. now rewrite H. Qed.

Lemma watchStable_refl (w : World) : watchStable w w.
Proof. split; [reflexivity |]. split; reflexivity. Qed.

Lemma watchStable_trans (w1 w2 w3 : World) :
  watchStable w1 w2 → watchStable w2 w3 → watchStable w1 w3.
Proof.
  intros (Hf & Hd & Hs) (Hf' & Hd' & Hs'). repeat split; [congruence.. |].
  etransitivity; eassumption.
Qed.

Lemma watchStable_unwatched (w w' : World) :
  watchStable w w' → (size (unwatched w') ≤ size (unwatched w))%nat.
Proof.
  intros (Hf & _ & Hs). apply subseteq_size. unfold unwatched. rewrite Hf.
  intros x [Hx Hn]%elem_of_difference. apply elem_of_difference.
  split; [assumption |]. intros Hw. apply Hn. now apply Hs.
Qed.

Lemma unwatched_bound (w : World) : (size (unwatched w) ≤ size (fs w))%nat.
Proof.
  rewrite <- size_dom. apply subseteq_size. unfold unwatched.
  intros x [Hx _]%elem_of_difference. exact Hx.
Qed.

(** With the call depth the bounds ask for, both functions return. *)
Lemma watch_returns (fuel : nat) :
  (∀ n w file,
     (size (unwatched w) ≤ n)%nat →
     (n * (maxDepth (dyn w) + 2) + 1 ≤ fuel)%nat →
     ∃ w', watchFile fuel file w = (Returns tt, w') ∧ watchStable w w')
  ∧ (∀ n depth w file,
       (size (unwatched w) ≤ n)%nat →
       (n * (maxDepth (dyn w) + 2) + (maxDepth (dyn w) - depth) + 1 ≤ fuel)%nat →
       ∃ w', watchDependencies fuel file depth w = (Returns tt, w') ∧ watchStable w w').
Proof.
  induction fuel as [|fuel [IHf IHd]].
  { split; intros; lia. }
  split.
  - intros n w file Hn Hfuel. simpl.
    rewrite bind_case. unfold gets at 1.
    case_bool_decide as Hwatching.
    { exists w. split; [reflexivity | apply watchStable_refl]. }
    unfold tryCatch. rewrite bind_case. unfold fsWatch.
    destruct (existsSync w file) eqn:Hexists.
    + rewrite bind_case. unfold modify at 1.
      rewrite bind_case. unfold gets at 1.
      set (w2 := withDyn _ _).
      assert (watchStable w w2) as Hstable.
      { split; [reflexivity |]. split; [reflexivity |].
        subst w2. simpl. rewrite dom_insert_L. set_solver. }
      assert (size (unwatched w2) < size (unwatched w))%nat as Hless.
      { apply subset_size. split.
        - unfold unwatched. subst w2. simpl. rewrite dom_insert_L. set_solver.
        - intros Hsub. assert (file ∈ unwatched w) as Hin.
          { unfold unwatched. apply elem_of_difference. split.
            - apply elem_of_dom. unfold existsSync in Hexists.
              now apply bool_decide_eq_true in Hexists.
            - intros Hd. apply Hwatching. now apply elem_of_dom in Hd. }
          apply Hsub in Hin. unfold unwatched in Hin. subst w2. simpl in Hin.
          rewrite dom_insert_L in Hin. set_solver. }
      case_bool_decide as Hdeep.
      * destruct (IHd (n - 1)%nat 1%nat w2 file) as (w' & Hrun & Hstable').
        -- lia.
        -- subst w2. simpl. nia.
        -- rewrite Hrun. exists w'. split; [reflexivity |].
           eapply watchStable_trans; eassumption.
      * exists w2. split; [reflexivity | assumption].
    + assert (watchedFiles (dyn w) !! file = None) as Hnone.
      { destruct (watchedFiles (dyn w) !! file) eqn:E; [| reflexivity].
        exfalso. apply Hwatching. eauto. }
      rewrite bind_case. unfold logError at 1, modify at 1. cbv beta.
      set (wl := if silent (dyn w) then w
                 else withConsole
                        (cons (ConsoleError "Error setting up watcher"
                                 (Some (ErrNoEntry file)))) w).
      assert (watchedFiles (dyn wl) !! file = None ∧ watchStable w wl) as [Hnone' Hstable].
      { subst wl. destruct (silent (dyn w)); simpl;
          (split; [assumption | split; [reflexivity | split; reflexivity]]). }
      rewrite (stopWatching_unwatched _ _ Hnone').
      now exists wl.
  - intros n depth w file Hn Hfuel. simpl.
    rewrite bind_case. unfold gets at 1.
    case_bool_decide as Hlimit.
    { exists w. split; [reflexivity | apply watchStable_refl]. }
    rewrite bind_case. unfold gets at 1.
    apply (forEach_returns_inv (watchStable w)); [| apply watchStable_refl].
    intros dep wk Hwk.
    pose proof (watchStable_unwatched _ _ Hwk) as Hsize.
    destruct Hwk as (Hfs & Hdepth & Hsub).
    rewrite bind_case. unfold gets at 1.
    case_bool_decide as Hwatching.
    { exists wk. split; [reflexivity |]. split; [assumption |]. now split. }
    destruct (IHf n wk dep) as (w1 & Hrun1 & Hstable1); [lia | rewrite Hdepth; lia |].
    rewrite (bind_returns _ _ _ _ _ Hrun1).
    pose proof (watchStable_unwatched _ _ Hstable1) as Hsize1.
    destruct (IHd n (S depth) w1 dep) as (w2 & Hrun2 & Hstable2).
    + lia.
    + destruct Hstable1 as (_ & Hdepth1 & _). rewrite Hdepth1, Hdepth. lia.
    + exists w2. split; [assumption |].
      eapply watchStable_trans; [| eassumption].
      eapply watchStable_trans; [| eassumption].
      split; [assumption |]. now split.
Qed.

(** [watchFile] returns once the call depth reaches [watchFuel]. *)
Lemma watchFile_returns (fuel : nat) (file : string) (w : World) :
  (watchFuel w ≤ fuel)%nat →
  ∃ w', watchFile fuel file w = (Returns tt, w').
Proof.
  intros Hfuel.
  destruct (watch_returns fuel) as [Hf _].
  destruct (Hf (size (fs w)) w file) as (w' & Hrun & _).
  - apply unwatched_bound.
  - unfold watchFuel in Hfuel. lia.
  - now exists w'.
Qed.

End WatchingTerminates.

(** ** Creation *)

Lemma throwsPreserving_after {A B C} (proj : World → A) (m : M B) (k : B → M C) :
  preserves proj m → (∀ b, throwsPreserving proj (k b)) →
  throwsPreserving proj (bind m k).
Proof.
  intros Hm Hk w e w' H. rewrite bind_case in H. specialize (Hm w).
  destruct (m w) as [[b|e1|] w1]; simpl in Hm.
  - rewrite <- Hm. now apply (Hk b w1 e w').
  - now injection H as <- <-.
  - discriminate.
Qed.

Lemma throwsPreserving_last {A B C} (proj : World → A) (m : M B) (k : B → M C) :
  throwsPreserving proj m → (∀ b, neverThrows (k b)) →
  throwsPreserving proj (bind m k).
Proof.
  intros Hm Hk w e w' H. rewrite bind_case in H.
  destruct (m w) as [[b|e1|] w1] eqn:Hrun.
  - exfalso. apply (Hk b w1 e). now rewrite H.
  - injection H as <- <-. now apply (Hm w e1 w1).
  - discriminate.
Qed.

Tactic Notation "stage" hyp(H) "as" ident(x) ident(wn) ident(Hrun) :=
  rewrite bind_case in H;
  match type of H with
  | match ?m ?w with _ => _ end = _ =>
      destruct (m w) as [[x|?|] wn] eqn:Hrun; [| discriminate H | discriminate H]
  end.

Ltac framed lem Hrun F :=
  match type of Hrun with
  | _ ?w = _ => pose proof (lem w) as F; rewrite Hrun in F; simpl in F
  end.

Section Creation.

Import Dynreload DynExpress.

Variable appFunction : string → bool.

Lemma validateRouters_frame {A} (proj : World → A) (routers : JsVal) :
  preserves proj (validateRouters routers).
Proof. unfold validateRouters. frame. Qed.

Lemma loadRoutes_frame {A} (proj : World → A) (source : RouterSource) (launch : JsVal) :
  (∀ f w, proj (withDyn (withCache f) w) = proj w) →
  (∀ f w, proj (withDyn (withLastValid f) w) = proj w) →
  (∀ f w, proj (withDyn (withGraph f) w) = proj w) →
  (∀ f w, proj (withConsole f w) = proj w) →
  preserves proj (loadRoutes source launch).
Proof.
  intros H1 H2 H3 H4. unfold loadRoutes. destruct source as [items|file]; [frame |].
  apply preserves_bind; [now apply preload_frame | intros moduleLoad].
  unfold propOf. frame.
Qed.

Lemma express_frame {A} (proj : World → A) :
  (∀ n f w, proj (withNextRef n (withHeap f w)) = proj w) →
  preserves proj express.
Proof. intros H w. apply H. Qed.

Lemma setupHotReloading_frame {A} (proj : World → A) (fuel : nat)
    (serverName file : string) (launch : JsVal) :
  (∀ n f w, proj (withNextRef n (withWatchers f w)) = proj w) →
  (∀ f w, proj (withWatchers f w) = proj w) →
  (∀ f w, proj (withDyn (withWatchedFiles f) w) = proj w) →
  (∀ f w, proj (withDyn (withCallbacks f) w) = proj w) →
  (∀ f w, proj (withConsole f w) = proj w) →
  preserves proj (setupHotReloading fuel serverName file launch).
Proof.
  intros H1 H2 H3 H4 H5. unfold setupHotReloading, setRouteUpdateCallback.
  apply preserves_bind; [apply preserves_modify; auto | intros _].
  now apply watch_frame.
Qed.

Lemma setupHotReloading_never_throws (fuel : nat) (serverName file : string)
    (launch : JsVal) :
  neverThrows (setupHotReloading fuel serverName file launch).
Proof.
  unfold setupHotReloading.
  apply neverThrows_bind; [apply neverThrows_returns, returns_modify | intros _].
  apply watch_never_throws.
Qed.

(** A creation that fails leaves no instance and no socket behind. *)
Lemma tryCreate_throws_frame (fuel : nat) (serverName : string) (config : ServerConfig) :
  throwsPreserving registryAndSockets (tryCreate appFunction fuel serverName config).
Proof.
  unfold tryCreate.
  apply throwsPreserving_after; [apply validateRouters_frame | intros source].
  apply throwsPreserving_after; [apply loadRoutes_frame; reflexivity | intros loaded].
  apply throwsPreserving_after; [apply findAvailablePort_frame; reflexivity | intros q].
  apply throwsPreserving_after; [apply express_frame; reflexivity | intros app].
  apply throwsPreserving_after; [apply setupMiddleware_frame; reflexivity | intros _].
  apply throwsPreserving_after; [apply setupRoutes_frame; reflexivity | intros _].
  apply throwsPreserving_last.
  - intros w e w' H.
    destruct (startServer_outcome app q w) as [Hrun | (e0 & Hrun)]; rewrite Hrun in H;
      [discriminate | now injection H as _ <-].
  - intros server.
    apply neverThrows_bind; [apply neverThrows_returns, returns_gets | intros now].
    apply neverThrows_bind; [apply neverThrows_returns, returns_modify | intros _].
    apply neverThrows_bind; [| intros _; apply neverThrows_returns, returns_ret].
    destruct source as [items|file]; [apply neverThrows_returns, returns_ret |].
    destruct (truthy _); [apply setupHotReloading_never_throws
                         | apply neverThrows_returns, returns_ret].
Qed.

(** A creation that returns has registered the instance under its name,
    listening on the port of the address it returns. *)
Lemma tryCreate_returns_registered (fuel : nat) (serverName : string)
    (config : ServerConfig) (w w' : World) (url : string) :
  tryCreate appFunction fuel serverName config w = (Returns url, w') →
  ∃ instance, instances w' !! serverName = Some instance
              ∧ url = address (instPort instance)
              ∧ instPort instance ∈ listening w'
              ∧ portFree w (instPort instance).
Proof.
  intros H. unfold tryCreate in H.
  stage H as source w1 Hvalidate.
  framed (validateRouters_frame portFree (routers config)) Hvalidate F1.
  stage H as loaded w2 Hload.
  framed (loadRoutes_frame portFree source (defaulted (launch config) (JBool false))
            ltac:(reflexivity) ltac:(reflexivity) ltac:(reflexivity) ltac:(reflexivity))
    Hload F2.
  stage H as q w3 Hport.
  pose proof (findAvailablePort_outcome (port config) 10 w2) as Hq.
  destruct (parseInt (port config)) as [base| |]; [| congruence | congruence].
  destruct (_ || _); [congruence |].
  destruct Hq as [(q' & w3' & Hrun & (_ & Hfree & _) & _)
                 | [(w3' & Hrun & _) | (w3' & Hrun & _)]]; [| congruence | congruence].
  rewrite Hrun in Hport. injection Hport as <- <-.
  stage H as app w4 Hexpress.
  stage H as u1 w5 Hmiddleware.
  stage H as u2 w6 Hroutes.
  stage H as server w7 Hserver.
  destruct (startServer_outcome app q' w6) as [Hrun' | (e0 & Hrun')];
    rewrite Hrun' in Hserver; [| discriminate].
  injection Hserver as <- <-.
  rewrite bind_case in H. unfold gets at 1 in H.
  rewrite bind_case in H. unfold modify at 1 in H.
  stage H as u3 w8 Hwatch.
  injection H as <- <-.
  set (reg := fun w : World => (instances w !! serverName, listening w)) in *.
  assert (preserves reg
            match source with
            | ArraySource _ => ret tt
            | FileSource value =>
                if truthy (defaulted (watchFile config) (JBool false))
                then setupHotReloading fuel serverName value
                       (defaulted (launch config) (JBool false))
                else ret tt
            end) as Hframe.
  { destruct source; [apply preserves_ret |].
    destruct (truthy _); [apply setupHotReloading_frame; reflexivity | apply preserves_ret]. }
  framed Hframe Hwatch F3. unfold reg in F3. simpl in F3.
  injection F3 as Hinst Hlisten. rewrite lookup_insert_eq in Hinst.
  eexists. split; [exact Hinst |]. simpl.
  split; [reflexivity |]. split.
  - rewrite Hlisten. apply elem_of_union. left. now apply elem_of_singleton.
  - rewrite <- F1, <- F2. exact Hfree.
Qed.

Lemma newServer_unnamed (fuel : nat) (config : ServerConfig) (w : World) :
  (∀ n, name config = JStr n → n = "") →
  newServer appFunction fuel config w = (Throws ErrServerNameRequired, w).
Proof.
  intros H. unfold newServer. destruct (name config) as [| | | |n| | | |]; try reflexivity.
  now rewrite (H n eq_refl).
Qed.

Lemma newServer_named (fuel : nat) (config : ServerConfig) (n : string) (w : World) :
  name config = JStr n → n ≠ "" →
  newServer appFunction fuel config w
  = match instances w !! n with
    | Some instance => (Returns (address (instPort instance)), w)
    | None =>
        match tryCreate appFunction fuel n config w with
        | (Throws e, w1) => (Throws e, afterCreationError e w1)
        | r => r
        end
    end.
Proof.
  intros Hname Hn. unfold newServer. rewrite Hname. simpl.
  apply String.eqb_neq in Hn. rewrite Hn. simpl.
  unfold bind at 1, gets. destruct (instances w !! n); [reflexivity |].
  unfold tryCatch. destruct (tryCreate appFunction fuel n config w) as [[url|e|] w1];
    reflexivity.
Qed.

(** C5.  When an instance of the name exists, [createInstance] returns its
    address and leaves the whole world (registry, sockets, application
    objects) as it was; so a second [createInstance] of a name returns the
    address the first one returned and changes nothing.  The registry maps a
    name to one instance; the empty name is rejected and never registered. *)
Theorem newServer_existing_name (fuel fuel' : nat) (config config' : ServerConfig)
    (n : string) (w : World) :
  name config = JStr n →
  name config' = JStr n →
  (n = "" → newServer appFunction fuel config w = (Throws ErrServerNameRequired, w))
  ∧ (n ≠ "" →
     ∀ instance, instances w !! n = Some instance →
                 newServer appFunction fuel config w
                 = (Returns (address (instPort instance)), w))
  ∧ (∀ url w',
       newServer appFunction fuel config w = (Returns url, w') →
       (∃ instance, instances w' !! n = Some instance
                    ∧ url = address (instPort instance))
       ∧ newServer appFunction fuel' config' w' = (Returns url, w')).
Proof.
  intros Hname Hname'. split; [| split].
  - intros ->. apply newServer_unnamed. intros n. rewrite Hname. now intros [= <-].
  - intros Hn instance Hinst. rewrite (newServer_named _ _ _ _ Hname Hn).
    now rewrite Hinst.
  - intros url w' Hrun.
    destruct (decide (n = "")) as [-> | Hn].
    { rewrite newServer_unnamed in Hrun; [discriminate |].
      intros n. rewrite Hname. now intros [= <-]. }
    rewrite (newServer_named _ _ _ _ Hname Hn) in Hrun.
    rewrite (newServer_named _ _ _ _ Hname' Hn).
    destruct (instances w !! n) as [instance|] eqn:Hinst.
    + injection Hrun as <- <-. rewrite Hinst. split; [| reflexivity].
      now exists instance.
    + destruct (tryCreate appFunction fuel n config w) as [[url'|e|] w1] eqn:Hcreate;
        try discriminate.
      injection Hrun as <- <-.
      apply tryCreate_returns_registered in Hcreate
        as (instance & Hinst' & -> & _).
      rewrite Hinst'. split; [| reflexivity]. now exists instance.
Qed.

Lemma accepted_validate (config : ServerConfig) (w : World) (source : RouterSource)
    (loaded : JsVal * JsVal) (w1 : World) :
  routeSourceAccepted config w source loaded w1 →
  validateRouters (routers config) w = (Returns source, w).
Proof.
  intros [Hv _].
  destruct (validateRouters (routers config) w) as [o wv] eqn:E. simpl in Hv. subst o.
  framed (validateRouters_frame (fun w => w) (routers config)) E F. now subst wv.
Qed.

Lemma tryCreate_port_rejected (fuel : nat) (n : string) (config : ServerConfig)
    (w : World) (source : RouterSource) (loaded : JsVal * JsVal) (w1 w2 : World)
    (e : JsError) :
  routeSourceAccepted config w source loaded w1 →
  findAvailablePort (port config) 10 w1 = (Throws e, w2) →
  tryCreate appFunction fuel n config w = (Throws e, w2).
Proof.
  intros Hacc Hport. unfold tryCreate.
  rewrite bind_case, (accepted_validate _ _ _ _ _ Hacc).
  destruct Hacc as [_ Hload]. rewrite bind_case, Hload.
  now rewrite bind_case, Hport.
Qed.

(** The creation goes through when the source is accepted, the window has
    a free port, every route can be bound and the call depth suffices for
    the watch. *)
Lemma tryCreate_binds (fuel : nat) (n : string) (config : ServerConfig)
    (w : World) (source : RouterSource) (loaded : JsVal * JsVal) (w1 : World)
    (base q : Z) (items : list JsVal) :
  routeSourceAccepted config w source loaded w1 →
  parseInt (port config) = Parsed base →
  (base <? 1024) || (65535 <? base) = false →
  firstFreePort w base 10 q →
  q ≤ 65535 →
  fst loaded = JArr items →
  forallb (bindable appFunction) items = true →
  (watchFuel w ≤ fuel)%nat →
  ∃ w' instance,
    tryCreate appFunction fuel n config w = (Returns (address q), w')
    ∧ instances w' !! n = Some instance
    ∧ instPort instance = q
    ∧ instServer instance = q
    ∧ q ∈ listening w'.
Proof.
  intros Hacc Hparse Hrange Hfirst Hqtop Hitems Hbindable Hfuel.
  assert (0 ≤ q) as Hqlow.
  { apply orb_false_iff in Hrange as [Hlo _]. apply Z.ltb_ge in Hlo.
    destruct Hfirst as (Hin & _). lia. }
  set (P := fun w : World => (portFree w, watchFuel w)).
  unfold tryCreate.
  rewrite bind_case, (accepted_validate _ _ _ _ _ Hacc).
  destruct Hacc as [_ Hload]. rewrite bind_case, Hload.
  framed (loadRoutes_frame P source (defaulted (launch config) (JBool false))
            ltac:(reflexivity) ltac:(reflexivity) ltac:(reflexivity) ltac:(reflexivity))
    Hload F1.
  pose proof (findAvailablePort_outcome (port config) 10 w1) as Hq.
  rewrite Hparse, Hrange in Hq.
  destruct Hq as [(q' & w2 & Hport & Hfirst' & _)
                 | [(w2 & Hport & Hbusy & _) | (w2 & Hport & Hbusy & _)]].
  2: { exfalso. destruct Hfirst as (Hin & Hfree & _). apply (Hbusy q Hin).
       injection F1 as HF _. now rewrite HF. }
  2: { exfalso. destruct Hfirst as (Hin & Hfree & _). apply (Hbusy q ltac:(lia)).
       injection F1 as HF _. now rewrite HF. }
  assert (q' = q) as ->.
  { apply (firstFreePort_unique w base 10); [| assumption].
    injection F1 as HF _. unfold firstFreePort in *. now rewrite <- HF. }
  rewrite bind_case, Hport.
  framed (findAvailablePort_frame P (port config) 10 ltac:(reflexivity)) Hport F2.
  rewrite bind_case. unfold express at 1.
  set (app := nextRef w2). set (w3 := withNextRef _ _).
  destruct (setupMiddleware_returns app (defaulted (pathViews config) JNull)
              (defaulted (pathPublic config) JNull) w3) as ([] & w4 & Hmiddleware).
  rewrite bind_case, Hmiddleware.
  framed (setupMiddleware_frame P app (defaulted (pathViews config) JNull)
            (defaulted (pathPublic config) JNull) ltac:(reflexivity)) Hmiddleware F3.
  rewrite Hitems. unfold setupRoutes.
  destruct (forEach_setupRoute_bindable appFunction app items w4 Hbindable)
    as (w5 & Hroutes & _).
  rewrite bind_case, Hroutes.
  pose proof (setupRoutes_frame appFunction P app (JArr items) ltac:(reflexivity) w4) as F4.
  unfold setupRoutes in F4. rewrite Hroutes in F4. simpl in F4.
  assert (P w5 = P w) as HP.
  { rewrite F4, F3. unfold w3. change (P w2 = P w). now rewrite F2, F1. }
  injection HP as Hfree Hfuel5.
  assert (portFree w5 q) as Hq5.
  { rewrite Hfree. apply Hfirst. }
  rewrite bind_case, (startServer_free app q w5 (conj Hqlow Hqtop) Hq5).
  rewrite bind_case. unfold gets at 1.
  rewrite bind_case. unfold modify at 1.
  set (w7 := withInstances _ _).
  set (reg := fun w : World => (instances w !! n, listening w)).
  assert (∃ w8,
            match source with
            | ArraySource _ => ret tt
            | FileSource value =>
                if truthy (defaulted (watchFile config) (JBool false))
                then setupHotReloading fuel n value
                       (defaulted (launch config) (JBool false))
                else ret tt
            end w7 = (Returns tt, w8) ∧ reg w8 = reg w7) as (w8 & Hwatch & Hreg).
  { destruct source as [inline|file]; [now exists w7 |].
    destruct (truthy _); [| now exists w7].
    unfold setupHotReloading, Dynreload.setRouteUpdateCallback.
    rewrite bind_case. unfold modify at 1.
    set (w7' := withDyn _ w7).
    destruct (watchFile_returns fuel file w7') as (w8 & Hrun).
    { change (watchFuel w5 ≤ fuel)%nat. now rewrite Hfuel5. }
    exists w8. split; [assumption |].
    framed (proj1 (watch_frame reg ltac:(reflexivity) ltac:(reflexivity)
                     ltac:(reflexivity) ltac:(reflexivity) ltac:(reflexivity) fuel) file)
      Hrun F5.
    exact F5. }
  rewrite bind_case, Hwatch.
  injection Hreg as Hinst Hlisten. unfold w7 in Hinst. simpl in Hinst.
  rewrite lookup_insert_eq in Hinst.
  eexists _, _. split; [reflexivity |]. split; [exact Hinst |]. simpl.
  split; [reflexivity |]. split; [reflexivity |].
  rewrite Hlisten. unfold w7. simpl. apply elem_of_union. left. now apply elem_of_singleton.
Qed.

(** C2.  [#findAvailablePort], for every probe budget [k]: a base port
    that does not parse or lies outside 1024..65535 is rejected with
    InvalidPort before any probe; otherwise the first free port of the
    window of [k] ports is returned, or the window is exhausted, or, the
    ports up to 65535 being taken and the window reaching past 65535, the
    probe of port 65536 throws a RangeError, which is not the exhaustion
    error.  [createInstance] (budget 10) of a fresh name whose route source
    is accepted: rejects with InvalidPort, without a probe, a base port out
    of range; rejects with PortExhausted a window within 1024..65535 whose
    ports are all taken, leaving no instance and no socket; rejects with the
    RangeError, not with PortExhausted, a window that reaches past 65535
    when every port up to 65535 is taken; and otherwise, its routes being
    bindable, returns the address of the first free port of the window with
    the instance registered and listening on that port. *)
Theorem newServer_port_negotiation (fuel : nat) (config : ServerConfig) (n : string)
    (w : World) (source : RouterSource) (loaded : JsVal * JsVal) (w1 : World) :
  name config = JStr n → n ≠ "" → instances w !! n = None →
  routeSourceAccepted config w source loaded w1 →
  (∀ startPort k w0,
     match parseInt startPort with
     | Parsed base =>
         if (base <? 1024) || (65535 <? base)
         then findAvailablePort startPort k w0 = (Throws ErrPortRange, w0)
         else (∃ q w', findAvailablePort startPort k w0 = (Returns q, w')
                       ∧ firstFreePort w0 base k q
                       ∧ q ≤ 65535)
              ∨ (∃ w', findAvailablePort startPort k w0
                       = (Throws (ErrNoAvailablePort k startPort), w')
                       ∧ windowBusy w0 base k
                       ∧ base + Z.of_nat k ≤ 65536)
              ∨ (∃ w', findAvailablePort startPort k w0
                       = (Throws (ErrBadPort 65536), w')
                       ∧ busyToTop w0 base
                       ∧ 65536 < base + Z.of_nat k)
     | NaN => findAvailablePort startPort k w0 = (Throws ErrPortRange, w0)
     | Unconvertible =>
         findAvailablePort startPort k w0
         = (Throws (ErrTypeError "Cannot convert object to primitive value"), w0)
     end)
  ∧ match parseInt (port config) with
    | Parsed base =>
        if (base <? 1024) || (65535 <? base)
        then ∃ w', newServer appFunction fuel config w = (Throws ErrPortRange, w')
                   ∧ probes w' = probes w
                   ∧ registryAndSockets w' = registryAndSockets w
        else
          (windowBusy w base 10 → base + 10 ≤ 65536 →
           ∃ w', newServer appFunction fuel config w
                 = (Throws (ErrNoAvailablePort 10 (port config)), w')
                 ∧ registryAndSockets w' = registryAndSockets w)
          ∧ (busyToTop w base → 65536 < base + 10 →
             ∃ w', newServer appFunction fuel config w
                   = (Throws (ErrBadPort 65536), w')
                   ∧ errorKind (ErrBadPort 65536) ≠ PortExhaustedError
                   ∧ registryAndSockets w' = registryAndSockets w)
          ∧ (∀ q items,
               firstFreePort w base 10 q →
               q ≤ 65535 →
               fst loaded = JArr items →
               forallb (bindable appFunction) items = true →
               (watchFuel w ≤ fuel)%nat →
               ∃ w' instance,
                 newServer appFunction fuel config w = (Returns (address q), w')
                 ∧ instances w' !! n = Some instance
                 ∧ instPort instance = q
                 ∧ instServer instance = q
                 ∧ q ∈ listening w')
    | NaN => ∃ w', newServer appFunction fuel config w = (Throws ErrPortRange, w')
                   ∧ probes w' = probes w
                   ∧ registryAndSockets w' = registryAndSockets w
    | Unconvertible =>
        ∃ w', newServer appFunction fuel config w
              = (Throws (ErrTypeError "Cannot convert object to primitive value"), w')
              ∧ probes w' = probes w
              ∧ registryAndSockets w' = registryAndSockets w
    end.
Proof.
  intros Hname Hn Hfresh Hacc.
  split; [intros startPort k w0; apply findAvailablePort_outcome |].
  rewrite (newServer_named _ _ _ _ Hname Hn), Hfresh.
  set (P := fun w : World => (probes w, registryAndSockets w, portFree w)).
  assert (P w1 = P w) as HP.
  { destruct Hacc as [_ Hload].
    framed (loadRoutes_frame P source (defaulted (launch config) (JBool false))
              ltac:(reflexivity) ltac:(reflexivity) ltac:(reflexivity)
              ltac:(reflexivity)) Hload F.
    exact F. }
  injection HP as Hprobes Hinst Hlisten Hfree.
  assert (registryAndSockets w1 = registryAndSockets w) as Hreg.
  { unfold registryAndSockets. congruence. }
  assert (∀ e, findAvailablePort (port config) 10 w1 = (Throws e, w1) →
               ∃ w', match tryCreate appFunction fuel n config w with
                     | (Throws e0, w2) => (Throws e0, afterCreationError e0 w2)
                     | r => r
                     end = (Throws e, w')
                     ∧ probes w' = probes w
                     ∧ registryAndSockets w' = registryAndSockets w) as Hreject.
  { intros e Hport.
    rewrite (tryCreate_port_rejected fuel n config w source loaded w1 w1 e Hacc Hport).
    eexists. split; [reflexivity |].
    unfold afterCreationError.
    destruct (silent (dyn w1)); (split; [exact Hprobes | exact Hreg]). }
  assert (∀ e w2, findAvailablePort (port config) 10 w1 = (Throws e, w2) →
               ∃ w', match tryCreate appFunction fuel n config w with
                     | (Throws e0, w2) => (Throws e0, afterCreationError e0 w2)
                     | r => r
                     end = (Throws e, w')
                     ∧ registryAndSockets w' = registryAndSockets w) as Hfails.
  { intros e w2 Hport.
    rewrite (tryCreate_port_rejected fuel n config w source loaded w1 w2 _ Hacc Hport).
    eexists. split; [reflexivity |].
    framed (findAvailablePort_frame registryAndSockets (port config) 10
              ltac:(reflexivity)) Hport F.
    assert (registryAndSockets w2 = registryAndSockets w) as Hreg2 by congruence.
    unfold afterCreationError. destruct (silent (dyn w2)); exact Hreg2. }
  pose proof (findAvailablePort_outcome (port config) 10 w1) as Hq.
  destruct (parseInt (port config)) as [base| |] eqn:Hparse;
    [| now apply Hreject | now apply Hreject].
  destruct ((base <? 1024) || (65535 <? base)) eqn:Hrange; [now apply Hreject |].
  split; [| split].
  - intros Hbusy Htop.
    destruct Hq as [(q & w2 & Hport & (Hin & Hq & _) & _)
                   | [(w2 & Hport & _) | (w2 & Hport & _ & Hpast)]].
    + exfalso. apply (Hbusy q Hin). now rewrite <- Hfree.
    + now apply Hfails with w2.
    + exfalso. simpl in Hpast. lia.
  - intros Hbusy Hpast.
    destruct Hq as [(q & w2 & Hport & (Hin & Hq & _) & Hle)
                   | [(w2 & Hport & _ & Htop) | (w2 & Hport & _)]].
    + exfalso. apply (Hbusy q ltac:(lia)). now rewrite <- Hfree.
    + exfalso. simpl in Htop. lia.
    + destruct (Hfails _ w2 Hport) as (w' & Hrun & Hkept).
      exists w'. split; [exact Hrun |]. split; [discriminate | exact Hkept].
  - intros q items Hfirst Hqtop Hitems Hbindable Hfuel.
    destruct (tryCreate_binds fuel n config w source loaded w1 base q items
                Hacc Hparse Hrange Hfirst Hqtop Hitems Hbindable Hfuel)
      as (w' & instance & -> & Hrest).
    now exists w', instance.
Qed.

Lemma forallb_acceptedInline (items : list JsVal) :
  forallb (acceptedInline appFunction) items
  = forallb routeShaped items && forallb (bindable appFunction) items.
Proof.
  induction items as [|r items IH]; [reflexivity |]. simpl. rewrite IH.
  unfold acceptedInline.
  destruct (routeShaped r), (bindable appFunction r), (forallb routeShaped items);
    reflexivity.
Qed.

(** C8, as the code has it.  For an inline list of a fresh name: the shape
    of every descriptor (an object with a string method, a string path and
    a function handler) is checked before a port is probed, an application
    object is built or a route is bound; that method and path are not empty
    and that the method names a function of the application object is
    checked descriptor by descriptor while binding.  A list with a
    descriptor that fails any of these makes the creation fail, with no
    instance registered and no socket listening. *)
Theorem newServer_rejects_invalid_inline (fuel : nat) (config : ServerConfig)
    (n : string) (items : list JsVal) (w : World) :
  name config = JStr n → n ≠ "" → instances w !! n = None →
  routers config = JArr items →
  forallb (acceptedInline appFunction) items = false →
  (∃ e w', newServer appFunction fuel config w = (Throws e, w')
           ∧ registryAndSockets w' = registryAndSockets w)
  ∧ (forallb routeShaped items = false →
     ∃ w', newServer appFunction fuel config w = (Throws ErrRouteShape, w')
           ∧ heap w' = heap w
           ∧ probes w' = probes w
           ∧ nextRef w' = nextRef w).
Proof.
  intros Hname Hn Hfresh Hrouters Hbad.
  rewrite (newServer_named _ _ _ _ Hname Hn), Hfresh.
  rewrite forallb_acceptedInline in Hbad.
  assert (validateRouters (routers config) w
          = if forallb routeShaped items then (Returns (ArraySource items), w)
            else (Throws ErrRouteShape, w)) as Hvalidate.
  { rewrite Hrouters. unfold validateRouters.
    destruct (forallb routeShaped items); reflexivity. }
  split.
  - assert (∃ e w1, tryCreate appFunction fuel n config w = (Throws e, w1))
      as (e & w1 & Hcreate).
    { unfold tryCreate. rewrite bind_case, Hvalidate.
      destruct (forallb routeShaped items); [| eauto].
      simpl in Hbad. rewrite bind_case. unfold loadRoutes, ret at 1.
      rewrite bind_case.
      pose proof (findAvailablePort_outcome (port config) 10 w) as Hq.
      destruct (parseInt (port config)) as [base| |];
        [| rewrite Hq; eauto | rewrite Hq; eauto].
      destruct (_ || _); [rewrite Hq; eauto |].
      destruct Hq as [(q & w2 & Hport & _) | [(w2 & Hport & _) | (w2 & Hport & _)]];
        rewrite Hport; [| eauto | eauto].
      rewrite bind_case. unfold express at 1.
      set (app := nextRef w2). set (w3 := withNextRef _ _).
      destruct (setupMiddleware_returns app (defaulted (pathViews config) JNull)
                  (defaulted (pathPublic config) JNull) w3) as ([] & w4 & Hmiddleware).
      rewrite bind_case, Hmiddleware.
      rewrite bind_case. simpl fst. unfold setupRoutes.
      destruct (forEach_setupRoute_unbindable appFunction app items w4 Hbad)
        as (e & w5 & Hroutes).
      rewrite Hroutes. eauto. }
    rewrite Hcreate. eexists _, _. split; [reflexivity |].
    apply tryCreate_throws_frame in Hcreate.
    unfold afterCreationError. destruct (silent (dyn w1)); exact Hcreate.
  - intros Hshape. rewrite Hshape in Hvalidate.
    unfold tryCreate. rewrite bind_case, Hvalidate.
    eexists. split; [reflexivity |].
    unfold afterCreationError. destruct (silent (dyn w)); repeat split.
Qed.

Lemma validateRouters_file (file : string) (w : World) :
  Path.extname file = ".js" ∨ Path.extname file = ".mjs" →
  is_Some (fs w !! file) →
  validateRouters (JStr file) w = (Returns (FileSource file), w).
Proof.
  intros Hext Hfile. unfold validateRouters.
  assert (negb (String.eqb (Path.extname file) ".js")
          && negb (String.eqb (Path.extname file) ".mjs") = false) as ->.
  { destruct Hext as [-> | ->]; reflexivity. }
  unfold bind, gets, existsSync. now rewrite bool_decide_true.
Qed.

End Creation.

(** ** Shutdown *)

Section Shutdown.

Import Dynreload DynExpress.

Lemma closing_refl (w : World) : closing w w.
Proof. split; [reflexivity | auto]. Qed.

Lemma closing_same (w w' : World) :
  watchers w' = watchers w →
  watchedFiles (dyn w') = watchedFiles (dyn w) →
  closing w w'.
Proof. intros Hw Hf. split; [now rewrite Hw | intros file handle H; left; now rewrite Hf]. Qed.

Lemma closing_trans (w1 w2 w3 : World) :
  closing w1 w2 → closing w2 w3 → closing w1 w3.
Proof.
  intros [Hs H] [Hs' H']. split; [etransitivity; eassumption |].
  intros file handle Hw. destruct (H file handle Hw) as [Hw2 | Hclosed].
  - now apply H'.
  - right. intros Hin. apply Hclosed. now apply Hs'.
Qed.

Lemma stopWatching_closing (file : string) (w : World) :
  ∃ w', stopWatching file w = (Returns tt, w')
        ∧ closing w w'
        ∧ registryAndSockets w' = registryAndSockets w
        ∧ watchedFiles (dyn w') = delete file (watchedFiles (dyn w)).
Proof.
  unfold stopWatching. rewrite bind_case. unfold gets at 1.
  destruct (watchedFiles (dyn w) !! file) as [handle|] eqn:Hwatched.
  - eexists. split; [reflexivity |]. simpl. split; [| split; reflexivity].
    split; simpl.
    + intros x [Hx _]%elem_of_difference. exact Hx.
    + intros q h Hq. destruct (decide (q = file)) as [-> | Hne].
      * right. rewrite Hwatched in Hq. injection Hq as <-.
        intros [_ Hn]%elem_of_difference. apply Hn. now apply elem_of_singleton.
      * left. now rewrite lookup_delete_ne.
  - exists w. split; [reflexivity |]. split; [apply closing_refl |].
    split; [reflexivity |]. symmetry. now apply delete_id.
Qed.

(** One stop of [cleanup], with its own [catch]. *)
Lemma stopServer_caught (n : string) (w : World) :
  ∃ w', tryCatch (bind (stopServer n) (fun _ => ret tt))
          (fun err => logError "Error stopping server" (Some err)) w
        = (Returns tt, w')
        ∧ stopped n w w'.
Proof.
  assert (∀ w0 e, ∃ w', logError "Error stopping server" (Some e) w0 = (Returns tt, w')
                       ∧ registryAndSockets w' = registryAndSockets w0
                       ∧ watchers w' = watchers w0
                       ∧ watchedFiles (dyn w') = watchedFiles (dyn w0)) as Hlog.
  { intros w0 e. unfold logError, modify. eexists. split; [reflexivity |].
    destruct (silent (dyn w0)); repeat split. }
  unfold tryCatch. rewrite bind_case. unfold stopServer.
  rewrite bind_case. unfold gets at 1.
  destruct (instances w !! n) as [instance|] eqn:Hinst.
  - assert (∃ w1, match instRouters instance with
                  | JStr file =>
                      if truthy (instWatchFile instance) then stopWatching file else ret tt
                  | _ => ret tt
                  end w = (Returns tt, w1)
                  ∧ closing w w1
                  ∧ registryAndSockets w1 = registryAndSockets w) as (w1 & Hrun & Hclosing & Hreg).
    { destruct (instRouters instance);
        try (exists w; split; [reflexivity | split; [apply closing_refl | reflexivity]]).
      destruct (truthy (instWatchFile instance)).
      - destruct (stopWatching_closing s w) as (w1 & Hrun & Hc & Hr & _). now exists w1.
      - exists w. split; [reflexivity | split; [apply closing_refl | reflexivity]]. }
    injection Hreg as Hinsts Hlisten.
    rewrite bind_case, Hrun. rewrite bind_case. unfold gets at 1.
    case_bool_decide as Hrunning.
    + rewrite bind_case. unfold modify at 1. rewrite bind_case. unfold modify at 1.
      eexists. split; [reflexivity |].
      split; [| split; [| split; [| split]]]; simpl.
      * rewrite Hlisten. intros x [Hx _]%elem_of_difference. exact Hx.
      * intros m Hm. rewrite lookup_delete_ne by congruence. now rewrite Hinsts.
      * left. apply lookup_delete_eq.
      * intros instance' Hinst'. rewrite Hinst in Hinst'. injection Hinst' as <-.
        intros [_ Hn]%elem_of_difference. apply Hn. now apply elem_of_singleton.
      * eapply closing_trans; [exact Hclosing |]. now apply closing_same.
    + unfold throw. cbv iota beta.
      destruct (Hlog w1 ErrServerNotRunning) as (w2 & -> & Hreg2 & Hw2 & Hf2).
      injection Hreg2 as Hinsts2 Hlisten2.
      exists w2. split; [reflexivity |].
      split; [| split; [| split; [| split]]].
      * now rewrite Hlisten2, Hlisten.
      * intros m Hm. now rewrite Hinsts2, Hinsts.
      * right. now rewrite Hinsts2, Hinsts.
      * intros instance' Hinst'. rewrite Hinst in Hinst'. injection Hinst' as <-.
        now rewrite Hlisten2.
      * eapply closing_trans; [exact Hclosing |]. now apply closing_same.
  - unfold throw. cbv iota beta.
    destruct (Hlog w (ErrServerNotFound n)) as (w2 & -> & Hreg2 & Hw2 & Hf2).
    injection Hreg2 as Hinsts2 Hlisten2.
    exists w2. split; [reflexivity |].
    split; [| split; [| split; [| split]]].
    + now rewrite Hlisten2.
    + intros m Hm. now rewrite Hinsts2.
    + right. now rewrite Hinsts2.
    + intros instance' Hinst'. rewrite Hinst in Hinst'. discriminate.
    + now apply closing_same.
Qed.

(** The stops of [cleanup] over the names still to stop. *)
Lemma stops_complete (w : World) :
  ∀ (names : list string) (wk : World),
    NoDup names →
    listening wk ⊆ listening w →
    (∀ m, m ∈ names → instances wk !! m = instances w !! m) →
    (∀ m instance, instances wk !! m = Some instance → instances w !! m = Some instance) →
    closing w wk →
    ∃ w', forEach names
            (fun name => tryCatch (bind (stopServer name) (fun _ => ret tt))
                           (fun err => logError "Error stopping server" (Some err))) wk
          = (Returns tt, w')
          ∧ listening w' ⊆ listening wk
          ∧ (∀ m instance, m ∈ names → instances w !! m = Some instance →
                           instServer instance ∉ listening w')
          ∧ (∀ m instance, instances w' !! m = Some instance →
                           instances w !! m = Some instance)
          ∧ closing w w'.
Proof.
  induction names as [|n names IH]; intros wk Hnd Hlisten Hfresh Hsub Hclosing; simpl.
  - exists wk. split; [reflexivity |]. split; [reflexivity |].
    split; [| split; assumption].
    intros m instance Hm. now apply elem_of_nil in Hm.
  - apply NoDup_cons in Hnd as [Hn Hnd].
    destruct (stopServer_caught n wk) as (w1 & Hrun & Hl1 & Hother & Hself & Hclosed & Hc1).
    rewrite bind_case, Hrun.
    destruct (IH w1 Hnd) as (w' & Hrun' & Hl' & Hclosed' & Hsub' & Hc').
    + etransitivity; eassumption.
    + intros m Hm. rewrite Hother; [apply Hfresh; now right |].
      intros ->. contradiction.
    + intros m instance Hm. destruct (decide (m = n)) as [-> | Hne].
      * destruct Hself as [Hnone | Hkept]; [congruence |].
        apply Hsub. now rewrite <- Hkept.
      * apply Hsub. now rewrite <- (Hother m Hne).
    + eapply closing_trans; eassumption.
    + exists w'. split; [assumption |].
      split; [etransitivity; eassumption |].
      split; [| split; assumption].
      intros m instance [-> | Hm]%elem_of_cons Hinst.
      * intros Hin. apply Hl' in Hin. revert Hin. apply Hclosed.
        rewrite Hfresh; [assumption | now left].
      * now apply (Hclosed' m).
Qed.

(** [stopWatchingAll] over the files still to unwatch. *)
Lemma unwatch_all (w : World) :
  ∀ (files : list string) (wk : World),
    (∀ file, is_Some (watchedFiles (dyn wk) !! file) → file ∈ files) →
    closing w wk →
    ∃ w', forEach files stopWatching wk = (Returns tt, w')
          ∧ watchedFiles (dyn w') = ∅
          ∧ registryAndSockets w' = registryAndSockets wk
          ∧ closing w w'.
Proof.
  induction files as [|file files IH]; intros wk Hall Hclosing; simpl.
  - exists wk. split; [reflexivity |]. split; [| split; [reflexivity | assumption]].
    apply map_empty. intros file.
    destruct (watchedFiles (dyn wk) !! file) eqn:E; [| reflexivity].
    exfalso. eapply elem_of_nil, Hall. eauto.
  - destruct (stopWatching_closing file wk) as (w1 & Hrun & Hc1 & Hreg1 & Hdel).
    rewrite bind_case, Hrun.
    destruct (IH w1) as (w' & Hrun' & Hempty & Hreg' & Hc').
    + intros q Hq. rewrite Hdel in Hq.
      destruct (decide (q = file)) as [-> | Hne].
      * rewrite lookup_delete_eq in Hq. now destruct Hq.
      * rewrite lookup_delete_ne in Hq by congruence.
        apply Hall in Hq. apply elem_of_cons in Hq as [-> | Hq]; [contradiction | assumption].
    + eapply closing_trans; eassumption.
    + exists w'. split; [assumption |]. split; [assumption |].
      split; [congruence | assumption].
Qed.

(** C6.  [cleanup()] returns for every registry, whatever stops fail: a
    stop that fails is caught (and logged unless the host is silent).
    Every instance had its stop attempted: afterwards no socket of an
    instance listens, and what is left in the registry is instances that
    were there and whose stop failed.  Then the watches are torn down: no
    file is watched, no watcher of a watched file is open, and the tables of
    the reload engine are empty. *)
Theorem cleanup_completes (w : World) :
  ∃ w', cleanup w = (Returns tt, w')
        ∧ (∀ n instance, instances w !! n = Some instance →
                         instServer instance ∉ listening w')
        ∧ (∀ n instance, instances w' !! n = Some instance →
                         instances w !! n = Some instance)
        ∧ listening w' ⊆ listening w
        ∧ watchedFiles (dyn w') = ∅
        ∧ routeUpdateCallbacks (dyn w') = ∅
        ∧ cache (dyn w') = ∅
        ∧ lastValidModules (dyn w') = ∅
        ∧ dependencyGraph (dyn w') = []
        ∧ (∀ file handle, watchedFiles (dyn w) !! file = Some handle →
                          handle ∉ watchers w').
Proof.
  unfold cleanup. rewrite bind_case. unfold gets at 1.
  destruct (stops_complete w ((map_to_list (instances w)).*1) w)
    as (w1 & Hrun & Hlisten & Hclosed & Hsub & Hclosing).
  - apply NoDup_fst_map_to_list.
  - reflexivity.
  - reflexivity.
  - auto.
  - apply closing_refl.
  - rewrite bind_case, Hrun.
    unfold Dynreload.cleanup, stopWatchingAll.
    rewrite bind_case, bind_case. unfold gets at 1.
    destruct (unwatch_all w ((map_to_list (watchedFiles (dyn w1))).*1) w1)
      as (w2 & Hrun2 & Hempty & Hreg & [Hwatchers Hhandles]).
    + intros file [handle Hfile].
      apply list_elem_of_fmap. exists (file, handle). split; [reflexivity |].
      now apply elem_of_map_to_list.
    + assumption.
    + rewrite Hrun2. injection Hreg as Hinsts2 Hlisten2.
      eexists. split; [reflexivity |]. simpl.
      split; [| split; [| split; [| split; [| split; [| split; [| split; [| split]]]]]]];
        try reflexivity.
      * intros n instance Hinst. rewrite Hlisten2.
        apply (Hclosed n); [| assumption].
        apply list_elem_of_fmap. exists (n, instance). split; [reflexivity |].
        now apply elem_of_map_to_list.
      * intros n instance. rewrite Hinsts2. apply Hsub.
      * now rewrite Hlisten2.
      * exact Hempty.
      * intros file handle Hfile.
        destruct (Hhandles file handle Hfile) as [Hstill | Hgone]; [| exact Hgone].
        rewrite Hempty in Hstill. discriminate.
Qed.

(** A stop that fails: [cleanup] returns, the failure is on the console,
    the instance stays registered. *)
Example cleanup_failing_stop_example :
  fst (cleanup staleWorld) = Returns tt
  ∧ is_Some (instances (snd (cleanup staleWorld)) !! "api")
  ∧ console (snd (cleanup staleWorld))
    = [ConsoleError "Error stopping server" (Some ErrServerNotRunning)].
Proof. vm_compute. repeat split. eauto. Qed.

End Shutdown.

(** ** The properties on the sample hosts *)

(** C2 on a host whose port 3000 is taken: the instance is bound to 3001.
    On a host whose port 65535 is taken, a creation from the base port
    65535 probes 65535 and then fails on port 65536 with the RangeError,
    not with the exhaustion error. *)
Lemma newServer_port_negotiation_witness :
  (∃ w' instance,
     DynExpress.newServer httpVerb 5 (inlineConfig "api" goodRoutes 3000) busyWorld
     = (Returns (DynExpress.address 3001), w')
     ∧ instances w' !! "api" = Some instance
     ∧ instPort instance = 3001
     ∧ instServer instance = 3001
     ∧ 3001 ∈ listening w')
  ∧ ∃ w', DynExpress.newServer httpVerb 5 (inlineConfig "api" goodRoutes 65535) topWorld
          = (Throws (ErrBadPort 65536), w')
          ∧ errorKind (ErrBadPort 65536) ≠ PortExhaustedError
          ∧ registryAndSockets w' = registryAndSockets topWorld.
Proof.
  split.
  - destruct (newServer_port_negotiation httpVerb 5 (inlineConfig "api" goodRoutes 3000)
                "api" busyWorld (DynExpress.ArraySource [route "GET" "/" (JFun 1)])
                (goodRoutes, JUndefined) busyWorld)
      as [_ [_ [_ H]]].
    + reflexivity.
    + discriminate.
    + reflexivity.
    + split; reflexivity.
    + apply (H 3001 [route "GET" "/" (JFun 1)]).
      * split; [lia |]. split.
        -- unfold portFree. simpl. set_solver.
        -- intros r Hr Hfree. assert (r = 3000) as -> by lia.
           apply Hfree. simpl. set_solver.
      * lia.
      * reflexivity.
      * reflexivity.
      * vm_compute. lia.
  - destruct (newServer_port_negotiation httpVerb 5 (inlineConfig "api" goodRoutes 65535)
                "api" topWorld (DynExpress.ArraySource [route "GET" "/" (JFun 1)])
                (goodRoutes, JUndefined) topWorld)
      as [_ [_ [H _]]].
    + reflexivity.
    + discriminate.
    + reflexivity.
    + split; reflexivity.
    + apply H.
      * intros r Hr Hfree. assert (r = 65535) as -> by lia.
        apply Hfree. simpl. set_solver.
      * lia.
Defined.

(** C5 on the host with the instance "api": a second creation under the
    name, with other routes and another port, returns the address of the
    first and changes nothing. *)
Lemma newServer_existing_name_witness :
  DynExpress.newServer httpVerb 0 (inlineConfig "api" brokenRoutes 4000) apiWorld
  = (Returns "http://localhost:3000/", apiWorld).
Proof.
  destruct (newServer_existing_name httpVerb 0 0 (inlineConfig "api" brokenRoutes 4000)
              (inlineConfig "api" brokenRoutes 4000) "api" apiWorld eq_refl eq_refl)
    as (_ & H & _).
  assert (∃ instance, instances apiWorld !! "api" = Some instance
                      ∧ instPort instance = 3000) as (instance & Hinst & Hport).
  { vm_compute. eauto. }
  rewrite (H ltac:(discriminate) instance Hinst), Hport. reflexivity.
Defined.

(** C7 on the host with the instance "api": a POST route is bound at once. *)
Lemma addRoute_outcome_witness :
  ∃ w', DynExpress.addRoute httpVerb "api" postDescriptor apiWorld = (Returns tt, w')
        ∧ (DynExpress.routesOf <$> heap w' !! 0%nat)
          = Some [(JStr "/", "get"); (JStr "/x", "post")].
Proof.
  destruct (addRoute_outcome httpVerb "api" postDescriptor apiWorld eq_refl)
    as (_ & _ & H).
  edestruct (H eq_refl) as (w' & Hrun & Hheap & _).
  - vm_compute. reflexivity.
  - vm_compute. reflexivity.
  - reflexivity.
  - exists w'. split; [exact Hrun |].
    simpl in Hheap. rewrite Hheap. reflexivity.
Defined.

(** C7, as stated, fails: without an instance "api", a descriptor that has
    no method fails with the validation error, not with NotFound; and on
    the instance "api", a descriptor whose method the application object
    does not have fails with a TypeError, not with a validation error. *)
Lemma addRoute_validation_precedes_lookup :
  instances (boot true 3 ∅ ∅) !! "api" = None
  ∧ DynExpress.addRoute httpVerb "api" noMethodDescriptor (boot true 3 ∅ ∅)
    = (Throws ErrRouteMethodRequired, boot true 3 ∅ ∅)
  ∧ errorKind ErrRouteMethodRequired ≠ NotFoundError
  ∧ is_Some (instances apiWorld !! "api")
  ∧ fst (DynExpress.addRoute httpVerb "api" fooDescriptor apiWorld)
    = Throws (ErrTypeError "app[methodLower] is not a function")
  ∧ errorKind (ErrTypeError "app[methodLower] is not a function") ≠ ValidationError.
Proof.
  split; [reflexivity |]. split; [reflexivity |]. split; [discriminate |].
  split; [vm_compute; eauto |]. split; [vm_compute; reflexivity | discriminate].
Qed.

(** C8 on a fresh host: the list with the FOO descriptor is rejected and
    nothing is registered. *)
Lemma newServer_rejects_invalid_inline_witness :
  ∃ e w', DynExpress.newServer httpVerb 0 (inlineConfig "api" mixedRoutes 3000)
            (boot true 3 ∅ ∅) = (Throws e, w')
          ∧ registryAndSockets w' = registryAndSockets (boot true 3 ∅ ∅).
Proof.
  destruct (newServer_rejects_invalid_inline httpVerb 0
              (inlineConfig "api" mixedRoutes 3000) "api"
              [route "GET" "/" (JFun 1); fooDescriptor] (boot true 3 ∅ ∅))
    as [H _]; [reflexivity | discriminate | reflexivity | reflexivity | reflexivity |].
  exact H.
Defined.

(** C8, as stated, fails: the GET route of the mixed list is bound onto the
    application object before the FOO descriptor is found unsupported; and a
    path that does not start with a slash, which the engine's own
    [#validateRouteStructure] calls invalid, is accepted and bound. *)
Lemma newServer_binds_before_validating :
  fst (DynExpress.newServer httpVerb 0 (inlineConfig "api" mixedRoutes 3000)
         (boot true 3 ∅ ∅))
  = Throws (ErrUnsupportedMethod (JStr "FOO"))
  ∧ (DynExpress.routesOf
       <$> heap (snd (DynExpress.newServer httpVerb 0
                        (inlineConfig "api" mixedRoutes 3000) (boot true 3 ∅ ∅))) !! 0%nat)
    = Some [(JStr "/", "get")]
  ∧ fst (Dynreload.validateRouteStructure oddPathRoutes (boot true 3 ∅ ∅))
    = Throws (ErrInvalidPath (JStr "not a path"))
  ∧ fst (DynExpress.newServer httpVerb 0 (inlineConfig "api" oddPathRoutes 3000)
           (boot true 3 ∅ ∅))
    = Returns "http://localhost:3000/".
Proof. vm_compute. repeat split. Qed.

(** C9 on a host that watches the route file: the watch and the callback
    are gone after [unwatch]. *)
Example stopWatching_watched_example :
  is_Some (watchedFiles (dyn watchingWorld) !! routesFile)
  ∧ routeUpdateCallbacks (dyn watchingWorld) !! routesFile = Some apiCallback
  ∧ routeUpdateCallbacks (dyn (snd (Dynreload.stopWatching routesFile watchingWorld)))
      !! routesFile = None
  ∧ watchers (snd (Dynreload.stopWatching routesFile watchingWorld)) = ∅.
Proof. vm_compute. repeat split. eauto. Qed.



(** * Further properties *)

(** ** When the affected set exists *)

Section AffectedSetExists.

Import Dynreload.

Variable graph : list (string * list string).

(** A recursive call that does not bottom out sinks the whole loop. *)
Lemma visit_sinks (fuel : nat) (changed m : string) (deps : list string) :
  changed ∈ deps →
  findAffectedModules fuel graph m = None →
  ∀ (entries : list (string * list string)) (acc : option (list string)),
    (m, deps) ∈ entries →
    foldl (visit graph fuel changed) acc entries = None.
Proof.
  intros Hdep Hnone. induction entries as [|e entries IH]; intros acc Hin.
  - now apply elem_of_nil in Hin.
  - simpl. apply elem_of_cons in Hin as [<- | Hin]; [| now apply IH].
    destruct acc as [acc|]; simpl; [| apply visit_none].
    unfold includes. rewrite bool_decide_true by assumption.
    rewrite Hnone. simpl. apply visit_none.
Qed.

Lemma findAffectedModules_cycle_above (fuel : nat) :
  ∀ p, onCycleAbove graph p → findAffectedModules fuel graph p = None.
Proof.
  induction fuel as [|fuel IH]; intros p (x & Hxp & Hxx); [reflexivity |].
  apply (reaches_last graph) in Hxp as (m & (deps & Hin & Hdep) & Hxm).
  rewrite findAffectedModules_unfold.
  apply (visit_sinks fuel p m deps Hdep); [| assumption].
  apply IH. destruct Hxm as [-> | Hxm].
  - now exists m.
  - now exists x.
Qed.

Lemma findAffectedModules_bottoms_out_above (origin : string) (fuel : nat) :
  ¬ onCycleAbove graph origin →
  ∀ (stack : list string) (p : string),
    NoDup stack →
    p = origin ∨ reaches graph p origin →
    (∀ s, s ∈ stack → s ∈ graph.*1 ∧ rtc (dependsOn graph) p s) →
    (length graph < fuel + length stack)%nat →
    is_Some (findAffectedModules fuel graph p).
Proof.
  intros Hfree.
  induction fuel as [|fuel IH]; intros stack p Hnd Horigin Hstack Hlen.
  - exfalso.
    assert (length stack ≤ length (graph.*1))%nat as Hle.
    { apply submseteq_length, NoDup_submseteq; [assumption |].
      intros s Hs. now apply Hstack. }
    rewrite length_fmap in Hle. simpl in Hlen. lia.
  - rewrite findAffectedModules_unfold.
    assert (∀ entries, entries ⊆ graph →
                       ∀ acc, is_Some (foldl (visit graph fuel p) (Some acc) entries)) as Hloop.
    { induction entries as [|[m deps] entries IHl]; intros Hsub acc; simpl.
      - eauto.
      - assert (entries ⊆ graph) as Hsub'.
        { intros e He. apply Hsub. now right. }
        unfold includes. case_bool_decide as Hdep; [| now apply IHl].
        assert (dependsOn graph m p) as Hmp.
        { exists deps. split; [apply Hsub; left | assumption]. }
        assert (reaches graph m origin) as Hmo.
        { destruct Horigin as [-> | Hpo]; [now apply tc_once |].
          eapply tc_l; eassumption. }
        destruct (IH (m :: stack) m) as [ind Hind].
        + apply NoDup_cons. split; [| assumption].
          intros Hm. destruct (Hstack _ Hm) as [_ Hpm].
          apply Hfree. exists m. split; [assumption |].
          eapply tc_rtc_r; [apply tc_once |]; eassumption.
        + now right.
        + intros s [-> | Hs]%elem_of_cons.
          * split; [| reflexivity].
            apply list_elem_of_fmap. exists (m, deps). split; [reflexivity |].
            apply Hsub. left.
          * destruct (Hstack _ Hs) as [Hk Hr]. split; [assumption |].
            eapply rtc_l; eassumption.
        + simpl. lia.
        + rewrite Hind. simpl. now apply IHl. }
    now apply Hloop.
Qed.

(** X1.  [findAffected(p)] returns exactly when no module that depends on [p]
    takes part in an import cycle; cycles elsewhere in the graph do not
    matter, and a call depth of the size of the graph plus one suffices. *)
Theorem findAffected_returns_iff_no_cycle_above (p : string) :
  (is_Some (findAffectedModules (S (length graph)) graph p) ↔ ¬ onCycleAbove graph p)
  ∧ ((∃ fuel, is_Some (findAffectedModules fuel graph p)) ↔ ¬ onCycleAbove graph p).
Proof.
  assert (¬ onCycleAbove graph p →
          is_Some (findAffectedModules (S (length graph)) graph p)) as Hback.
  { intros Hfree.
    apply (findAffectedModules_bottoms_out_above p (S (length graph)) Hfree []).
    - constructor.
    - now left.
    - intros s Hs. now apply elem_of_nil in Hs.
    - simpl. lia. }
  split; split; try exact Hback.
  - intros [s Hs] Hcycle.
    rewrite (findAffectedModules_cycle_above _ p Hcycle) in Hs. discriminate.
  - intros [fuel [s Hs]] Hcycle.
    rewrite (findAffectedModules_cycle_above _ p Hcycle) in Hs. discriminate.
  - intros Hfree. exists (S (length graph)). now apply Hback.
Qed.

End AffectedSetExists.

(** ** Invariants of computations *)

Lemma keeps_ret {B} (I : World → Prop) (b : B) : keeps I (ret b).
Proof. intros w H. exact H. Qed.

Lemma keeps_throw {B} (I : World → Prop) (e : JsError) : keeps I (@throw B e).
Proof. intros w H. exact H. Qed.

Lemma keeps_diverge {B} (I : World → Prop) : keeps I (@diverge B).
Proof. intros w H. exact H. Qed.

Lemma keeps_gets {B} (I : World → Prop) (f : World → B) : keeps I (gets f).
Proof. intros w H. exact H. Qed.

Lemma keeps_modify (I : World → Prop) (f : World → World) :
  (∀ w, I w → I (f w)) → keeps I (modify f).
Proof. intros Hf w H. now apply Hf. Qed.

Lemma keeps_bind {B C} (I : World → Prop) (m : M B) (k : B → M C) :
  keeps I m → (∀ b, keeps I (k b)) → keeps I (bind m k).
Proof.
  intros Hm Hk w H. unfold bind. specialize (Hm w H).
  destruct (m w) as [[b|e|] w1]; simpl in *; [now apply Hk | assumption..].
Qed.

Lemma keeps_tryCatch {B} (I : World → Prop) (m : M B) (h : JsError → M B) :
  keeps I m → (∀ e, keeps I (h e)) → keeps I (tryCatch m h).
Proof.
  intros Hm Hh w H. unfold tryCatch. specialize (Hm w H).
  destruct (m w) as [[b|e|] w1]; simpl in *; [assumption | now apply Hh | assumption].
Qed.

Lemma keeps_forEach {B} (I : World → Prop) (l : list B) (f : B → M unit) :
  (∀ x, keeps I (f x)) → keeps I (forEach l f).
Proof.
  intros Hf. induction l as [|x l IH]; simpl.
  - apply keeps_ret.
  - apply keeps_bind; auto.
Qed.

(** An invariant that reads one component is kept by what preserves the
    component. *)
Lemma keeps_preserves {A B} (proj : World → A) (I : World → Prop) (m : M B) :
  (∀ w w', proj w' = proj w → I w → I w') →
  preserves proj m → keeps I m.
Proof. intros Hproj Hm w H. exact (Hproj _ _ (Hm w) H). Qed.

Lemma keeps_logError (I : World → Prop) (what : string) (cause : option JsError) :
  (∀ f w, I w → I (withConsole f w)) → keeps I (logError what cause).
Proof. intros Hc w H. unfold logError, modify. simpl. destruct (silent (dyn w)); auto. Qed.

Lemma keeps_logInfo (I : World → Prop) (what : string) :
  (∀ f w, I w → I (withConsole f w)) → keeps I (logInfo what).
Proof. intros Hc w H. unfold logInfo, modify. simpl. destruct (silent (dyn w)); auto. Qed.

Ltac keep_step :=
  first
    [ apply keeps_ret | apply keeps_throw | apply keeps_diverge | apply keeps_gets
    | apply keeps_logError; solve [auto]
    | apply keeps_logInfo; solve [auto]
    | apply keeps_modify; solve [auto]
    | apply keeps_bind; [| intros ?]
    | apply keeps_tryCatch; [| intros ?]
    | apply keeps_forEach; intros ?
    | match goal with
      | |- keeps _ (match ?x with _ => _ end) => destruct x
      | |- keeps _ (if ?b then _ else _) => destruct b
      end ].

Ltac keep := repeat keep_step.

(** A loop whose turns return, advance along a preorder [R] and each
    establish a fact that [R] does not undo. *)
Lemma forEach_returns_each {B} (R : World → World → Prop) (P : B → World → Prop)
    (l : list B) (f : B → M unit) :
  (∀ w, R w w) →
  (∀ w1 w2 w3, R w1 w2 → R w2 w3 → R w1 w3) →
  (∀ x w w', R w w' → P x w → P x w') →
  (∀ x w, ∃ w', f x w = (Returns tt, w') ∧ R w w' ∧ P x w') →
  ∀ w, ∃ w', forEach l f w = (Returns tt, w') ∧ R w w' ∧ ∀ x, x ∈ l → P x w'.
Proof.
  intros Hrefl Htrans Hmono Hstep.
  induction l as [|x l IH]; intros w; simpl.
  - exists w. split; [reflexivity |]. split; [apply Hrefl |].
    intros x Hx. now apply elem_of_nil in Hx.
  - destruct (Hstep x w) as (w1 & Hrun & HR & HP).
    rewrite (bind_returns _ _ _ _ _ Hrun).
    destruct (IH w1) as (w' & Hrun' & HR' & HP').
    exists w'. split; [assumption |]. split; [eapply Htrans; eassumption |].
    intros y [-> | Hy]%elem_of_cons; [| now apply HP'].
    eapply Hmono; eassumption.
Qed.

(** ** The dependency tracker *)

Section Tracker.

Import Dynreload.

Lemma graphGet_graphSet_eq (k : string) (v : list string) (g : list (string * list string)) :
  graphGet k (graphSet k v g) = Some v.
Proof.
  induction g as [|[k' v'] g IH]; simpl.
  - now rewrite String.eqb_refl.
  - destruct (String.eqb k' k) eqn:E; simpl; rewrite ?E, ?String.eqb_refl; auto.
Qed.

Lemma graphGet_graphSet_ne (k k' : string) (v : list string)
    (g : list (string * list string)) :
  k ≠ k' → graphGet k' (graphSet k v g) = graphGet k' g.
Proof.
  intros Hne. induction g as [|[k0 v0] g IH]; simpl.
  - apply String.eqb_neq in Hne. now rewrite Hne.
  - destruct (String.eqb k0 k) eqn:E; simpl.
    + apply String.eqb_eq in E as ->.
      apply String.eqb_neq in Hne. now rewrite Hne.
    + destruct (String.eqb k0 k'); auto.
Qed.

Lemma logged_refl (w : World) : logged w w.
Proof. exists []. now destruct w. Qed.

Lemma logged_trans (w1 w2 w3 : World) : logged w1 w2 → logged w2 w3 → logged w1 w3.
Proof.
  intros [l1 ->] [l2 ->]. exists (l2 ++ l1)%list.
  unfold withConsole. simpl. now rewrite app_assoc.
Qed.

Lemma logError_logged (what : string) (cause : option JsError) (w : World) :
  ∃ w', logError what cause w = (Returns tt, w') ∧ logged w w'.
Proof.
  unfold logError, modify. eexists. split; [reflexivity |].
  destruct (silent (dyn w)); [apply logged_refl |].
  now exists [ConsoleError what cause].
Qed.

Lemma isAbsolute_append (p q : string) :
  Path.isAbsolute p = true → Path.isAbsolute (p ++ q) = true.
Proof. destruct p; [discriminate | trivial]. Qed.

Lemma isAbsolute_dirname (path : string) :
  Path.isAbsolute (Path.dirname path) = Path.isAbsolute path.
Proof.
  unfold Path.dirname. destruct path as [|first rest]; [reflexivity |].
  cbn [list_ascii_of_string Path.isAbsolute].
  destruct (Path.dropWhile _ _) as [|c [|c' before]];
    destruct (Path.isSlash first) eqn:Hfirst; cbn; try rewrite Hfirst; reflexivity.
Qed.

Lemma isAbsolute_normalize (path : string) :
  Path.isAbsolute path = true → Path.isAbsolute (Path.normalize path) = true.
Proof.
  intros Habs. unfold Path.normalize.
  destruct path as [|c rest]; [discriminate |].
  cbn [String.eqb]. rewrite Habs.
  destruct (String.eqb _ ""); [reflexivity |].
  destruct (Path.endsWithSlash _); reflexivity.
Qed.

Lemma isAbsolute_resolve (cwd dirName clean : string) :
  Path.isAbsolute dirName = true →
  Path.isAbsolute (Path.resolve cwd [dirName; clean]) = true.
Proof.
  intros Habs. unfold Path.resolve. cbn [rev app Path.resolveFrom].
  assert (String.eqb dirName "" = false) as Hd.
  { destruct dirName; [discriminate | reflexivity]. }
  destruct (String.eqb clean ""); [| destruct (Path.isAbsolute clean)];
    rewrite ?Hd, ?Habs; reflexivity.
Qed.

Lemma isAbsolute_join (p q : string) :
  Path.isAbsolute p = true → Path.isAbsolute (Path.join [p; q]) = true.
Proof.
  intros Habs. unfold Path.join. cbn [List.filter].
  assert (String.eqb p "" = false) as ->.
  { destruct p; [discriminate | reflexivity]. }
  cbn [negb]. destruct (negb (String.eqb q "")); cbn [List.filter joinWith].
  - apply isAbsolute_normalize. now apply isAbsolute_append.
  - now apply isAbsolute_normalize.
Qed.

Lemma completeExtension_spec (w : World) (resolvedPath : string) (extensions : list string) :
  completeExtension w resolvedPath extensions = resolvedPath
  ∨ (existsSync w (completeExtension w resolvedPath extensions) = true
     ∧ ∃ ext, ext ∈ extensions
              ∧ (completeExtension w resolvedPath extensions = resolvedPath ++ ext
                 ∨ completeExtension w resolvedPath extensions
                   = Path.join [resolvedPath; "index" ++ ext])).
Proof.
  induction extensions as [|ext rest IH]; [now left |]. simpl.
  destruct (existsSync w (resolvedPath ++ ext)) eqn:Htest.
  { right. split; [exact Htest |]. exists ext. split; [now left | now left]. }
  destruct (existsSync w (Path.join [resolvedPath; "index" ++ ext])) eqn:Hindex.
  { right. split; [exact Hindex |]. exists ext. split; [now left | now right]. }
  destruct IH as [-> | (Hexists & ext' & Hin & Hcase)]; [now left |].
  right. split; [exact Hexists |]. exists ext'. split; [now right | exact Hcase].
Qed.

Lemma resolveDependency_spec (w : World) (dirName specifier d : string) :
  resolveDependency w dirName specifier = Some d →
  startsWithDot specifier || startsWithSlash specifier = true
  ∧ is_Some (fs w !! d)
  ∧ (Path.isAbsolute dirName = true → Path.isAbsolute d = true).
Proof.
  unfold resolveDependency. intros H.
  destruct (startsWithDot specifier) eqn:Hdot, (startsWithSlash specifier) eqn:Hslash;
    cbn [negb andb orb] in *; try discriminate H.
  all: split; [reflexivity |].
  all: set (resolved := Path.resolve (cwd w) [dirName; removeQuotes specifier]) in *.
  all: set (completed := if String.eqb (Path.extname resolved) "" then _ else _) in *.
  all: destruct (existsSync w completed) eqn:Hexists; [| discriminate H].
  all: injection H as <-.
  all: split; [unfold existsSync in Hexists; now apply bool_decide_eq_true in Hexists |].
  all: intros Habs;
       pose proof (isAbsolute_resolve (cwd w) dirName (removeQuotes specifier) Habs)
         as Hres.
  all: fold resolved in Hres; subst completed.
  all: destruct (String.eqb (Path.extname resolved) ""); [| exact Hres].
  all: destruct (completeExtension_spec w resolved (fileExtensions (dyn w)))
         as [-> | (_ & ext & _ & [-> | ->])];
       [exact Hres | now apply isAbsolute_append | now apply isAbsolute_join].
Qed.

(** A dependency comes from a specifier that starts with a dot or a slash,
    exists on disk, and is an absolute path when the importing file's
    directory is. *)
Lemma resolvedImports_spec (w : World) (file : string) :
  Forall (fun d => is_Some (fs w !! d)) (resolvedImports w file)
  ∧ (Path.isAbsolute file = true →
     Forall (fun d => Path.isAbsolute d = true) (resolvedImports w file))
  ∧ (∀ src specifiers,
       fs w !! file = Some (SourceFile src) →
       imports src = Some specifiers →
       resolvedImports w file
       = omap (resolveDependency w (Path.dirname file))
           (List.filter (fun specifier => startsWithDot specifier
                                          || startsWithSlash specifier) specifiers)).
Proof.
  unfold resolvedImports.
  destruct (fs w !! file) as [[|src]|];
    try (split; [constructor | split; [intros; constructor | intros; congruence]]).
  destruct (imports src) as [specifiers|] eqn:Himports;
    [| split; [constructor | split; [intros; constructor | intros; congruence]]].
  split; [| split].
  - apply Forall_forall. intros d Hd.
    apply list_elem_of_omap in Hd as (specifier & _ & Hd).
    now apply resolveDependency_spec in Hd.
  - intros Habs. apply Forall_forall. intros d Hd.
    apply list_elem_of_omap in Hd as (specifier & _ & Hd).
    apply resolveDependency_spec in Hd as (_ & _ & Hd). apply Hd.
    now rewrite isAbsolute_dirname.
  - intros src' specifiers' [= <-] Hsame. rewrite Himports in Hsame.
    injection Hsame as <-. clear Himports.
    induction specifiers as [|specifier rest IH]; [reflexivity |].
    cbn [omap list_omap List.filter]. rewrite IH.
    destruct (startsWithDot specifier || startsWithSlash specifier) eqn:Hkind;
      [reflexivity |].
    unfold resolveDependency at 1. apply orb_false_iff in Hkind as [-> ->].
    reflexivity.
Qed.

(** What the specifiers resolve to depends on the disk, the working
    directory and the extensions only. *)
Lemma completeExtension_same (w w' : World) (resolvedPath : string)
    (extensions : list string) :
  fs w' = fs w →
  completeExtension w' resolvedPath extensions
  = completeExtension w resolvedPath extensions.
Proof.
  intros Hfs. induction extensions as [|ext rest IH]; [reflexivity |]. simpl.
  unfold existsSync. now rewrite Hfs, IH.
Qed.

Lemma resolvedImports_same (w w' : World) (file : string) :
  fs w' = fs w → cwd w' = cwd w →
  fileExtensions (dyn w') = fileExtensions (dyn w) →
  resolvedImports w' file = resolvedImports w file.
Proof.
  intros Hfs Hcwd Hext. unfold resolvedImports. rewrite Hfs.
  destruct (fs w !! file) as [[|src]|]; try reflexivity.
  destruct (imports src) as [specifiers|]; [| reflexivity].
  assert (∀ specifier,
            resolveDependency w' (Path.dirname file) specifier
            = resolveDependency w (Path.dirname file) specifier) as Hsame.
  { intros specifier. unfold resolveDependency.
    rewrite Hcwd, Hext, (completeExtension_same w w' _ _ Hfs).
    unfold existsSync. now rewrite Hfs. }
  induction specifiers as [|specifier rest IH]; [reflexivity |].
  cbn [omap list_omap]. now rewrite Hsame, IH.
Qed.

(** [#extractDependencies] fails open: it returns the resolved imports,
    none for a file it cannot read, and at most writes to the console. *)
Lemma extractDependencies_run (file : string) (w : World) :
  ∃ w', extractDependencies file w = (Returns (resolvedImports w file), w')
        ∧ logged w w'.
Proof.
  unfold extractDependencies, tryCatch, resolvedImports. rewrite bind_case.
  unfold readImports.
  destruct (fs w !! file) as [[|src]|] eqn:Hfile.
  - rewrite bind_case.
    destruct (logError_logged "Error extracting dependencies"
                (Some (ErrTypeError "EISDIR")) w) as (w' & -> & Hl). now exists w'.
  - destruct (imports src) as [resolved|].
    + exists w. split; [reflexivity | apply logged_refl].
    + rewrite bind_case.
      destruct (logError_logged "Error extracting dependencies"
                  (Some (ErrImport file "parse error")) w) as (w' & -> & Hl).
      now exists w'.
  - rewrite bind_case.
    destruct (logError_logged "Error extracting dependencies"
                (Some (ErrNoEntry file)) w) as (w' & -> & Hl). now exists w'.
Qed.

Lemma graphGrows_refl (w : World) : graphGrows w w.
Proof. split; auto. Qed.

Lemma graphGrows_tracked (w w' : World) (k : string) :
  graphGrows w w' → tracked w k → tracked w' k.
Proof. intros [_ H] Hk. unfold tracked. now rewrite (H k Hk). Qed.

Lemma graphGrows_trans (w1 w2 w3 : World) :
  graphGrows w1 w2 → graphGrows w2 w3 → graphGrows w1 w3.
Proof.
  intros [Hf H] [Hf' H'].
  split; [congruence |]. intros k Hk. rewrite H'; [now apply H |].
  unfold tracked. now rewrite (H k Hk).
Qed.

(** The effect of [#updateDependencyGraph] with [levels] levels to go. *)
Lemma updateDependencyGraph_run (levels : nat) :
  ∀ (rootPath : string) (w : World),
    ∃ w', updateDependencyGraph levels rootPath w = (Returns tt, w')
          ∧ fs w' = fs w
          ∧ (∀ k, k ≠ rootPath → tracked w k →
                  graphGet k (dependencyGraph (dyn w'))
                  = graphGet k (dependencyGraph (dyn w)))
          ∧ ((1 ≤ levels)%nat →
             graphGet rootPath (dependencyGraph (dyn w'))
             = Some (resolvedImports w rootPath))
          ∧ ((2 ≤ levels)%nat →
             ∀ d, d ∈ resolvedImports w rootPath → tracked w' d).
Proof.
  induction levels as [|below IH]; intros rootPath w; simpl.
  - exists w. split; [reflexivity |]. split; [reflexivity |].
    split; [reflexivity |]. split; intros; lia.
  - destruct (extractDependencies_run rootPath w) as (w1 & Hrun & [entries ->]).
    rewrite bind_case, Hrun. rewrite bind_case. unfold modify at 1.
    set (w2 := withDyn _ _).
    assert (graphGet rootPath (dependencyGraph (dyn w2))
            = Some (resolvedImports w rootPath)) as Hroot.
    { subst w2. simpl. apply graphGet_graphSet_eq. }
    assert (∀ k, k ≠ rootPath →
                 graphGet k (dependencyGraph (dyn w2))
                 = graphGet k (dependencyGraph (dyn w))) as Hother.
    { intros k Hk. subst w2. simpl. now apply graphGet_graphSet_ne. }
    destruct below as [|below'].
    { exists w2. split; [reflexivity |]. split; [reflexivity |].
      split; [intros k Hk _; now apply Hother |].
      split; [intros _; exact Hroot | intros; lia]. }
    destruct (forEach_returns_each graphGrows (fun d w => tracked w d)
                (resolvedImports w rootPath)
                (fun dependency =>
                   bind (gets (fun w => graphHas dependency (dependencyGraph (dyn w))))
                     (fun known => if known then ret tt
                                   else updateDependencyGraph (S below') dependency))
                graphGrows_refl graphGrows_trans) with (w := w2)
      as (w' & Hloop & [Hfs Hkept] & Htracked).
    + intros x wa wb Hab Hx. exact (graphGrows_tracked _ _ _ Hab Hx).
    + intros d wk. rewrite bind_case. unfold gets at 1, graphHas.
      case_bool_decide as Hknown.
      * exists wk. split; [reflexivity |]. split; [apply graphGrows_refl | exact Hknown].
      * destruct (IH d wk) as (wk' & Hrun' & Hfs' & Hother' & Hset & _).
        exists wk'. split; [exact Hrun' |]. split.
        -- split; [exact Hfs' |]. intros k Hk. apply Hother'; [| exact Hk].
           intros ->. contradiction.
        -- unfold tracked. rewrite Hset by lia. eauto.
    + exists w'. split; [exact Hloop |]. split; [exact Hfs |].
      split; [| split].
      * intros k Hk Htr. rewrite Hkept; [now apply Hother |].
        unfold tracked. now rewrite Hother.
      * intros _. rewrite Hkept; [exact Hroot |]. unfold tracked. rewrite Hroot. eauto.
      * intros _ d Hd. now apply Htracked.
Qed.

(** X2.  [#updateDependencyGraph], with [levels = maxDepth - currentDepth
    + 1] levels to go, never throws and changes nothing but the dependency
    graph and the console: the disk, the tables of loaded modules, the
    watches and the callbacks are as before.  With a level to go the entry
    of the root becomes the dependencies [#extractDependencies] finds now:
    for each import specifier of the file that starts with a dot or a
    slash, in order, the path it resolves to against the directory of the
    file, when that path exists; specifiers that start otherwise contribute
    nothing.  Every dependency exists on disk, and is an absolute path when
    the root is.  No other tracked path loses or changes its entry, so what
    was tracked stays tracked with the dependencies recorded before; and
    with two levels or more every dependency of the root is tracked
    afterwards. *)
Theorem updateDependencyGraph_effect (levels : nat) (rootPath : string) (w : World) :
  ∃ w', updateDependencyGraph levels rootPath w = (Returns tt, w')
        ∧ fs w' = fs w
        ∧ cache (dyn w') = cache (dyn w)
        ∧ lastValidModules (dyn w') = lastValidModules (dyn w)
        ∧ watchedFiles (dyn w') = watchedFiles (dyn w)
        ∧ routeUpdateCallbacks (dyn w') = routeUpdateCallbacks (dyn w)
        ∧ (∀ k, k ≠ rootPath → tracked w k →
                graphGet k (dependencyGraph (dyn w'))
                = graphGet k (dependencyGraph (dyn w)))
        ∧ ((1 ≤ levels)%nat →
           graphGet rootPath (dependencyGraph (dyn w'))
           = Some (resolvedImports w rootPath))
        ∧ ((2 ≤ levels)%nat →
           ∀ d, d ∈ resolvedImports w rootPath → tracked w' d)
        ∧ Forall (fun d => is_Some (fs w !! d)) (resolvedImports w rootPath)
        ∧ (Path.isAbsolute rootPath = true →
           Forall (fun d => Path.isAbsolute d = true) (resolvedImports w rootPath))
        ∧ (∀ src specifiers,
             fs w !! rootPath = Some (SourceFile src) →
             imports src = Some specifiers →
             resolvedImports w rootPath
             = omap (resolveDependency w (Path.dirname rootPath))
                 (List.filter (fun specifier => startsWithDot specifier
                                                || startsWithSlash specifier)
                    specifiers)).
Proof.
  destruct (updateDependencyGraph_run levels rootPath w)
    as (w' & Hrun & Hfs & Hother & Hroot & Hdeps).
  pose proof (updateDependencyGraph_frame
                (fun w => (cache (dyn w), lastValidModules (dyn w),
                           watchedFiles (dyn w), routeUpdateCallbacks (dyn w)))
                ltac:(reflexivity) ltac:(reflexivity) levels rootPath w) as F.
  rewrite Hrun in F. simpl in F. injection F as Fc Fl Fw Fr.
  destruct (resolvedImports_spec w rootPath) as (Hdisk & Habs & Hbare).
  exists w'. split; [exact Hrun |]. split; [exact Hfs |].
  split; [exact Fc |]. split; [exact Fl |]. split; [exact Fw |]. split; [exact Fr |].
  split; [exact Hother |]. split; [exact Hroot |]. split; [exact Hdeps |].
  split; [exact Hdisk |]. split; [exact Habs | exact Hbare].
Qed.

End Tracker.

(** ** Preload *)

Section Preload.

Import Dynreload.

(** The outcome of [preload], by what is on disk. *)
Lemma preload_run (file : string) (w : World) :
  match fs w !! file with
  | Some (SourceFile src) =>
      match evaluation src with
      | inr namespace =>
          ∃ w', preload file w = (Returns (loaded namespace), w')
                ∧ getCached w' file = Some (loaded namespace)
                ∧ getLastValidModule w' file = Some (loaded namespace)
                ∧ (∀ other, other ≠ file →
                            cache (dyn w') !! other = cache (dyn w) !! other
                            ∧ lastValidModules (dyn w') !! other
                              = lastValidModules (dyn w) !! other)
                ∧ ((1 ≤ maxDepth (dyn w))%nat →
                   graphGet file (dependencyGraph (dyn w'))
                   = Some (resolvedImports w file))
                ∧ fs w' = fs w
      | inl e => ∃ w', preload file w = (Throws e, w') ∧ logged w w'
      end
  | Some Directory =>
      ∃ w', preload file w = (Throws (ErrImport file "directory import"), w')
            ∧ logged w w'
  | None =>
      ∃ w', preload file w = (Throws (ErrFileDoesNotExist file), w') ∧ logged w w'
  end.
Proof.
  assert (∀ e w0, ∃ w', bind (logError "Error preloading file" (Some e))
                          (fun _ => @throw JsVal e) w0 = (Throws e, w')
                        ∧ logged w0 w') as Hcatch.
  { intros e w0. rewrite bind_case.
    destruct (logError_logged "Error preloading file" (Some e) w0) as (w' & -> & Hl).
    now exists w'. }
  destruct (fs w !! file) as [[|src]|] eqn:Hfile.
  - unfold preload, tryCatch. rewrite bind_case. unfold gets at 1, existsSync.
    rewrite Hfile, bool_decide_true by eauto. cbn [negb].
    rewrite bind_case, tryImportModule_spec. unfold importModule. rewrite Hfile.
    rewrite bind_case.
    destruct (logError_logged "Error loading module"
                (Some (ErrImport file "directory import")) w) as (w1 & -> & Hl1).
    unfold throw at 1.
    destruct (Hcatch (ErrImport file "directory import") w1) as (w' & -> & Hl).
    exists w'. split; [reflexivity |]. eapply logged_trans; eassumption.
  - destruct (evaluation src) as [e|namespace] eqn:Heval;
      unfold preload, tryCatch; rewrite bind_case; unfold gets at 1, existsSync;
      rewrite Hfile, bool_decide_true by eauto; cbn [negb];
      rewrite bind_case, tryImportModule_spec; unfold importModule;
      rewrite Hfile, Heval.
    + rewrite bind_case.
      destruct (logError_logged "Error loading module" (Some e) w) as (w1 & -> & Hl1).
      unfold throw at 1.
      destruct (Hcatch e w1) as (w' & -> & Hl).
      exists w'. split; [reflexivity |]. eapply logged_trans; eassumption.
    + rewrite bind_case. unfold statSync. rewrite Hfile.
      rewrite bind_case. unfold storeModule. rewrite bind_case. unfold modify at 1.
      unfold modify at 1. rewrite bind_case. unfold gets at 1.
      set (w2 := withDyn (withLastValid _) _).
      destruct (updateDependencyGraph_run (maxDepth (dyn w2)) file w2)
        as (w' & Hrun & Hfs & _ & Hroot & _).
      rewrite bind_case, Hrun.
      set (tables := fun w : World => (cache (dyn w), lastValidModules (dyn w))).
      pose proof (updateDependencyGraph_frame tables ltac:(reflexivity) ltac:(reflexivity)
                    (maxDepth (dyn w2)) file w2) as F.
      rewrite Hrun in F. unfold tables in F. simpl in F. injection F as Hcache Hvalid.
      exists w'. split; [reflexivity |].
      unfold getCached, getLastValidModule. rewrite Hcache, Hvalid.
      split; [now rewrite lookup_insert_eq |]. split; [now rewrite lookup_insert_eq |].
      split; [| split].
      * intros other Hother. now rewrite !lookup_insert_ne by congruence.
      * intros Hdepth. rewrite (Hroot Hdepth).
        now rewrite (resolvedImports_same w w2 file).
      * exact Hfs.
  - unfold preload, tryCatch. rewrite bind_case. unfold gets at 1, existsSync.
    rewrite Hfile, bool_decide_false by (intros [? ?]; discriminate). cbn [negb].
    unfold throw at 1. apply Hcatch.
Qed.

(** X3.  [preload] leaves the tables alone when it fails and fills them when it
    succeeds.  A file that is missing, is a directory, does not parse or
    throws makes [preload] throw (the cause, or "File does not exist")
    with nothing changed but the console.  A file that loads is returned
    as its default export, else its namespace object; that value is then
    both the cached and the last-known-good artifact of the file, no other
    file's artifact changes, and with a depth of one or more the file is
    tracked with the imports it resolves now.  [preload] sets up no watch
    and registers no callback. *)
Theorem preload_outcome (file : string) (w : World) :
  match fs w !! file with
  | Some (SourceFile src) =>
      match evaluation src with
      | inr namespace =>
          ∃ w', preload file w = (Returns (loaded namespace), w')
                ∧ getCached w' file = Some (loaded namespace)
                ∧ getLastValidModule w' file = Some (loaded namespace)
                ∧ (∀ other, other ≠ file →
                            cache (dyn w') !! other = cache (dyn w) !! other
                            ∧ lastValidModules (dyn w') !! other
                              = lastValidModules (dyn w) !! other)
                ∧ ((1 ≤ maxDepth (dyn w))%nat →
                   graphGet file (dependencyGraph (dyn w'))
                   = Some (resolvedImports w file))
                ∧ fs w' = fs w
                ∧ watchedFiles (dyn w') = watchedFiles (dyn w)
                ∧ watchers w' = watchers w
                ∧ routeUpdateCallbacks (dyn w') = routeUpdateCallbacks (dyn w)
      | inl e => ∃ w', preload file w = (Throws e, w') ∧ logged w w'
      end
  | Some Directory =>
      ∃ w', preload file w = (Throws (ErrImport file "directory import"), w')
            ∧ logged w w'
  | None =>
      ∃ w', preload file w = (Throws (ErrFileDoesNotExist file), w') ∧ logged w w'
  end.
Proof.
  pose proof (preload_run file w) as Hrun.
  pose proof (preload_frame
                (fun w => (watchedFiles (dyn w), watchers w, routeUpdateCallbacks (dyn w)))
                ltac:(reflexivity) ltac:(reflexivity) ltac:(reflexivity)
                ltac:(reflexivity) file w) as F.
  destruct (fs w !! file) as [[|src]|]; try exact Hrun.
  destruct (evaluation src) as [e|namespace]; [exact Hrun |].
  destruct Hrun as (w' & Hrun & Hcached & Hvalid & Hothers & Hgraph & Hfs).
  rewrite Hrun in F. simpl in F. injection F as Fw Fo Fc.
  exists w'. repeat (split; [assumption |]). assumption.
Qed.

End Preload.

(** ** The registry and the sockets *)

Lemma leads_bind {B C} (P Q : World → Prop) (m : M B) (k : B → M C) :
  keeps P m → (∀ w, P w → Q w) → (∀ b, leads P Q (k b)) → leads P Q (bind m k).
Proof.
  intros Hm HPQ Hk w H. unfold bind. specialize (Hm w H).
  destruct (m w) as [[b|e|] w1]; simpl in *; [now apply Hk | now apply HPQ..].
Qed.

Lemma registryOk_proj (w w' : World) :
  registryAndSockets w' = registryAndSockets w → registryOk w → registryOk w'.
Proof.
  intros [= Hi Hl] (H1 & H2 & H3). unfold registryOk. rewrite Hi, Hl. auto.
Qed.

Lemma keeps_registry {B} (m : M B) :
  preserves registryAndSockets m → keeps registryOk m.
Proof. apply keeps_preserves. apply registryOk_proj. Qed.

(** Registering a named instance on a port nobody of the host listens on. *)
Lemma registryOk_register (w : World) (n : string) (instance : Instance) :
  registryOk w → n ≠ "" → instances w !! n = None →
  instServer instance = instPort instance →
  instPort instance ∉ listening w →
  registryOk (withInstances (insert n instance)
                (withListening (union {[instPort instance]}) w)).
Proof.
  intros (H1 & H2 & H3) Hn Hfresh Hserver Hfree.
  split; [| split]; simpl.
  - intros m i Hm. destruct (decide (m = n)) as [-> | Hne].
    + rewrite lookup_insert_eq in Hm. injection Hm as <-.
      split; [assumption |]. split; [assumption |].
      apply elem_of_union. left. now apply elem_of_singleton.
    + rewrite lookup_insert_ne in Hm by congruence.
      destruct (H1 m i Hm) as (? & ? & ?). split; [assumption |].
      split; [assumption |]. apply elem_of_union. now right.
  - intros n1 n2 i1 i2 Hn1 Hn2 Hport.
    destruct (decide (n1 = n)) as [-> | Hne1], (decide (n2 = n)) as [-> | Hne2];
      [reflexivity | | |].
    + rewrite lookup_insert_eq in Hn1. injection Hn1 as <-.
      rewrite lookup_insert_ne in Hn2 by congruence.
      exfalso. apply Hfree. rewrite Hport. now apply (H1 n2 i2).
    + rewrite lookup_insert_eq in Hn2. injection Hn2 as <-.
      rewrite lookup_insert_ne in Hn1 by congruence.
      exfalso. apply Hfree. rewrite <- Hport. now apply (H1 n1 i1).
    + rewrite lookup_insert_ne in Hn1, Hn2 by congruence. eapply H2; eassumption.
  - intros p [Hp | Hp]%elem_of_union.
    + apply elem_of_singleton in Hp as ->. exists n, instance.
      now rewrite lookup_insert_eq.
    + destruct (H3 p Hp) as (m & i & Hm & Hport). exists m, i.
      split; [| assumption]. rewrite lookup_insert_ne; [assumption |].
      intros <-. congruence.
Qed.

(** Closing the socket of an instance and taking it off the registry. *)
Lemma registryOk_unregister (w : World) (n : string) (instance : Instance) :
  registryOk w → instances w !! n = Some instance →
  registryOk (withInstances (delete n)
                (withListening (fun open => open ∖ {[instServer instance]}) w)).
Proof.
  intros (H1 & H2 & H3) Hinst.
  destruct (H1 n instance Hinst) as (_ & Hserver & _).
  split; [| split]; simpl.
  - intros m i Hm. destruct (decide (m = n)) as [-> | Hne].
    + now rewrite lookup_delete_eq in Hm.
    + rewrite lookup_delete_ne in Hm by congruence.
      destruct (H1 m i Hm) as (? & ? & ?). split; [assumption |].
      split; [assumption |]. apply elem_of_difference. split; [assumption |].
      intros Hp%elem_of_singleton. apply Hne.
      apply (H2 m n i instance Hm Hinst). congruence.
  - intros n1 n2 i1 i2 Hn1 Hn2.
    destruct (decide (n1 = n)) as [-> | Hne1]; [now rewrite lookup_delete_eq in Hn1 |].
    destruct (decide (n2 = n)) as [-> | Hne2]; [now rewrite lookup_delete_eq in Hn2 |].
    rewrite lookup_delete_ne in Hn1, Hn2 by congruence. eapply H2; eassumption.
  - intros p [Hp Hnot]%elem_of_difference.
    destruct (H3 p Hp) as (m & i & Hm & Hport). exists m, i.
    split; [| assumption]. rewrite lookup_delete_ne; [assumption |].
    intros <-. apply Hnot. apply elem_of_singleton.
    rewrite Hinst in Hm. injection Hm as <-. congruence.
Qed.

(** Replacing an instance by one on the same port. *)
Lemma registryOk_update (w : World) (n : string) (instance instance' : Instance) :
  registryOk w → instances w !! n = Some instance →
  instPort instance' = instPort instance →
  instServer instance' = instServer instance →
  registryOk (withInstances (insert n instance') w).
Proof.
  intros (H1 & H2 & H3) Hinst Hport Hserver.
  destruct (H1 n instance Hinst) as (Hn & Hs & Hl).
  split; [| split]; simpl.
  - intros m i Hm. destruct (decide (m = n)) as [-> | Hne].
    + rewrite lookup_insert_eq in Hm. injection Hm as <-.
      split; [assumption |]. split; congruence.
    + rewrite lookup_insert_ne in Hm by congruence. now apply H1.
  - intros n1 n2 i1 i2 Hn1 Hn2 Hp.
    destruct (decide (n1 = n)) as [-> | Hne1], (decide (n2 = n)) as [-> | Hne2];
      [reflexivity | | |].
    + rewrite lookup_insert_eq in Hn1. injection Hn1 as <-.
      rewrite lookup_insert_ne in Hn2 by congruence.
      apply (H2 n n2 instance i2 Hinst Hn2). congruence.
    + rewrite lookup_insert_eq in Hn2. injection Hn2 as <-.
      rewrite lookup_insert_ne in Hn1 by congruence.
      apply (H2 n1 n i1 instance Hn1 Hinst). congruence.
    + rewrite lookup_insert_ne in Hn1, Hn2 by congruence. eapply H2; eassumption.
  - intros p Hp. destruct (H3 p Hp) as (m & i & Hm & Hpm).
    destruct (decide (m = n)) as [-> | Hne].
    + exists n, instance'. rewrite lookup_insert_eq. split; [reflexivity |]. congruence.
    + exists m, i. now rewrite lookup_insert_ne by congruence.
Qed.

Section RegistryKept.

Import Dynreload DynExpress.

Variable appFunction : string → bool.

Lemma stopServer_keeps_registry (n : string) : keeps registryOk (stopServer n).
Proof.
  intros w Hok. unfold stopServer. rewrite bind_case. unfold gets at 1.
  destruct (instances w !! n) as [instance|] eqn:Hinst; [| exact Hok].
  set (unwatch := match instRouters instance with
                  | JStr file =>
                      if truthy (instWatchFile instance) then stopWatching file else ret tt
                  | _ => ret tt
                  end).
  assert (preserves registryAndSockets unwatch) as Hframe.
  { subst unwatch. destruct (instRouters instance); try apply preserves_ret.
    destruct (truthy _); [| apply preserves_ret].
    apply stopWatching_frame; reflexivity. }
  assert (returns unwatch) as Hreturns.
  { subst unwatch. destruct (instRouters instance); try apply returns_ret.
    destruct (truthy _); [apply stopWatching_returns | apply returns_ret]. }
  destruct (Hreturns w) as ([] & w1 & Hrun). specialize (Hframe w).
  rewrite bind_case, Hrun. rewrite Hrun in Hframe. simpl in Hframe.
  pose proof (registryOk_proj _ _ Hframe Hok) as Hok1.
  injection Hframe as Hinsts Hlisten.
  rewrite bind_case. unfold gets at 1. case_bool_decide; [| exact Hok1].
  rewrite bind_case. unfold modify at 1. rewrite bind_case. unfold modify at 1.
  simpl. apply registryOk_unregister; [assumption | congruence].
Qed.

Lemma addRoute_frame {A} (proj : World → A) (n : string) (descriptor : JsVal) :
  (∀ f w, proj (withHeap f w) = proj w) →
  (∀ f w, proj (withConsole f w) = proj w) →
  preserves proj (addRoute appFunction n descriptor).
Proof.
  intros H1 H2. unfold addRoute, propOf, callToLowerCase, register, updateApp. frame.
Qed.

Lemma dynreload_cleanup_frame {A} (proj : World → A) :
  (∀ f w, proj (withWatchers f w) = proj w) →
  (∀ f w, proj (withDyn (withWatchedFiles f) w) = proj w) →
  (∀ f w, proj (withDyn (withCallbacks f) w) = proj w) →
  (∀ f w, proj (withDyn (withCache f) w) = proj w) →
  (∀ f w, proj (withDyn (withLastValid f) w) = proj w) →
  (∀ f w, proj (withDyn (withGraph f) w) = proj w) →
  preserves proj Dynreload.cleanup.
Proof.
  intros H1 H2 H3 H4 H5 H6. unfold Dynreload.cleanup, stopWatchingAll.
  apply preserves_bind; [| intros _; frame].
  apply preserves_bind; [apply preserves_gets | intros files].
  apply preserves_forEach. intros file. now apply stopWatching_frame.
Qed.

(** The tail of the creation, from the bind of the socket on. *)
Lemma registration_leads (fuel : nat) (n : string) (config : ServerConfig)
    (source : RouterSource) (loaded : JsVal * JsVal) (q : Z) (app : nat) :
  n ≠ "" →
  leads (fun w => registryOk w ∧ instances w !! n = None) registryOk
    (bind (startServer app q) (fun server =>
     bind (gets clock) (fun now =>
     bind (modify (withInstances (insert n
             {| instApp := app; instServer := server;
                instRouters := routers config;
                instPathViews := defaulted (pathViews config) JNull;
                instPathPublic := defaulted (pathPublic config) JNull;
                instPort := q;
                instWatchFile := defaulted (watchFile config) (JBool false);
                instLaunch := defaulted (launch config) (JBool false);
                instModuleLoad := snd loaded;
                instStartTime := now; instLastUpdated := None |}))) (fun _ =>
     bind match source with
          | FileSource value =>
              if truthy (defaulted (watchFile config) (JBool false))
              then setupHotReloading fuel n value
                     (defaulted (launch config) (JBool false))
              else ret tt
          | ArraySource _ => ret tt
          end (fun _ => ret (address q)))))).
Proof.
  intros Hn w [Hok Hfresh]. rewrite bind_case. unfold startServer.
  destruct (validPort q); simpl; [| exact Hok].
  rewrite bind_case. unfold gets at 1. case_bool_decide as Hfree; [| exact Hok].
  rewrite bind_case. unfold modify at 1. unfold ret at 1.
  rewrite bind_case. unfold gets at 1. rewrite bind_case. unfold modify at 1.
  set (w7 := withInstances _ _).
  assert (registryOk w7) as Hok7.
  { subst w7. apply (registryOk_register w n); simpl; try assumption; try reflexivity.
    intros Hin. apply Hfree. apply elem_of_union. now right. }
  apply keeps_bind; [| intros _; apply keeps_ret | exact Hok7].
  apply keeps_registry.
  destruct source; [apply preserves_ret |].
  destruct (truthy _); [apply setupHotReloading_frame; reflexivity | apply preserves_ret].
Qed.

Lemma tryCreate_leads_registry (fuel : nat) (n : string) (config : ServerConfig) :
  n ≠ "" →
  leads (fun w => registryOk w ∧ instances w !! n = None) registryOk
    (tryCreate appFunction fuel n config).
Proof.
  intros Hn. unfold tryCreate.
  assert (∀ B (m : M B), preserves registryAndSockets m →
                         keeps (fun w => registryOk w ∧ instances w !! n = None) m) as Hkeep.
  { intros B m Hm. apply (keeps_preserves registryAndSockets); [| exact Hm].
    intros w w' [= Hi Hl] [Hok Hfresh]. split.
    - apply (registryOk_proj w); [| assumption]. unfold registryAndSockets. congruence.
    - now rewrite Hi. }
  apply leads_bind; [apply Hkeep, validateRouters_frame | tauto | intros source].
  apply leads_bind; [apply Hkeep, loadRoutes_frame; reflexivity | tauto | intros loaded].
  apply leads_bind; [apply Hkeep, findAvailablePort_frame; reflexivity | tauto | intros q].
  apply leads_bind; [apply Hkeep, express_frame; reflexivity | tauto | intros app].
  apply leads_bind; [apply Hkeep, setupMiddleware_frame; reflexivity | tauto | intros _].
  apply leads_bind; [apply Hkeep, setupRoutes_frame; reflexivity | tauto | intros _].
  now apply registration_leads.
Qed.

Lemma newServer_keeps_registry (fuel : nat) (config : ServerConfig) :
  keeps registryOk (newServer appFunction fuel config).
Proof.
  intros w Hok. unfold newServer.
  destruct (name config) as [| | | |n| | | |]; try exact Hok.
  destruct (negb (truthy (JStr n))) eqn:Hname; [exact Hok |].
  assert (n ≠ "") as Hn.
  { intros ->. discriminate. }
  rewrite bind_case. unfold gets at 1.
  destruct (instances w !! n) as [instance|] eqn:Hinst; [exact Hok |].
  unfold tryCatch.
  pose proof (tryCreate_leads_registry fuel n config Hn w (conj Hok Hinst)) as Hcreate.
  destruct (tryCreate appFunction fuel n config w) as [[url|e|] w1]; simpl in Hcreate;
    try exact Hcreate.
  rewrite bind_case. unfold logError, modify. simpl.
  destruct (silent (dyn w1)); apply (registryOk_proj w1); auto.
Qed.

Lemma routeUpdateCallback_keeps_registry (callback : Callback) (newRoutes : JsVal) :
  keeps registryOk (routeUpdateCallback appFunction callback newRoutes).
Proof.
  intros w Hok. unfold routeUpdateCallback.
  apply keeps_tryCatch; [| intros e; apply keeps_registry; frame | exact Hok].
  clear w Hok. intros w Hok. rewrite bind_case. unfold gets at 1.
  destruct (instances w !! cbServerName callback) as [instance|] eqn:Hinst; [| exact Hok].
  rewrite bind_case. unfold gets at 1. rewrite bind_case. unfold modify at 1.
  set (w1 := withInstances _ w).
  assert (registryOk w1) as Hok1.
  { subst w1. now apply (registryOk_update w _ instance). }
  revert Hok1. generalize w1. apply keeps_registry.
  apply preserves_bind.
  { destruct (selectsExport _); [| apply preserves_ret].
    unfold propOf. frame. }
  intros routes. apply preserves_bind; [unfold updateApp; frame | intros _].
  apply preserves_bind; [apply setupRoutes_frame; reflexivity | intros _; frame].
Qed.

Lemma cleanup_keeps_registry : keeps registryOk cleanup.
Proof.
  unfold cleanup.
  apply keeps_bind; [apply keeps_gets | intros names].
  apply keeps_bind.
  - apply keeps_forEach. intros n. apply keeps_tryCatch.
    + apply keeps_bind; [apply stopServer_keeps_registry | intros _; apply keeps_ret].
    + intros e. apply keeps_registry. frame.
  - intros _. apply keeps_registry. apply dynreload_cleanup_frame; reflexivity.
Qed.

Lemma resetServer_keeps_registry (fuel : nat) (n : string) :
  keeps registryOk (resetServer appFunction fuel n).
Proof.
  unfold resetServer.
  apply keeps_bind; [apply keeps_gets | intros found].
  destruct found as [instance|]; [| apply keeps_throw].
  apply keeps_tryCatch.
  - apply keeps_bind; [apply stopServer_keeps_registry | intros _].
    apply newServer_keeps_registry.
  - intros e. apply keeps_registry. frame.
Qed.

Lemma reloadModule_keeps (I : World → Prop) :
  (∀ f g w, I w → I (withDyn (withLastValid f) (withDyn (withCache g) w))) →
  (∀ f w, I w → I (withConsole f w)) →
  ∀ file, keeps I (reloadModule file).
Proof.
  intros Hstore Hconsole file w H.
  unfold reloadModule, tryCatch. rewrite bind_case, tryImportModule_spec.
  destruct (importModule file w) as [[ns|e|] w0] eqn:Himport.
  - apply importModule_stat in Himport as (src & Hfile & _ & ->).
    rewrite bind_case. unfold statSync. rewrite Hfile.
    unfold storeModule, bind, modify, ret. simpl. now apply Hstore.
  - rewrite bind_case. unfold logError, modify. simpl.
    destruct (silent (dyn w)); simpl; auto.
  - exact H.
Qed.

Lemma handleChange_keeps (I : World → Prop)
    (invoke : Callback → JsVal → M unit)
    (arraySort : (string → string → Z) → list string → list string)
    (fuel : nat) (file : string) :
  (∀ f, keeps I (reloadModule f)) →
  (∀ f w, I w → I (withDyn (withGraph f) w)) →
  (∀ f w, I w → I (withConsole f w)) →
  (∀ callback newModule, keeps I (invoke callback newModule)) →
  keeps I (handleChange invoke arraySort fuel file).
Proof.
  intros Hreload Hgraph Hconsole Hinvoke.
  assert (∀ f, keeps I (extractDependencies f)) as Hextract.
  { intros f w H. destruct (extractDependencies_run f w) as (w' & -> & [entries ->]).
    now apply Hconsole. }
  assert (∀ levels f, keeps I (updateDependencyGraph levels f)) as Hupdate.
  { induction levels as [|below IH]; intros f; simpl; [apply keeps_ret |].
    apply keeps_bind; [apply Hextract | intros deps].
    apply keeps_bind; [apply keeps_modify; auto | intros _].
    destruct below; [apply keeps_ret |].
    apply keeps_forEach. intros dep.
    apply keeps_bind; [apply keeps_gets | intros known].
    destruct known; [apply keeps_ret | apply IH]. }
  unfold handleChange.
  apply keeps_tryCatch; [| intros e; now apply keeps_logError].
  apply keeps_bind; [apply keeps_gets | intros levels].
  apply keeps_bind; [apply Hupdate | intros _].
  apply keeps_bind; [apply keeps_gets | intros graph].
  destruct (findAffectedModules fuel graph file); [| apply keeps_throw].
  apply keeps_bind; [now apply keeps_logInfo | intros _].
  apply keeps_bind; [| intros _; now apply keeps_logInfo].
  apply keeps_forEach. intros modulePath. unfold reloadAndNotify.
  apply keeps_bind; [apply Hreload | intros [newModule|e]; [| apply keeps_ret]].
  apply keeps_bind; [apply keeps_gets | intros [registered|]; [apply Hinvoke | apply keeps_ret]].
Qed.

Lemma registryOk_boot (quiet : bool) (depth : nat) (disk : gmap string FsEntry)
    (taken : gset Z) :
  registryOk (boot quiet depth disk taken).
Proof.
  split; [| split]; simpl.
  - intros n instance H. now rewrite lookup_empty in H.
  - intros n1 n2 i1 i2 H. now rewrite lookup_empty in H.
  - intros p Hp. now apply not_elem_of_empty in Hp.
Qed.

(** X4.  The registry and the sockets of a host fit from its start on: an
    instance has a non-empty name and listens on its port, no two
    instances share a port, and every listening socket belongs to an
    instance.  Creation, stop, reset, route addition, cleanup and the
    change listener of a watched file all keep it so, whether they return,
    throw or do not bottom out. *)
Theorem registryOk_kept :
  (∀ quiet depth disk taken, registryOk (boot quiet depth disk taken))
  ∧ (∀ fuel config, keeps registryOk (newServer appFunction fuel config))
  ∧ (∀ n, keeps registryOk (stopServer n))
  ∧ (∀ fuel n, keeps registryOk (resetServer appFunction fuel n))
  ∧ (∀ n descriptor, keeps registryOk (addRoute appFunction n descriptor))
  ∧ keeps registryOk cleanup
  ∧ (∀ arraySort fuel file,
       keeps registryOk
         (handleChange (routeUpdateCallback appFunction) arraySort fuel file)).
Proof.
  split; [| split; [| split; [| split; [| split; [| split]]]]].
  - apply registryOk_boot.
  - apply newServer_keeps_registry.
  - apply stopServer_keeps_registry.
  - apply resetServer_keeps_registry.
  - intros n descriptor. apply keeps_registry, addRoute_frame; reflexivity.
  - apply cleanup_keeps_registry.
  - intros arraySort fuel file. apply handleChange_keeps.
    + apply reloadModule_keeps.
      * intros f g w. now apply registryOk_proj.
      * intros f w. now apply registryOk_proj.
    + intros f w. now apply registryOk_proj.
    + intros f w. now apply registryOk_proj.
    + apply routeUpdateCallback_keeps_registry.
Qed.

End RegistryKept.

(** ** The life cycle of an instance *)

Section Lifecycle.

Import Dynreload DynExpress.

Variable appFunction : string → bool.

Lemma hotFile_unwatch (instance : Instance) :
  match instRouters instance with
  | JStr file => if truthy (instWatchFile instance) then stopWatching file else ret tt
  | _ => ret tt
  end
  = match hotFile instance with
    | Some file => stopWatching file
    | None => ret tt
    end.
Proof.
  unfold hotFile. destruct (instRouters instance); try reflexivity.
  now destruct (truthy _).
Qed.

(** [stopServer] of a registered name, step by step. *)
Lemma stopServer_run (n : string) (instance : Instance) (w : World) :
  instances w !! n = Some instance →
  ∃ w1,
    match hotFile instance with
    | Some file => stopWatching file
    | None => ret tt
    end w = (Returns tt, w1)
    ∧ stopServer n w
      = (if bool_decide (instServer instance ∈ listening w)
         then (Returns true,
               withInstances (delete n)
                 (withListening (fun open => open ∖ {[instServer instance]}) w1))
         else (Throws ErrServerNotRunning, w1))
    ∧ instances w1 = instances w
    ∧ listening w1 = listening w
    ∧ heap w1 = heap w
    ∧ console w1 = console w
    ∧ fs w1 = fs w
    ∧ occupied w1 = occupied w
    ∧ nextRef w1 = nextRef w.
Proof.
  intros Hinst.
  set (unwatch := match hotFile instance with
                  | Some file => stopWatching file
                  | None => ret tt
                  end).
  set (proj := fun w : World =>
                 (instances w, listening w, heap w, console w, fs w, occupied w, nextRef w)).
  assert (preserves proj unwatch) as Hframe.
  { subst unwatch. destruct (hotFile instance); [| apply preserves_ret].
    apply stopWatching_frame; reflexivity. }
  assert (returns unwatch) as Hreturns.
  { subst unwatch. destruct (hotFile instance);
      [apply stopWatching_returns | apply returns_ret]. }
  destruct (Hreturns w) as ([] & w1 & Hrun). specialize (Hframe w).
  rewrite Hrun in Hframe. simpl in Hframe. unfold proj in Hframe.
  injection Hframe as Hi Hl Hh Hc Hf Ho Hn.
  exists w1. split; [exact Hrun |].
  split; [| repeat split; assumption].
  unfold stopServer. rewrite bind_case. unfold gets at 1. rewrite Hinst.
  rewrite hotFile_unwatch. fold unwatch. rewrite bind_case, Hrun.
  rewrite bind_case. unfold gets at 1. rewrite Hl.
  case_bool_decide; reflexivity.
Qed.

(** X5.  The outcome of [stopServer].  A name that is not registered is
    rejected with NotFound and nothing changes.  For a registered instance
    whose socket listens the socket is closed, the instance leaves the
    registry and [true] is returned; when the socket does not listen the
    stop fails and the instance stays registered.  Either way the
    application objects and the console are left alone, and the watch of an
    instance that follows its route file is cancelled first, as by
    [stopWatching], also when the stop then fails. *)
Theorem stopServer_outcome (n : string) (w : World) :
  match instances w !! n with
  | None => stopServer n w = (Throws (ErrServerNotFound n), w)
  | Some instance =>
      ∃ w',
        (if bool_decide (instServer instance ∈ listening w)
         then stopServer n w = (Returns true, w')
              ∧ instances w' = delete n (instances w)
              ∧ listening w' = listening w ∖ {[instServer instance]}
         else stopServer n w = (Throws ErrServerNotRunning, w')
              ∧ instances w' = instances w
              ∧ listening w' = listening w)
        ∧ heap w' = heap w
        ∧ console w' = console w
        ∧ match hotFile instance with
          | Some file =>
              dyn w' = dyn (snd (stopWatching file w))
              ∧ watchers w' = watchers (snd (stopWatching file w))
              ∧ watchedFiles (dyn w') !! file = None
          | None => dyn w' = dyn w ∧ watchers w' = watchers w
          end
  end.
Proof.
  destruct (instances w !! n) as [instance|] eqn:Hinst.
  2: { unfold stopServer. rewrite bind_case. unfold gets at 1. now rewrite Hinst. }
  destruct (stopServer_run n instance w Hinst)
    as (w1 & Hunwatch & Hrun & Hi & Hl & Hh & Hc & _).
  assert (match hotFile instance with
          | Some file =>
              dyn w1 = dyn (snd (stopWatching file w))
              ∧ watchers w1 = watchers (snd (stopWatching file w))
              ∧ watchedFiles (dyn w1) !! file = None
          | None => dyn w1 = dyn w ∧ watchers w1 = watchers w
          end) as Hhot.
  { destruct (hotFile instance) as [file|].
    - rewrite Hunwatch. simpl. split; [reflexivity |]. split; [reflexivity |].
      destruct (stopWatching_closing file w) as (w2 & Hrun2 & _ & _ & Hdel).
      rewrite Hrun2 in Hunwatch. injection Hunwatch as <-.
      rewrite Hdel. apply lookup_delete_eq.
    - injection Hunwatch as <-. now split. }
  rewrite Hrun. case_bool_decide.
  - eexists. split; [split; [reflexivity |] |]; simpl.
    + now rewrite Hi, Hl.
    + split; [assumption |]. split; [assumption |]. exact Hhot.
  - exists w1. split; [split; [reflexivity |] |]; auto.
Qed.

(** In a fitting registry a registered instance always stops. *)
Lemma stopServer_registered (n : string) (instance : Instance) (w : World) :
  registryOk w → instances w !! n = Some instance →
  ∃ w', stopServer n w = (Returns true, w')
        ∧ instances w' = delete n (instances w)
        ∧ listening w' = listening w ∖ {[instPort instance]}
        ∧ heap w' = heap w
        ∧ console w' = console w
        ∧ fs w' = fs w
        ∧ occupied w' = occupied w
        ∧ nextRef w' = nextRef w
        ∧ registryOk w'.
Proof.
  intros Hok Hinst.
  pose proof (stopServer_keeps_registry n w Hok) as Hok'.
  destruct (stopServer_run n instance w Hinst)
    as (w1 & _ & Hrun & Hi & Hl & Hh & Hc & Hf & Ho & Hn).
  destruct Hok as (Hfit & _). destruct (Hfit n instance Hinst) as (_ & Hserver & Hport).
  rewrite bool_decide_true in Hrun by now rewrite Hserver.
  rewrite Hrun in Hok'. simpl in Hok'.
  eexists. split; [exact Hrun |].
  repeat (split; [first [assumption | simpl; now rewrite ?Hi, ?Hl, ?Hserver] |]).
  exact Hok'.
Qed.

(** The stops of [cleanup] in a fitting registry: each one succeeds. *)
Lemma stops_all :
  ∀ (names : list string) (wk : World),
    NoDup names →
    registryOk wk →
    (∀ m, m ∈ names → is_Some (instances wk !! m)) →
    ∃ w', forEach names
            (fun name => tryCatch (bind (stopServer name) (fun _ => ret tt))
                           (fun err => logError "Error stopping server" (Some err))) wk
          = (Returns tt, w')
          ∧ registryOk w'
          ∧ (∀ m, instances w' !! m
                  = if bool_decide (m ∈ names) then None else instances wk !! m)
          ∧ console w' = console wk
          ∧ heap w' = heap wk.
Proof.
  induction names as [|n names IH]; intros wk Hnd Hok Hall; cbn [forEach].
  - exists wk. split; [reflexivity |]. split; [assumption |].
    split; [| split; reflexivity].
    intros m. rewrite bool_decide_false; [reflexivity |]. apply not_elem_of_nil.
  - apply NoDup_cons in Hnd as [Hn Hnd].
    destruct (Hall n) as [instance Hinst]; [now left |].
    destruct (stopServer_registered n instance wk Hok Hinst)
      as (w1 & Hrun & Hi & _ & Hh & Hc & _ & _ & _ & Hok1).
    rewrite bind_case. unfold tryCatch at 1. rewrite bind_case, Hrun.
    unfold ret at 1.
    destruct (IH w1 Hnd Hok1) as (w' & Hrun' & Hok' & Hinsts & Hc' & Hh').
    { intros m Hm. rewrite Hi, lookup_delete_ne; [apply Hall; now right |].
      intros ->. contradiction. }
    exists w'. split; [exact Hrun' |]. split; [exact Hok' |].
    split; [| split; congruence].
    intros m. rewrite Hinsts, Hi.
    destruct (decide (m = n)) as [-> | Hne].
    + rewrite lookup_delete_eq, (bool_decide_true (n ∈ n :: names)) by now left.
      now destruct (bool_decide _).
    + rewrite lookup_delete_ne by congruence.
      destruct (bool_decide (m ∈ names)) eqn:Hm.
      * apply bool_decide_eq_true in Hm.
        rewrite (bool_decide_true (m ∈ n :: names)); [reflexivity | now right].
      * apply bool_decide_eq_false in Hm.
        rewrite (bool_decide_false (m ∈ n :: names)); [reflexivity |].
        intros [-> | Hin]%elem_of_cons; contradiction.
Qed.

(** [cleanup] of the reload engine: every table is emptied. *)
Lemma dynreload_cleanup_run (w : World) :
  ∃ w', Dynreload.cleanup w = (Returns tt, w')
        ∧ watchedFiles (dyn w') = ∅
        ∧ routeUpdateCallbacks (dyn w') = ∅
        ∧ cache (dyn w') = ∅
        ∧ lastValidModules (dyn w') = ∅
        ∧ dependencyGraph (dyn w') = [].
Proof.
  unfold Dynreload.cleanup, stopWatchingAll.
  rewrite bind_case, bind_case. unfold gets at 1.
  destruct (unwatch_all w ((map_to_list (watchedFiles (dyn w))).*1) w)
    as (w2 & Hrun2 & Hempty & _).
  - intros file [handle Hfile].
    apply list_elem_of_fmap. exists (file, handle). split; [reflexivity |].
    now apply elem_of_map_to_list.
  - apply closing_refl.
  - rewrite Hrun2. eexists. split; [reflexivity |]. simpl. repeat split. exact Hempty.
Qed.

(** X6.  In a fitting registry [cleanup] stops every instance: the registry
    and the set of listening sockets end up empty, no stop fails, so
    nothing is written to the console, and no file is watched and no
    callback registered any more. *)
Theorem cleanup_stops_everything (w : World) :
  registryOk w →
  ∃ w', cleanup w = (Returns tt, w')
        ∧ instances w' = ∅
        ∧ listening w' = ∅
        ∧ console w' = console w
        ∧ heap w' = heap w
        ∧ watchedFiles (dyn w') = ∅
        ∧ routeUpdateCallbacks (dyn w') = ∅.
Proof.
  intros Hok. unfold cleanup. rewrite bind_case. unfold gets at 1.
  destruct (stops_all ((map_to_list (instances w)).*1) w)
    as (w1 & Hrun & Hok1 & Hinsts & Hc & Hh).
  - apply NoDup_fst_map_to_list.
  - exact Hok.
  - intros m [[m' instance] [Hm Hin]]%list_elem_of_fmap. simpl in Hm. subst m'.
    apply elem_of_map_to_list in Hin. eauto.
  - assert (instances w1 = ∅) as Hempty.
    { apply map_empty. intros m. rewrite Hinsts.
      destruct (bool_decide _) eqn:Hm; [reflexivity |].
      apply bool_decide_eq_false in Hm.
      destruct (instances w !! m) as [instance|] eqn:Hinst; [| reflexivity].
      exfalso. apply Hm. apply list_elem_of_fmap. exists (m, instance).
      split; [reflexivity |]. now apply elem_of_map_to_list. }
    assert (listening w1 = ∅) as Hclosed.
    { apply elem_of_equiv_empty_L. intros p Hp.
      destruct Hok1 as (_ & _ & Hsock). destruct (Hsock p Hp) as (m & instance & Hin & _).
      rewrite Hempty, lookup_empty in Hin. discriminate. }
    rewrite bind_case, Hrun.
    destruct (dynreload_cleanup_run w1) as (w2 & Hrun2 & Hwatched & Hcallbacks & _).
    set (proj := fun w : World => (instances w, listening w, console w, heap w)).
    pose proof (dynreload_cleanup_frame proj ltac:(reflexivity) ltac:(reflexivity)
                  ltac:(reflexivity) ltac:(reflexivity) ltac:(reflexivity)
                  ltac:(reflexivity) w1) as F.
    rewrite Hrun2 in F. unfold proj in F. simpl in F. injection F as Fi Fl Fc Fh.
    rewrite Hrun2. exists w2. split; [reflexivity |].
    repeat split; congruence.
Qed.

End Lifecycle.

(** ** The route table of an instance *)

Section RouteTable.

Import Dynreload DynExpress.

Variable appFunction : string → bool.

Lemma keepsRoutes_same {B} (a : nat) (m : M B) :
  preserves heap m → keepsRoutes a m.
Proof.
  intros Hm w. exists (fun x => x). split; [| reflexivity].
  rewrite (Hm w). symmetry. now apply alter_id.
Qed.

Lemma keepsRoutes_bind {B C} (a : nat) (m : M B) (k : B → M C) :
  keepsRoutes a m → (∀ b, keepsRoutes a (k b)) → keepsRoutes a (bind m k).
Proof.
  intros Hm Hk w. rewrite bind_case. destruct (Hm w) as (g & Hg & Hroutes).
  destruct (m w) as [[b|e|] w1]; simpl in *; try (now exists g).
  destruct (Hk b w1) as (g' & Hg' & Hroutes').
  exists (g' ∘ g). split.
  - now rewrite Hg', Hg, alter_alter_eq.
  - intros x. simpl. now rewrite Hroutes', Hroutes.
Qed.

Lemma keepsRoutes_forEach {B} (a : nat) (l : list B) (f : B → M unit) :
  (∀ x, keepsRoutes a (f x)) → keepsRoutes a (forEach l f).
Proof.
  intros Hf. induction l as [|x l IH]; simpl.
  - apply keepsRoutes_same, preserves_ret.
  - apply keepsRoutes_bind; auto.
Qed.

Lemma keepsRoutes_updateApp (a : nat) (f : App → App) :
  (∀ x, routesOf (f x) = routesOf x) → keepsRoutes a (updateApp a f).
Proof. intros Hf w. exists f. now split. Qed.

Lemma setupMiddleware_keepsRoutes (a : nat) (views public : JsVal) :
  keepsRoutes a (setupMiddleware a views public).
Proof.
  assert (∀ what, keepsRoutes a (appUse a what)) as Huse.
  { intros what. apply keepsRoutes_updateApp. intros x. unfold routesOf. simpl.
    rewrite omap_app. simpl. apply app_nil_r. }
  assert (∀ key value, keepsRoutes a (appSet a key value)) as Hset.
  { intros key value. now apply keepsRoutes_updateApp. }
  unfold setupMiddleware.
  repeat (apply keepsRoutes_bind; [first [apply Huse | apply Hset
                                         | apply keepsRoutes_same, preserves_gets] | intros ?]);
    try apply Huse.
  apply keepsRoutes_bind; [| intros _; apply Huse].
  apply keepsRoutes_forEach. intros [| | | |d| | | |];
    try apply keepsRoutes_same, preserves_ret.
  apply keepsRoutes_bind; [apply keepsRoutes_same, preserves_gets | intros present].
  destruct present; [apply Huse | apply keepsRoutes_same, preserves_ret].
Qed.

Lemma routesOf_bindAll (items : list JsVal) :
  ∀ app, routesOf (bindAll items app) = (routesOf app ++ map routeEntry items)%list.
Proof.
  unfold bindAll. induction items as [|r items IH]; intros app; simpl.
  - now rewrite app_nil_r.
  - rewrite IH. unfold routesOf at 1. simpl. rewrite omap_app. simpl.
    now rewrite <- app_assoc.
Qed.

(** What [loadRoutes] returns, by source. *)
Lemma loadRoutes_returns_inv (source : RouterSource) (launch : JsVal) (w w1 : World)
    (loaded : JsVal * JsVal) :
  loadRoutes source launch w = (Returns loaded, w1) →
  match source with
  | ArraySource inline => loaded = (JArr inline, JUndefined)
  | FileSource file => fst loaded = exported launch (snd loaded)
  end.
Proof.
  unfold loadRoutes, exported. destruct source as [inline|file]; intros H.
  - now injection H as <- _.
  - stage H as moduleLoad w2 Hpreload.
    destruct (selectsExport launch) as [l|].
    + stage H as selected w3 Hselect.
      destruct (negb (truthy selected)); [discriminate |].
      injection H as <- _. simpl.
      destruct moduleLoad; try discriminate; now injection Hselect as <- _.
    + now injection H as <- _.
Qed.

(** A creation that returns, step by step: the application object is the
    fresh one, its route table is the route list of the source in order, no
    other application object is touched. *)
Lemma tryCreate_returns_inv (fuel : nat) (n : string) (config : ServerConfig)
    (w w' : World) (url : string) :
  tryCreate appFunction fuel n config w = (Returns url, w') →
  ∃ source loaded w1 items instance app base,
    routeSourceAccepted config w source loaded w1
    ∧ fst loaded = JArr items
    ∧ forallb (bindable appFunction) items = true
    ∧ instances w' !! n = Some instance
    ∧ url = address (instPort instance)
    ∧ instPort instance ∈ listening w'
    ∧ instApp instance = nextRef w
    ∧ instRouters instance = routers config
    ∧ instModuleLoad instance = snd loaded
    ∧ heap w' !! nextRef w = Some app
    ∧ routesOf app = map routeEntry items
    ∧ (∀ a, a ≠ nextRef w → heap w' !! a = heap w !! a)
    ∧ parseInt (port config) = Parsed base
    ∧ firstFreePort w base 10 (instPort instance)
    ∧ (∀ m, m ≠ n → instances w' !! m = instances w !! m).
Proof.
  intros H. unfold tryCreate in H.
  set (P := fun w : World => (nextRef w, heap w, portFree w, instances w)).
  stage H as source w1 Hvalidate.
  framed (validateRouters_frame (fun w => w) (routers config)) Hvalidate F0. subst w1.
  stage H as loaded w2 Hload.
  framed (loadRoutes_frame P source (defaulted (launch config) (JBool false))
            ltac:(reflexivity) ltac:(reflexivity) ltac:(reflexivity) ltac:(reflexivity))
    Hload F2.
  stage H as q w3 Hport.
  framed (findAvailablePort_frame P (port config) 10 ltac:(reflexivity)) Hport F3.
  assert (P w3 = P w) as HP by congruence.
  injection HP as Hnext3 Hheap3 Hfree3 Hinsts3.
  pose proof (findAvailablePort_outcome (port config) 10 w2) as Hq.
  destruct (parseInt (port config)) as [base| |] eqn:Hparse; [| congruence | congruence].
  destruct (_ || _); [congruence |].
  destruct Hq as [(q' & w3' & Hq & Hfirst & _)
                 | [(w3' & Hq & _) | (w3' & Hq & _)]]; [| congruence | congruence].
  assert (q' = q) as -> by congruence.
  assert (firstFreePort w base 10 q) as Hfirst0.
  { injection F2 as _ _ HF _. unfold firstFreePort in *. now rewrite <- HF. }
  stage H as app w4 Hexpress.
  unfold express in Hexpress. injection Hexpress as <- <-.
  stage H as u1 w5 Hmiddleware.
  destruct (setupMiddleware_keepsRoutes (nextRef w3)
              (defaulted (pathViews config) JNull) (defaulted (pathPublic config) JNull)
              (withNextRef (S (nextRef w3))
                 (withHeap (insert (nextRef w3) {| settings := []; stack := [] |}) w3)))
    as (g & Hheap5 & Hg).
  rewrite Hmiddleware in Hheap5. simpl in Hheap5.
  stage H as u2 w6 Hroutes.
  unfold setupRoutes in Hroutes.
  destruct (fst loaded) as [| | | | | |items| |] eqn:Hitems; try discriminate.
  destruct (forallb (bindable appFunction) items) eqn:Hbindable.
  2: { destruct (forEach_setupRoute_unbindable appFunction (nextRef w3) items w5 Hbindable)
         as (e & w6' & Hthrows). congruence. }
  destruct (forEach_setupRoute_bindable appFunction (nextRef w3) items w5 Hbindable)
    as (w6' & Hrun & Hheap6).
  assert (w6' = w6) as -> by congruence.
  stage H as server w7 Hserver.
  destruct (startServer_outcome (nextRef w3) q w6) as [Hrun' | (e0 & Hrun')];
    rewrite Hrun' in Hserver; [| discriminate].
  injection Hserver as <- <-.
  rewrite bind_case in H. unfold gets at 1 in H.
  rewrite bind_case in H. unfold modify at 1 in H.
  stage H as u3 w8 Hwatch.
  injection H as <- <-.
  set (reg := fun w : World => (instances w, listening w, heap w)) in *.
  assert (preserves reg
            match source with
            | ArraySource _ => ret tt
            | FileSource value =>
                if truthy (defaulted (watchFile config) (JBool false))
                then setupHotReloading fuel n value
                       (defaulted (launch config) (JBool false))
                else ret tt
            end) as Hframe.
  { destruct source; [apply preserves_ret |].
    destruct (truthy _); [apply setupHotReloading_frame; reflexivity | apply preserves_ret]. }
  framed Hframe Hwatch F8. unfold reg in F8. simpl in F8.
  injection F8 as Hinsts8 Hlisten Hheap8.
  assert (instances w6 = instances w) as Hinsts6.
  { rewrite <- Hinsts3.
    pose proof (setupRoutes_frame appFunction instances (nextRef w3) (JArr items)
                  ltac:(reflexivity) w5) as F6.
    unfold setupRoutes in F6. rewrite Hroutes in F6. simpl in F6. rewrite F6.
    framed (setupMiddleware_frame instances (nextRef w3)
              (defaulted (pathViews config) JNull) (defaulted (pathPublic config) JNull)
              ltac:(reflexivity)) Hmiddleware F5.
    exact F5. }
  assert (heap w8 = alter (bindAll items ∘ g) (nextRef w)
                      (<[nextRef w := {| settings := []; stack := [] |}]> (heap w)))
    as Hheap.
  { rewrite Hheap8, Hheap6, Hheap5, Hnext3, Hheap3. apply alter_alter_eq. }
  exists source, loaded, w2, items. eexists.
  exists (bindAll items (g {| settings := []; stack := [] |})), base.
  split; [split; [now rewrite Hvalidate | exact Hload] |].
  split; [exact Hitems |]. split; [exact Hbindable |].
  split; [rewrite Hinsts8; apply lookup_insert_eq |]. simpl.
  split; [reflexivity |].
  split; [rewrite Hlisten; apply elem_of_union; left; now apply elem_of_singleton |].
  split; [exact Hnext3 |]. split; [reflexivity |]. split; [reflexivity |].
  split; [| split; [| split; [| split; [| split]]]].
  - rewrite Hheap, lookup_alter_eq, lookup_insert_eq. reflexivity.
  - rewrite routesOf_bindAll, Hg. reflexivity.
  - intros a Ha. rewrite Hheap, lookup_alter_ne, lookup_insert_ne by congruence.
    reflexivity.
  - reflexivity.
  - exact Hfirst0.
  - intros m Hm. rewrite Hinsts8. simpl. rewrite lookup_insert_ne by congruence.
    now rewrite Hinsts6.
Qed.

(** The route list of an accepted source. *)
Lemma accepted_items (config : ServerConfig) (w w1 : World) (source : RouterSource)
    (loaded : JsVal * JsVal) (items : list JsVal) :
  routeSourceAccepted config w source loaded w1 →
  fst loaded = JArr items →
  match routers config with
  | JArr inline => items = inline
  | _ => JArr items = exported (defaulted (launch config) (JBool false)) (snd loaded)
  end.
Proof.
  intros [Hvalidate Hload] Hitems.
  apply loadRoutes_returns_inv in Hload.
  unfold validateRouters in Hvalidate.
  destruct (routers config) as [| | | |file| |inline| |]; try discriminate.
  - destruct (negb _ && negb _); [discriminate |].
    rewrite bind_case in Hvalidate. unfold gets at 1 in Hvalidate.
    destruct (negb _); [discriminate |]. simpl in Hvalidate. injection Hvalidate as <-.
    now rewrite <- Hload, Hitems.
  - destruct (negb _); [discriminate |]. simpl in Hvalidate. injection Hvalidate as <-.
    rewrite Hload in Hitems. simpl in Hitems. now injection Hitems as <-.
Qed.

(** X7.  The route table of a new instance.  When [newServer] of a fresh name
    returns, the instance is registered with a fresh application object;
    the route table of that object is the route list of the source, entry
    by entry and in order: the inline list, or what the route file's module
    yields under the selector.  No other application object is touched. *)
Theorem newServer_route_table (fuel : nat) (config : ServerConfig) (n : string)
    (w w' : World) (url : string) :
  name config = JStr n →
  instances w !! n = None →
  newServer appFunction fuel config w = (Returns url, w') →
  ∃ instance app items,
    instances w' !! n = Some instance
    ∧ instApp instance = nextRef w
    ∧ heap w' !! nextRef w = Some app
    ∧ routesOf app = map routeEntry items
    ∧ (∀ a, a ≠ nextRef w → heap w' !! a = heap w !! a)
    ∧ match routers config with
      | JArr inline => items = inline
      | _ => JArr items
             = exported (defaulted (launch config) (JBool false))
                 (instModuleLoad instance)
      end.
Proof.
  intros Hname Hfresh Hrun.
  destruct (decide (n = "")) as [-> | Hn].
  { rewrite newServer_unnamed in Hrun; [discriminate |].
    intros m. rewrite Hname. now intros [= <-]. }
  rewrite (newServer_named _ _ _ _ _ Hname Hn), Hfresh in Hrun.
  destruct (tryCreate appFunction fuel n config w) as [[url'|e|] w1] eqn:Hcreate;
    try discriminate.
  injection Hrun as <- <-.
  apply tryCreate_returns_inv in Hcreate
    as (source & loaded & w2 & items & instance & app & base & Hacc & Hitems & _
        & Hinst & _ & _ & Happ & _ & Hmodule & Hheap & Hroutes & Hother & _).
  exists instance, app, items.
  repeat (split; [assumption |]).
  rewrite Hmodule. exact (accepted_items _ _ _ _ _ _ Hacc Hitems).
Qed.

End RouteTable.

(** ** Reset *)

Section Reset.

Import Dynreload DynExpress.

Variable appFunction : string → bool.

(** X8.  The outcome of [resetServer].  A name that is not registered is
    rejected with NotFound and nothing changes.  In a fitting registry the
    stop of a registered instance succeeds, and the instance is created
    again from the configuration it was registered with.  When that
    returns, the name is registered again, listening on the first free port
    of the window that starts at the old port (the old port itself unless
    another process holds it), with a fresh application object whose route
    table is the route list of the source: routes added to the old
    application object are not carried over.  When it throws, the instance
    is gone: the name is not registered and its port does not listen.  No
    other instance is touched either way. *)
Theorem resetServer_outcome (fuel : nat) (n : string) (w : World) :
  (instances w !! n = None →
   resetServer appFunction fuel n w = (Throws (ErrServerNotFound n), w))
  ∧ (∀ instance,
       registryOk w →
       instances w !! n = Some instance →
       match resetServer appFunction fuel n w with
       | (Returns url, w') =>
           ∃ instance' app items,
             instances w' !! n = Some instance'
             ∧ url = address (instPort instance')
             ∧ instPort instance' ∈ listening w'
             ∧ firstFreePort
                 (withListening (fun open => open ∖ {[instPort instance]}) w)
                 (instPort instance) 10 (instPort instance')
             ∧ (instPort instance ∉ occupied w → instPort instance' = instPort instance)
             ∧ instRouters instance' = instRouters instance
             ∧ instApp instance' = nextRef w
             ∧ heap w' !! nextRef w = Some app
             ∧ routesOf app = map routeEntry items
             ∧ (∀ inline, instRouters instance = JArr inline → items = inline)
             ∧ (∀ a, a ≠ nextRef w → heap w' !! a = heap w !! a)
             ∧ (∀ m, m ≠ n → instances w' !! m = instances w !! m)
       | (Throws e, w') =>
           instances w' !! n = None
           ∧ (instPort instance ∉ listening w')
           ∧ (∀ m, m ≠ n → instances w' !! m = instances w !! m)
       | (Diverges, _) => True
       end).
Proof.
  split.
  { intros Hnone. unfold resetServer. rewrite bind_case. unfold gets at 1.
    now rewrite Hnone. }
  intros instance Hok Hinst.
  destruct (stopServer_registered n instance w Hok Hinst)
    as (w1 & Hstop & Hi1 & Hl1 & Hh1 & _ & _ & Ho1 & Hn1 & Hok1).
  assert (n ≠ "") as Hn.
  { destruct Hok as (Hfit & _). now destruct (Hfit n instance Hinst). }
  assert (instances w1 !! n = None) as Hfresh.
  { rewrite Hi1. apply lookup_delete_eq. }
  assert (∀ m, m ≠ n → instances w1 !! m = instances w !! m) as Hothers.
  { intros m Hm. rewrite Hi1. now apply lookup_delete_ne. }
  unfold resetServer. rewrite bind_case. unfold gets at 1. rewrite Hinst.
  unfold tryCatch. rewrite bind_case, Hstop.
  set (config := {| name := JStr n; routers := instRouters instance;
                    port := JNum (instPort instance);
                    pathViews := instPathViews instance;
                    pathPublic := instPathPublic instance;
                    watchFile := instWatchFile instance;
                    launch := instLaunch instance |}).
  rewrite (newServer_named appFunction fuel config n w1 eq_refl Hn). rewrite Hfresh.
  destruct (tryCreate appFunction fuel n config w1) as [[url|e|] w2] eqn:Hcreate;
    [| | exact I].
  - apply tryCreate_returns_inv in Hcreate
      as (source & loaded & w1' & items & instance' & app & base & Hacc & Hitems & _
          & Hinst' & Hurl & Hlisten & Happ & Hrouters & _ & Hheap & Hroutes & Hother
          & Hparse & Hfirst & Hrest).
    simpl in Hparse. injection Hparse as <-.
    assert (firstFreePort (withListening (fun open => open ∖ {[instPort instance]}) w)
              (instPort instance) 10 (instPort instance')) as Hfirst'.
    { unfold firstFreePort, portFree in *. simpl. now rewrite <- Ho1, <- Hl1. }
    exists instance', app, items.
    split; [assumption |]. split; [assumption |]. split; [assumption |].
    split; [assumption |]. split; [| split; [assumption |]].
    { intros Hfree. destruct Hfirst' as (Hrange & _ & Hleast).
      destruct (decide (instPort instance' = instPort instance)) as [-> | Hne];
        [reflexivity |].
      exfalso. apply (Hleast (instPort instance)); [lia |].
      unfold portFree. simpl. intros [Hin | Hin]%elem_of_union; [contradiction |].
      apply elem_of_difference in Hin as [_ Hin]. apply Hin. now apply elem_of_singleton. }
    rewrite <- Hn1. split; [assumption |]. split; [assumption |]. split; [assumption |].
    split; [| split].
    + intros inline Hinline.
      pose proof (accepted_items _ _ _ _ _ _ Hacc Hitems) as Hsource.
      simpl in Hsource. now rewrite Hinline in Hsource.
    + intros a Ha. rewrite <- Hh1. now apply Hother.
    + intros m Hm. rewrite (Hrest m Hm). now apply Hothers.
  - pose proof (tryCreate_throws_frame appFunction fuel n config w1 e w2 Hcreate) as Hframe.
    injection Hframe as Hi2 Hl2.
    assert (∀ what (cause : option JsError) w0,
              instances (snd (logError what cause w0)) = instances w0
              ∧ listening (snd (logError what cause w0)) = listening w0) as Hlog.
    { intros what cause w0. unfold logError, modify. simpl.
      now destruct (silent (dyn w0)). }
    rewrite bind_case.
    destruct (logError "Error resetting server" (Some e) (afterCreationError e w2))
      as [[[]|e'|] w3] eqn:Hlogged;
      pose proof (Hlog "Error resetting server" (Some e) (afterCreationError e w2)) as [Li Ll];
      rewrite Hlogged in Li, Ll; simpl in Li, Ll;
      try (unfold logError, modify in Hlogged; discriminate).
    unfold throw.
    assert (instances (afterCreationError e w2) = instances w2
            ∧ listening (afterCreationError e w2) = listening w2) as [Ai Al].
    { unfold afterCreationError. now destruct (silent (dyn w2)). }
    split; [| split].
    + now rewrite Li, Ai, Hi2.
    + rewrite Ll, Al, Hl2, Hl1.
      intros [_ Hin]%elem_of_difference. apply Hin. now apply elem_of_singleton.
    + intros m Hm. rewrite Li, Ai, Hi2. now apply Hothers.
Qed.

End Reset.

(** ** Setting up watches *)

Lemma advances_ret {B} (R : World → World → Prop) (b : B) :
  (∀ w, R w w) → advances R (ret b).
Proof. intros Hrefl w. apply Hrefl. Qed.

Lemma advances_gets {B} (R : World → World → Prop) (f : World → B) :
  (∀ w, R w w) → advances R (gets f).
Proof. intros Hrefl w. apply Hrefl. Qed.

Lemma advances_bind {B C} (R : World → World → Prop) (m : M B) (k : B → M C) :
  (∀ w1 w2 w3, R w1 w2 → R w2 w3 → R w1 w3) →
  advances R m → (∀ b, advances R (k b)) → advances R (bind m k).
Proof.
  intros Htrans Hm Hk w. rewrite bind_case. specialize (Hm w).
  destruct (m w) as [[b|e|] w1]; simpl in *; try assumption.
  eapply Htrans; [exact Hm | apply Hk].
Qed.

Lemma advances_forEach {B} (R : World → World → Prop) (l : list B) (f : B → M unit) :
  (∀ w, R w w) →
  (∀ w1 w2 w3, R w1 w2 → R w2 w3 → R w1 w3) →
  (∀ x, advances R (f x)) → advances R (forEach l f).
Proof.
  intros Hrefl Htrans Hf. induction l as [|x l IH]; simpl.
  - now apply advances_ret.
  - apply advances_bind; auto.
Qed.

(** A loop that returns has advanced along [R], and every turn has
    established its fact. *)
Lemma forEach_returned_each {B} (R : World → World → Prop) (P : B → World → Prop)
    (l : list B) (f : B → M unit) :
  (∀ w, R w w) →
  (∀ w1 w2 w3, R w1 w2 → R w2 w3 → R w1 w3) →
  (∀ x w w', R w w' → P x w → P x w') →
  (∀ x, advances R (f x)) →
  (∀ x w w', f x w = (Returns tt, w') → P x w') →
  ∀ w w', forEach l f w = (Returns tt, w') → ∀ x, x ∈ l → P x w'.
Proof.
  intros Hrefl Htrans Hmono Hadv Hstep.
  induction l as [|x l IH]; intros w w' Hrun y Hy.
  - now apply elem_of_nil in Hy.
  - simpl in Hrun. rewrite bind_case in Hrun.
    destruct (f x w) as [[[]|e|] w1] eqn:Hx; try discriminate.
    apply elem_of_cons in Hy as [-> | Hy].
    + apply (Hmono x w1 w'); [| now apply (Hstep x w)].
      pose proof (advances_forEach R l f Hrefl Htrans Hadv w1) as Hl.
      now rewrite Hrun in Hl.
    + now apply (IH w1 w').
Qed.

Section SettingUpWatches.

Import Dynreload.

Lemma watchesAdded_refl (w : World) : watchesAdded w w.
Proof. repeat split; auto. Qed.

Lemma watchesAdded_trans (w1 w2 w3 : World) :
  watchesAdded w1 w2 → watchesAdded w2 w3 → watchesAdded w1 w3.
Proof.
  intros (F1 & D1 & G1 & C1 & W1 & O1) (F2 & D2 & G2 & C2 & W2 & O2).
  split; [congruence |]. split; [congruence |]. split; [congruence |].
  split; [congruence |]. split; [auto |]. etransitivity; eassumption.
Qed.

Lemma watchesAdded_logError (what : string) (cause : option JsError) (w : World) :
  watchesAdded w (snd (logError what cause w)).
Proof.
  unfold logError, modify. simpl.
  destruct (silent (dyn w)); [apply watchesAdded_refl |].
  repeat split; simpl; auto.
Qed.

(** However deep the calls go, [watchFile] and [#watchDependencies] only
    add watches. *)
Lemma watch_advances (fuel : nat) :
  (∀ file, advances watchesAdded (watchFile fuel file))
  ∧ (∀ file depth, advances watchesAdded (watchDependencies fuel file depth)).
Proof.
  induction fuel as [|fuel [IHf IHd]].
  { split; intros; intros w; apply watchesAdded_refl. }
  split.
  - intros file w. simpl.
    rewrite bind_case. unfold gets at 1.
    case_bool_decide as Hwatching; [apply watchesAdded_refl |].
    assert (watchedFiles (dyn w) !! file = None) as Hnone.
    { destruct (watchedFiles (dyn w) !! file) eqn:E; [| reflexivity].
      exfalso. apply Hwatching. eauto. }
    unfold tryCatch. rewrite bind_case. unfold fsWatch.
    destruct (existsSync w file) eqn:Hexists.
    + rewrite bind_case. unfold modify at 1.
      rewrite bind_case. unfold gets at 1.
      set (w2 := withDyn _ _).
      assert (watchesAdded w w2) as Hadded.
      { subst w2. repeat split; simpl; auto.
        - intros f h Hf. rewrite lookup_insert_ne; [assumption |]. congruence.
        - apply union_subseteq_r. }
      case_bool_decide as Hdeep; [| exact Hadded].
      pose proof (IHd file 1%nat w2) as Hdeps.
      pose proof (proj2 (watch_never_throws fuel) file 1%nat w2) as Hnever.
      destruct (watchDependencies fuel file 1 w2) as [[[]|e|] w3]; simpl in *.
      * eapply watchesAdded_trans; eassumption.
      * now destruct (Hnever e).
      * eapply watchesAdded_trans; eassumption.
    + rewrite bind_case.
      pose proof (watchesAdded_logError "Error setting up watcher"
                    (Some (ErrNoEntry file)) w) as Hlog.
      destruct (logError "Error setting up watcher" (Some (ErrNoEntry file)) w)
        as [[[]|e|] wl] eqn:Hlogged; simpl in Hlog; try exact Hlog.
      rewrite stopWatching_unwatched; [exact Hlog |].
      destruct Hlog as (_ & _ & _ & _ & _ & _).
      unfold logError, modify in Hlogged. injection Hlogged as <-.
      now destruct (silent (dyn w)).
  - intros file depth. simpl.
    apply advances_bind; [apply watchesAdded_trans
                         | apply advances_gets, watchesAdded_refl | intros limit].
    case_bool_decide; [apply advances_ret, watchesAdded_refl |].
    apply advances_bind; [apply watchesAdded_trans
                         | apply advances_gets, watchesAdded_refl | intros deps].
    apply advances_forEach; [apply watchesAdded_refl | apply watchesAdded_trans |].
    intros dep.
    apply advances_bind; [apply watchesAdded_trans
                         | apply advances_gets, watchesAdded_refl | intros watching].
    destruct watching; [apply advances_ret, watchesAdded_refl |].
    apply advances_bind; [apply watchesAdded_trans | apply IHf | intros _; apply IHd].
Qed.

(** A [watchFile] that returns leaves an existing file watched. *)
Lemma watchFile_watches (fuel : nat) (file : string) (w w' : World) :
  watchFile fuel file w = (Returns tt, w') →
  is_Some (fs w !! file) →
  is_Some (watchedFiles (dyn w') !! file).
Proof.
  destruct fuel as [|fuel]; [discriminate |].
  intros Hrun Hfile. simpl in Hrun.
  rewrite bind_case in Hrun. unfold gets at 1 in Hrun.
  case_bool_decide as Hwatching; [now injection Hrun as <- |].
  unfold tryCatch in Hrun. rewrite bind_case in Hrun. unfold fsWatch in Hrun.
  unfold existsSync in Hrun. rewrite bool_decide_true in Hrun by assumption.
  rewrite bind_case in Hrun. unfold modify at 1 in Hrun.
  rewrite bind_case in Hrun. unfold gets at 1 in Hrun.
  set (w2 := withDyn _ _) in Hrun.
  assert (watchedFiles (dyn w2) !! file = Some (nextRef w)) as Hw2.
  { subst w2. simpl. apply lookup_insert_eq. }
  case_bool_decide as Hdeep.
  - pose proof (proj2 (watch_advances fuel) file 1%nat w2) as Hdeps.
    pose proof (proj2 (watch_never_throws fuel) file 1%nat w2) as Hnever.
    destruct (watchDependencies fuel file 1 w2) as [[[]|e|] w3]; simpl in *;
      [| now destruct (Hnever e) | discriminate].
    injection Hrun as <-. destruct Hdeps as (_ & _ & _ & _ & Hkept & _).
    rewrite (Hkept _ _ Hw2). eauto.
  - injection Hrun as <-. rewrite Hw2. eauto.
Qed.

(** A [#watchDependencies] that returns below the depth limit leaves every
    recorded dependency that exists watched. *)
Lemma watchDependencies_watches (fuel : nat) (file : string) (depth : nat)
    (w w' : World) :
  watchDependencies fuel file depth w = (Returns tt, w') →
  (depth < maxDepth (dyn w))%nat →
  ∀ dep, dep ∈ default [] (graphGet file (dependencyGraph (dyn w))) →
         is_Some (fs w !! dep) →
         is_Some (watchedFiles (dyn w') !! dep).
Proof.
  destruct fuel as [|fuel]; [discriminate |].
  intros Hrun Hdepth dep Hdep Hfile. simpl in Hrun.
  rewrite bind_case in Hrun. unfold gets at 1 in Hrun.
  rewrite bool_decide_false in Hrun by lia.
  rewrite bind_case in Hrun. unfold gets at 1 in Hrun.
  set (turn := fun dependency =>
                 bind (gets (fun w => bool_decide
                               (is_Some (watchedFiles (dyn w) !! dependency))))
                   (fun watching =>
                      if watching then ret tt
                      else bind (watchFile fuel dependency)
                             (fun _ => watchDependencies fuel dependency (S depth)))) in *.
  assert (∀ x, advances watchesAdded (turn x)) as Hturn.
  { intros x. unfold turn.
    apply advances_bind; [apply watchesAdded_trans
                         | apply advances_gets, watchesAdded_refl | intros watching].
    destruct watching; [apply advances_ret, watchesAdded_refl |].
    apply advances_bind; [apply watchesAdded_trans | apply watch_advances
                         | intros _; apply watch_advances]. }
  assert (fs w' = fs w) as Hfs.
  { pose proof (advances_forEach watchesAdded
                  (default [] (graphGet file (dependencyGraph (dyn w)))) turn
                  watchesAdded_refl watchesAdded_trans Hturn w) as Hloop.
    rewrite Hrun in Hloop. now destruct Hloop. }
  rewrite <- Hfs in Hfile. revert Hfile.
  apply (forEach_returned_each watchesAdded
           (fun dep w0 => is_Some (fs w0 !! dep) → is_Some (watchedFiles (dyn w0) !! dep))
           (default [] (graphGet file (dependencyGraph (dyn w)))) turn
           watchesAdded_refl watchesAdded_trans) with (w := w); try assumption.
  - intros x w1 w2 (Hfs12 & _ & _ & _ & Hkept & _) Hx Hfile.
    rewrite Hfs12 in Hfile.
    destruct (Hx Hfile) as [h Hh]. rewrite (Hkept _ _ Hh). eauto.
  - intros x w1 w2 Hx Hfile. unfold turn in Hx.
    rewrite bind_case in Hx. unfold gets at 1 in Hx.
    case_bool_decide as Hwatching.
    { injection Hx as <-. exact Hwatching. }
    rewrite bind_case in Hx.
    destruct (watchFile fuel x w1) as [[[]|e|] w3] eqn:Hwatch; try discriminate.
    pose proof (proj2 (watch_advances fuel) x (S depth) w3) as Hadded.
    rewrite Hx in Hadded. simpl in Hadded.
    destruct Hadded as (Hfs32 & _ & _ & _ & Hkept & _).
    pose proof (proj1 (watch_advances fuel) x w1) as Hadded1.
    rewrite Hwatch in Hadded1. simpl in Hadded1. destruct Hadded1 as (Hfs13 & _).
    destruct (watchFile_watches fuel x w1 w3 Hwatch) as [h Hh].
    { now rewrite <- Hfs13, <- Hfs32. }
    rewrite (Hkept _ _ Hh). eauto.
Qed.

(** X9.  The outcome of [watchFile], at any call depth of one or more.  A file
    that is watched already is left as it is.  A file that is missing is
    not watched: the failure is caught and goes to the console only.  A
    file that exists gets a fresh open watcher, and with call depth enough
    the call returns, having only added watches: no watcher is closed, no
    callback and no entry of the dependency graph changes.  At depth limit
    1 or less nothing else is watched; at a greater limit every recorded
    dependency of the file that exists is watched as well. *)
Theorem watchFile_outcome (fuel : nat) (file : string) (w : World) :
  (is_Some (watchedFiles (dyn w) !! file) →
   watchFile (S fuel) file w = (Returns tt, w))
  ∧ (watchedFiles (dyn w) !! file = None → fs w !! file = None →
     ∃ w', watchFile (S fuel) file w = (Returns tt, w') ∧ logged w w')
  ∧ (watchedFiles (dyn w) !! file = None → is_Some (fs w !! file) →
     (watchFuel w ≤ fuel)%nat →
     ∃ w', watchFile fuel file w = (Returns tt, w')
           ∧ watchedFiles (dyn w') !! file = Some (nextRef w)
           ∧ nextRef w ∈ watchers w'
           ∧ watchesAdded w w'
           ∧ ((maxDepth (dyn w) ≤ 1)%nat →
              watchedFiles (dyn w') = <[file := nextRef w]> (watchedFiles (dyn w))
              ∧ watchers w' = {[nextRef w]} ∪ watchers w)
           ∧ ((1 < maxDepth (dyn w))%nat →
              ∀ dep, dep ∈ default [] (graphGet file (dependencyGraph (dyn w))) →
                     is_Some (fs w !! dep) →
                     is_Some (watchedFiles (dyn w') !! dep))).
Proof.
  split; [| split].
  - intros Hwatched. simpl. rewrite bind_case. unfold gets at 1.
    now rewrite bool_decide_true.
  - intros Hnone Hfile. simpl. rewrite bind_case. unfold gets at 1.
    rewrite bool_decide_false by (rewrite Hnone; now intros [? ?]).
    unfold tryCatch. rewrite bind_case. unfold fsWatch, existsSync.
    rewrite bool_decide_false by (rewrite Hfile; now intros [? ?]).
    rewrite bind_case.
    destruct (logError_logged "Error setting up watcher" (Some (ErrNoEntry file)) w)
      as (wl & Hlog & Hlogged).
    rewrite Hlog. exists wl. split; [| exact Hlogged].
    apply stopWatching_unwatched. destruct Hlogged as [entries ->]. exact Hnone.
  - intros Hnone Hfile Hfuel.
    destruct (watchFile_returns fuel file w Hfuel) as (w' & Hrun).
    exists w'. split; [exact Hrun |].
    pose proof (proj1 (watch_advances fuel) file w) as Hadded.
    rewrite Hrun in Hadded. simpl in Hadded.
    destruct fuel as [|fuel]; [discriminate |].
    simpl in Hrun. rewrite bind_case in Hrun. unfold gets at 1 in Hrun.
    rewrite bool_decide_false in Hrun by (rewrite Hnone; now intros [? ?]).
    unfold tryCatch in Hrun. rewrite bind_case in Hrun.
    unfold fsWatch, existsSync in Hrun.
    rewrite bool_decide_true in Hrun by assumption.
    rewrite bind_case in Hrun. unfold modify at 1 in Hrun.
    rewrite bind_case in Hrun. unfold gets at 1 in Hrun.
    set (w2 := withDyn _ _) in Hrun.
    assert (watchedFiles (dyn w2) !! file = Some (nextRef w)) as Hw2.
    { subst w2. simpl. apply lookup_insert_eq. }
    assert (nextRef w ∈ watchers w2) as Hopen.
    { subst w2. simpl. apply elem_of_union. left. now apply elem_of_singleton. }
    case_bool_decide as Hdeep.
    + pose proof (proj2 (watch_advances fuel) file 1%nat w2) as Hdeps.
      pose proof (proj2 (watch_never_throws fuel) file 1%nat w2) as Hnever.
      destruct (watchDependencies fuel file 1 w2) as [[[]|e|] w3] eqn:Hwatch;
        simpl in *; [| now destruct (Hnever e) | discriminate].
      injection Hrun as <-. destruct Hdeps as (_ & _ & _ & _ & Hkept & Hopened).
      split; [now apply Hkept |]. split; [now apply Hopened |].
      split; [exact Hadded |]. split; [intros; lia |].
      intros _ dep Hdep Hexists.
      now apply (watchDependencies_watches fuel file 1 w2 w3 Hwatch Hdeep dep).
    + injection Hrun as <-.
      split; [exact Hw2 |]. split; [exact Hopen |]. split; [exact Hadded |].
      split; [intros _; now split |]. intros Hlimit. simpl in Hdeep. lia.
Qed.

(** [watchFile] registers and removes no callback. *)
Lemma watchFile_callbacks (fuel : nat) (file : string) :
  preserves (fun w => routeUpdateCallbacks (dyn w)) (watchFile fuel file).
Proof.
  intros w. now destruct (proj1 (watch_advances fuel) file w) as (_ & _ & _ & H & _).
Qed.

End SettingUpWatches.

(** ** Hot reloading *)

Section HotReloading.

Import Dynreload DynExpress.

Variable appFunction : string → bool.

(** What the body of a creation from a route file does to the callbacks
    and the watches. *)
Lemma tryCreate_hot_run (fuel : nat) (config : ServerConfig) (n file : string)
    (w w' : World) (url : string) :
  routers config = JStr file →
  tryCreate appFunction fuel n config w = (Returns url, w') →
  if truthy (defaulted (watchFile config) (JBool false))
  then routeUpdateCallbacks (dyn w')
       = <[file := {| cbServerName := n;
                      cbLaunch := defaulted (launch config) (JBool false) |}]>
           (routeUpdateCallbacks (dyn w))
       ∧ is_Some (watchedFiles (dyn w') !! file)
       ∧ (∀ other handle, watchedFiles (dyn w) !! other = Some handle →
                          watchedFiles (dyn w') !! other = Some handle)
  else routeUpdateCallbacks (dyn w') = routeUpdateCallbacks (dyn w)
       ∧ watchedFiles (dyn w') = watchedFiles (dyn w)
       ∧ watchers w' = watchers w.
Proof.
  intros Hrouters H.
  unfold tryCreate in H.
  set (P := fun w : World =>
              (routeUpdateCallbacks (dyn w), watchedFiles (dyn w), watchers w, fs w)).
  stage H as source w1 Hvalidate.
  framed (validateRouters_frame (fun w => w) (routers config)) Hvalidate F0. subst w1.
  assert (source = FileSource file ∧ is_Some (fs w !! file)) as [-> Hfile].
  { rewrite Hrouters in Hvalidate. unfold validateRouters in Hvalidate.
    destruct (negb _ && negb _); [discriminate |].
    rewrite bind_case in Hvalidate. unfold gets at 1 in Hvalidate.
    unfold existsSync in Hvalidate. case_bool_decide; [| discriminate].
    simpl in Hvalidate. now injection Hvalidate as <-. }
  stage H as loaded w2 Hload.
  framed (loadRoutes_frame P (FileSource file) (defaulted (launch config) (JBool false))
            ltac:(reflexivity) ltac:(reflexivity) ltac:(reflexivity) ltac:(reflexivity))
    Hload F2.
  stage H as q w3 Hport.
  framed (findAvailablePort_frame P (port config) 10 ltac:(reflexivity)) Hport F3.
  stage H as app w4 Hexpress.
  framed (express_frame P ltac:(reflexivity)) Hexpress F4.
  stage H as u1 w5 Hmiddleware.
  framed (setupMiddleware_frame P app (defaulted (pathViews config) JNull)
            (defaulted (pathPublic config) JNull) ltac:(reflexivity)) Hmiddleware F5.
  stage H as u2 w6 Hroutes.
  framed (setupRoutes_frame appFunction P app (fst loaded) ltac:(reflexivity)) Hroutes F6.
  stage H as server w7 Hserver.
  destruct (startServer_outcome app q w6) as [Hrun' | (e0 & Hrun')];
    rewrite Hrun' in Hserver; [| discriminate].
  injection Hserver as <- <-.
  rewrite bind_case in H. unfold gets at 1 in H.
  rewrite bind_case in H. unfold modify at 1 in H.
  stage H as u3 w8 Hwatch.
  destruct u3. injection H as <- <-.
  assert (P w6 = P w) as HP by congruence.
  injection HP as Hcallbacks Hwatched Hwatchers Hfs.
  destruct (truthy (defaulted (watchFile config) (JBool false))).
  - unfold setupHotReloading, setRouteUpdateCallback in Hwatch.
    rewrite bind_case in Hwatch. unfold modify at 1 in Hwatch.
    set (w7 := withDyn _ _) in Hwatch.
    pose proof (proj1 (watch_advances fuel) file w7) as Hadded.
    rewrite Hwatch in Hadded. simpl in Hadded.
    destruct Hadded as (_ & _ & _ & Hcb & Hkept & _).
    split; [| split].
    + rewrite Hcb. subst w7. simpl. now rewrite Hcallbacks.
    + apply (watchFile_watches fuel file w7 w8 Hwatch).
      subst w7. simpl. now rewrite Hfs.
    + intros other handle Hother. apply Hkept. subst w7. simpl. now rewrite Hwatched.
  - injection Hwatch as <-. simpl. now rewrite Hcallbacks, Hwatched, Hwatchers.
Qed.

(** X10.  With a route file and [watchFile] set, a creation that returns has
    registered the instance's callback for the file, replacing whatever
    callback was registered for it, and the file is watched; no watch that
    existed is lost.  Without [watchFile] the creation registers no
    callback and sets up no watch. *)
Theorem newServer_hot_reloading (fuel : nat) (config : ServerConfig) (n file : string)
    (w w' : World) (url : string) :
  name config = JStr n →
  instances w !! n = None →
  routers config = JStr file →
  newServer appFunction fuel config w = (Returns url, w') →
  if truthy (defaulted (watchFile config) (JBool false))
  then routeUpdateCallbacks (dyn w')
       = <[file := {| cbServerName := n;
                      cbLaunch := defaulted (launch config) (JBool false) |}]>
           (routeUpdateCallbacks (dyn w))
       ∧ is_Some (watchedFiles (dyn w') !! file)
       ∧ (∀ other handle, watchedFiles (dyn w) !! other = Some handle →
                          watchedFiles (dyn w') !! other = Some handle)
  else routeUpdateCallbacks (dyn w') = routeUpdateCallbacks (dyn w)
       ∧ watchedFiles (dyn w') = watchedFiles (dyn w)
       ∧ watchers w' = watchers w.
Proof.
  intros Hname Hfresh Hrouters Hrun.
  destruct (decide (n = "")) as [-> | Hn].
  { rewrite newServer_unnamed in Hrun; [discriminate |].
    intros m. rewrite Hname. now intros [= <-]. }
  rewrite (newServer_named _ _ _ _ _ Hname Hn), Hfresh in Hrun.
  destruct (tryCreate appFunction fuel n config w) as [[url'|e|] w0] eqn:H;
    try discriminate.
  injection Hrun as <- <-.
  exact (tryCreate_hot_run fuel config n file w w0 url' Hrouters H).
Qed.

(** Binding a list of routes goes as far as the first route that cannot be
    bound; what was bound before stays bound. *)
Lemma forEach_setupRoute_prefix (app : nat) (items : list JsVal) :
  ∀ w, ∃ o w', forEach items (setupRoute appFunction app) w = (o, w')
               ∧ o ≠ Diverges
               ∧ heap w' = alter (bindAll (boundPrefix appFunction items)) app (heap w).
Proof.
  induction items as [|r items IH]; intros w; simpl.
  - exists (Returns tt), w. split; [reflexivity |]. split; [discriminate |].
    symmetry. now apply alter_id.
  - destruct (bindable appFunction r) eqn:Hr.
    + rewrite (bind_returns _ _ _ _ _ (setupRoute_bindable appFunction app r w Hr)).
      destruct (IH (withHeap (alter (addLayer (layerOf (methodLowerOf r) r)) app) w))
        as (o & w' & Hrun & Ho & Hheap).
      exists o, w'. split; [assumption |]. split; [assumption |].
      rewrite Hheap. simpl. now rewrite alter_alter_eq.
    + destruct (setupRoute_unbindable appFunction app r w Hr) as (e & He).
      rewrite (bind_throws _ _ _ _ _ He).
      exists (Throws e), w. split; [reflexivity |]. split; [discriminate |].
      symmetry. now apply alter_id.
Qed.

(** The update callback of an instance, step by step. *)
Lemma routeUpdateCallback_run (callback : Callback) (newRoutes : JsVal) (w : World) :
  (instances w !! cbServerName callback = None →
   routeUpdateCallback appFunction callback newRoutes w = (Returns tt, w))
  ∧ (∀ instance,
       instances w !! cbServerName callback = Some instance →
       nullish newRoutes = false →
       ∃ w', routeUpdateCallback appFunction callback newRoutes w = (Returns tt, w')
             ∧ instances w'
               = <[cbServerName callback := withModuleLoad newRoutes (clock w) instance]>
                   (instances w)
             ∧ heap w'
               = alter (rebound appFunction (reloaded (cbLaunch callback) newRoutes))
                   (instApp instance) (heap w)
             ∧ dyn w' = dyn w
             ∧ listening w' = listening w
             ∧ (silent (dyn w) = true → console w' = console w)).
Proof.
  split.
  { intros Hnone. unfold routeUpdateCallback, tryCatch. rewrite bind_case.
    unfold gets at 1. now rewrite Hnone. }
  intros instance Hinst Hobj.
  set (P := fun w : World => (instances w, dyn w, listening w, console w)).
  assert (∀ what cause w0,
            ∃ w1, logError what cause w0 = (Returns tt, w1)
                  ∧ heap w1 = heap w0 ∧ instances w1 = instances w0
                  ∧ dyn w1 = dyn w0 ∧ listening w1 = listening w0
                  ∧ (silent (dyn w0) = true → console w1 = console w0)) as Hlog.
  { intros what cause w0. unfold logError, modify. eexists. split; [reflexivity |].
    destruct (silent (dyn w0)); simpl; repeat split; intros; discriminate. }
  assert (∀ what w0,
            ∃ w1, logInfo what w0 = (Returns tt, w1)
                  ∧ heap w1 = heap w0 ∧ instances w1 = instances w0
                  ∧ dyn w1 = dyn w0 ∧ listening w1 = listening w0
                  ∧ (silent (dyn w0) = true → console w1 = console w0)) as Hinfo.
  { intros what w0. unfold logInfo, modify. eexists. split; [reflexivity |].
    destruct (silent (dyn w0)); simpl; repeat split; intros; discriminate. }
  unfold routeUpdateCallback, tryCatch. rewrite bind_case. unfold gets at 1.
  rewrite Hinst. rewrite bind_case. unfold gets at 1.
  rewrite bind_case. unfold modify at 1.
  set (w1 := withInstances _ w).
  assert (match selectsExport (cbLaunch callback) with
          | Some l => bind (propOf newRoutes l) (fun selected => ret (orElse selected newRoutes))
          | None => ret newRoutes
          end w1 = (Returns (reloaded (cbLaunch callback) newRoutes), w1)) as Hroutes.
  { unfold reloaded. destruct (selectsExport (cbLaunch callback)) as [l|]; [| reflexivity].
    now rewrite (propOf_value _ _ Hobj). }
  rewrite bind_case, Hroutes. rewrite bind_case. unfold updateApp at 1, modify at 1.
  set (w2 := withHeap _ w1). rewrite bind_case.
  unfold rebound, setupRoutes.
  destruct (reloaded (cbLaunch callback) newRoutes) as [| | | | | |items| |];
    try (unfold throw;
         destruct (Hlog "Error updating routes for server" (Some ErrRoutesNotArray) w2)
           as (w3 & -> & Hh & Hi & Hd & Hl & Hc);
         exists w3; split; [reflexivity |];
         rewrite Hh, Hi, Hd, Hl; repeat split; exact Hc).
  destruct (forEach_setupRoute_prefix (instApp instance) items w2)
    as (o & w3 & Hrun & Ho & Hheap).
  pose proof (setupRoutes_frame appFunction P (instApp instance) (JArr items)
                ltac:(reflexivity) w2) as F.
  unfold setupRoutes in F. rewrite Hrun in F. simpl in F.
  injection F as Fi Fd Fl Fc.
  rewrite Hrun.
  assert (heap w3 = alter (fun a => bindAll (boundPrefix appFunction items) (clearRoutes a))
                      (instApp instance) (heap w)) as Hheap'.
  { rewrite Hheap. subst w2 w1. simpl. apply alter_alter_eq. }
  destruct o as [[]|e|]; [| | contradiction].
  - destruct (Hinfo "Updated routes for server" w3) as (w4 & -> & Hh & Hi & Hd & Hl & Hc).
    exists w4. split; [reflexivity |].
    rewrite Hh, Hi, Hd, Hl, Fi, Fd, Fl. repeat split; try assumption.
    intros Hs. rewrite Hc, Fc; [reflexivity | now rewrite Fd].
  - destruct (Hlog "Error updating routes for server" (Some e) w3)
      as (w4 & -> & Hh & Hi & Hd & Hl & Hc).
    exists w4. split; [reflexivity |].
    rewrite Hh, Hi, Hd, Hl, Fi, Fd, Fl. repeat split; try assumption.
    intros Hs. rewrite Hc, Fc; [reflexivity | now rewrite Fd].
Qed.

Lemma routesOf_clearRoutes (a : App) : routesOf (clearRoutes a) = [].
Proof.
  unfold routesOf, clearRoutes. simpl.
  induction (stack a) as [|[what|m p mw h] l IH]; simpl; auto.
Qed.

Lemma middleware_bindAll (items : list JsVal) :
  ∀ a, settings (bindAll items a) = settings a
       ∧ List.filter (fun l => negb (isRouteLayer l)) (stack (bindAll items a))
         = List.filter (fun l => negb (isRouteLayer l)) (stack a).
Proof.
  unfold bindAll. induction items as [|r items IH]; intros a; simpl; [now split |].
  destruct (IH (addLayer (layerOf (methodLowerOf r) r) a)) as [Hs Hm].
  rewrite Hs, Hm. simpl. split; [reflexivity |].
  rewrite List.filter_app. simpl. apply app_nil_r.
Qed.

Lemma middleware_clearRoutes (a : App) :
  List.filter (fun l => negb (isRouteLayer l)) (stack (clearRoutes a))
  = List.filter (fun l => negb (isRouteLayer l)) (stack a).
Proof.
  unfold clearRoutes. simpl.
  induction (stack a) as [|l rest IH]; simpl; [reflexivity |].
  destruct (negb (isRouteLayer l)) eqn:Hl; simpl; rewrite ?Hl; congruence.
Qed.

(** X11.  The update callback of an instance, applied to a reloaded module.
    When the instance is gone it does nothing.  Otherwise it always
    returns, and the module is recorded in the instance.  The route table
    of the instance's application object is replaced: afterwards it holds
    the routes of the module, in order, up to the first one that cannot be
    bound, and nothing of the old table, whether it came from the route
    source or from [addRoute]; when the module yields no array it is empty.
    A failure is caught and logged, the cleared routes are not restored.
    The settings and the middleware of the application object stay in
    place; the other application objects, the reload engine and the sockets
    are not touched. *)
Theorem routeUpdateCallback_effect (callback : Callback) (newRoutes : JsVal) (w : World) :
  (instances w !! cbServerName callback = None →
   routeUpdateCallback appFunction callback newRoutes w = (Returns tt, w))
  ∧ (∀ instance,
       instances w !! cbServerName callback = Some instance →
       nullish newRoutes = false →
       ∃ w', routeUpdateCallback appFunction callback newRoutes w = (Returns tt, w')
             ∧ instances w'
               = <[cbServerName callback := withModuleLoad newRoutes (clock w) instance]>
                   (instances w)
             ∧ (∀ app, heap w !! instApp instance = Some app →
                  ∃ app', heap w' !! instApp instance = Some app'
                          ∧ routesOf app'
                            = match reloaded (cbLaunch callback) newRoutes with
                              | JArr items => map routeEntry (boundPrefix appFunction items)
                              | _ => []
                              end
                          ∧ settings app' = settings app
                          ∧ List.filter (fun l => negb (isRouteLayer l)) (stack app')
                            = List.filter (fun l => negb (isRouteLayer l)) (stack app))
             ∧ (∀ a, a ≠ instApp instance → heap w' !! a = heap w !! a)
             ∧ dyn w' = dyn w
             ∧ listening w' = listening w
             ∧ (silent (dyn w) = true → console w' = console w)).
Proof.
  split; [apply routeUpdateCallback_run |].
  intros instance Hinst Hobj.
  destruct (proj2 (routeUpdateCallback_run callback newRoutes w) instance Hinst Hobj)
    as (w' & Hrun & Hinsts & Hheap & Hdyn & Hlisten & Hconsole).
  exists w'. split; [exact Hrun |]. split; [exact Hinsts |].
  split; [| split; [| split; [| split]]]; try assumption.
  - intros app Happ. rewrite Hheap, lookup_alter_eq, Happ. simpl.
    eexists. split; [reflexivity |].
    unfold rebound.
    destruct (reloaded (cbLaunch callback) newRoutes) as [| | | | | |items| |];
      try (split; [apply routesOf_clearRoutes
                  | split; [reflexivity | apply middleware_clearRoutes]]).
    destruct (middleware_bindAll (boundPrefix appFunction items) (clearRoutes app))
      as [Hs Hm].
    split; [| split].
    + now rewrite routesOf_bindAll, routesOf_clearRoutes.
    + now rewrite Hs.
    + rewrite Hm. apply middleware_clearRoutes.
  - intros a Ha. rewrite Hheap. now apply lookup_alter_ne.
Qed.

End HotReloading.

(** ** Change events *)

Section ChangeEvents.

Import Dynreload DynExpress.

Variable appFunction : string → bool.

Lemma reloadModule_returns (file : string) : returns (reloadModule file).
Proof.
  intros w. unfold reloadModule, tryCatch. rewrite bind_case, tryImportModule_spec.
  destruct (importModule file w) as [[ns|e|] w0] eqn:Himport.
  - apply importModule_stat in Himport as (src & Hfile & _ & ->).
    rewrite bind_case. unfold statSync. rewrite Hfile.
    unfold storeModule, bind, modify, ret. simpl. eauto.
  - rewrite bind_case. unfold logError, modify, ret. simpl. eauto.
  - unfold importModule in Himport. destruct (fs w !! file) as [[|src]|]; try discriminate.
    destruct (evaluation src); discriminate.
Qed.

Lemma routeUpdateCallback_returns (callback : Callback) (newRoutes : JsVal) :
  returns (routeUpdateCallback appFunction callback newRoutes).
Proof.
  unfold routeUpdateCallback.
  apply returns_tryCatch; [| intros e; apply returns_logError].
  apply halts_bind; [apply halts_returns, returns_gets | intros found].
  destruct found as [instance|]; [| apply halts_returns, returns_ret].
  apply halts_bind; [apply halts_returns, returns_gets | intros now].
  apply halts_bind; [apply halts_returns, returns_modify | intros _].
  apply halts_bind.
  { destruct (selectsExport _); [| apply halts_returns, returns_ret].
    apply halts_bind; [| intros selected; apply halts_returns, returns_ret].
    unfold propOf. destruct newRoutes; try apply halts_throw;
      apply halts_returns, returns_ret. }
  intros routes.
  apply halts_bind; [apply halts_returns, returns_modify | intros _].
  apply halts_bind; [apply setupRoutes_halts | intros _].
  apply halts_returns, returns_logInfo.
Qed.

Lemma findAffectedModules_returns_above (graph : list (string * list string))
    (p : string) (fuel : nat) :
  ¬ onCycleAbove graph p → (length graph < fuel)%nat →
  is_Some (findAffectedModules fuel graph p).
Proof.
  intros Hfree Hfuel.
  apply (findAffectedModules_bottoms_out_above graph p fuel Hfree []).
  - constructor.
  - now left.
  - intros s Hs. now apply elem_of_nil in Hs.
  - simpl. lia.
Qed.

Lemma updateApp_shape (app : nat) (f : App → App) :
  preserves hostShape (updateApp app f).
Proof.
  intros w. unfold updateApp, modify, hostShape. simpl. now rewrite dom_alter_L.
Qed.

Lemma setupRoutes_shape (app : nat) (routes : JsVal) :
  preserves hostShape (setupRoutes appFunction app routes).
Proof.
  unfold setupRoutes, setupRoute, register, propOf, callToLowerCase.
  repeat first [apply updateApp_shape | frame_step].
Qed.

Lemma routeUpdateCallback_shape (callback : Callback) (newRoutes : JsVal) :
  preserves hostShape (routeUpdateCallback appFunction callback newRoutes).
Proof.
  unfold routeUpdateCallback.
  apply preserves_tryCatch; [| intros e; frame].
  intros w. rewrite bind_case. unfold gets at 1.
  destruct (instances w !! cbServerName callback) as [instance|] eqn:Hinst; [| reflexivity].
  rewrite bind_case. unfold gets at 1. rewrite bind_case. unfold modify at 1.
  set (w1 := withInstances _ w).
  assert (hostShape w1 = hostShape w) as <-.
  { subst w1. unfold hostShape. simpl. rewrite dom_insert_lookup_L; eauto. }
  generalize w1.
  apply preserves_bind.
  { destruct (selectsExport _); [| apply preserves_ret]. unfold propOf. frame. }
  intros routes. apply preserves_bind; [apply updateApp_shape | intros _].
  apply preserves_bind; [apply setupRoutes_shape | intros _; frame].
Qed.

(** X12.  A change event on a watched file.  The listener never throws: what
    goes wrong is caught and logged.  It returns whenever no module that
    depends on the file takes part in an import cycle of the graph it has
    just updated.  It adds and removes no instance, no application object,
    no socket, no watch and no callback, and leaves the disk alone. *)
Theorem handleChange_contained
    (arraySort : (string → string → Z) → list string → list string)
    (fuel : nat) (file : string) (w : World) :
  (∀ e, fst (handleChange (routeUpdateCallback appFunction) arraySort fuel file w)
        ≠ Throws e)
  ∧ (¬ onCycleAbove
         (dependencyGraph
            (dyn (snd (updateDependencyGraph (maxDepth (dyn w)) file w)))) file →
     (length (dependencyGraph
                (dyn (snd (updateDependencyGraph (maxDepth (dyn w)) file w)))) < fuel)%nat →
     fst (handleChange (routeUpdateCallback appFunction) arraySort fuel file w)
     = Returns tt)
  ∧ hostShape (snd (handleChange (routeUpdateCallback appFunction) arraySort fuel file w))
    = hostShape w.
Proof.
  split; [| split].
  - intros e. unfold handleChange.
    apply neverThrows_tryCatch. intros e'. apply neverThrows_returns, returns_logError.
  - intros Hfree Hfuel. unfold handleChange, tryCatch.
    rewrite bind_case. unfold gets at 1.
    destruct (updateDependencyGraph_returns (maxDepth (dyn w)) file w) as ([] & w1 & Hrun).
    rewrite Hrun in Hfree, Hfuel. simpl in Hfree, Hfuel.
    rewrite bind_case, Hrun. rewrite bind_case. unfold gets at 1.
    destruct (findAffectedModules_returns_above _ _ _ Hfree Hfuel) as [affected ->].
    assert (returns (bind (logInfo "File changed") (fun _ =>
              bind (forEach (arraySort (reloadOrder (dependencyGraph (dyn w1))) affected)
                      (reloadAndNotify (routeUpdateCallback appFunction)))
                (fun _ => logInfo "Reload complete")))) as Hreturns.
    { apply returns_bind; [apply returns_logInfo | intros _].
      apply returns_bind; [| intros _; apply returns_logInfo].
      apply returns_forEach. intros modulePath. unfold reloadAndNotify.
      apply returns_bind; [apply reloadModule_returns | intros [newModule|e]];
        [| apply returns_ret].
      apply returns_bind; [apply returns_gets | intros [registered|]];
        [apply routeUpdateCallback_returns | apply returns_ret]. }
    destruct (Hreturns w1) as ([] & w2 & ->). reflexivity.
  - apply (handleChange_keeps (fun w' => hostShape w' = hostShape w)); auto.
    + apply reloadModule_keeps; auto.
    + intros callback newModule w' Hw'. now rewrite routeUpdateCallback_shape.
Qed.

End ChangeEvents.

(** ** Route files that cannot be used *)

Section RouteFileErrors.

Import Dynreload DynExpress.

Variable appFunction : string → bool.

Lemma afterCreationError_logged (e : JsError) (w : World) :
  logged w (afterCreationError e w).
Proof.
  unfold afterCreationError. destruct (silent (dyn w)); [apply logged_refl |].
  now exists [ConsoleError "Error creating server" (Some e)].
Qed.

(** X13.  A creation from a route file that cannot be used fails before any port
    is probed and changes nothing but the console.  The extension is
    checked first, then that the path exists; a path that is a directory or
    a module that does not load is rejected with the cause of the failed
    import. *)
Theorem newServer_route_file_errors (fuel : nat) (config : ServerConfig)
    (n file : string) (w : World) :
  name config = JStr n → n ≠ "" → instances w !! n = None →
  routers config = JStr file →
  if negb (String.eqb (Path.extname file) ".js") && negb (String.eqb (Path.extname file) ".mjs")
  then newServer appFunction fuel config w
       = (Throws ErrRouterFileExtension, afterCreationError ErrRouterFileExtension w)
  else match fs w !! file with
       | None =>
           newServer appFunction fuel config w
           = (Throws (ErrRouterFileNotFound file),
              afterCreationError (ErrRouterFileNotFound file) w)
       | Some Directory =>
           ∃ w', newServer appFunction fuel config w
                 = (Throws (ErrImport file "directory import"), w')
                 ∧ logged w w'
       | Some (SourceFile src) =>
           match evaluation src with
           | inl e =>
               ∃ w', newServer appFunction fuel config w = (Throws e, w') ∧ logged w w'
           | inr _ => True
           end
       end.
Proof.
  intros Hname Hn Hfresh Hrouters.
  rewrite (newServer_named _ _ _ _ _ Hname Hn), Hfresh.
  assert (validateRouters (JStr file) w
          = if negb (String.eqb (Path.extname file) ".js")
               && negb (String.eqb (Path.extname file) ".mjs")
            then (Throws ErrRouterFileExtension, w)
            else if existsSync w file then (Returns (FileSource file), w)
                 else (Throws (ErrRouterFileNotFound file), w)) as Hvalidate.
  { unfold validateRouters. destruct (negb _ && negb _); [reflexivity |].
    unfold bind, gets. now destruct (existsSync w file). }
  unfold tryCreate. rewrite bind_case, Hrouters, Hvalidate.
  destruct (negb _ && negb _); [reflexivity |]. unfold existsSync.
  pose proof (preload_run file w) as Hpreload.
  assert (∀ e w1, preload file w = (Throws e, w1) → logged w w1 →
            ∃ w', match
                    bind (loadRoutes (FileSource file)
                            (defaulted (launch config) (JBool false)))
                      (fun loaded =>
                         bind (findAvailablePort (port config) 10) (fun availablePort =>
                         bind express (fun app =>
                         bind (setupMiddleware app (defaulted (pathViews config) JNull)
                                 (defaulted (pathPublic config) JNull)) (fun _ =>
                         bind (setupRoutes appFunction app (fst loaded)) (fun _ =>
                         bind (startServer app availablePort) (fun server =>
                         bind (gets clock) (fun now =>
                         bind (modify (withInstances (insert n
                                 {| instApp := app; instServer := server;
                                    instRouters := JStr file;
                                    instPathViews := defaulted (pathViews config) JNull;
                                    instPathPublic := defaulted (pathPublic config) JNull;
                                    instPort := availablePort;
                                    instWatchFile := defaulted (watchFile config) (JBool false);
                                    instLaunch := defaulted (launch config) (JBool false);
                                    instModuleLoad := snd loaded;
                                    instStartTime := now; instLastUpdated := None |})))
                           (fun _ =>
                         bind (if truthy (defaulted (watchFile config) (JBool false))
                               then setupHotReloading fuel n file
                                      (defaulted (launch config) (JBool false))
                               else ret tt) (fun _ =>
                         ret (address availablePort)))))))))) w
                  with
                  | (Throws e0, w2) => (Throws e0, afterCreationError e0 w2)
                  | r => r
                  end = (Throws e, w') ∧ logged w w') as Hfails.
  { intros e w1 Hrun Hlogged. rewrite bind_case. unfold loadRoutes.
    rewrite bind_case, Hrun. eexists. split; [reflexivity |].
    eapply logged_trans; [exact Hlogged | apply afterCreationError_logged]. }
  destruct (fs w !! file) as [[|src]|] eqn:Hfile.
  - rewrite bool_decide_true by eauto. simpl.
    destruct Hpreload as (w1 & Hrun & Hlogged). now apply (Hfails _ w1).
  - destruct (evaluation src) as [e|namespace]; [| exact I].
    rewrite bool_decide_true by eauto. simpl.
    destruct Hpreload as (w1 & Hrun & Hlogged). now apply (Hfails _ w1).
  - rewrite bool_decide_false by (intros [? ?]; discriminate). reflexivity.
Qed.

End RouteFileErrors.

(** ** The two tables of loaded modules *)

Section Tables.

Import Dynreload DynExpress.

Variable appFunction : string → bool.

Lemma keeps_tables {B} (m : M B) :
  preserves (fun w => (cache (dyn w), lastValidModules (dyn w))) m →
  keeps tablesAgree m.
Proof.
  apply keeps_preserves. intros w w' [= Hc Hl] H. unfold tablesAgree in *. congruence.
Qed.

Lemma storeModule_keeps_tables (file : string) (info : ModuleInfo) :
  keeps tablesAgree (storeModule file info).
Proof.
  intros w H. unfold storeModule, bind, modify, tablesAgree in *. simpl. now rewrite H.
Qed.

Lemma reloadModule_keeps_tables (file : string) : keeps tablesAgree (reloadModule file).
Proof.
  intros w H.
  unfold reloadModule, tryCatch. rewrite bind_case, tryImportModule_spec.
  destruct (importModule file w) as [[ns|e|] w0] eqn:Himport.
  - apply importModule_stat in Himport as (src & Hfile & _ & ->).
    rewrite bind_case. unfold statSync. rewrite Hfile.
    unfold storeModule, bind, modify, ret, tablesAgree in *. simpl. now rewrite H.
  - rewrite bind_case. unfold logError, modify. simpl.
    destruct (silent (dyn w)); exact H.
  - exact H.
Qed.

Lemma preload_keeps_tables (file : string) : keeps tablesAgree (preload file).
Proof.
  unfold preload.
  apply keeps_tryCatch; [| intros e; apply keeps_tables; frame].
  apply keeps_bind; [apply keeps_gets | intros present].
  destruct (negb present); [apply keeps_throw |].
  apply keeps_bind; [apply keeps_tables, tryImportModule_frame; reflexivity | intros result].
  destruct result as [routes ns|e]; [| apply keeps_tables; frame].
  apply keeps_bind; [apply keeps_tables, statSync_frame | intros stats].
  apply keeps_bind; [apply storeModule_keeps_tables | intros _].
  apply keeps_bind; [apply keeps_gets | intros levels].
  apply keeps_bind; [| intros _; apply keeps_ret].
  apply keeps_tables, updateDependencyGraph_frame; reflexivity.
Qed.

Lemma newServer_keeps_tables (fuel : nat) (config : ServerConfig) :
  keeps tablesAgree (newServer appFunction fuel config).
Proof.
  unfold newServer.
  destruct (name config) as [| | | |n| | | |]; try apply keeps_throw.
  destruct (negb _); [apply keeps_throw |].
  apply keeps_bind; [apply keeps_gets | intros existing].
  destruct existing; [apply keeps_ret |].
  apply keeps_tryCatch; [| intros e; apply keeps_tables; frame].
  unfold tryCreate.
  apply keeps_bind; [apply keeps_tables, validateRouters_frame | intros source].
  apply keeps_bind.
  { unfold loadRoutes. destruct source; [apply keeps_ret |].
    apply keeps_bind; [apply preload_keeps_tables | intros moduleLoad].
    apply keeps_tables. unfold propOf. frame. }
  intros loaded.
  apply keeps_bind; [apply keeps_tables, findAvailablePort_frame; reflexivity | intros q].
  apply keeps_bind; [apply keeps_tables, express_frame; reflexivity | intros app].
  apply keeps_bind; [apply keeps_tables, setupMiddleware_frame; reflexivity | intros _].
  apply keeps_bind; [apply keeps_tables, setupRoutes_frame; reflexivity | intros _].
  apply keeps_tables.
  apply preserves_bind; [unfold startServer; frame | intros server].
  apply preserves_bind; [apply preserves_gets | intros now].
  apply preserves_bind; [apply preserves_modify; reflexivity | intros _].
  apply preserves_bind; [| intros _; apply preserves_ret].
  destruct source; [apply preserves_ret |].
  destruct (truthy _); [apply setupHotReloading_frame; reflexivity | apply preserves_ret].
Qed.

Lemma stopServer_keeps_tables (n : string) : keeps tablesAgree (stopServer n).
Proof.
  apply keeps_tables. unfold stopServer.
  apply preserves_bind; [apply preserves_gets | intros found].
  destruct found as [instance|]; [| apply preserves_throw].
  apply preserves_bind.
  { destruct (instRouters instance); try apply preserves_ret.
    destruct (truthy _); [apply stopWatching_frame; reflexivity | apply preserves_ret]. }
  intros _. frame.
Qed.

(** X14.  The cache and the last-known-good table never differ: they are equal
    when the engine starts, and every operation of the engine and of the
    instance manager, and the listener of a watched file with callbacks
    that keep them equal, leaves them equal.  So [getCached] and
    [getLastValidModule] answer alike for every path. *)
Theorem tablesAgree_kept :
  (∀ quiet depth disk taken, tablesAgree (boot quiet depth disk taken))
  ∧ (∀ file, keeps tablesAgree (preload file))
  ∧ (∀ fuel file, keeps tablesAgree (Dynreload.watchFile fuel file))
  ∧ (∀ file callback, keeps tablesAgree (setRouteUpdateCallback file callback))
  ∧ (∀ file, keeps tablesAgree (stopWatching file))
  ∧ keeps tablesAgree Dynreload.cleanup
  ∧ (∀ invoke arraySort fuel file,
       (∀ callback newModule, keeps tablesAgree (invoke callback newModule)) →
       keeps tablesAgree (handleChange invoke arraySort fuel file))
  ∧ (∀ callback newRoutes,
       keeps tablesAgree (routeUpdateCallback appFunction callback newRoutes))
  ∧ (∀ fuel config, keeps tablesAgree (newServer appFunction fuel config))
  ∧ (∀ n, keeps tablesAgree (stopServer n))
  ∧ (∀ fuel n, keeps tablesAgree (resetServer appFunction fuel n))
  ∧ (∀ n descriptor, keeps tablesAgree (addRoute appFunction n descriptor))
  ∧ keeps tablesAgree DynExpress.cleanup
  ∧ (∀ w file, tablesAgree w → getCached w file = getLastValidModule w file).
Proof.
  assert (keeps tablesAgree Dynreload.cleanup) as Hcleanup.
  { intros w H. destruct (dynreload_cleanup_run w) as (w' & -> & _ & _ & Hc & Hl & _).
    unfold tablesAgree. simpl. now rewrite Hc, Hl. }
  repeat split.
  - apply preload_keeps_tables.
  - intros fuel file. apply keeps_tables. apply watch_frame; reflexivity.
  - intros file callback. apply keeps_tables. unfold setRouteUpdateCallback. frame.
  - intros file. apply keeps_tables, stopWatching_frame; reflexivity.
  - exact Hcleanup.
  - intros invoke arraySort fuel file Hinvoke. apply handleChange_keeps.
    + apply reloadModule_keeps_tables.
    + intros f w H. exact H.
    + intros f w H. exact H.
    + exact Hinvoke.
  - intros callback newRoutes. apply keeps_tables.
    unfold routeUpdateCallback, propOf, updateApp.
    apply preserves_tryCatch; [| intros e; frame].
    apply preserves_bind; [apply preserves_gets | intros found].
    destruct found as [instance|]; [| apply preserves_ret].
    apply preserves_bind; [apply preserves_gets | intros now].
    apply preserves_bind; [apply preserves_modify; reflexivity | intros _].
    apply preserves_bind; [frame | intros routes].
    apply preserves_bind; [apply preserves_modify; reflexivity | intros _].
    apply preserves_bind; [apply setupRoutes_frame; reflexivity | intros _; frame].
  - apply newServer_keeps_tables.
  - apply stopServer_keeps_tables.
  - intros fuel n. unfold resetServer.
    apply keeps_bind; [apply keeps_gets | intros found].
    destruct found as [instance|]; [| apply keeps_throw].
    apply keeps_tryCatch; [| intros e; apply keeps_tables; frame].
    apply keeps_bind; [apply stopServer_keeps_tables | intros _].
    apply newServer_keeps_tables.
  - intros n descriptor. apply keeps_tables, addRoute_frame; reflexivity.
  - unfold DynExpress.cleanup.
    apply keeps_bind; [apply keeps_gets | intros names].
    apply keeps_bind; [| intros _; exact Hcleanup].
    apply keeps_forEach. intros n.
    apply keeps_tryCatch; [| intros e; apply keeps_tables; frame].
    apply keeps_bind; [apply stopServer_keeps_tables | intros _; apply keeps_ret].
  - intros w file H. unfold getCached, getLastValidModule. now rewrite H.
Qed.

End Tables.

(** ** From a change of the route file to the routes of the instance *)

Section ChangeToRoutes.

Import Dynreload DynExpress.

Variable appFunction : string → bool.
Variable arraySort : (string → string → Z) → list string → list string.

(** All that is asked of the host's sort: it permutes. *)
Hypothesis arraySort_permutes : ∀ compare l, arraySort compare l ≡ₚ l.

Lemma findAffectedModules_no_dependents (graph : list (string * list string))
    (p : string) (fuel : nat) :
  (∀ k deps, (k, deps) ∈ graph → p ∉ deps) →
  findAffectedModules (S fuel) graph p = Some [p].
Proof.
  intros Hnone. rewrite findAffectedModules_unfold.
  assert (∀ entries, (∀ k deps, (k, deps) ∈ entries → p ∉ deps) →
                     foldl (visit graph fuel p) (Some [p]) entries = Some [p]) as Hfold.
  { induction entries as [|[k deps] l IH]; intros H; simpl; [reflexivity |].
    unfold includes. rewrite bool_decide_false by (apply (H k); now left).
    apply IH. intros k' deps' Hin. apply (H k'). now right. }
  now apply Hfold.
Qed.

Lemma reloadModule_success (file : string) (w : World) (src : Source) (namespace : JsVal) :
  fs w !! file = Some (SourceFile src) →
  evaluation src = inr namespace →
  reloadModule file w
  = (Returns (ReloadSuccess (loaded namespace)),
     withDyn (withLastValid
                (insert file {| module := loaded namespace; lastModified := mtime src;
                                filePath := file |}))
       (withDyn (withCache
                   (insert file {| module := loaded namespace; lastModified := mtime src;
                                   filePath := file |})) w)).
Proof.
  intros Hfile Heval. unfold reloadModule, tryCatch.
  rewrite bind_case, tryImportModule_spec. unfold importModule. rewrite Hfile, Heval.
  rewrite bind_case. unfold statSync. rewrite Hfile. reflexivity.
Qed.

(** X15.  A change of the route file of an instance that follows it.  When the
    file loads and no tracked module imports it, the listener returns; the
    new module is the cached and the last-known-good artifact of the file
    and is recorded in the instance; and the route table of the instance's
    application object holds the routes of the new module, in order, up to
    the first one that cannot be bound.  No socket is opened or closed. *)
Theorem handleChange_updates_routes (fuel : nat) (file : string) (w : World)
    (callback : Callback) (instance : Instance) (src : Source) (namespace : JsVal) :
  routeUpdateCallbacks (dyn w) !! file = Some callback →
  instances w !! cbServerName callback = Some instance →
  fs w !! file = Some (SourceFile src) →
  evaluation src = inr namespace →
  nullish (loaded namespace) = false →
  (∀ k deps,
     (k, deps) ∈ dependencyGraph
                   (dyn (snd (updateDependencyGraph (maxDepth (dyn w)) file w))) →
     file ∉ deps) →
  ∃ w', handleChange (routeUpdateCallback appFunction) arraySort (S fuel) file w
        = (Returns tt, w')
        ∧ getCached w' file = Some (loaded namespace)
        ∧ getLastValidModule w' file = Some (loaded namespace)
        ∧ instances w'
          = <[cbServerName callback := withModuleLoad (loaded namespace) (clock w) instance]>
              (instances w)
        ∧ (∀ app, heap w !! instApp instance = Some app →
             ∃ app', heap w' !! instApp instance = Some app'
                     ∧ routesOf app'
                       = match reloaded (cbLaunch callback) (loaded namespace) with
                         | JArr items => map routeEntry (boundPrefix appFunction items)
                         | _ => []
                         end)
        ∧ listening w' = listening w.
Proof.
  intros Hcallback Hinst Hfile Heval Hobj Hnone.
  set (P := fun w : World =>
              (instances w, heap w, routeUpdateCallbacks (dyn w), fs w, listening w,
               clock w)).
  assert (∀ what w0, ∃ w1, logInfo what w0 = (Returns tt, w1)
                           ∧ P w1 = P w0
                           ∧ cache (dyn w1) = cache (dyn w0)
                           ∧ lastValidModules (dyn w1) = lastValidModules (dyn w0))
    as Hinfo.
  { intros what w0. unfold logInfo, modify. eexists. split; [reflexivity |].
    destruct (silent (dyn w0)); repeat split. }
  unfold handleChange, tryCatch. rewrite bind_case. unfold gets at 1.
  destruct (updateDependencyGraph_returns (maxDepth (dyn w)) file w) as ([] & w1 & Hupdate).
  rewrite Hupdate in Hnone. simpl in Hnone.
  pose proof (updateDependencyGraph_frame P ltac:(reflexivity) ltac:(reflexivity)
                (maxDepth (dyn w)) file w) as F1.
  rewrite Hupdate in F1. simpl in F1.
  rewrite bind_case, Hupdate. rewrite bind_case. unfold gets at 1.
  rewrite (findAffectedModules_no_dependents _ _ fuel Hnone).
  rewrite bind_case.
  destruct (Hinfo "File changed" w1) as (w2 & -> & F2 & _).
  assert (P w2 = P w) as HP by congruence.
  injection HP as Hi2 Hh2 Hc2 Hf2 Hl2 Hk2.
  assert (arraySort (reloadOrder (dependencyGraph (dyn w1))) [file] = [file]) as ->.
  { apply Permutation_singleton_r, arraySort_permutes. }
  rewrite bind_case. cbn [forEach]. rewrite bind_case.
  unfold reloadAndNotify. rewrite bind_case.
  rewrite (reloadModule_success file w2 src namespace) by congruence.
  set (w3 := withDyn (withLastValid _) _).
  rewrite bind_case. unfold gets at 1.
  assert (routeUpdateCallbacks (dyn w3) !! file = Some callback) as ->.
  { subst w3. simpl. now rewrite Hc2. }
  destruct (proj2 (routeUpdateCallback_run appFunction callback (loaded namespace) w3)
              instance) as (w4 & Hrun & Hinsts & Hheap & Hdyn & Hlisten & _).
  { subst w3. simpl. now rewrite Hi2. }
  { exact Hobj. }
  rewrite Hrun. unfold ret at 1.
  destruct (Hinfo "Reload complete" w4) as (w5 & -> & F5 & Hcache5 & Hvalid5).
  injection F5 as Hi5 Hh5 _ _ Hl5 _.
  exists w5. split; [reflexivity |].
  unfold getCached, getLastValidModule.
  rewrite Hcache5, Hvalid5, Hdyn, Hi5, Hh5, Hl5, Hinsts, Hheap, Hlisten.
  subst w3. simpl.
  split; [now rewrite lookup_insert_eq |]. split; [now rewrite lookup_insert_eq |].
  split; [now rewrite Hi2, Hk2 |]. split; [| exact Hl2].
  intros app Happ. rewrite lookup_alter_eq, Hh2, Happ. simpl.
  eexists. split; [reflexivity |].
  unfold rebound.
  destruct (reloaded (cbLaunch callback) (loaded namespace)) as [| | | | | |items| |];
    try apply routesOf_clearRoutes.
  now rewrite routesOf_bindAll, routesOf_clearRoutes.
Qed.

End ChangeToRoutes.

(** ** A reload that lost the launch export *)

Section LaunchExport.

Import Dynreload DynExpress.

Variable appFunction : string → bool.

Lemma loaded_module_object (exports : list (string * JsVal)) :
  nullish (loaded (JModule exports)) = false.
Proof.
  unfold loaded, orElse.
  destruct (truthy (getProp (JModule exports) "default")) eqn:Hdefault; [| reflexivity].
  now destruct (getProp (JModule exports) "default").
Qed.

Lemma validateRouters_file_inv (file : string) (w w' : World) (source : RouterSource) :
  validateRouters (JStr file) w = (Returns source, w') →
  (Path.extname file = ".js" ∨ Path.extname file = ".mjs")
  ∧ is_Some (fs w !! file)
  ∧ source = FileSource file.
Proof.
  unfold validateRouters. intros H.
  destruct (String.eqb (Path.extname file) ".js") eqn:Hjs;
    [| destruct (String.eqb (Path.extname file) ".mjs") eqn:Hmjs; [| discriminate H]].
  all: cbn [negb andb] in H.
  all: rewrite bind_case in H; unfold gets at 1, existsSync in H.
  all: case_bool_decide as Hfile; [| discriminate H].
  all: injection H as <- _.
  - apply String.eqb_eq in Hjs. auto.
  - apply String.eqb_eq in Hmjs. auto.
Qed.

(** The callback on a module from which no list of routes is taken: the
    routes of the instance are cleared, and the error of the binder is
    caught and logged. *)
Lemma routeUpdateCallback_not_array (callback : Callback) (newRoutes : JsVal)
    (instance : Instance) (w : World) :
  instances w !! cbServerName callback = Some instance →
  nullish newRoutes = false →
  isArray (reloaded (cbLaunch callback) newRoutes) = false →
  routeUpdateCallback appFunction callback newRoutes w
  = (Returns tt,
     (if silent (dyn w) then id
      else withConsole (cons (ConsoleError "Error updating routes for server"
                                (Some ErrRoutesNotArray))))
       (rebinding (cbServerName callback) instance newRoutes w)).
Proof.
  intros Hinst Hobj Hnot. unfold routeUpdateCallback, tryCatch.
  rewrite bind_case. unfold gets at 1. rewrite Hinst.
  rewrite bind_case. unfold gets at 1.
  rewrite bind_case. unfold modify at 1.
  assert (match selectsExport (cbLaunch callback) with
          | Some l => bind (propOf newRoutes l) (fun selected => ret (orElse selected newRoutes))
          | None => ret newRoutes
          end = ret (reloaded (cbLaunch callback) newRoutes)) as ->.
  { unfold reloaded. destruct (selectsExport (cbLaunch callback)); [| reflexivity].
    now rewrite (propOf_value _ _ Hobj), bind_ret_l. }
  rewrite bind_ret_l. rewrite bind_case. unfold updateApp, modify at 1.
  fold (rebinding (cbServerName callback) instance newRoutes w).
  unfold setupRoutes.
  destruct (reloaded (cbLaunch callback) newRoutes); try discriminate Hnot.
  all: rewrite bind_case; unfold throw at 1, logError, modify.
  all: change (silent (dyn (rebinding (cbServerName callback) instance newRoutes w)))
         with (silent (dyn w)).
  all: now destruct (silent (dyn w)).
Qed.

(** C10, as the code has it.  An instance created from a route file with
    [watchFile] set and the named-export selector [l], and then a
    successful reload of the file that yields a module without the export
    [l]: the callback the creation registered records the module in the
    instance, clears the routes of the instance and hands the entire module
    to the route binder, and it returns.  When the module is a list of
    routes, the routes of the instance are those of the list, up to the
    first that cannot be bound.  When the module is not an array, nothing
    is bound: the instance is left without routes and the error "Routes
    must be an array" is caught and logged.  [createInstance] with the same
    configuration on the same module rejects with "Property not found" and
    registers nothing. *)
Theorem reload_without_launch_export
    (fuel : nat) (config : ServerConfig) (n file l url : string) (w0 w : World)
    (src : Source) (exports : list (string * JsVal)) :
  name config = JStr n → instances w0 !! n = None →
  routers config = JStr file →
  truthy (defaulted (watchFile config) (JBool false)) = true →
  launch config = JStr l → l ≠ "" →
  newServer appFunction fuel config w0 = (Returns url, w) →
  evaluation src = inr (JModule exports) →
  truthy (getProp (loaded (JModule exports)) l) = false →
  (∃ instance app w',
     instances w !! n = Some instance
     ∧ heap w !! instApp instance = Some app
     ∧ routeUpdateCallbacks (dyn w) !! file
       = Some {| cbServerName := n; cbLaunch := JStr l |}
     ∧ reloadAndNotify (routeUpdateCallback appFunction) file
         (withFs (insert file (SourceFile src)) w)
       = (Returns tt, w')
     ∧ getLastValidModule w' file = Some (loaded (JModule exports))
     ∧ instances w'
       = <[n := withModuleLoad (loaded (JModule exports)) (clock w) instance]>
           (instances w)
     ∧ (∀ a, a ≠ instApp instance → heap w' !! a = heap w !! a)
     ∧ (∀ items,
          loaded (JModule exports) = JArr items →
          (routesOf <$> heap w' !! instApp instance)
          = Some (map routeEntry (boundPrefix appFunction items)))
     ∧ (isArray (loaded (JModule exports)) = false →
        (routesOf <$> heap w' !! instApp instance) = Some []
        ∧ (silent (dyn w) = false →
           console w'
           = ConsoleError "Error updating routes for server" (Some ErrRoutesNotArray)
             :: console w)))
  ∧ (∀ fuel' w1,
       instances w1 !! n = None →
       fs w1 !! file = Some (SourceFile src) →
       ∃ w1', newServer appFunction fuel' config w1
              = (Throws (ErrPropertyNotFound l), w1')
              ∧ registryAndSockets w1' = registryAndSockets w1).
Proof.
  intros Hname Hfresh Hrouters Hwatch Hlaunch Hl Hrun Heval Hmissing.
  set (newRoutes := loaded (JModule exports)) in *.
  assert (nullish newRoutes = false) as Hobj by apply loaded_module_object.
  assert (selectsExport (JStr l) = Some l) as Hselects.
  { unfold selectsExport. simpl. apply String.eqb_neq in Hl. now rewrite Hl. }
  assert (reloaded (JStr l) newRoutes = newRoutes) as Hreloaded.
  { unfold reloaded, orElse. now rewrite Hselects, Hmissing. }
  assert (n ≠ "") as Hn.
  { intros ->. rewrite newServer_unnamed in Hrun; [discriminate |].
    intros m. rewrite Hname. now intros [= <-]. }
  rewrite (newServer_named _ _ _ _ _ Hname Hn), Hfresh in Hrun.
  destruct (tryCreate appFunction fuel n config w0) as [[url'|e|] w2] eqn:Hcreate;
    try discriminate.
  injection Hrun as <- <-.
  pose proof (tryCreate_hot_run appFunction fuel config n file w0 w2 url'
                Hrouters Hcreate) as Hhot.
  rewrite Hwatch, Hlaunch in Hhot. destruct Hhot as (Hcallbacks & _).
  change (defaulted (JStr l) (JBool false)) with (JStr l) in Hcallbacks.
  pose proof Hcreate as Hinv.
  apply tryCreate_returns_inv in Hinv
    as (source & loadedPair & w1 & items0 & instance & app & base
        & [Hvalidate _] & _ & _ & Hinst & _ & _ & Happ & _ & _ & Hheap & _).
  rewrite Hrouters in Hvalidate.
  assert (Path.extname file = ".js" ∨ Path.extname file = ".mjs") as Hext.
  { destruct (validateRouters (JStr file) w0) as [r wv] eqn:Hv. simpl in Hvalidate.
    subst r. now apply validateRouters_file_inv in Hv. }
  split.
  - exists instance, app.
    set (callback := {| cbServerName := n; cbLaunch := JStr l |}) in *.
    set (edited := withFs (insert file (SourceFile src)) w2).
    unfold reloadAndNotify. rewrite bind_case.
    rewrite (reloadModule_success file edited src (JModule exports))
      by (try exact Heval; subst edited; simpl; apply lookup_insert_eq).
    fold newRoutes.
    set (w3 := withDyn (withLastValid _) _).
    rewrite bind_case. unfold gets at 1.
    assert (routeUpdateCallbacks (dyn w3) !! file = Some callback) as ->.
    { subst w3 edited. simpl. rewrite Hcallbacks. apply lookup_insert_eq. }
    assert (instances w3 !! cbServerName callback = Some instance) as Hinst3.
    { exact Hinst. }
    destruct (proj2 (routeUpdateCallback_run appFunction callback newRoutes w3)
                instance Hinst3 Hobj)
      as (w' & Hcall & Hinsts & Hheap' & Hdyn & _ & _).
    exists w'. rewrite Happ.
    split; [exact Hinst |]. split; [exact Hheap |].
    split; [rewrite Hcallbacks; apply lookup_insert_eq |].
    split; [exact Hcall |].
    change (cbLaunch callback) with (JStr l) in Hheap'. rewrite Hreloaded in Hheap'.
    rewrite Happ in Hheap'.
    split; [| split; [| split; [| split]]].
    + unfold getLastValidModule. rewrite Hdyn. subst w3. simpl.
      now rewrite lookup_insert_eq.
    + exact Hinsts.
    + intros a Ha. rewrite Hheap'. now apply lookup_alter_ne.
    + intros items Hitems. rewrite Hheap', lookup_alter_eq.
      change (heap w3) with (heap w2). rewrite Hheap. simpl.
      unfold rebound. rewrite Hitems.
      now rewrite routesOf_bindAll, routesOf_clearRoutes.
    + intros Hnot. split.
      * rewrite Hheap', lookup_alter_eq.
        change (heap w3) with (heap w2). rewrite Hheap. simpl.
        unfold rebound. destruct newRoutes; try discriminate Hnot;
          now rewrite routesOf_clearRoutes.
      * intros Hloud.
        rewrite (routeUpdateCallback_not_array callback newRoutes instance w3 Hinst3 Hobj)
          in Hcall.
        2: { change (cbLaunch callback) with (JStr l). now rewrite Hreloaded. }
        change (silent (dyn w3)) with (silent (dyn w2)) in Hcall.
        rewrite Hloud in Hcall. now injection Hcall as <-.
  - intros fuel' w1' Hfresh1 Hfile1.
    rewrite (newServer_named _ _ _ _ _ Hname Hn), Hfresh1.
    assert (∃ w4, tryCreate appFunction fuel' n config w1'
                  = (Throws (ErrPropertyNotFound l), w4)) as (w4 & Hrejected).
    { unfold tryCreate. rewrite bind_case, Hrouters.
      rewrite (validateRouters_file file w1' Hext) by eauto.
      rewrite bind_case. unfold loadRoutes.
      destruct (preload_loads file w1' src (JModule exports) Hfile1 Heval)
        as (w4 & Hpreload).
      rewrite bind_case, Hpreload, Hlaunch.
      change (defaulted (JStr l) (JBool false)) with (JStr l).
      fold newRoutes.
      rewrite Hselects, (propOf_value _ _ Hobj), bind_ret_l, Hmissing.
      simpl. eauto. }
    rewrite Hrejected. eexists. split; [reflexivity |].
    apply tryCreate_throws_frame in Hrejected.
    unfold afterCreationError. destruct (silent (dyn w4)); exact Hrejected.
Qed.

End LaunchExport.

(** ** Watchers *)

Section WatchersKept.

Import Dynreload DynExpress.

Variable appFunction : string → bool.

Lemma watchersOk_state (w w' : World) :
  watchState w' = watchState w → watchersOk w → watchersOk w'.
Proof.
  unfold watchState, watchersOk. intros [= Hf Hw Hn]. now rewrite Hf, Hw, Hn.
Qed.

Lemma keeps_watchers {B} (m : M B) : preserves watchState m → keeps watchersOk m.
Proof. apply keeps_preserves. apply watchersOk_state. Qed.

Lemma watchersOk_watch (w : World) (file : string) :
  watchersOk w → watchedFiles (dyn w) !! file = None →
  watchersOk (withDyn (withWatchedFiles (insert file (nextRef w)))
                (withNextRef (S (nextRef w)) (withWatchers (union {[nextRef w]}) w))).
Proof.
  intros (Hopen & Hown & Hfile & Hbelow) Hnone.
  assert (∀ f, watchedFiles (dyn w) !! f ≠ Some (nextRef w)) as Hfresh.
  { intros f Hf. apply Hopen, Hbelow in Hf. lia. }
  split; [| split; [| split]]; simpl.
  - intros f h. destruct (decide (f = file)) as [-> | Hne].
    + rewrite lookup_insert_eq. intros [= <-]. apply elem_of_union. left.
      now apply elem_of_singleton.
    + rewrite lookup_insert_ne by congruence. intros Hf. apply elem_of_union. right.
      now apply (Hopen f).
  - intros f1 f2 h.
    destruct (decide (f1 = file)) as [-> | Hne1], (decide (f2 = file)) as [-> | Hne2];
      rewrite ?lookup_insert_eq, ?lookup_insert_ne by congruence; try reflexivity.
    + intros [= <-] Hf. now destruct (Hfresh f2).
    + intros Hf [= <-]. now destruct (Hfresh f1).
    + apply Hown.
  - intros h [Hh | Hh]%elem_of_union.
    + apply elem_of_singleton in Hh as ->. exists file. apply lookup_insert_eq.
    + destruct (Hfile h Hh) as (f & Hf). exists f.
      rewrite lookup_insert_ne; [assumption |]. intros <-. congruence.
  - intros h [Hh | Hh]%elem_of_union.
    + apply elem_of_singleton in Hh as ->. lia.
    + apply Hbelow in Hh. lia.
Qed.

Lemma stopWatching_keeps_watchers (file : string) : keeps watchersOk (stopWatching file).
Proof.
  intros w Hok. unfold stopWatching. rewrite bind_case. unfold gets at 1.
  destruct (watchedFiles (dyn w) !! file) as [handle|] eqn:Hwatched; [| exact Hok].
  destruct Hok as (Hopen & Hown & Hfile & Hbelow).
  unfold bind, modify. simpl.
  split; [| split; [| split]]; simpl.
  - intros f h. destruct (decide (f = file)) as [-> | Hne].
    + now rewrite lookup_delete_eq.
    + rewrite lookup_delete_ne by congruence. intros Hf.
      apply elem_of_difference. split; [now apply (Hopen f) |].
      intros ->%elem_of_singleton. apply Hne. now apply (Hown f file handle).
  - intros f1 f2 h.
    destruct (decide (f1 = file)) as [-> | Hne1]; [now rewrite lookup_delete_eq |].
    destruct (decide (f2 = file)) as [-> | Hne2]; [now rewrite lookup_delete_eq |].
    rewrite !lookup_delete_ne by congruence. apply Hown.
  - intros h [Hh Hne]%elem_of_difference.
    destruct (Hfile h Hh) as (f & Hf). exists f.
    rewrite lookup_delete_ne; [assumption |].
    intros <-. apply Hne. apply elem_of_singleton. congruence.
  - intros h [Hh _]%elem_of_difference. now apply Hbelow.
Qed.

Lemma watch_keeps_watchers (fuel : nat) :
  (∀ file, keeps watchersOk (Dynreload.watchFile fuel file))
  ∧ (∀ file depth, keeps watchersOk (watchDependencies fuel file depth)).
Proof.
  induction fuel as [|fuel [IHf IHd]].
  { split; intros; apply keeps_diverge. }
  split.
  - intros file w Hok. simpl.
    rewrite bind_case. unfold gets at 1.
    case_bool_decide as Hwatching; [exact Hok |].
    assert (watchedFiles (dyn w) !! file = None) as Hnone.
    { destruct (watchedFiles (dyn w) !! file) eqn:E; [| reflexivity].
      exfalso. apply Hwatching. eauto. }
    unfold tryCatch. rewrite bind_case. unfold fsWatch.
    destruct (existsSync w file) eqn:Hexists.
    + rewrite bind_case. unfold modify at 1.
      rewrite bind_case. unfold gets at 1.
      pose proof (watchersOk_watch w file Hok Hnone) as Hok2.
      set (w2 := withDyn _ _) in *.
      case_bool_decide as Hdeep; [| exact Hok2].
      pose proof (IHd file 1%nat w2 Hok2) as Hdeps.
      pose proof (proj2 (watch_never_throws fuel) file 1%nat w2) as Hnever.
      destruct (watchDependencies fuel file 1 w2) as [[[]|e|] w3]; simpl in *;
        [exact Hdeps | now destruct (Hnever e) | exact Hdeps].
    + rewrite bind_case. unfold logError at 1, modify at 1. cbv beta.
      set (wl := if silent (dyn w) then w else _).
      assert (watchedFiles (dyn wl) !! file = None ∧ watchersOk wl) as [Hnone' Hokl].
      { subst wl. destruct (silent (dyn w)); simpl; split; assumption. }
      now rewrite (stopWatching_unwatched _ _ Hnone').
  - intros file depth. simpl.
    apply keeps_bind; [apply keeps_gets | intros limit].
    case_bool_decide; [apply keeps_ret |].
    apply keeps_bind; [apply keeps_gets | intros deps].
    apply keeps_forEach. intros dep.
    apply keeps_bind; [apply keeps_gets | intros watching].
    destruct watching; [apply keeps_ret |].
    apply keeps_bind; [apply IHf | intros _; apply IHd].
Qed.

Lemma express_keeps_watchers : keeps watchersOk express.
Proof.
  intros w (Hopen & Hown & Hfile & Hbelow). unfold express. simpl.
  split; [| split; [| split]]; simpl; try assumption.
  intros h Hh. apply Hbelow in Hh. lia.
Qed.

Lemma dynreload_cleanup_keeps_watchers : keeps watchersOk Dynreload.cleanup.
Proof.
  unfold Dynreload.cleanup, stopWatchingAll.
  apply keeps_bind; [| intros _; apply keeps_watchers; frame].
  apply keeps_bind; [apply keeps_gets | intros files].
  apply keeps_forEach. intros file. apply stopWatching_keeps_watchers.
Qed.

Lemma stopServer_keeps_watchers (n : string) : keeps watchersOk (stopServer n).
Proof.
  unfold stopServer.
  apply keeps_bind; [apply keeps_gets | intros found].
  destruct found as [instance|]; [| apply keeps_throw].
  apply keeps_bind.
  { destruct (instRouters instance); try apply keeps_ret.
    destruct (truthy _); [apply stopWatching_keeps_watchers | apply keeps_ret]. }
  intros _. apply keeps_watchers. frame.
Qed.

Lemma newServer_keeps_watchers (fuel : nat) (config : ServerConfig) :
  keeps watchersOk (newServer appFunction fuel config).
Proof.
  unfold newServer.
  destruct (name config) as [| | | |n| | | |]; try apply keeps_throw.
  destruct (negb _); [apply keeps_throw |].
  apply keeps_bind; [apply keeps_gets | intros existing].
  destruct existing; [apply keeps_ret |].
  apply keeps_tryCatch; [| intros e; apply keeps_watchers; frame].
  unfold tryCreate.
  apply keeps_bind; [apply keeps_watchers, validateRouters_frame | intros source].
  apply keeps_bind; [apply keeps_watchers, loadRoutes_frame; reflexivity | intros loaded].
  apply keeps_bind; [apply keeps_watchers, findAvailablePort_frame; reflexivity | intros q].
  apply keeps_bind; [apply express_keeps_watchers | intros app].
  apply keeps_bind; [apply keeps_watchers, setupMiddleware_frame; reflexivity | intros _].
  apply keeps_bind; [apply keeps_watchers, setupRoutes_frame; reflexivity | intros _].
  apply keeps_bind; [apply keeps_watchers; unfold startServer; frame | intros server].
  apply keeps_bind; [apply keeps_gets | intros now].
  apply keeps_bind; [apply keeps_watchers, preserves_modify; reflexivity | intros _].
  apply keeps_bind; [| intros _; apply keeps_ret].
  destruct source; [apply keeps_ret |].
  destruct (truthy _); [| apply keeps_ret].
  unfold setupHotReloading, setRouteUpdateCallback.
  apply keeps_bind; [apply keeps_watchers, preserves_modify; reflexivity | intros _].
  apply watch_keeps_watchers.
Qed.

(** X16.  The watches and the open watchers of a host fit from its start on:
    every watched file has an open watcher of its own and no other watcher
    is open.  Every operation of the reload engine and of the instance
    manager keeps it so, and so does the listener of a watched file.  So
    after [cleanup] of the engine no watcher is open, and [stopWatching]
    closes no watcher but that of its file. *)
Theorem watchersOk_kept :
  (∀ quiet depth disk taken, watchersOk (boot quiet depth disk taken))
  ∧ (∀ fuel file, keeps watchersOk (Dynreload.watchFile fuel file))
  ∧ (∀ file, keeps watchersOk (stopWatching file))
  ∧ (∀ file, keeps watchersOk (preload file))
  ∧ (∀ file callback, keeps watchersOk (setRouteUpdateCallback file callback))
  ∧ keeps watchersOk Dynreload.cleanup
  ∧ (∀ arraySort fuel file,
       keeps watchersOk
         (handleChange (routeUpdateCallback appFunction) arraySort fuel file))
  ∧ (∀ fuel config, keeps watchersOk (newServer appFunction fuel config))
  ∧ (∀ n, keeps watchersOk (stopServer n))
  ∧ (∀ fuel n, keeps watchersOk (resetServer appFunction fuel n))
  ∧ (∀ n descriptor, keeps watchersOk (addRoute appFunction n descriptor))
  ∧ keeps watchersOk DynExpress.cleanup
  ∧ (∀ w, watchersOk w → watchers (snd (Dynreload.cleanup w)) = ∅)
  ∧ (∀ w file other handle,
       watchersOk w → other ≠ file →
       watchedFiles (dyn w) !! other = Some handle →
       watchedFiles (dyn (snd (stopWatching file w))) !! other = Some handle
       ∧ handle ∈ watchers (snd (stopWatching file w))).
Proof.
  split; [| split; [| split; [| split; [| split; [| split; [| split; [| split;
    [| split; [| split; [| split; [| split; [| split]]]]]]]]]]]].
  - intros quiet depth disk taken. split; [| split; [| split]]; simpl.
    + intros file handle H. now rewrite lookup_empty in H.
    + intros f1 f2 handle H. now rewrite lookup_empty in H.
    + intros handle H. now apply not_elem_of_empty in H.
    + intros handle H. now apply not_elem_of_empty in H.
  - apply watch_keeps_watchers.
  - apply stopWatching_keeps_watchers.
  - intros file. apply keeps_watchers, preload_frame; reflexivity.
  - intros file callback. apply keeps_watchers. unfold setRouteUpdateCallback. frame.
  - apply dynreload_cleanup_keeps_watchers.
  - intros arraySort fuel file. apply handleChange_keeps.
    + apply reloadModule_keeps.
      * intros f g w. now apply watchersOk_state.
      * intros f w. now apply watchersOk_state.
    + intros f w. now apply watchersOk_state.
    + intros f w. now apply watchersOk_state.
    + intros callback newModule. apply keeps_watchers.
      unfold routeUpdateCallback, propOf, updateApp.
      apply preserves_tryCatch; [| intros e; frame].
      apply preserves_bind; [apply preserves_gets | intros found].
      destruct found as [instance|]; [| apply preserves_ret].
      apply preserves_bind; [apply preserves_gets | intros now].
      apply preserves_bind; [apply preserves_modify; reflexivity | intros _].
      apply preserves_bind; [frame | intros routes].
      apply preserves_bind; [apply preserves_modify; reflexivity | intros _].
      apply preserves_bind; [apply setupRoutes_frame; reflexivity | intros _; frame].
  - apply newServer_keeps_watchers.
  - apply stopServer_keeps_watchers.
  - intros fuel n. unfold resetServer.
    apply keeps_bind; [apply keeps_gets | intros found].
    destruct found as [instance|]; [| apply keeps_throw].
    apply keeps_tryCatch; [| intros e; apply keeps_watchers; frame].
    apply keeps_bind; [apply stopServer_keeps_watchers | intros _].
    apply newServer_keeps_watchers.
  - intros n descriptor. apply keeps_watchers, addRoute_frame; reflexivity.
  - unfold DynExpress.cleanup.
    apply keeps_bind; [apply keeps_gets | intros names].
    apply keeps_bind; [| intros _; apply dynreload_cleanup_keeps_watchers].
    apply keeps_forEach. intros n.
    apply keeps_tryCatch; [| intros e; apply keeps_watchers; frame].
    apply keeps_bind; [apply stopServer_keeps_watchers | intros _; apply keeps_ret].
  - intros w Hok.
    pose proof (dynreload_cleanup_keeps_watchers w Hok) as (_ & _ & Hfile & _).
    destruct (dynreload_cleanup_run w) as (w' & Hrun & Hempty & _).
    rewrite Hrun in *. simpl in *.
    apply elem_of_equiv_empty_L. intros h Hh.
    destruct (Hfile h Hh) as (f & Hf). rewrite Hempty, lookup_empty in Hf. discriminate.
  - intros w file other handle Hok Hne Hother.
    pose proof (stopWatching_keeps_watchers file w Hok) as (Hopen & _).
    destruct (stopWatching_closing file w) as (w' & Hrun & _ & _ & Hdel).
    rewrite Hrun in *. simpl in *.
    assert (watchedFiles (dyn w') !! other = Some handle) as Hkept.
    { rewrite Hdel, lookup_delete_ne; [assumption | congruence]. }
    split; [exact Hkept | now apply (Hopen other)].
Qed.

End WatchersKept.

(** ** The two validators *)

Section Validators.

Import Dynreload DynExpress.

Variable appFunction : string → bool.

(** The application object has the seven verbs the engine lists. *)
Hypothesis verbs_supported : ∀ m, m ∈ validMethods → appFunction m = true.



End Validators.

(** ** Middleware *)

Section MiddlewareSetup.

Import DynExpress.

Lemma static_dirs_mounted (a : nat) (dirs : list JsVal) :
  ∀ w : World,
    ∃ w', forEach dirs
            (fun dir =>
               match dir with
               | JStr d =>
                   bind (gets (fun w => existsSync w d))
                     (fun present => if present then appUse a ("static:" ++ d) else ret tt)
               | _ => ret tt
               end) w = (Returns tt, w')
          ∧ heap w'
            = alter (fun x =>
                       {| settings := settings x;
                          stack := stack x
                                   ++ map (fun d => Middleware ("static:" ++ d))
                                        (omap (fun dir =>
                                                 match dir with
                                                 | JStr d =>
                                                     if existsSync w d then Some d else None
                                                 | _ => None
                                                 end) dirs) |}) a (heap w)
          ∧ fs w' = fs w.
Proof.
  induction dirs as [|dir dirs IH]; intros w; simpl.
  - exists w. split; [reflexivity |]. split; [| reflexivity].
    symmetry. apply alter_id. intros [s l] _. simpl. now rewrite app_nil_r.
  - destruct dir as [| | | |d| | | |];
      try (rewrite bind_ret_l; destruct (IH w) as (w' & Hrun & Hheap & Hfs);
           exists w'; split; [exact Hrun |]; split; [exact Hheap | exact Hfs]).
    rewrite bind_case. unfold bind at 1, gets at 1.
    destruct (existsSync w d) eqn:Hd.
    + unfold appUse, updateApp, modify.
      destruct (IH (withHeap (alter (fun a0 =>
                      {| settings := settings a0;
                         stack := stack a0 ++ [Middleware ("static:" ++ d)] |}) a) w))
        as (w' & Hrun & Hheap & Hfs).
      exists w'. split; [exact Hrun |]. split; [| exact Hfs].
      rewrite Hheap. simpl. rewrite alter_alter_eq. apply alter_ext.
      intros [s l] _. simpl. now rewrite <- app_assoc.
    + destruct (IH w) as (w' & Hrun & Hheap & Hfs).
      exists w'. split; [exact Hrun |]. split; [exact Hheap | exact Hfs].
Qed.

(** X18.  What [#setupMiddleware] does to an application object.  It always
    returns.  It appends the two body parsers, then one static mount for
    every public directory that is a string and exists on disk, in order
    (a directory that does not exist is skipped without an error; without
    [pathPublic] the default path is the one candidate), then the security
    headers; it sets the view engine and the views path, which is
    [pathViews] or, when that is missing or empty, the default.  What was
    on the stack stays below, and nothing else of the host changes. *)
Theorem setupMiddleware_effect (a : nat) (views public : JsVal) (w : World) (app : App) :
  heap w !! a = Some app →
  ∃ w', setupMiddleware a views public w = (Returns tt, w')
        ∧ heap w'
          = <[a := {| settings := ("views", orElse views (JStr (defaultViewsPath w)))
                                  :: ("view engine", JStr "ejs") :: settings app;
                      stack := stack app
                               ++ [Middleware "urlencoded"; Middleware "json"]
                               ++ map (fun d => Middleware ("static:" ++ d))
                                    (servedDirs w public)
                               ++ [Middleware "securityHeaders"] |}]> (heap w)
        ∧ instances w' = instances w
        ∧ dyn w' = dyn w
        ∧ listening w' = listening w
        ∧ fs w' = fs w.
Proof.
  intros Happ.
  assert (∃ w', setupMiddleware a views public w = (Returns tt, w')
                ∧ heap w'
                  = <[a := {| settings := ("views", orElse views (JStr (defaultViewsPath w)))
                                          :: ("view engine", JStr "ejs") :: settings app;
                              stack := stack app
                                       ++ [Middleware "urlencoded"; Middleware "json"]
                                       ++ map (fun d => Middleware ("static:" ++ d))
                                            (servedDirs w public)
                                       ++ [Middleware "securityHeaders"] |}]> (heap w))
    as (w' & Hrun & Hheap).
  { unfold setupMiddleware.
    rewrite bind_case. unfold appUse at 1, updateApp at 1, modify at 1.
    rewrite bind_case. unfold appUse at 1, updateApp at 1, modify at 1.
    rewrite bind_case. unfold appSet at 1, updateApp at 1, modify at 1.
    rewrite bind_case. unfold gets at 1.
    rewrite bind_case. unfold appSet at 1, updateApp at 1, modify at 1.
    rewrite bind_case. unfold gets at 1.
    rewrite bind_case.
    match goal with
    | |- context [forEach ?dirs ?body ?wk] =>
        destruct (static_dirs_mounted a dirs wk) as (w5 & Hrun & Hheap & Hfs)
    end.
    rewrite Hrun. unfold appUse, updateApp, modify.
    eexists. split; [reflexivity |]. simpl.
    rewrite Hheap. simpl. rewrite !alter_alter_eq.
    apply map_eq. intros i. destruct (decide (i = a)) as [-> | Hne].
    - rewrite lookup_alter_eq, lookup_insert_eq, Happ. simpl. f_equal. f_equal.
      unfold servedDirs. rewrite <- !app_assoc. reflexivity.
    - now rewrite lookup_alter_ne, lookup_insert_ne by congruence. }
  exists w'. split; [exact Hrun |]. split; [exact Hheap |].
  framed (setupMiddleware_frame
            (fun w => (instances w, dyn w, listening w, fs w)) a views public
            ltac:(reflexivity)) Hrun F.
  injection F as Fi Fd Fl Ff. repeat split; assumption.
Qed.

End MiddlewareSetup.

(** ** The probes of the port negotiation *)

Section Probes.

Import DynExpress.

Lemma probeFrom_probes (startPort : JsVal) (k : nat) (base : Z) :
  ∀ remaining i w,
    0 ≤ base + Z.of_nat i ≤ 65536 →
    ∃ tried : nat,
      (tried ≤ remaining)%nat
      ∧ base + Z.of_nat i + Z.of_nat tried ≤ 65536
      ∧ probes (snd (probeFrom startPort k base i remaining w))
        = (rev (seqZ (base + Z.of_nat i) (Z.of_nat tried)) ++ probes w)%list
      ∧ match fst (probeFrom startPort k base i remaining w) with
        | Returns q =>
            q = base + Z.of_nat i + Z.of_nat tried - 1 ∧ (1 ≤ tried)%nat
            ∧ portFree w q
            ∧ ∀ r, base + Z.of_nat i ≤ r < q → ¬ portFree w r
        | Throws e =>
            (∀ r, base + Z.of_nat i ≤ r < base + Z.of_nat i + Z.of_nat tried →
                  ¬ portFree w r)
            ∧ (e = ErrNoAvailablePort k startPort ∧ tried = remaining
               ∨ e = ErrBadPort 65536 ∧ (tried < remaining)%nat
                 ∧ base + Z.of_nat i + Z.of_nat tried = 65536)
        | Diverges => False
        end.
Proof.
  induction remaining as [|remaining IH]; intros i w Hi; simpl.
  - exists 0%nat. split; [lia |]. split; [lia |]. split; [reflexivity |].
    split; [intros r Hr; lia | now left].
  - rewrite bind_case.
    destruct (decide (base + Z.of_nat i = 65536)) as [Htop | Htop].
    + rewrite isPortAvailable_bad by lia.
      exists 0%nat. split; [lia |]. split; [lia |]. split; [reflexivity |]. simpl.
      split; [intros r Hr; lia |]. right. rewrite Htop. split; [reflexivity |]. lia.
    + rewrite isPortAvailable_run by lia.
      case_bool_decide as Hfree.
      * exists 1%nat. split; [lia |]. split; [lia |]. split; [reflexivity |]. simpl.
        split; [lia |]. split; [lia |].
        replace (base + Z.of_nat i + 1 - 1) with (base + Z.of_nat i) by lia.
        split; [exact Hfree | intros r Hr; lia].
      * destruct (IH (S i) (withProbes (cons (base + Z.of_nat i)) w) ltac:(lia))
          as (tried & Hle & Htop' & Hprobes & Hresult).
        exists (S tried). split; [lia |]. split; [lia |]. split.
        -- rewrite Hprobes. simpl.
           rewrite (seqZ_cons (base + Z.of_nat i) (Z.of_nat (S tried))) by lia.
           simpl. rewrite <- app_assoc. simpl.
           replace (Z.succ (base + Z.of_nat i)) with (base + Z.of_nat (S i)) by lia.
           replace (Z.pred (Z.of_nat (S tried))) with (Z.of_nat tried) by lia.
           reflexivity.
        -- destruct (fst (probeFrom startPort k base (S i) remaining
                            (withProbes (cons (base + Z.of_nat i)) w))) as [q|e|];
             [| | contradiction].
           ++ destruct Hresult as (Hq & Hone & Hqfree & Hbelow).
              split; [lia |]. split; [lia |]. split; [exact Hqfree |].
              intros r Hr. destruct (decide (r = base + Z.of_nat i)) as [-> | Hne];
                [exact Hfree |].
              apply Hbelow. lia.
           ++ destruct Hresult as (Hbusy & He). split.
              ** intros r Hr. destruct (decide (r = base + Z.of_nat i)) as [-> | Hne];
                   [exact Hfree |].
                 apply Hbusy. lia.
              ** destruct He as [[-> ->] | (-> & Hlt & Hsum)];
                   [now left | right].
                 split; [reflexivity |]. lia.
Qed.

(** X19.  The probes of [#findAvailablePort], for a base port in range and
    every budget [k]: the ports are probed one by one in ascending order
    from the base, each once, and none above 65535.  The search stops at
    the first free port, which it returns, every port probed before it
    being taken; or it fails with the exhaustion error after [k] probes
    that found every port of the window taken; or, the window reaching
    past 65535, it fails with the RangeError of port 65536 after probing
    the ports up to 65535, all taken.  Nothing but the log of probes
    changes: no socket stays open. *)
Theorem findAvailablePort_probes (startPort : JsVal) (k : nat) (w : World) (base : Z) :
  parseInt startPort = Parsed base →
  (base <? 1024) || (65535 <? base) = false →
  ∃ tried : nat,
    (tried ≤ k)%nat
    ∧ base + Z.of_nat tried ≤ 65536
    ∧ probes (snd (findAvailablePort startPort k w))
      = (rev (seqZ base (Z.of_nat tried)) ++ probes w)%list
    ∧ match fst (findAvailablePort startPort k w) with
      | Returns q =>
          q = base + Z.of_nat tried - 1 ∧ (1 ≤ tried)%nat
          ∧ portFree w q
          ∧ ∀ r, base ≤ r < q → ¬ portFree w r
      | Throws e =>
          (∀ r, base ≤ r < base + Z.of_nat tried → ¬ portFree w r)
          ∧ (e = ErrNoAvailablePort k startPort ∧ tried = k
             ∨ e = ErrBadPort 65536 ∧ (tried < k)%nat
               ∧ base + Z.of_nat tried = 65536)
      | Diverges => False
      end
    ∧ listening (snd (findAvailablePort startPort k w)) = listening w
    ∧ instances (snd (findAvailablePort startPort k w)) = instances w
    ∧ heap (snd (findAvailablePort startPort k w)) = heap w
    ∧ dyn (snd (findAvailablePort startPort k w)) = dyn w.
Proof.
  intros Hparse Hrange.
  pose proof (findAvailablePort_frame
                (fun w => (listening w, instances w, heap w, dyn w)) startPort k
                ltac:(reflexivity) w) as F.
  injection F as Fl Fi Fh Fd.
  unfold findAvailablePort in *. rewrite Hparse, Hrange in *.
  apply orb_false_iff in Hrange as [Hlo Hhi].
  apply Z.ltb_ge in Hlo, Hhi.
  destruct (probeFrom_probes startPort k base k 0%nat w ltac:(lia))
    as (tried & Hle & Htop & Hprobes & Hresult).
  rewrite Z.add_0_r in Htop, Hprobes, Hresult.
  exists tried. split; [exact Hle |]. split; [exact Htop |]. split; [exact Hprobes |].
  split; [exact Hresult |]. repeat split; assumption.
Qed.

End Probes.

(** ** The further properties on the sample hosts *)

(** On the hot-reloading host [cleanup] leaves nothing behind. *)
Lemma cleanup_stops_everything_witness :
  ∃ w', DynExpress.cleanup hotWorld = (Returns tt, w')
        ∧ instances w' = ∅
        ∧ listening w' = ∅
        ∧ console w' = console hotWorld
        ∧ heap w' = heap hotWorld
        ∧ watchedFiles (dyn w') = ∅
        ∧ routeUpdateCallbacks (dyn w') = ∅.
Proof.
  apply cleanup_stops_everything.
  apply (newServer_keeps_registry httpVerb 10 hotConfig), registryOk_boot.
Defined.

(** The instance "api" created from the inline good routes serves exactly
    the GET route. *)
Lemma newServer_route_table_witness :
  ∃ instance app items,
    instances apiWorld !! "api" = Some instance
    ∧ instApp instance = 0%nat
    ∧ heap apiWorld !! 0%nat = Some app
    ∧ DynExpress.routesOf app = map routeEntry items
    ∧ (∀ a, a ≠ 0%nat → heap apiWorld !! a = None)
    ∧ items = [route "GET" "/" (JFun 1)].
Proof.
  destruct (newServer_route_table httpVerb 0 (inlineConfig "api" goodRoutes 3000) "api"
              (boot true 3 ∅ ∅) apiWorld "http://localhost:3000/")
    as (instance & app & items & H1 & H2 & H3 & H4 & H5 & H6);
    [reflexivity | reflexivity | vm_compute; reflexivity |].
  exists instance, app, items. simpl in *. repeat (split; [assumption |]). exact H6.
Defined.

(** The creation of the hot-reloading host registered its callback for
    the route file and watches the file. *)
Lemma newServer_hot_reloading_witness :
  routeUpdateCallbacks (dyn hotWorld) = {[ routesFile := hotCallback ]}
  ∧ is_Some (watchedFiles (dyn hotWorld) !! routesFile).
Proof.
  pose proof (newServer_hot_reloading httpVerb 10 hotConfig "api" routesFile
                (boot true 3 {[ routesFile := SourceFile selectedSource ]} ∅) hotWorld
                "http://localhost:3000/" eq_refl eq_refl eq_refl) as H.
  destruct H as (Hcallbacks & Hwatched & _); [vm_compute; reflexivity |].
  split; [exact Hcallbacks | exact Hwatched].
Defined.

(** On a host without the route file the creation is rejected with
    NotFound, and nothing changes. *)
Lemma newServer_route_file_errors_witness :
  DynExpress.newServer httpVerb 10 hotConfig (boot true 3 ∅ ∅)
  = (Throws (ErrRouterFileNotFound routesFile), boot true 3 ∅ ∅).
Proof.
  exact (newServer_route_file_errors httpVerb 10 hotConfig "api" routesFile
           (boot true 3 ∅ ∅) eq_refl ltac:(discriminate) eq_refl eq_refl).
Defined.

(** A reset of the instance "api" brings it back on port 3000 with the
    GET route. *)
Lemma resetServer_outcome_witness :
  match DynExpress.resetServer httpVerb 0 "api" apiWorld with
  | (Returns url, w') =>
      ∃ instance' app items,
        instances w' !! "api" = Some instance'
        ∧ url = DynExpress.address (instPort instance')
        ∧ instPort instance' = 3000
        ∧ heap w' !! 1%nat = Some app
        ∧ DynExpress.routesOf app = map routeEntry items
        ∧ items = [route "GET" "/" (JFun 1)]
  | _ => False
  end.
Proof.
  assert (∃ instance, instances apiWorld !! "api" = Some instance
                      ∧ instPort instance = 3000
                      ∧ instRouters instance = goodRoutes) as (instance & Hinst & Hport & Hr).
  { vm_compute. eauto. }
  pose proof (proj2 (resetServer_outcome httpVerb 0 "api" apiWorld) instance
                (newServer_keeps_registry httpVerb 0 (inlineConfig "api" goodRoutes 3000)
                   _ (registryOk_boot true 3 ∅ ∅)) Hinst) as H.
  destruct (DynExpress.resetServer httpVerb 0 "api" apiWorld) as [[url|e|] w'] eqn:Hrun;
    [| vm_compute in Hrun; discriminate | vm_compute in Hrun; discriminate].
  destruct H as (instance' & app & items & H1 & H2 & _ & _ & H5 & _ & _ & H8 & H9 & H10 & _).
  exists instance', app, items.
  split; [exact H1 |]. split; [exact H2 |].
  split; [rewrite H5; [exact Hport | rewrite Hport; vm_compute; set_solver] |].
  split; [exact H8 |]. split; [exact H9 |].
  apply H10. exact Hr.
Defined.

(** On a disk with the route file and nothing watched, [watchFile] opens
    the first watcher for the file. *)
Lemma watchFile_outcome_witness :
  ∃ w', Dynreload.watchFile 8 routesFile
          (boot true 1 {[ routesFile := exporting goodRoutes [] ]} ∅) = (Returns tt, w')
        ∧ watchedFiles (dyn w') = {[ routesFile := 0%nat ]}
        ∧ watchers w' = {[ 0%nat ]}.
Proof.
  destruct (proj2 (proj2 (watchFile_outcome 8 routesFile
                            (boot true 1 {[ routesFile := exporting goodRoutes [] ]} ∅))))
    as (w' & Hrun & _ & _ & _ & Hshallow & _).
  - reflexivity.
  - vm_compute. eauto.
  - vm_compute. lia.
  - destruct Hshallow as [Hwatched Hwatchers]; [simpl; lia |].
    exists w'. split; [exact Hrun |]. split; [exact Hwatched |].
    rewrite Hwatchers. simpl. set_solver.
Defined.

(** On the hot-reloading host the callback, given a module that exports
    the good routes under "routes", rebinds the GET route. *)
Lemma routeUpdateCallback_effect_witness :
  ∃ w', DynExpress.routeUpdateCallback httpVerb hotCallback
          (JObj [("routes", goodRoutes)]) hotWorld = (Returns tt, w')
        ∧ (DynExpress.routesOf <$> heap w' !! 0%nat) = Some [(JStr "/", "get")]
        ∧ dyn w' = dyn hotWorld.
Proof.
  assert (∃ instance, instances hotWorld !! "api" = Some instance
                      ∧ instApp instance = 0%nat) as (instance & Hinst & Happ).
  { vm_compute. eauto. }
  pose (app := default {| settings := []; stack := [] |} (heap hotWorld !! 0%nat)).
  destruct (proj2 (routeUpdateCallback_effect httpVerb hotCallback
                     (JObj [("routes", goodRoutes)]) hotWorld) instance Hinst eq_refl)
    as (w' & Hrun & _ & Hheap & _ & Hdyn & _).
  destruct (Hheap app) as (app' & Happ' & Hroutes & _).
  { rewrite Happ. vm_compute. reflexivity. }
  exists w'. split; [exact Hrun |]. split; [| exact Hdyn].
  rewrite Happ in Happ'. rewrite Happ'. simpl. rewrite Hroutes. reflexivity.
Defined.

(** On the host whose port 3000 is taken, the negotiation from 3000 probes
    3000, then 3001, and stops.  On the host whose port 65535 is taken, the
    negotiation from 65535 probes 65535 and fails on port 65536. *)
Lemma findAvailablePort_probes_witness :
  (fst (DynExpress.findAvailablePort (JNum 3000) 10 busyWorld) = Returns 3001
   ∧ probes (snd (DynExpress.findAvailablePort (JNum 3000) 10 busyWorld)) = [3001; 3000]
   ∧ portFree busyWorld 3001
   ∧ ¬ portFree busyWorld 3000)
  ∧ (fst (DynExpress.findAvailablePort (JNum 65535) 10 topWorld)
     = Throws (ErrBadPort 65536)
     ∧ probes (snd (DynExpress.findAvailablePort (JNum 65535) 10 topWorld)) = [65535]
     ∧ ¬ portFree topWorld 65535).
Proof.
  split.
  - destruct (findAvailablePort_probes (JNum 3000) 10 busyWorld 3000 eq_refl eq_refl)
      as (tried & _ & _ & Hprobes & Hresult & _).
    assert (fst (DynExpress.findAvailablePort (JNum 3000) 10 busyWorld) = Returns 3001)
      as Hq.
    { vm_compute. reflexivity. }
    split; [exact Hq |].
    rewrite Hq in Hresult. destruct Hresult as (Hq' & _ & Hfree & Hbelow).
    assert (tried = 2%nat) as -> by lia.
    split; [rewrite Hprobes; reflexivity |].
    split; [exact Hfree | apply Hbelow; lia].
  - destruct (findAvailablePort_probes (JNum 65535) 10 topWorld 65535 eq_refl eq_refl)
      as (tried & _ & _ & Hprobes & Hresult & _).
    assert (fst (DynExpress.findAvailablePort (JNum 65535) 10 topWorld)
            = Throws (ErrBadPort 65536)) as Hq.
    { vm_compute. reflexivity. }
    split; [exact Hq |].
    rewrite Hq in Hresult. destruct Hresult as (Hbusy & [[Hno _] | (_ & _ & Hsum)]);
      [discriminate |].
    assert (tried = 1%nat) as -> by lia.
    split; [rewrite Hprobes; reflexivity |].
    apply Hbusy. lia.
Defined.

(** On the hot-reloading host, after an edit of the route file that
    exports two routes, a change event ends with both routes bound. *)
Lemma handleChange_updates_routes_witness :
  ∃ w', Dynreload.handleChange (DynExpress.routeUpdateCallback httpVerb) (fun _ l => l)
          1 routesFile hotEditedWorld = (Returns tt, w')
        ∧ (DynExpress.routesOf <$> heap w' !! 0%nat)
          = Some [(JStr "/", "get"); (JStr "/items", "post")].
Proof.
  pose (app := default {| settings := []; stack := [] |} (heap hotEditedWorld !! 0%nat)).
  assert (∃ instance, instances hotEditedWorld !! "api" = Some instance
                      ∧ instApp instance = 0%nat
                      ∧ heap hotEditedWorld !! 0%nat = Some app)
    as (instance & Hinst & Happ & Hheap).
  { vm_compute. eauto. }
  destruct (handleChange_updates_routes httpVerb (fun _ l => l)
              (fun _ l => reflexivity (R := Permutation) l) 0 routesFile hotEditedWorld
              hotCallback instance
              {| evaluation := inr (JModule [("default", JObj [("routes", twoRoutes)])]);
                 imports := Some []; mtime := 1 |}
              (JModule [("default", JObj [("routes", twoRoutes)])]))
    as (w' & Hrun & _ & _ & _ & Hroutes & _).
  - vm_compute. reflexivity.
  - exact Hinst.
  - vm_compute. reflexivity.
  - reflexivity.
  - reflexivity.
  - intros k deps Hin.
    assert (dependencyGraph
              (dyn (snd (Dynreload.updateDependencyGraph (maxDepth (dyn hotEditedWorld))
                           routesFile hotEditedWorld))) = [(routesFile, [])]) as Hgraph.
    { vm_compute. reflexivity. }
    rewrite Hgraph in Hin. apply list_elem_of_singleton in Hin. injection Hin as -> ->.
    apply not_elem_of_nil.
  - rewrite Happ in Hroutes. destruct (Hroutes app Hheap) as (app' & Happ' & Htable).
    exists w'. split; [exact Hrun |]. rewrite Happ'. simpl. rewrite Htable. reflexivity.
Defined.


(** The application object of the instance "api", created without public
    directories on a disk without the default one: the parsers and the
    security headers, no static mount. *)
Lemma setupMiddleware_effect_witness :
  ∃ w', DynExpress.setupMiddleware 0 JNull JNull (snd (DynExpress.express (boot true 3 ∅ ∅)))
        = (Returns tt, w')
        ∧ (stack <$> heap w' !! 0%nat)
          = Some [Middleware "urlencoded"; Middleware "json"; Middleware "securityHeaders"].
Proof.
  destruct (setupMiddleware_effect 0 JNull JNull (snd (DynExpress.express (boot true 3 ∅ ∅)))
              {| settings := []; stack := [] |} eq_refl)
    as (w' & Hrun & Hheap & _).
  exists w'. split; [exact Hrun |]. rewrite Hheap. reflexivity.
Defined.

(** X2 on the sample sources: the entry of the entry file holds the sibling
    under the first extension that exists, the index file of the directory,
    the absolute import and the two directories; the built-in module, the
    missing file and the quoted specifier contribute nothing. *)
Lemma updateDependencyGraph_effect_witness :
  Dynreload.graphGet "/app/a.mjs"
    (dependencyGraph
       (dyn (snd (Dynreload.updateDependencyGraph 1 "/app/a.mjs"
                    (boot true 3 importsDisk ∅)))))
  = Some ["/app/b.js"; "/app/lib/index.mjs"; "/app/c.cjs"; "/app/d"; "/app/dir.d"].
Proof.
  destruct (updateDependencyGraph_effect 1 "/app/a.mjs" (boot true 3 importsDisk ∅))
    as (w' & Hrun & _ & _ & _ & _ & _ & _ & Hroot & _).
  rewrite Hrun. simpl. rewrite Hroot by lia. vm_compute. reflexivity.
Defined.

(** C10 on the hot-reloading host, after an edit that exports the routes
    directly, without the property "routes": the routes of the module are
    those of the instance, and a creation on the edited file is rejected. *)
Lemma reload_without_launch_export_witness :
  (∃ w', Dynreload.reloadAndNotify (DynExpress.routeUpdateCallback httpVerb) routesFile
           (withFs (insert routesFile (SourceFile directSource)) hotWorld)
         = (Returns tt, w')
         ∧ (DynExpress.routesOf <$> heap w' !! 0%nat) = Some [(JStr "/", "get")])
  ∧ ∃ w', DynExpress.newServer httpVerb 10 hotConfig editedDisk
          = (Throws (ErrPropertyNotFound "routes"), w')
          ∧ registryAndSockets w' = registryAndSockets editedDisk.
Proof.
  destruct (reload_without_launch_export httpVerb 10 hotConfig "api" routesFile "routes"
              "http://localhost:3000/"
              (boot true 3 {[ routesFile := SourceFile selectedSource ]} ∅) hotWorld
              directSource [("default", goodRoutes)])
    as [(instance & app & w' & Hinst & _ & _ & Hrun & _ & _ & _ & Hbound & _) Hreject];
    [reflexivity | reflexivity | reflexivity | reflexivity | reflexivity | discriminate
    | vm_compute; reflexivity | reflexivity | reflexivity |].
  split.
  - exists w'. split; [exact Hrun |].
    assert (instApp instance = 0%nat) as Happ.
    { assert (instances hotWorld !! "api"
              = Some (default instance (instances hotWorld !! "api"))) as Hsame
        by (now rewrite Hinst).
      rewrite Hinst in Hsame at 1. injection Hsame as ->. vm_compute. reflexivity. }
    rewrite <- Happ. exact (Hbound _ eq_refl).
  - apply (Hreject 10%nat editedDisk); reflexivity.
Defined.

(** C10, as stated, fails: on the hot-reloading host, an edit renames the
    export "routes" of the route file to "handlers".  The file reloads, the
    module lacks the export, and the callback does not bind the module as
    the route list: the binder rejects it, the error is logged and the
    instance, which had the route GET /, is left without routes. *)
Lemma reload_renamed_export_drops_routes :
  truthy (getProp (loaded (JModule [("default", JObj [("handlers", goodRoutes)])])) "routes")
  = false
  ∧ (DynExpress.routesOf <$> heap renamedWorld !! 0%nat) = Some [(JStr "/", "get")]
  ∧ fst (Dynreload.reloadModule routesFile renamedWorld)
    = Returns (Dynreload.ReloadSuccess (JObj [("handlers", goodRoutes)]))
  ∧ (DynExpress.routesOf <$>
       heap (snd (Dynreload.reloadAndNotify (DynExpress.routeUpdateCallback httpVerb)
                    routesFile renamedWorld)) !! 0%nat)
    = Some []
  ∧ console (snd (Dynreload.reloadAndNotify (DynExpress.routeUpdateCallback httpVerb)
                    routesFile renamedWorld))
    = ConsoleError "Error updating routes for server" (Some ErrRoutesNotArray)
      :: console renamedWorld.
Proof. vm_compute. repeat split. Qed.
